(* ===== verification/_CoqProject ===== *)
-Q . S2P
Prelude.v
Utf8.v
Fs.v
Lfs1.v
Elf.v
Alloc.v
Kernel.v
Posix.v
Syscall.v
SyscallInv.v
SyscallFrame.v
SyscallMem.v
SyscallFiles.v
SyscallDents.v
UserMem.v
Loader.v
Native.v
NativeInv.v
NativeStub.v
Machine.v
Shell.v
Console.v
Decode.v
Elfrun.v
ElfrunFrame.v
Keyboard.v
ElfrunInv.v
Isa.v
Programs.v
Fmt.v
Logger.v
Traps.v
System.v
Commands.v
CommandsSpec.v
SystemInv.v
Boot.v
Ramdisk.v
Vga.v
