(* ===== verification/Prelude.v ===== *)
(** * LeonOS 3: a verification development of the kernel

    LeonOS 3 (src/) is a small x86-64 kernel in Rust.  The build script packs
    the files of a directory into a ramdisk image; the kernel boots, mounts
    the image and runs a shell; the shell shows the files and runs ELF
    programs from them, either in an interpreter of x86-64 instructions or
    natively; both kinds of programs talk to one Linux-like system call layer.
    This library models these parts and proves what each of them promises.

    ** How to read the model

    Bytes, words and addresses are [Z]; wrap-around ([u64], [isize] casts) is
    written out, and a checked [+], [-] or [*] of the dev profile that
    overflows is the outcome [Panic].  Text is a list of bytes ([bytes]).
    A function with a [Result] returns [outcome E A] ([Ok], [Err], [Panic]).
    A function with effects is a transition on an explicit state that ends in
    a value ([Done]), in the function's error ([Fail]) or in a halt ([Halt]):
    a panic, an access outside of the modelled memory, a wait for input that
    never comes.  A halt ends the run and its state is dropped, except in
    Traps.v, where what a halting handler reports is its effect.

    One partial map from addresses to bytes ([mem]) holds what raw pointers
    are meant to reach: buffers, the ramdisk, the memory of native programs.
    Buffers and images that overlap there alias as they do on the machine.
    What the source reaches by name is not in that map but in fields of the
    records: the statics of the kernel, its code and, but for the stubs of
    NativeStub.v, its stack.  The machine does not keep these apart.  Programs
    run in ring 0, the system calls check no pointer, and the pointers of most
    calls of an interpreted program are not translated to its own memory, so
    a program can overwrite FD_TABLE or ROOTFS.  In the model such an access
    is [Outside]: it ends the run, and no theorem says what would follow.

    ** The files

    - Prelude.v: outcomes, bytes, little-endian words, wrap-around, lemmas on
      lists and integers, the hint database [leon].
    - Utf8.v: UTF-8 validation, [trim], [strip_prefix] and the like of
      [core::str] ([from_utf8] decides by the byte ranges of the standard).
    - Fs.v: kernel/src/fs.rs, the reader of LFS1 images ([open], [entry],
      [list], [decode_entry]).  Lfs1.v: build.rs, [build_lfs1].  Ramdisk.v:
      build.rs, the list of files [main] packs, and the way of a file from the
      host to the screen.
    - Elf.v: kernel/src/elf.rs, [parse_elf64].
    - Alloc.v: kernel/src/allocator.rs, the lock-free bump allocator; callers
      interleave between the atomic steps.  src/allocator.rs is the same code.
    - Kernel.v: the statics of syscall.rs and posix.rs, the memory, the monad
      [K].  Posix.v: kernel/src/posix.rs.  Syscall.v: kernel/src/syscall.rs,
      every call and [dispatch].  SyscallInv.v, SyscallFrame.v,
      SyscallMem.v, SyscallFiles.v and SyscallDents.v: its invariant, what
      each call may change, which memory it may write, the open files as a
      program sees them, directory listing.
    - UserMem.v and Loader.v: the parts elf_runner.rs and native_runner.rs
      have twice: program memory, initial stack, copy of the segments; written
      once, for any error type with an [AddressOutOfRange].
    - Machine.v, Decode.v, Elfrun.v: kernel/src/elf_runner.rs, the
      interpreter: its state, [exec_one], and the system calls, [execve],
      loading and the run loop.  ElfrunFrame.v and ElfrunInv.v: what of the
      kernel a program reaches, its invariant.  Isa.v: the instructions, their
      encodings, what the interpreter makes of them and what the processor
      manual says.  Programs.v: a family of programs run from the file to the
      exit, and two files of userspace/ as shipped.
    - Native.v, NativeInv.v, NativeStub.v: kernel/src/native_runner.rs, the
      loader and page flags, the system call handler, the assembly stubs.
    - Keyboard.v: the three readers of standard input against one
      specification.
    - Shell.v: kernel/src/shell.rs, for any state with a kernel and a terminal
      (the class [Screen]).
    - Console.v: kernel/src/main.rs, scancodes, pixels, the text fallback.
    - Fmt.v: what [write!] makes of the placeholders in use.
    - Logger.v: kernel/src/logger.rs.  Traps.v: kernel/src/traps.rs.
    - System.v, Commands.v: kernel/src/main.rs, the state that outlives a
      command, the native runner from end to end, [handle_custom_command].
      CommandsSpec.v: what the commands print.  SystemInv.v: the invariant of
      the composed system.  Boot.v: [kernel_main].
    - Vga.v: src/os_terminal.rs, a text terminal on VGA memory.  No [mod]
      declares that file, nor src/allocator.rs: they are compiled into
      nothing, and the kernel's terminal is the os_terminal crate.

    Names are the source's: [fs.open] is [open] of fs.rs, [sys_dup2] is
    [sys_dup2] of syscall.rs, the fields of [kernel] are the statics.

    ** How the parts interact

    [kernel_main] sets up log, traps, terminal, ramdisk and reader and enters
    the shell.  The shell takes keys, edits a line and hands it to
    [handle_custom_command], which reads files through Fs.v, formats through
    Fmt.v and starts programs.  The interpreter executes a program on a memory
    of its own (the [Vec] of the source, [umem]) and passes system calls to
    [dispatch] of Syscall.v, except for those it handles itself ([write],
    [read] of standard input, [execve], [exit]).  A native program runs on the
    kernel's memory; its system calls go through the stub, which saves
    registers on the program's stack, to [native_syscall_dispatch] and to the
    same [dispatch].  When it exits, the stub comes back with the program's
    values in the callee-saved registers: the model goes on when they are the
    kernel's and stops ([Clobbered]) when they are not.  The classes
    [Screen] (shell, log) and [Hardware] (system) are the interfaces between
    these layers.

    ** What the theorems show

    - The ramdisk: the reader is safe on every image and refines a directory
      of records; [build_lfs1] and the reader are inverse; the files found on
      the host by the build script are opened and shown by the booted kernel.
    - The ELF parser accepts exactly the valid headers; the loader places
      every byte of every segment, answers an error, or panics, and which of
      the three is decided by the first segment that cannot be copied; a
      program reads back from its stack the arguments it was given.
    - The heap: blocks are aligned, disjoint and inside; a caller that loses a
      race retries a bounded number of times; alone, it gets the first fit.
    - System calls keep the kernel well formed, halt by panic only in one case
      of [mmap], change only the parts their number allows, and implement a
      table of open files; a program lists the directory with each name once;
      an exit status is handed out once.
    - An interpreted program reaches the kernel by system calls only, and a
      call writes kernel memory in the buffer its arguments name, wherever
      that is, and nowhere else.  Decoding is exact for every form the
      interpreter knows; the cases in which an instruction is not what the
      processor manual says are listed, and everywhere else it is, up to the
      flags of arithmetic.  A program assembled for any messages and exit code
      is parsed, loaded and run, prints the messages and exits with the code.
    - The native loader loads, refuses with the error of the check that
      failed, or panics in two cases; of the leaf entries of the page tables
      only the no-execute flags of the region change; the system call stub
      runs the real dispatcher with the program's arguments, on the program's
      stack, and returns to the program; the exit stub returns to the kernel's
      stack; the system calls keep the kernel well formed.
    - The shell runs the line that was typed; all readers deliver the same
      line; the keyboard yields its alphabet; drawing stays in the buffer.
    - The commands handle every line; a listing determines the files; [cat]
      and [run] print what they should; the whole system stays well formed
      from boot on, with a valid, an invalid or no ramdisk, as long as its
      programs stay in the modelled memory; booting reaches the shell.
    - The log sends every message when the transmitter empties often enough;
      the handlers of exceptions, the halting ones too, report what they know;
      the text terminal shows the last 25 lines printed.

    ** Bounds and fuel

    - Loops of the source with a bound have that bound as their structural
      argument: [MAX_STEPS] of the run loop, the entries that remain of a
      directory ([dents_loop]), the entries of the image, the bytes of a read.
    - [alloc] retries: theorem [alloc_wait_bounded] bounds the retries by the
      blocks others take; [run] of Alloc.v has fuel 4, the atomic
      steps of a call that meets nobody ([alloc_uncontended]).
    - Digits are produced with fuel 64, as many as a [u64] has in base 2.
    - [depth] is the number of programs that can be nested by [execve], which
      runs the new program on the kernel's stack; at 0 the stack overflows and
      the machine halts.  The theorems hold for every [depth].
    - Waiting is bounded by the events to come, not by fuel: [polls] lists the
      answers of the keyboard and [line_status] those of the serial port; a
      wait that outlives its list is the halt of a machine that spins.  The
      endless loop of the shell is [turns n] for every [n].

    ** Parameters

    Code that is not part of the repository is a parameter: the page tables of
    the x86_64 crate ([translate], [update_flags], ...), the address the
    allocator gives to a vector ([place], [tmp_ptr], [runtime_base]; the
    allocation is assumed to succeed), the code of a native program (a tree of
    loads, stores and system calls, [behaviour]; it is executed by the
    processor), what compiled functions leave in scratch registers and in
    their stack frames ([scratch], [frame] of NativeStub.v, [pushed] of
    System.v), the boot loader's information, and the os_terminal crate: a
    terminal is the list of texts handed to it, and a [write!] is one text.

    ** Not modelled

    - The panic and allocation error handlers (a message and an endless loop);
      a panic is the halt [Panicked].
    - src/main.rs, which starts an emulator with the disk image, and cargo's
      and the boot loader's part of build.rs.
    - The C test programs of userspace/ whose binaries need a dynamic linker
      that the kernel does not have.
    - The messages that the native loader sends to the serial line between its
      steps, interrupts other than the five exceptions, timing. *)
From Stdlib Require Export ZArith Lia.
From stdpp Require Export base tactics decidable option list numbers.
#[global] Open Scope Z_scope.

Create HintDb leon.

(** ** Outcomes of a computation

    A Rust function that returns [Result<A, E>] either returns [Ok], returns
    [Err], or panics (an index out of range, an arithmetic overflow: the
    Makefile builds the dev profile, where [+], [-] and [*] are checked). *)
Inductive outcome (E A : Type) :=
| Ok (a : A)
| Err (e : E)
| Panic.
Arguments Ok {E A} a.
Arguments Err {E A} e.
Arguments Panic {E A}.

#[export] Instance outcome_ret {E} : MRet (outcome E) := fun _ a => Ok a.
#[export] Instance outcome_bind {E} : MBind (outcome E) := fun _ _ f m =>
  match m with Ok a => f a | Err e => Err e | Panic => Panic end.

(** [Option::ok_or] and [Result::map_err]. *)
Definition ok_or {E A} (o : option A) (e : E) : outcome E A :=
  match o with Some a => Ok a | None => Err e end.
Definition map_err {E F A} (f : E -> F) (m : outcome E A) : outcome F A :=
  match m with Ok a => Ok a | Err e => Err (f e) | Panic => Panic end.
Definition is_ok {E A} (m : outcome E A) : bool :=
  match m with Ok _ => true | _ => false end.

Lemma bind_Ok {E A B} (m : outcome E A) (f : A -> outcome E B) b :
  m ≫= f = Ok b <-> exists a, m = Ok a /\ f a = Ok b.
Proof. destruct m; cbn; naive_solver. Qed.
Lemma bind_Err {E A B} (m : outcome E A) (f : A -> outcome E B) e :
  m ≫= f = Err e <-> m = Err e \/ exists a, m = Ok a /\ f a = Err e.
Proof. destruct m; cbn; naive_solver. Qed.
Lemma bind_Panic {E A B} (m : outcome E A) (f : A -> outcome E B) :
  m ≫= f = Panic <-> m = Panic \/ exists a, m = Ok a /\ f a = Panic.
Proof. destruct m; cbn; naive_solver. Qed.
Lemma ok_or_Ok {E A} (o : option A) (e : E) a : ok_or o e = Ok a <-> o = Some a.
Proof. destruct o; cbn; naive_solver. Qed.
Lemma map_err_Ok {E F A} (f : E -> F) (m : outcome E A) a : map_err f m = Ok a <-> m = Ok a.
Proof. destruct m; cbn; naive_solver. Qed.
Lemma ok_or_no_panic {E A} (o : option A) (e : E) : ok_or o e <> Panic.
Proof. by destruct o. Qed.
#[export] Hint Resolve ok_or_no_panic : leon.

(** ** Machine integers

    [usize] and [u64] are both 64 bits wide on the only target,
    x86_64-leonos3.json.  A value of width [w] is a [Z] in its range; the
    signed view of a 64-bit word is [to_i64], its inverse [of_i64]. *)
Definition is_u8 (z : Z) : Prop := 0 <= z < 2 ^ 8.
Definition is_u16 (z : Z) : Prop := 0 <= z < 2 ^ 16.
Definition is_u32 (z : Z) : Prop := 0 <= z < 2 ^ 32.
Definition is_u64 (z : Z) : Prop := 0 <= z < 2 ^ 64.
Definition is_i64 (z : Z) : Prop := - 2 ^ 63 <= z < 2 ^ 63.

Definition u64_max : Z := 2 ^ 64 - 1.
Definition i64_max : Z := 2 ^ 63 - 1.
Definition i64_min : Z := - 2 ^ 63.

(** Two's complement reading of the low [w] bits. *)
Definition sext (w z : Z) : Z :=
  let m := z mod 2 ^ w in if m <? 2 ^ (w - 1) then m else m - 2 ^ w.
Definition to_i64 (z : Z) : Z := sext 64 z.
Definition of_i64 (z : Z) : Z := z mod 2 ^ 64.

Definition checked_add (a b : Z) : option Z :=
  if a + b <=? u64_max then Some (a + b) else None.
Definition checked_sub (a b : Z) : option Z :=
  if b <=? a then Some (a - b) else None.
Definition checked_mul (a b : Z) : option Z :=
  if a * b <=? u64_max then Some (a * b) else None.
Definition saturating_add (a b : Z) : Z := Z.min (a + b) u64_max.
Definition wrapping_add (a b : Z) : Z := (a + b) mod 2 ^ 64.
Definition wrapping_sub (a b : Z) : Z := (a - b) mod 2 ^ 64.
Definition wrapping_mul (a b : Z) : Z := (a * b) mod 2 ^ 64.

(** The plain operators of the dev profile: out of range is a panic. *)
Definition add64 {E} (a b : Z) : outcome E Z :=
  if a + b <=? u64_max then Ok (a + b) else Panic.
Definition sub64 {E} (a b : Z) : outcome E Z :=
  if b <=? a then Ok (a - b) else Panic.
Definition mul64 {E} (a b : Z) : outcome E Z :=
  if a * b <=? u64_max then Ok (a * b) else Panic.
Definition add_i64 {E} (a b : Z) : outcome E Z :=
  if (i64_min <=? a + b) && (a + b <=? i64_max) then Ok (a + b) else Panic.
(** [!x] on [u64]. *)
Definition not64 (x : Z) : Z := u64_max - x.
(** [isize::saturating_add]. *)
Definition saturating_add_i64 (a b : Z) : Z := Z.max i64_min (Z.min (a + b) i64_max).

Ltac int_unfold :=
  unfold is_u8, is_u16, is_u32, is_u64, is_i64, saturating_add, saturating_add_i64, of_i64 in *;
  unfold u64_max, i64_max, i64_min in *.
Ltac ilia := int_unfold; lia.
(** Split a guarded machine operation into its two branches. *)
Tactic Notation "guards" :=
  repeat case_match; split; intros; destruct_and?; simplify_eq;
  try split; try f_equal; try reflexivity; ilia.

(** Case on the condition of an [if] of the goal. *)
Tactic Notation "branch" "as" ident(H) :=
  match goal with |- context [if ?b then _ else _] =>
    lazymatch type of b with bool => destruct b eqn:H end end.
Tactic Notation "branch" "as" ident(H) "in" hyp(H0) := revert H0; branch as H; intros H0.

Lemma checked_add_Some a b c :
  checked_add a b = Some c <-> c = a + b /\ a + b <= u64_max.
Proof. unfold checked_add. guards. Qed.
Lemma checked_sub_Some a b c : checked_sub a b = Some c <-> c = a - b /\ b <= a.
Proof. unfold checked_sub. guards. Qed.
Lemma checked_mul_Some a b c :
  checked_mul a b = Some c <-> c = a * b /\ a * b <= u64_max.
Proof. unfold checked_mul. guards. Qed.
Lemma add64_Ok {E} a b c :
  @add64 E a b = Ok c <-> c = a + b /\ a + b <= u64_max.
Proof. unfold add64. guards. Qed.
Lemma wrapping_add_small a b : 0 <= a + b <= u64_max -> wrapping_add a b = a + b.
Proof. intros. unfold wrapping_add. apply Z.mod_small. unfold u64_max in *. lia. Qed.
Lemma wrapping_sub_small a b : 0 <= a - b <= u64_max -> wrapping_sub a b = a - b.
Proof. intros. unfold wrapping_sub. apply Z.mod_small. unfold u64_max in *. lia. Qed.
Lemma add64_small {E} a b : a + b <= u64_max -> @add64 E a b = Ok (a + b).
Proof. intros. by apply add64_Ok. Qed.

Lemma sub64_small {E} a b : b <= a -> @sub64 E a b = Ok (a - b).
Proof. unfold sub64. intros. by rewrite (proj2 (Z.leb_le _ _)). Qed.
Lemma mul64_small {E} a b : a * b <= u64_max -> @mul64 E a b = Ok (a * b).
Proof. unfold mul64. intros. by rewrite (proj2 (Z.leb_le _ _)). Qed.

(** Masking with [!(2^k - 1)] rounds down to a multiple of [2^k]. *)
Lemma land_not64_ones x k :
  0 <= k <= 64 -> is_u64 x -> Z.land x (not64 (2 ^ k - 1)) = x - x mod 2 ^ k.
Proof.
  intros Hk Hx.
  assert (not64 (2 ^ k - 1) = Z.ldiff (Z.ones 64) (Z.ones k)) as ->.
  { rewrite Z.ldiff_ones_r by lia. rewrite Z.shiftr_div_pow2, Z.shiftl_mul_pow2 by lia.
    rewrite Z.ones_equiv. unfold not64, u64_max.
    assert (2 ^ 64 = 2 ^ (64 - k) * 2 ^ k) as E by (rewrite <-Z.pow_add_r by lia; f_equal; lia).
    assert (0 < 2 ^ k) by (apply Z.pow_pos_nonneg; lia).
    assert (Z.pred (2 ^ 64) / 2 ^ k = 2 ^ (64 - k) - 1) as ->; [|rewrite E; lia].
    symmetry. apply (Z.div_unique_pos _ _ _ (2 ^ k - 1)); lia. }
  replace (Z.land x (Z.ldiff (Z.ones 64) (Z.ones k))) with (Z.ldiff (Z.land x (Z.ones 64)) (Z.ones k)).
  2: { apply Z.bits_inj'. intros n Hn. rewrite !Z.land_spec, !Z.ldiff_spec, Z.land_spec.
       by rewrite andb_assoc. }
  rewrite Z.land_ones, Z.mod_small by (int_unfold; lia).
  rewrite Z.ldiff_ones_r, Z.shiftr_div_pow2, Z.shiftl_mul_pow2 by lia.
  rewrite (Z.div_mod x (2 ^ k)) at 2; [lia|]. apply Z.pow_nonzero; lia.
Qed.

(** ** Byte strings

    [&[u8]] is a list of [Z]; [bytes_ok] says that every element is a byte.
    Lengths and indices are [Z], as [usize] values are. *)
Abbreviation bytes := (list Z).
Definition zlen {A} (l : list A) : Z := Z.of_nat (length l).
Definition bytes_ok (l : bytes) : Prop := Forall is_u8 l.

(** [l[a..b]] as a value, without its bounds check. *)
Definition zslice {A} (l : list A) (a b : Z) : list A :=
  take (Z.to_nat (b - a)) (drop (Z.to_nat a) l).
(** The list with [src] written over the elements from index [a] on. *)
Definition splice {A} (l : list A) (a : Z) (src : list A) : list A :=
  take (Z.to_nat a) l ++ src ++ drop (Z.to_nat a + length src) l.
Definition zreplicate {A} (n : Z) (x : A) : list A := replicate (Z.to_nat n) x.

(** [l[i]], [&l[a..b]] and [l[a..b].copy_from_slice(src)]: each panics when the
    indices are out of range or the lengths differ. *)
Definition index {E A} (l : list A) (i : Z) : outcome E A :=
  if 0 <=? i then
    match l !! Z.to_nat i with Some b => Ok b | None => Panic end
  else Panic.
Definition sub_slice {E A} (l : list A) (a b : Z) : outcome E (list A) :=
  if (0 <=? a) && (a <=? b) && (b <=? zlen l) then Ok (zslice l a b) else Panic.
Definition copy_from_slice {E A} (l : list A) (a b : Z) (src : list A) : outcome E (list A) :=
  if (0 <=? a) && (a <=? b) && (b <=? zlen l) && (zlen src =? b - a)
  then Ok (splice l a src) else Panic.

(** ** Little-endian integers ([from_le_bytes], [to_le_bytes]) *)
Fixpoint from_le (bs : bytes) : Z :=
  match bs with [] => 0 | b :: r => b + 256 * from_le r end.
Fixpoint to_le (n : nat) (z : Z) : bytes :=
  match n with O => [] | S n => z mod 256 :: to_le n (z / 256) end.

(** [uN::from_le_bytes([l[off], ..., l[off + n - 1]])]. *)
Definition read_le {E} (l : bytes) (off : Z) (n : nat) : outcome E Z :=
  bs ← sub_slice l off (off + Z.of_nat n); Ok (from_le bs).

Lemma zlen_nonneg {A} (l : list A) : 0 <= zlen l.
Proof. unfold zlen; lia. Qed.
Lemma zlen_app {A} (l k : list A) : zlen (l ++ k) = zlen l + zlen k.
Proof. unfold zlen. rewrite length_app. lia. Qed.
Lemma zlen_nil {A} : zlen (@nil A) = 0.
Proof. done. Qed.
Lemma zlen_cons {A} (x : A) l : zlen (x :: l) = 1 + zlen l.
Proof. unfold zlen. cbn. lia. Qed.
Lemma zlen_replicate {A} n (x : A) : zlen (replicate n x) = Z.of_nat n.
Proof. unfold zlen. by rewrite length_replicate. Qed.
Lemma zlen_zreplicate {A} n (x : A) : 0 <= n -> zlen (zreplicate n x) = n.
Proof. intros. unfold zreplicate. rewrite zlen_replicate. lia. Qed.
Lemma zlen_map {A B} (f : A -> B) l : zlen (map f l) = zlen l.
Proof. unfold zlen. by rewrite length_map. Qed.
#[export] Hint Resolve zlen_nonneg : leon.

Lemma zlen_zslice {A} (l : list A) a b :
  0 <= a <= b -> b <= zlen l -> zlen (zslice l a b) = b - a.
Proof.
  unfold zlen, zslice. intros. rewrite length_take, length_drop. lia.
Qed.
Lemma zlen_splice {A} (l : list A) a src :
  0 <= a -> a + zlen src <= zlen l -> zlen (splice l a src) = zlen l.
Proof.
  unfold splice, zlen. intros.
  rewrite !length_app, length_take, length_drop. lia.
Qed.

Lemma to_le_length n z : length (to_le n z) = n.
Proof. revert z. induction n; cbn; auto. Qed.
Lemma zlen_to_le n z : zlen (to_le n z) = Z.of_nat n.
Proof. unfold zlen. by rewrite to_le_length. Qed.
(** Normalise lengths of built-up byte strings, then arithmetic. *)
Ltac zlens :=
  repeat first [rewrite zlen_app | rewrite zlen_splice by zlens | rewrite zlen_to_le
    | rewrite zlen_zreplicate by lia | rewrite zlen_zslice by zlens
    | rewrite zlen_cons
    | match goal with |- context [@zlen ?A []] => change (@zlen A []) with 0 end]; lia.

Lemma to_le_ok n z : bytes_ok (to_le n z).
Proof.
  revert z. induction n as [|n IH]; intros z; cbn; constructor; [|apply IH].
  pose proof (Z.mod_pos_bound z 256). ilia.
Qed.
Lemma pow256_S n : 256 ^ Z.of_nat (S n) = 256 * 256 ^ Z.of_nat n.
Proof. rewrite Nat2Z.inj_succ, Z.pow_succ_r; lia. Qed.
Lemma from_le_to_le n z : from_le (to_le n z) = z mod 256 ^ Z.of_nat n.
Proof.
  revert z. induction n as [|n IH]; intros z.
  - cbn. by rewrite Z.mod_1_r.
  - cbn [to_le from_le]. rewrite IH, pow256_S, Z.rem_mul_r; lia.
Qed.
Lemma from_le_bound bs : bytes_ok bs -> 0 <= from_le bs < 256 ^ zlen bs.
Proof.
  induction 1 as [|b bs Hb Hbs IH]; [done|].
  unfold zlen in *. cbn [length from_le]. rewrite pow256_S. ilia.
Qed.
Lemma to_le_from_le bs : bytes_ok bs -> to_le (length bs) (from_le bs) = bs.
Proof.
  induction 1 as [|b bs Hb Hbs IH]; [done|]. cbn [length to_le from_le].
  replace (b + 256 * from_le bs) with (b + from_le bs * 256) by lia.
  rewrite Z.mod_add, Z.div_add, Z.mod_small, Z.div_small, Z.add_0_l by ilia.
  by rewrite IH.
Qed.
Lemma from_le_app a b :
  from_le (a ++ b) = from_le a + 256 ^ zlen a * from_le b.
Proof.
  induction a as [|x a IH]; cbn [app from_le]; [change (zlen []) with 0; lia|].
  unfold zlen in *. cbn [length]. rewrite IH, pow256_S. lia.
Qed.

(** ** Slices and splices

    Two lists are equal when their lookups agree; the lemmas below reduce a
    slice or a splice to the lookups of the underlying list. *)
Lemma zslice_lookup {A} (l : list A) a b (i : nat) :
  0 <= a -> Z.of_nat i < b - a -> zslice l a b !! i = l !! (Z.to_nat a + i)%nat.
Proof. intros. unfold zslice. rewrite lookup_take_lt, lookup_drop by lia. done. Qed.
Lemma zslice_lookup_ge {A} (l : list A) a b (i : nat) :
  b - a <= Z.of_nat i -> zslice l a b !! i = None.
Proof. intros. unfold zslice. rewrite lookup_take_ge by lia. done. Qed.
Lemma splice_lookup_in {A} (l : list A) a src (i : nat) :
  0 <= a -> a + zlen src <= zlen l -> a <= Z.of_nat i < a + zlen src ->
  splice l a src !! i = src !! (i - Z.to_nat a)%nat.
Proof.
  unfold zlen, splice. intros.
  rewrite lookup_app_r; rewrite length_take; [|lia].
  rewrite lookup_app_l by lia. f_equal. lia.
Qed.
Lemma splice_lookup_out {A} (l : list A) a src (i : nat) :
  0 <= a -> a + zlen src <= zlen l -> Z.of_nat i < a \/ a + zlen src <= Z.of_nat i ->
  splice l a src !! i = l !! i.
Proof.
  unfold zlen, splice. intros ? ? [|].
  - rewrite lookup_app_l by (rewrite length_take; lia).
    by rewrite lookup_take_lt by lia.
  - rewrite lookup_app_r; rewrite length_take; [|lia].
    rewrite lookup_app_r, lookup_drop by lia. f_equal. lia.
Qed.

Lemma zslice_all {A} (l : list A) : zslice l 0 (zlen l) = l.
Proof. unfold zslice, zlen. rewrite drop_0, take_ge; [done|lia]. Qed.
Lemma zslice_app_skip {A} (p l : list A) a b :
  0 <= a -> zslice (p ++ l) (zlen p + a) (zlen p + b) = zslice l a b.
Proof.
  intros. unfold zslice, zlen. rewrite drop_app_ge by lia.
  f_equal; [lia|]. f_equal. lia.
Qed.
Lemma zslice_app_l {A} (l q : list A) a b :
  0 <= a -> b <= zlen l -> zslice (l ++ q) a b = zslice l a b.
Proof.
  intros. unfold zslice, zlen in *.
  destruct (decide (a <= Z.of_nat (length l))) as [Hle|Hgt].
  - rewrite drop_app_le by lia. rewrite take_app_le; [done|]. rewrite length_drop. lia.
  - replace (Z.to_nat (b - a)) with 0%nat by lia. done.
Qed.
Lemma zslice_app_mid {A} (p l q : list A) :
  zslice (p ++ l ++ q) (zlen p) (zlen p + zlen l) = l.
Proof.
  pose proof (zslice_app_skip p (l ++ q) 0 (zlen l)) as H.
  rewrite Z.add_0_r in H. rewrite H by lia.
  rewrite zslice_app_l, zslice_all; [done|lia|lia].
Qed.
Lemma zslice_splice_same {A} (l : list A) a b src :
  0 <= a -> b = a + zlen src -> b <= zlen l -> zslice (splice l a src) a b = src.
Proof.
  intros ? -> ?. apply list_eq. intros i.
  destruct (decide (Z.of_nat i < zlen src)).
  - rewrite zslice_lookup, splice_lookup_in by lia. f_equal. lia.
  - rewrite zslice_lookup_ge by lia. symmetry. apply lookup_ge_None.
    unfold zlen in *. lia.
Qed.
Lemma zslice_splice_other {A} (l : list A) a src c d :
  0 <= a -> a + zlen src <= zlen l -> 0 <= c -> d <= a \/ a + zlen src <= c ->
  zslice (splice l a src) c d = zslice l c d.
Proof.
  intros. apply list_eq. intros i.
  destruct (decide (Z.of_nat i < d - c)).
  - rewrite !zslice_lookup, splice_lookup_out by lia. done.
  - by rewrite !zslice_lookup_ge by lia.
Qed.
Lemma splice_app_skip {A} (p l src : list A) a :
  0 <= a -> splice (p ++ l) (zlen p + a) src = p ++ splice l a src.
Proof.
  intros. unfold splice, zlen.
  replace (Z.to_nat (Z.of_nat (length p) + a)) with (length p + Z.to_nat a)%nat by lia.
  rewrite take_app_add, <-app_assoc. do 2 f_equal.
  rewrite <-Nat.add_assoc, drop_app_add. done.
Qed.
Lemma splice_app_l {A} (l q src : list A) a :
  0 <= a -> a + zlen src <= zlen l -> splice (l ++ q) a src = splice l a src ++ q.
Proof.
  intros. unfold splice, zlen in *.
  rewrite take_app_le, drop_app_le by lia. by rewrite <-!app_assoc.
Qed.
(** Writing one element and then the rest. *)
Lemma splice_cons {A} (l : list A) a x xs :
  0 <= a -> a + 1 + zlen xs <= zlen l -> splice (splice l a [x]) (a + 1) xs = splice l a (x :: xs).
Proof.
  intros Ha Hl. pose proof (zlen_nonneg xs). assert (zlen [x] = 1) as H1 by done.
  assert (zlen (splice l a [x]) = zlen l) as Hz by (apply zlen_splice; lia).
  apply list_eq. intros i.
  destruct (decide (Z.of_nat i < a \/ a + 1 + zlen xs <= Z.of_nat i)).
  - rewrite splice_lookup_out, (splice_lookup_out l a [x]) by lia.
    by rewrite splice_lookup_out by (rewrite ?zlen_cons; lia).
  - rewrite (splice_lookup_in l a (x :: xs)) by (rewrite ?zlen_cons; lia).
    destruct (decide (Z.of_nat i = a)).
    + rewrite splice_lookup_out by lia. rewrite splice_lookup_in by lia.
      by replace (i - Z.to_nat a)%nat with 0%nat by lia.
    + rewrite splice_lookup_in by lia.
      by replace (i - Z.to_nat a)%nat with (S (i - Z.to_nat (a + 1))) by lia.
Qed.
Lemma splice_snoc {A} (l : list A) n x :
  0 <= n < zlen l -> zslice (splice l n [x]) 0 (n + 1) = zslice l 0 n ++ [x].
Proof.
  intros Hn. unfold zslice, splice. change (Z.to_nat 0) with 0%nat. rewrite !drop_0, !Z.sub_0_r.
  assert (length (take (Z.to_nat n) l) = Z.to_nat n) as Hl by (rewrite length_take; unfold zlen in Hn; lia).
  rewrite take_app_ge, Hl by lia. f_equal. by replace (Z.to_nat (n + 1) - Z.to_nat n)%nat with 1%nat by lia.
Qed.
Lemma splice_exact {A} (p l q src : list A) :
  length l = length src -> splice (p ++ l ++ q) (zlen p) src = p ++ src ++ q.
Proof.
  intros Hl. unfold splice, zlen. rewrite Nat2Z.id.
  rewrite take_app_length, <-Hl, (app_assoc p l q), <-length_app, drop_app_length. done.
Qed.

Lemma bytes_ok_app l k : bytes_ok (l ++ k) <-> bytes_ok l /\ bytes_ok k.
Proof. apply Forall_app. Qed.
#[export] Instance is_u8_dec z : Decision (is_u8 z).
Proof. unfold is_u8. apply _. Defined.
#[export] Instance bytes_ok_dec l : Decision (bytes_ok l).
Proof. unfold bytes_ok. apply _. Defined.
Lemma bytes_ok_zslice l a b : bytes_ok l -> bytes_ok (zslice l a b).
Proof. intros. by apply Forall_take, Forall_drop. Qed.
Lemma bytes_ok_splice l a src : bytes_ok l -> bytes_ok src -> bytes_ok (splice l a src).
Proof.
  intros. unfold splice. rewrite !bytes_ok_app.
  split_and!; [by apply Forall_take|done|by apply Forall_drop].
Qed.
Lemma bytes_ok_zreplicate n x : is_u8 x -> bytes_ok (zreplicate n x).
Proof. intros. by apply Forall_replicate. Qed.
#[export] Hint Resolve bytes_ok_zslice bytes_ok_splice bytes_ok_zreplicate to_le_ok : leon.

Lemma sub_slice_Ok {E A} (l : list A) a b k :
  @sub_slice E A l a b = Ok k <-> 0 <= a <= b /\ b <= zlen l /\ k = zslice l a b.
Proof.
  unfold sub_slice. case_match eqn:H.
  - rewrite !andb_true_iff, !Z.leb_le in H. naive_solver lia.
  - rewrite !andb_false_iff, !Z.leb_gt in H. split; [done|lia].
Qed.
Lemma sub_slice_in {E A} (l : list A) a b :
  0 <= a <= b -> b <= zlen l -> @sub_slice E A l a b = Ok (zslice l a b).
Proof. intros. by apply sub_slice_Ok. Qed.
Lemma sub_slice_no_err {E A} (l : list A) a b e : @sub_slice E A l a b <> Err e.
Proof. unfold sub_slice. by case_match. Qed.
Lemma copy_from_slice_Ok {E A} (l : list A) a b src k :
  @copy_from_slice E A l a b src = Ok k <->
  0 <= a <= b /\ b <= zlen l /\ zlen src = b - a /\ k = splice l a src.
Proof.
  unfold copy_from_slice. case_match eqn:H.
  - rewrite !andb_true_iff, !Z.leb_le, Z.eqb_eq in H. naive_solver lia.
  - rewrite !andb_false_iff, !Z.leb_gt, Z.eqb_neq in H. split; [done|lia].
Qed.
Lemma copy_from_slice_in {E A} (l : list A) a b src :
  0 <= a -> a + zlen src = b -> b <= zlen l ->
  @copy_from_slice E A l a b src = Ok (splice l a src).
Proof.
  intros. apply copy_from_slice_Ok. pose proof (zlen_nonneg src).
  split_and!; [lia..|done].
Qed.

Lemma read_le_in {E} l off n :
  0 <= off -> off + Z.of_nat n <= zlen l ->
  @read_le E l off n = Ok (from_le (zslice l off (off + Z.of_nat n))).
Proof. intros. unfold read_le. rewrite sub_slice_in by lia. done. Qed.
Lemma zslice_le_bound l off n :
  bytes_ok l -> 0 <= from_le (zslice l off (off + Z.of_nat n)) < 256 ^ Z.of_nat n.
Proof.
  intros Hl.
  pose proof (from_le_bound _ (bytes_ok_zslice l off (off + Z.of_nat n) Hl)) as H.
  split; [lia|].
  eapply Z.lt_le_trans; [apply H|]. apply Z.pow_le_mono_r; [lia|].
  unfold zlen, zslice. rewrite length_take. lia.
Qed.
