(* ===== verification/Utf8.v ===== *)
(** * Rust strings

    [&str] is a byte string that passed [core::str::from_utf8].  This file
    models the parts of [core::str] that the kernel calls: UTF-8 validation,
    [char::is_whitespace], [trim], [strip_prefix], [trim_start_matches] and
    [contains] for an ASCII character.  A string stays a list of bytes; a
    [char] is the list of bytes that encodes it. *)
From Stdlib Require String Ascii.
Export Stdlib.Strings.String.StringSyntax.
From S2P Require Import Prelude.

Definition in_range (lo hi b : Z) : bool := (lo <=? b) && (b <=? hi).
Definition continuation (b : Z) : bool := in_range 0x80 0xBF b.

(** The well-formed two, three and four byte sequences. *)
Definition utf8_2 (b0 b1 : Z) : bool := in_range 0xC2 0xDF b0 && continuation b1.
Definition utf8_3 (b0 b1 b2 : Z) : bool :=
  ((b0 =? 0xE0) && in_range 0xA0 0xBF b1
   || in_range 0xE1 0xEC b0 && continuation b1
   || (b0 =? 0xED) && in_range 0x80 0x9F b1
   || in_range 0xEE 0xEF b0 && continuation b1) && continuation b2.
Definition utf8_4 (b0 b1 b2 b3 : Z) : bool :=
  ((b0 =? 0xF0) && in_range 0x90 0xBF b1
   || in_range 0xF1 0xF3 b0 && continuation b1
   || (b0 =? 0xF4) && in_range 0x80 0x8F b1) && continuation b2 && continuation b3.

(** The characters of a byte string, [None] when it is not UTF-8. *)
Fixpoint utf8_chars (s : bytes) : option (list bytes) :=
  match s with
  | [] => Some []
  | b0 :: s1 =>
    if in_range 0 0x7F b0 then cons [b0] <$> utf8_chars s1 else
    match s1 with
    | [] => None
    | b1 :: s2 =>
      if utf8_2 b0 b1 then cons [b0; b1] <$> utf8_chars s2 else
      match s2 with
      | [] => None
      | b2 :: s3 =>
        if utf8_3 b0 b1 b2 then cons [b0; b1; b2] <$> utf8_chars s3 else
        match s3 with
        | [] => None
        | b3 :: s4 =>
          if utf8_4 b0 b1 b2 b3 then cons [b0; b1; b2; b3] <$> utf8_chars s4 else None
        end
      end
    end
  end.

(** [core::str::from_utf8(bytes).ok()]. *)
Definition from_utf8 (s : bytes) : option bytes :=
  match utf8_chars s with Some _ => Some s | None => None end.
Definition is_str (s : bytes) : Prop := from_utf8 s = Some s.

(** The scalar value of one encoded character. *)
Definition code_point (c : bytes) : Z :=
  match c with
  | [b0] => b0
  | [b0; b1] => Z.land b0 0x1F * 2 ^ 6 + Z.land b1 0x3F
  | [b0; b1; b2] => Z.land b0 0x0F * 2 ^ 12 + Z.land b1 0x3F * 2 ^ 6 + Z.land b2 0x3F
  | [b0; b1; b2; b3] =>
      Z.land b0 0x07 * 2 ^ 18 + Z.land b1 0x3F * 2 ^ 12 + Z.land b2 0x3F * 2 ^ 6
      + Z.land b3 0x3F
  | _ => 0
  end.

(** [char::is_whitespace]: the code points with property White_Space. *)
Definition is_whitespace (c : bytes) : bool :=
  let p := code_point c in
  in_range 0x09 0x0D p || (p =? 0x20) || (p =? 0x85) || (p =? 0xA0) || (p =? 0x1680)
  || in_range 0x2000 0x200A p || (p =? 0x2028) || (p =? 0x2029) || (p =? 0x202F)
  || (p =? 0x205F) || (p =? 0x3000).

Fixpoint drop_while {A} (f : A -> bool) (l : list A) : list A :=
  match l with
  | [] => []
  | x :: r => if f x then drop_while f r else l
  end.

(** [str::trim]. *)
Definition trim (s : bytes) : bytes :=
  match utf8_chars s with
  | Some cs => concat (rev (drop_while is_whitespace (rev (drop_while is_whitespace cs))))
  | None => s
  end.

(** [str::strip_prefix] for a string pattern. *)
Fixpoint strip_prefix (p s : bytes) : option bytes :=
  match p, s with
  | [], _ => Some s
  | x :: p, y :: s => if x =? y then strip_prefix p s else None
  | _ :: _, [] => None
  end.

(** [s.trim_start_matches(c)] and [s.contains(c)] for an ASCII character. *)
Definition trim_start_matches (c : Z) (s : bytes) : bytes := drop_while (Z.eqb c) s.
Definition contains (c : Z) (s : bytes) : bool := existsb (Z.eqb c) s.

(** String literals of the source, as bytes. *)
Fixpoint str (s : String.string) : bytes :=
  match s with
  | String.EmptyString => []
  | String.String a s => Z.of_N (Ascii.N_of_ascii a) :: str s
  end.
Arguments str s%_string_scope.

(** ** Facts about strings *)

(** Induction along the recursion of [utf8_chars]: a character, then the rest. *)
Lemma bytes_len_ind (P : bytes -> Prop) :
  (forall s, (forall t, (length t < length s)%nat -> P t) -> P s) -> forall s, P s.
Proof.
  intros H s. remember (length s) as n eqn:Hn. revert s Hn.
  induction n as [n IH] using lt_wf_ind. intros s ->. apply H.
  intros t Ht. by eapply IH.
Qed.

Definition valid_char (c : bytes) : Prop := utf8_chars c = Some [c].

(** One step of decoding, for a complete character in front of any rest. *)
Lemma utf8_chars_cons c rest :
  valid_char c -> utf8_chars (c ++ rest) = cons c <$> utf8_chars rest.
Proof.
  unfold valid_char. intros Hc.
  destruct c as [|b0 [|b1 [|b2 [|b3 c]]]]; cbn in *; repeat case_match;
    simplify_eq; try done.
  all: match goal with H : _ <$> ?x = Some _ |- _ => destruct x eqn:Hx; cbn in H end.
  all: simplify_eq; done.
Qed.

Lemma utf8_chars_inv s cs :
  utf8_chars s = Some cs ->
  match cs with
  | [] => s = []
  | c :: cs' => exists r, s = c ++ r /\ utf8_chars r = Some cs' /\ valid_char c
  end.
Proof.
  intros H. destruct s as [|b0 s1]; cbn in H; [by simplify_eq|].
  unfold valid_char.
  repeat (case_match; simplify_eq; try done).
  all: match goal with H : _ <$> ?x = Some _ |- _ =>
         destruct x eqn:Hx; cbn in H; simplify_eq end.
  all: match type of Hx with _ ?r = _ => exists r end.
  all: cbn; split_and!; try done.
  all: repeat match goal with H : ?b = _ |- context [if ?b then _ else _] =>
                rewrite H end; done.
Qed.

Lemma utf8_chars_concat s cs : utf8_chars s = Some cs -> concat cs = s.
Proof.
  revert s. induction cs as [|c cs IH]; intros s H; apply utf8_chars_inv in H.
  - done.
  - destruct H as (r & -> & Hr & _). cbn. f_equal. auto.
Qed.
Lemma utf8_chars_valid s cs : utf8_chars s = Some cs -> Forall valid_char cs.
Proof.
  revert s. induction cs as [|c cs IH]; intros s H; apply utf8_chars_inv in H.
  - constructor.
  - destruct H as (r & -> & Hr & Hc). constructor; eauto.
Qed.
Lemma utf8_chars_of_valid cs : Forall valid_char cs -> utf8_chars (concat cs) = Some cs.
Proof.
  induction 1 as [|c cs Hc Hcs IH]; [done|]. cbn.
  by rewrite utf8_chars_cons, IH.
Qed.
Lemma is_str_chars s : is_str s <-> exists cs, Forall valid_char cs /\ s = concat cs.
Proof.
  unfold is_str, from_utf8. split.
  - case_match eqn:H; [|done]. intros _. exists l.
    split; [by eapply utf8_chars_valid|]. symmetry. by apply utf8_chars_concat.
  - intros (cs & Hcs & ->). by rewrite utf8_chars_of_valid.
Qed.
Lemma from_utf8_Some s t : from_utf8 s = Some t <-> t = s /\ is_str s.
Proof. unfold is_str, from_utf8. case_match; naive_solver. Qed.

(** [drop_while] keeps a suffix whose first element fails the test. *)
Lemma drop_while_split {A} (f : A -> bool) l :
  exists p, l = p ++ drop_while f l /\ Forall (fun x => f x = true) p /\
    match drop_while f l with [] => True | x :: _ => f x = false end.
Proof.
  induction l as [|x l (p & Hp & Hf & Hd)]; cbn; [by exists []|].
  destruct (f x) eqn:Hx.
  - exists (x :: p). cbn. rewrite <-Hp. split_and!; [done|by constructor|done].
  - exists []. by split_and!.
Qed.
Lemma drop_while_Forall {A} (P : A -> Prop) f l : Forall P l -> Forall P (drop_while f l).
Proof.
  intros H. destruct (drop_while_split f l) as (p & Hp & _).
  rewrite Hp, Forall_app in H. tauto.
Qed.
Lemma drop_while_stop {A} (f : A -> bool) l :
  match l with [] => True | x :: _ => f x = false end -> drop_while f l = l.
Proof. destruct l; cbn; [done|]. by intros ->. Qed.

(** The characters that [trim] keeps. *)
Definition trim_chars (cs : list bytes) : list bytes :=
  rev (drop_while is_whitespace (rev (drop_while is_whitespace cs))).

Lemma trim_of_chars cs :
  Forall valid_char cs -> trim (concat cs) = concat (trim_chars cs).
Proof. intros H. unfold trim. by rewrite utf8_chars_of_valid. Qed.
Lemma trim_chars_valid cs : Forall valid_char cs -> Forall valid_char (trim_chars cs).
Proof.
  intros. unfold trim_chars. apply Forall_rev, drop_while_Forall, Forall_rev,
    drop_while_Forall. done.
Qed.
Lemma trim_is_str s : is_str s -> is_str (trim s).
Proof.
  rewrite !is_str_chars. intros (cs & Hcs & ->). exists (trim_chars cs).
  split; [by apply trim_chars_valid|by apply trim_of_chars].
Qed.

(** What the string operations return is made of the bytes they are given. *)
Lemma concat_Forall {A} (P : A -> Prop) ls : Forall P (concat ls) <-> Forall (Forall P) ls.
Proof.
  induction ls as [|l ls IH]; cbn; [by split|]. rewrite Forall_app, Forall_cons_iff, IH. done.
Qed.
Lemma trim_Forall (P : Z -> Prop) s : Forall P s -> Forall P (trim s).
Proof.
  intros Hs. unfold trim. destruct (utf8_chars s) as [cs|] eqn:H; [|done].
  apply utf8_chars_concat in H as <-. rewrite concat_Forall in *.
  by apply Forall_rev, drop_while_Forall, Forall_rev, drop_while_Forall.
Qed.
Lemma strip_prefix_Some p s t : strip_prefix p s = Some t <-> s = p ++ t.
Proof.
  revert s. induction p as [|x p IH]; intros s; cbn; [naive_solver|].
  destruct s as [|y s]; [done|]. destruct (Z.eqb_spec x y) as [->|Hne].
  - rewrite IH. naive_solver.
  - naive_solver.
Qed.
Lemma strip_prefix_or_Forall (P : Z -> Prop) p s :
  Forall P s -> Forall P (match strip_prefix p s with Some t => t | None => s end).
Proof.
  intros Hs. destruct (strip_prefix p s) as [t|] eqn:H; [|done].
  apply strip_prefix_Some in H as ->. by apply Forall_app in Hs as [_ Hs].
Qed.
