(* ===== verification/Fs.v ===== *)
(** * The LFS1 read-only file system (kernel/src/fs.rs)

    An image is a byte string: a 12 byte header, a table of 64 byte entries
    and the file data.  Every function of fs.rs parses the image afresh. *)
From S2P Require Import Prelude Utf8.

Module fs.

Inductive FsError :=
| TooSmall | BadMagic | BadVersion | OutOfBounds | InvalidName | NotFound.
#[export] Instance FsError_eq_dec : EqDecision FsError.
Proof. solve_decision. Defined.

Record FsHeader := mkFsHeader { file_count : Z }.

(** [data] is a subslice of the image; [data_off] is the distance of its
    first byte from the start of the image, which [data.as_ptr()] observes. *)
Record FileRecord := mkFileRecord {
  name : bytes;
  mode : Z;
  data_off : Z;
  data : bytes
}.

Definition MAGIC : bytes := str "LFS1".
Definition VERSION : Z := 1.
Definition HEADER_SIZE : Z := 12.
Definition ENTRY_SIZE : Z := 64.
Definition NAME_CAP : Z := 48.

Definition header (image : bytes) : outcome FsError FsHeader :=
  if zlen image <? HEADER_SIZE then Err TooSmall else
  magic ← sub_slice image 0 4;
  if negb (bool_decide (magic = MAGIC)) then Err BadMagic else
  version ← read_le image 4 2;
  if negb (version =? VERSION) then Err BadVersion else
  count ← read_le image 6 2;
  table_len ← ok_or (checked_mul count ENTRY_SIZE) OutOfBounds;
  table_end ← ok_or (checked_add HEADER_SIZE table_len) OutOfBounds;
  if zlen image <? table_end then Err OutOfBounds else
  Ok (mkFsHeader count).

(** The second half of [entry_at], on the 64 bytes [e] of one table entry. *)
Definition decode_entry (image e : bytes) : outcome FsError FileRecord :=
  name_len ← read_le e 0 2;
  if (name_len =? 0) || (NAME_CAP <? name_len) then Err InvalidName else
  offset ← read_le e 4 4;
  size ← read_le e 8 4;
  mode ← read_le e 12 2;
  name_bytes ← sub_slice e 16 (16 + name_len);
  name ← ok_or (from_utf8 name_bytes) InvalidName;
  data_end ← ok_or (checked_add offset size) OutOfBounds;
  if zlen image <? data_end then Err OutOfBounds else
  data ← sub_slice image offset data_end;
  Ok (mkFileRecord name mode offset data).

Definition entry_at (image : bytes) (idx : Z) : outcome FsError FileRecord :=
  table_off ← ok_or (checked_mul idx ENTRY_SIZE) OutOfBounds;
  start ← ok_or (checked_add HEADER_SIZE table_off) OutOfBounds;
  end_ ← ok_or (checked_add start ENTRY_SIZE) OutOfBounds;
  if zlen image <? end_ then Err OutOfBounds else
  e ← sub_slice image start end_;
  decode_entry image e.

(** The [for i in 0..file_count] loops: [n] iterations remain, [i] is next. *)
Section List.
Context {St : Type} (f : St -> FileRecord -> St).

Fixpoint list_loop (image : bytes) (n : nat) (i : Z) (st : St) : St * outcome FsError unit :=
  match n with
  | O => (st, Ok tt)
  | S n =>
    match entry_at image i with
    | Ok rec => list_loop image n (i + 1) (f st rec)
    | Err e => (st, Err e)
    | Panic => (st, Panic)
    end
  end.

(** [list]: the callback is a state transformer, its final state is returned
    together with the result. *)
Definition list (image : bytes) (st : St) : St * outcome FsError unit :=
  match header image with
  | Ok hdr => list_loop image (Z.to_nat (file_count hdr)) 0 st
  | Err e => (st, Err e)
  | Panic => (st, Panic)
  end.
End List.

Fixpoint open_loop (image wanted : bytes) (n : nat) (i : Z) : outcome FsError FileRecord :=
  match n with
  | O => Err NotFound
  | S n =>
    rec ← entry_at image i;
    if bool_decide (name rec = wanted) then Ok rec else open_loop image wanted n (i + 1)
  end.

Definition open (image wanted : bytes) : outcome FsError FileRecord :=
  hdr ← header image;
  open_loop image wanted (Z.to_nat (file_count hdr)) 0.

Definition entry (image : bytes) (idx : Z) : outcome FsError FileRecord :=
  hdr ← header image;
  if file_count hdr <=? idx then Err NotFound else
  entry_at image idx.

(** ** The abstract directory

    A directory is the sequence of its records.  [files_of] reads all of them;
    [open], [entry] and [list] promise to agree with it. *)
Fixpoint read_entries (image : bytes) (n : nat) (i : Z) : outcome FsError (Datatypes.list FileRecord) :=
  match n with
  | O => Ok []
  | S n => rec ← entry_at image i; recs ← read_entries image n (i + 1); Ok (rec :: recs)
  end.
Definition files_of (image : bytes) : outcome FsError (Datatypes.list FileRecord) :=
  hdr ← header image; read_entries image (Z.to_nat (file_count hdr)) 0.

Definition lookup_name (wanted : bytes) (recs : Datatypes.list FileRecord) : option FileRecord :=
  List.find (fun r => bool_decide (name r = wanted)) recs.

(** What a decoded record promises about the image it came from. *)
Definition record_ok (image : bytes) (rec : FileRecord) : Prop :=
  0 <= data_off rec /\ data_off rec + zlen (data rec) <= zlen image /\
  data rec = zslice image (data_off rec) (data_off rec + zlen (data rec)) /\
  1 <= zlen (name rec) <= NAME_CAP /\ is_str (name rec) /\ bytes_ok (name rec) /\
  is_u16 (mode rec).

(** ** Facts *)

Lemma header_cases image :
  bytes_ok image ->
  match header image with
  | Ok h => is_u16 (file_count h) /\ HEADER_SIZE + file_count h * ENTRY_SIZE <= zlen image
  | Err e => e <> NotFound
  | Panic => False
  end.
Proof.
  intros Hok. unfold header. branch as Hl; [done|].
  apply Z.ltb_ge in Hl. unfold HEADER_SIZE in Hl.
  rewrite sub_slice_in by lia. cbn. branch as Hm; [done|].
  rewrite !read_le_in by lia. cbn. branch as Hv; [done|].
  pose proof (zslice_le_bound image 6 2 Hok) as Hc. cbn in Hc.
  set (c := from_le _) in *. unfold checked_mul, checked_add, HEADER_SIZE, ENTRY_SIZE.
  rewrite (proj2 (Z.leb_le _ _)) by ilia. cbn.
  rewrite (proj2 (Z.leb_le _ _)) by ilia. cbn.
  branch as Ht; [done|]. apply Z.ltb_ge in Ht. cbn. split; ilia.
Qed.

Lemma decode_entry_cases image e :
  bytes_ok e -> zlen e = ENTRY_SIZE ->
  match decode_entry image e with
  | Ok rec => record_ok image rec
  | Err err => err <> NotFound
  | Panic => False
  end.
Proof.
  unfold ENTRY_SIZE, decode_entry. intros Hok He.
  rewrite !read_le_in by lia. cbn -[zslice Z.add].
  pose proof (zslice_le_bound e 0 2 Hok) as Hn.
  pose proof (zslice_le_bound e 4 4 Hok) as Ho.
  pose proof (zslice_le_bound e 8 4 Hok) as Hs.
  pose proof (zslice_le_bound e 12 2 Hok) as Hm.
  set (n := from_le (zslice e 0 _)) in *. set (o := from_le (zslice e 4 _)) in *.
  set (s := from_le (zslice e 8 _)) in *. set (m := from_le (zslice e 12 _)) in *.
  branch as Hb; [done|]. apply orb_false_iff in Hb as [Hb1 Hb2].
  apply Z.eqb_neq in Hb1. apply Z.ltb_ge in Hb2. unfold NAME_CAP in Hb2.
  rewrite sub_slice_in by lia. cbn -[zslice Z.add].
  destruct (from_utf8 _) as [nm|] eqn:Hu; [|done]. cbn -[zslice Z.add].
  apply from_utf8_Some in Hu as [-> Hstr].
  unfold checked_add. rewrite (proj2 (Z.leb_le _ _)) by ilia. cbn -[zslice Z.add].
  branch as Hd; [done|]. apply Z.ltb_ge in Hd.
  rewrite sub_slice_in by lia. cbn -[zslice Z.add].
  unfold record_ok. cbn -[zslice Z.add]. rewrite !zlen_zslice by lia.
  replace (o + (o + s - o)) with (o + s) by lia. unfold NAME_CAP.
  change (256 ^ Z.of_nat 2) with (2 ^ 16) in *.
  split_and!; try done; auto with leon; ilia.
Qed.

Lemma entry_at_cases image i :
  bytes_ok image -> 0 <= i ->
  match entry_at image i with
  | Ok rec => record_ok image rec
  | Err err => err <> NotFound
  | Panic => False
  end.
Proof.
  intros Hok Hi. unfold entry_at.
  destruct (checked_mul i ENTRY_SIZE) as [t|] eqn:Ht; cbn; [|done].
  apply checked_mul_Some in Ht as [-> _].
  destruct (checked_add HEADER_SIZE _) as [st|] eqn:Hs; cbn; [|done].
  apply checked_add_Some in Hs as [-> _].
  destruct (checked_add _ ENTRY_SIZE) as [en|] eqn:He; cbn; [|done].
  apply checked_add_Some in He as [-> _].
  branch as Hl; [done|]. apply Z.ltb_ge in Hl. unfold HEADER_SIZE, ENTRY_SIZE in *.
  rewrite sub_slice_in by lia. cbn -[Z.mul Z.add zslice].
  apply decode_entry_cases; [by apply bytes_ok_zslice|].
  rewrite zlen_zslice; unfold ENTRY_SIZE; lia.
Qed.

(** [entry_at] at the positions the three loops visit. *)
Definition all_other (image wanted : bytes) (lo hi : Z) : Prop :=
  forall k, lo <= k < hi -> exists r, entry_at image k = Ok r /\ name r <> wanted.

Lemma all_other_step image w lo hi r :
  entry_at image lo = Ok r -> name r <> w ->
  all_other image w lo hi <-> all_other image w (lo + 1) hi.
Proof.
  intros Hr Hn. split; intros H k Hk.
  - apply H; lia.
  - destruct (decide (k = lo)) as [->|]; [eauto|]. apply H; lia.
Qed.

(** The first entry of a range of other names decodes, to another name. *)
Ltac other_first :=
  match goal with Ho : all_other _ _ ?i _ |- _ =>
    let r := fresh "r" in destruct (Ho i) as (r & ? & ?); [lia|congruence] end.

Lemma open_loop_Ok image w n i rec :
  open_loop image w n i = Ok rec <->
  exists j, i <= j < i + Z.of_nat n /\ entry_at image j = Ok rec /\ name rec = w /\
    all_other image w i j.
Proof.
  revert i. induction n as [|n IH]; intros i; cbn [open_loop].
  - split; [done|]. intros (j & ? & _). lia.
  - destruct (entry_at image i) as [r|e|] eqn:Hr; cbn.
    + case_bool_decide as Hn.
      * split.
        -- intros [= <-]. exists i. split_and!; [lia|lia|done|done|]. intros k Hk. lia.
        -- intros (j & Hj & He & Hname & Ho). destruct (decide (j = i)) as [->|]; [congruence|].
           other_first.
      * rewrite IH. split; intros (j & Hj & He & Hname & Ho); exists j; split_and!; try done;
          try lia.
        -- by apply (all_other_step image w i j r).
        -- destruct (decide (j = i)) as [->|]; [congruence|lia].
        -- by apply (all_other_step image w i j r).
    + split; [done|]. intros (j & Hj & He & Hname & Ho).
      destruct (decide (j = i)) as [->|]; [congruence|].
      other_first.
    + split; [done|]. intros (j & Hj & He & Hname & Ho).
      destruct (decide (j = i)) as [->|]; [congruence|].
      other_first.
Qed.

Lemma open_loop_Err image w n i e :
  bytes_ok image -> 0 <= i ->
  open_loop image w n i = Err e <->
  (e = NotFound /\ all_other image w i (i + Z.of_nat n)) \/
  (e <> NotFound /\ exists j, i <= j < i + Z.of_nat n /\ entry_at image j = Err e /\
     all_other image w i j).
Proof.
  intros Hok. revert i. induction n as [|n IH]; intros i Hi; cbn [open_loop].
  - split.
    + intros [= <-]. left. split; [done|]. intros k Hk. lia.
    + intros [[-> _]|(_ & j & ? & _)]; [done|lia].
  - pose proof (entry_at_cases image i Hok Hi) as Hc.
    destruct (entry_at image i) as [r|e'|] eqn:Hr; cbn; [|..|done].
    + case_bool_decide as Hn.
      * split; [done|]. intros [[_ Ho]|(_ & j & Hj & He & Ho)].
        -- other_first.
        -- destruct (decide (j = i)) as [->|]; [congruence|].
           other_first.
      * rewrite IH by lia. replace (i + Z.of_nat (S n)) with (i + 1 + Z.of_nat n) by lia.
        rewrite (all_other_step image w i (i + 1 + Z.of_nat n) r) by done.
        f_equiv. f_equiv. split; intros (j & Hj & He & Ho); exists j;
          assert (j <> i) by congruence.
        -- split_and!; try done; try lia. by apply (all_other_step image w i j r).
        -- split_and!; try done; try lia. by apply (all_other_step image w i j r).
    + split.
      * intros [= <-]. right. split; [done|]. exists i.
        split_and!; [lia|lia|done|]. intros k Hk. lia.
      * intros [[_ Ho]|(_ & j & Hj & He & Ho)].
        -- other_first.
        -- destruct (decide (j = i)) as [->|]; [congruence|].
           other_first.
Qed.

Lemma open_loop_no_panic image w n i :
  bytes_ok image -> 0 <= i -> open_loop image w n i <> Panic.
Proof.
  intros Hok. revert i. induction n as [|n IH]; intros i Hi; cbn [open_loop]; [done|].
  pose proof (entry_at_cases image i Hok Hi). destruct (entry_at image i); cbn; try done.
  case_bool_decide; [done|]. apply IH. lia.
Qed.
Lemma list_loop_no_panic {St} (f : St -> FileRecord -> St) image n i st :
  bytes_ok image -> 0 <= i -> (list_loop f image n i st).2 <> Panic.
Proof.
  intros Hok. revert i st. induction n as [|n IH]; intros i st Hi; cbn [list_loop]; [done|].
  pose proof (entry_at_cases image i Hok Hi). destruct (entry_at image i); cbn; try done.
  apply IH. lia.
Qed.

(** The directory read entry by entry is what the loops see. *)
Lemma read_entries_lookup image n i recs :
  read_entries image n i = Ok recs ->
  length recs = n /\
  forall k, (k < n)%nat -> exists r, recs !! k = Some r /\ entry_at image (i + Z.of_nat k) = Ok r.
Proof.
  revert i recs. induction n as [|n IH]; intros i recs; cbn [read_entries].
  - intros [= <-]. split; [done|]. intros; lia.
  - intros (r & Hr & (rs & Hrs & [= <-])%bind_Ok)%bind_Ok.
    destruct (IH _ _ Hrs) as [Hl Hk]. split; [cbn; lia|]. intros [|k] Hlt.
    + exists r. by rewrite Z.add_0_r.
    + destruct (Hk k) as (r' & ? & He); [lia|]. exists r'. split; [done|].
      rewrite <-He. f_equal. lia.
Qed.
Lemma open_loop_read_entries image w n i recs :
  read_entries image n i = Ok recs ->
  open_loop image w n i = ok_or (lookup_name w recs) NotFound.
Proof.
  revert i recs. induction n as [|n IH]; intros i recs; cbn [read_entries open_loop].
  - by intros [= <-].
  - intros (r & Hr & (rs & Hrs & [= <-])%bind_Ok)%bind_Ok. rewrite Hr. cbn.
    case_bool_decide; [done|]. by apply IH.
Qed.
Lemma list_loop_read_entries {St} (f : St -> FileRecord -> St) image n i recs st :
  read_entries image n i = Ok recs ->
  list_loop f image n i st = (foldl f st recs, Ok tt).
Proof.
  revert i recs st. induction n as [|n IH]; intros i recs st; cbn [read_entries list_loop].
  - by intros [= <-].
  - intros (r & Hr & (rs & Hrs & [= <-])%bind_Ok)%bind_Ok. rewrite Hr. cbn. by apply IH.
Qed.

Lemma files_of_entry image recs i :
  files_of image = Ok recs -> 0 <= i -> entry image i = ok_or (recs !! Z.to_nat i) NotFound.
Proof.
  intros (h & Hh & Hrecs)%bind_Ok Hi. unfold entry. rewrite Hh. cbn.
  destruct (read_entries_lookup _ _ _ _ Hrecs) as [Hl Hk]. branch as Hb.
  - by rewrite lookup_ge_None_2 by lia.
  - destruct (Hk (Z.to_nat i)) as (r & -> & He); [lia|]. cbn. rewrite <-He. f_equal. lia.
Qed.
Lemma files_of_header image recs :
  bytes_ok image -> files_of image = Ok recs -> exists h, header image = Ok h /\ file_count h = zlen recs.
Proof.
  intros Hok (h & Hh & Hrecs)%bind_Ok. exists h. split; [done|].
  destruct (read_entries_lookup _ _ _ _ Hrecs) as [Hl _]. pose proof (header_cases image Hok) as Hc.
  rewrite Hh in Hc. destruct Hc as [Hc _]. unfold zlen. rewrite Hl. unfold is_u16 in Hc. lia.
Qed.

Lemma files_of_ok image recs : bytes_ok image -> files_of image = Ok recs -> Forall (record_ok image) recs.
Proof.
  intros Hok (h & Hh & Hrecs)%bind_Ok. destruct (read_entries_lookup _ _ _ _ Hrecs) as [Hl Hk].
  apply Forall_lookup. intros k rec Hr. pose proof (lookup_lt_Some _ _ _ Hr).
  destruct (Hk k) as (r & Hr' & He); [lia|]. pose proof (entry_at_cases image (0 + Z.of_nat k) Hok ltac:(lia)) as Hc.
  rewrite He in Hc. by simplify_eq.
Qed.

(** A one-file image, for the concrete instances of the properties: [motd] is
    "Hi!", mode 0o100644. *)
Definition sample_image : bytes :=
  str "LFS1" ++ [1; 0; 1; 0] ++ [0; 0; 0; 0] ++
  [4; 0; 0; 0] ++ [76; 0; 0; 0] ++ [3; 0; 0; 0] ++ [164; 129; 0; 0] ++
  str "motd" ++ zreplicate 44 0 ++ str "Hi!".
Definition sample_record : FileRecord := mkFileRecord (str "motd") 33188 76 (str "Hi!").
Lemma sample_image_ok : bytes_ok sample_image.
Proof. by apply (bool_decide_unpack _). Qed.

(** ** Properties *)

(** C1: reading an LFS1 image is memory safe and total: whatever the bytes of
    the image are, [header], [entry], [open] and [list] never panic (no slice
    index out of range, no arithmetic overflow), and every record that [open]
    or [entry] returns has a UTF-8 name of 1 to 48 bytes and data that is
    exactly the subslice of the image at its offset. *)
Theorem fs_memory_safe (image : bytes) :
  bytes_ok image ->
  header image <> Panic /\
  (forall i, 0 <= i -> entry image i <> Panic) /\
  (forall w, open image w <> Panic) /\
  (forall St (f : St -> FileRecord -> St) st, (list f image st).2 <> Panic) /\
  (forall i rec, 0 <= i -> entry image i = Ok rec -> record_ok image rec) /\
  (forall w rec, open image w = Ok rec -> record_ok image rec /\ name rec = w).
Proof.
  intros Hok. pose proof (header_cases image Hok) as Hh.
  assert (forall i rec, 0 <= i -> entry_at image i = Ok rec -> record_ok image rec) as Hrec.
  { intros i rec Hi He. pose proof (entry_at_cases image i Hok Hi). by rewrite He in *. }
  unfold entry, open, list.
  destruct (header image) as [h|e|]; cbn; [|by split_and!|done].
  split_and!; try done.
  - intros i Hi. branch as Hb; [done|].
    pose proof (entry_at_cases image i Hok Hi). by destruct (entry_at image i).
  - intros w. by apply open_loop_no_panic.
  - intros St f st. by apply list_loop_no_panic.
  - intros i rec Hi. branch as Hb; [done|]. eauto.
  - intros w rec (j & Hj & He & Hn & _)%open_loop_Ok. split; [|done].
    apply (Hrec j); [lia|done].
Qed.

(** C2: [open] finds the first entry with the wanted name.  It returns [rec]
    exactly when some table position below [file_count] decodes to [rec], the
    record carries the wanted name, and every earlier position decodes to a
    record with another name; it answers [NotFound] exactly when every
    position decodes to another name; and it answers any other error exactly
    when that is the error of the header or of the first undecodable entry,
    met before the name. *)
Theorem fs_open_first_match (image wanted : bytes) :
  bytes_ok image ->
  (forall rec, open image wanted = Ok rec <->
     exists h j, header image = Ok h /\ 0 <= j < file_count h /\
       entry_at image j = Ok rec /\ name rec = wanted /\ all_other image wanted 0 j) /\
  (open image wanted = Err NotFound <->
     exists h, header image = Ok h /\ all_other image wanted 0 (file_count h)) /\
  (forall e, e <> NotFound -> open image wanted = Err e <->
     header image = Err e \/
     exists h j, header image = Ok h /\ 0 <= j < file_count h /\
       entry_at image j = Err e /\ all_other image wanted 0 j).
Proof.
  intros Hok. pose proof (header_cases image Hok) as Hh. unfold open.
  destruct (header image) as [h|e|]; cbn; [|naive_solver|done].
  destruct Hh as [Hc _]. assert (Z.of_nat (Z.to_nat (file_count h)) = file_count h) as Hn by ilia.
  split_and!.
  - intros rec. rewrite open_loop_Ok, Hn. naive_solver.
  - rewrite open_loop_Err, Hn by (done || lia). naive_solver.
  - intros e He. rewrite open_loop_Err, Hn by (done || lia). naive_solver.
Qed.

(** C3: the three readers of fs.rs implement one abstract directory.  When
    every entry of the image decodes, [files_of] is the list of records;
    [open] is the search for a name in that list, [entry] is indexing into
    it, and [list] hands its callback exactly these records, in order. *)
Theorem fs_refines_directory (image : bytes) (recs : Datatypes.list FileRecord) :
  files_of image = Ok recs ->
  (forall w, open image w = ok_or (lookup_name w recs) NotFound) /\
  (forall i, 0 <= i -> entry image i = ok_or (recs !! Z.to_nat i) NotFound) /\
  (forall St (f : St -> FileRecord -> St) st, list f image st = (foldl f st recs, Ok tt)).
Proof.
  intros Hf. pose proof Hf as (h & Hh & Hrecs)%bind_Ok. unfold open, list. rewrite Hh. cbn.
  split_and!.
  - intros w. by apply open_loop_read_entries.
  - intros i Hi. by apply files_of_entry.
  - intros St f st. by apply list_loop_read_entries.
Qed.

Lemma fs_memory_safe_witness :
  open sample_image (str "motd") = Ok sample_record /\ record_ok sample_image sample_record.
Proof.
  split; [reflexivity|].
  exact (proj1 (proj2 (proj2 (proj2 (proj2 (proj2 (fs_memory_safe sample_image sample_image_ok)))))
    (str "motd") sample_record eq_refl)).
Defined.

Lemma fs_open_first_match_witness :
  bytes_ok sample_image /\ open sample_image (str "sh") = Err NotFound /\
  exists h, header sample_image = Ok h /\ all_other sample_image (str "sh") 0 (file_count h).
Proof.
  split_and!; [exact sample_image_ok|reflexivity|].
  apply (proj1 (proj2 (fs_open_first_match sample_image (str "sh") sample_image_ok))).
  reflexivity.
Defined.

Lemma fs_refines_directory_witness :
  files_of sample_image = Ok [sample_record] /\
  entry sample_image 1 = ok_or ([sample_record] !! 1%nat) NotFound.
Proof.
  split; [reflexivity|].
  apply (proj1 (proj2 (fs_refines_directory sample_image [sample_record] eq_refl)) 1).
  lia.
Defined.
End fs.
