(* ===== verification/Lfs1.v ===== *)
(** * The ramdisk builder (build.rs)

    [build_lfs1] lays the files out as an LFS1 image.  The theorem of this
    file ties the builder to the kernel's reader fs.rs: the directory that the
    kernel reads back is the list of files that was packed. *)
From S2P Require Import Prelude Utf8 Fs.

Module build.
Record BuildFile := mkBuildFile { name : bytes; mode : Z; data : bytes }.

Definition ENTRY_SIZE : Z := 64.
Definition NAME_CAP : Z := 48.
Definition header_size : Z := 12.

(** The loop body for file [i], without the final [blob.extend_from_slice]. *)
Definition write_entry (blob : bytes) (i cursor : Z) (file : BuildFile) : outcome Empty_set bytes :=
  let entry_off := header_size + i * ENTRY_SIZE in
  let name_len := zlen (name file) mod 2 ^ 16 in
  let offset := cursor mod 2 ^ 32 in
  let size := zlen (data file) mod 2 ^ 32 in
  blob ← copy_from_slice blob entry_off (entry_off + 2) (to_le 2 name_len);
  blob ← copy_from_slice blob (entry_off + 4) (entry_off + 8) (to_le 4 offset);
  blob ← copy_from_slice blob (entry_off + 8) (entry_off + 12) (to_le 4 size);
  blob ← copy_from_slice blob (entry_off + 12) (entry_off + 14) (to_le 2 (mode file));
  copy_from_slice blob (entry_off + 16) (entry_off + 16 + zlen (name file)) (name file).

Fixpoint write_files (blob : bytes) (i cursor : Z) (files : list BuildFile) : outcome Empty_set bytes :=
  match files with
  | [] => Ok blob
  | file :: files =>
    if NAME_CAP <? zlen (name file) then Panic else
    blob ← write_entry blob i cursor file;
    write_files (blob ++ data file) (i + 1) (cursor + zlen (data file)) files
  end.

Definition build_lfs1 (files : list BuildFile) : outcome Empty_set bytes :=
  let table_size := zlen files * ENTRY_SIZE in
  let blob := zreplicate (header_size + table_size) 0 in
  blob ← copy_from_slice blob 0 4 (str "LFS1");
  blob ← copy_from_slice blob 4 6 (to_le 2 1);
  blob ← copy_from_slice blob 6 8 (to_le 2 (zlen files mod 2 ^ 16));
  write_files blob 0 (header_size + table_size) files.

(** ** The image as a concatenation *)

Definition entry_block (cursor : Z) (f : BuildFile) : bytes :=
  splice (splice (splice (splice (splice (zreplicate 64 0)
    0 (to_le 2 (zlen (name f) mod 2 ^ 16)))
    4 (to_le 4 (cursor mod 2 ^ 32)))
    8 (to_le 4 (zlen (data f) mod 2 ^ 32)))
    12 (to_le 2 (mode f)))
    16 (name f).

Fixpoint blocks (cursor : Z) (files : list BuildFile) : bytes :=
  match files with
  | [] => []
  | f :: files => entry_block cursor f ++ blocks (cursor + zlen (data f)) files
  end.
Definition datas (files : list BuildFile) : bytes := concat (map data files).

Definition header_block (files : list BuildFile) : bytes :=
  str "LFS1" ++ to_le 2 1 ++ to_le 2 (zlen files mod 2 ^ 16) ++ zreplicate 4 0.

(** A file that LFS1 can represent. *)
Definition file_ok (f : BuildFile) : Prop :=
  is_str (name f) /\ 1 <= zlen (name f) <= NAME_CAP /\ bytes_ok (name f) /\
  is_u16 (mode f) /\ bytes_ok (data f).

Lemma copy_from_slice_mid {E} (p e q src : bytes) a b :
  0 <= a -> a + zlen src = b -> b <= zlen e ->
  @copy_from_slice E _ (p ++ e ++ q) (zlen p + a) (zlen p + b) src
  = Ok (p ++ splice e a src ++ q).
Proof.
  intros. pose proof (zlen_nonneg q). pose proof (zlen_nonneg p).
  rewrite copy_from_slice_in by (rewrite ?zlen_app; lia).
  rewrite splice_app_skip, splice_app_l by lia. done.
Qed.

Lemma zlen_entry_block c f : zlen (name f) <= NAME_CAP -> zlen (entry_block c f) = 64.
Proof.
  unfold NAME_CAP, entry_block. intros. pose proof (zlen_nonneg (name f)). zlens.
Qed.

Lemma write_entry_mid p q i cursor f :
  zlen p = header_size + i * ENTRY_SIZE -> zlen (name f) <= NAME_CAP ->
  write_entry (p ++ zreplicate 64 0 ++ q) i cursor f = Ok (p ++ entry_block cursor f ++ q).
Proof.
  intros Hp Hn. unfold write_entry. rewrite <-Hp. unfold NAME_CAP in Hn.
  pose proof (zlen_nonneg (name f)) as Hnn.
  rewrite <-(Z.add_0_r (zlen p)) at 1.
  rewrite copy_from_slice_mid by zlens. cbn [mbind outcome_bind].
  rewrite !copy_from_slice_mid by zlens. cbn [mbind outcome_bind].
  rewrite !copy_from_slice_mid by zlens. cbn [mbind outcome_bind].
  rewrite !copy_from_slice_mid by zlens. cbn [mbind outcome_bind].
  rewrite <-Z.add_assoc, copy_from_slice_mid by zlens. done.
Qed.

Lemma write_files_layout p i cursor files tail :
  zlen p = header_size + i * ENTRY_SIZE ->
  Forall (fun f => zlen (name f) <= NAME_CAP) files ->
  write_files (p ++ zreplicate (zlen files * 64) 0 ++ tail) i cursor files
  = Ok (p ++ blocks cursor files ++ tail ++ datas files).
Proof.
  revert p i cursor tail. induction files as [|f files IH]; intros p i cursor tail Hp Hn.
  - cbn. by rewrite app_nil_r.
  - inversion_clear Hn as [|? ? Hf Hfs]. cbn [write_files blocks].
    branch as Hb; [apply Z.ltb_lt in Hb; lia|].
    replace (zreplicate (zlen (f :: files) * 64) 0)
      with (zreplicate 64 0 ++ zreplicate (zlen files * 64) 0).
    2: { unfold zreplicate. rewrite <-replicate_add. f_equal. unfold zlen. cbn [length]. lia. }
    rewrite <-app_assoc, write_entry_mid by done. cbn [mbind outcome_bind].
    replace ((p ++ entry_block cursor f ++ zreplicate (zlen files * 64) 0 ++ tail) ++ data f)
      with ((p ++ entry_block cursor f) ++ zreplicate (zlen files * 64) 0 ++ (tail ++ data f))
      by by rewrite <-!app_assoc.
    rewrite IH; [|rewrite zlen_app, zlen_entry_block, Hp by done; unfold ENTRY_SIZE; lia|done].
    unfold datas. cbn. by rewrite <-!app_assoc.
Qed.

Lemma build_lfs1_layout files :
  Forall (fun f => zlen (name f) <= NAME_CAP) files ->
  build_lfs1 files = Ok (header_block files ++
    blocks (header_size + zlen files * ENTRY_SIZE) files ++ datas files).
Proof.
  intros Hn. unfold build_lfs1, header_size, ENTRY_SIZE.
  pose proof (zlen_nonneg files) as Hnn.
  replace (zreplicate (12 + zlen files * 64) 0)
    with (zreplicate 12 0 ++ zreplicate (zlen files * 64) 0).
  2: { unfold zreplicate. rewrite <-replicate_add. f_equal. lia. }
  change (str "LFS1") with [76; 70; 83; 49].
  do 3 (rewrite copy_from_slice_in by zlens; cbn [mbind outcome_bind];
        rewrite splice_app_l by zlens).
  replace (splice _ 6 _) with (header_block files) by done.
  pose proof (write_files_layout (header_block files) 0 (12 + zlen files * 64) files []) as H.
  rewrite app_nil_r in H. apply H; done.
Qed.

(** Read a field back out of the chain of writes that made the entry. *)
Ltac field_of_block :=
  rewrite !zslice_splice_other by zlens; rewrite zslice_splice_same by zlens.

Lemma entry_block_fields c f :
  zlen (name f) <= NAME_CAP ->
  zslice (entry_block c f) 0 2 = to_le 2 (zlen (name f) mod 2 ^ 16) /\
  zslice (entry_block c f) 4 8 = to_le 4 (c mod 2 ^ 32) /\
  zslice (entry_block c f) 8 12 = to_le 4 (zlen (data f) mod 2 ^ 32) /\
  zslice (entry_block c f) 12 14 = to_le 2 (mode f) /\
  zslice (entry_block c f) 16 (16 + zlen (name f)) = name f.
Proof.
  unfold NAME_CAP, entry_block. intros Hn. pose proof (zlen_nonneg (name f)).
  split_and!; [field_of_block..|]; try done.
  by rewrite zslice_splice_same by zlens.
Qed.

Lemma decode_entry_block image cursor f :
  file_ok f -> 0 <= cursor -> cursor + zlen (data f) <= zlen image -> zlen image < 2 ^ 32 ->
  zslice image cursor (cursor + zlen (data f)) = data f ->
  fs.decode_entry image (entry_block cursor f)
  = Ok (fs.mkFileRecord (name f) (mode f) cursor (data f)).
Proof.
  intros (Hstr & Hn & _ & Hm & _) Hc Hd Hi Hdata.
  destruct (entry_block_fields cursor f) as (F1 & F2 & F3 & F4 & F5); [lia|].
  pose proof (zlen_entry_block cursor f ltac:(lia)) as He. unfold NAME_CAP in Hn.
  pose proof (zlen_nonneg (data f)) as Hdn.
  unfold fs.decode_entry. rewrite !read_le_in by lia.
  cbn [mbind outcome_bind].
  change (0 + Z.of_nat 2) with 2. change (4 + Z.of_nat 4) with 8.
  change (8 + Z.of_nat 4) with 12. change (12 + Z.of_nat 2) with 14.
  rewrite F1, F2, F3, F4, !from_le_to_le. change (256 ^ Z.of_nat 2) with (2 ^ 16).
  change (256 ^ Z.of_nat 4) with (2 ^ 32). rewrite !Z.mod_mod by lia.
  rewrite (Z.mod_small (zlen (name f))), (Z.mod_small cursor), (Z.mod_small (zlen (data f))),
    (Z.mod_small (mode f)) by ilia.
  branch as Hb; [unfold fs.NAME_CAP in Hb; lia|].
  rewrite sub_slice_in by lia. cbn [mbind outcome_bind]. rewrite F5.
  unfold is_str in Hstr. rewrite Hstr. cbn [ok_or mbind outcome_bind].
  unfold checked_add. rewrite (proj2 (Z.leb_le _ _)) by ilia. cbn [ok_or mbind outcome_bind].
  branch as Hb2; [lia|]. rewrite sub_slice_in by lia. cbn. by rewrite Hdata.
Qed.

(** The records that the kernel should see for the packed files. *)
Fixpoint records (cursor : Z) (files : list BuildFile) : list fs.FileRecord :=
  match files with
  | [] => []
  | f :: files =>
    fs.mkFileRecord (name f) (mode f) cursor (data f) :: records (cursor + zlen (data f)) files
  end.

Lemma zlen_blocks c files :
  Forall file_ok files -> zlen (blocks c files) = zlen files * 64.
Proof.
  intros H. revert c. induction H as [|f files (_ & Hn & _) _ IH]; intros c; [done|].
  cbn [blocks]. rewrite zlen_app, zlen_entry_block, IH, zlen_cons by lia. lia.
Qed.

Lemma read_entries_blocks image files p q a b i cursor :
  image = p ++ blocks cursor files ++ q -> zlen p = fs.HEADER_SIZE + i * fs.ENTRY_SIZE ->
  image = a ++ datas files ++ b -> zlen a = cursor ->
  Forall file_ok files -> zlen image < 2 ^ 32 -> 0 <= i ->
  fs.read_entries image (length files) i = Ok (records cursor files).
Proof.
  revert p a i cursor. induction files as [|f files IH]; intros p a i cursor Hp Hpl Ha Hal Hok Hlen Hi;
    [done|].
  inversion_clear Hok as [|? ? Hf Hfs]. pose proof Hf as (_ & Hn & _).
  cbn [length fs.read_entries records blocks]. unfold datas in Ha. cbn in Ha. fold (datas files) in Ha.
  unfold fs.HEADER_SIZE, fs.ENTRY_SIZE in Hpl.
  cbn [blocks] in Hp. rewrite <-app_assoc in Ha, Hp.
  assert (zlen image = zlen p + 64 + zlen (blocks (cursor + zlen (data f)) files ++ q)) as Hl1
    by (rewrite Hp, !zlen_app, zlen_entry_block by lia; lia).
  assert (zlen image = cursor + zlen (data f) + zlen (datas files ++ b)) as Hl2
    by (rewrite Ha, !zlen_app; lia).
  pose proof (zlen_nonneg (blocks (cursor + zlen (data f)) files ++ q)).
  pose proof (zlen_nonneg (datas files ++ b)). pose proof (zlen_nonneg a).
  pose proof (zlen_nonneg (data f)).
  assert (fs.entry_at image i = Ok (fs.mkFileRecord (name f) (mode f) cursor (data f))) as He.
  { unfold fs.entry_at, fs.HEADER_SIZE, fs.ENTRY_SIZE, checked_mul, checked_add.
    rewrite !(proj2 (Z.leb_le _ _)) by ilia. cbn [ok_or mbind outcome_bind].
    rewrite !(proj2 (Z.leb_le _ _)) by ilia. cbn [ok_or mbind outcome_bind].
    rewrite !(proj2 (Z.leb_le _ _)) by ilia. cbn [ok_or mbind outcome_bind].
    branch as Hb; [lia|]. rewrite sub_slice_in by lia. cbn [mbind outcome_bind].
    replace (zslice image (12 + i * 64) _) with (entry_block cursor f).
    - apply decode_entry_block; try done; try lia.
      rewrite Ha, <-Hal. apply zslice_app_mid.
    - rewrite Hp, <-Hpl, <-(zlen_entry_block cursor f) by lia. symmetry. apply zslice_app_mid. }
  rewrite He. cbn [mbind outcome_bind].
  rewrite (IH (p ++ entry_block cursor f) (a ++ data f) (i + 1) (cursor + zlen (data f)));
    try done; try lia.
  - by rewrite Hp, <-!app_assoc.
  - rewrite zlen_app, zlen_entry_block by lia. unfold fs.HEADER_SIZE, fs.ENTRY_SIZE. lia.
  - by rewrite Ha, <-!app_assoc.
  - rewrite zlen_app. lia.
Qed.

Lemma zlen_header_block files : zlen (header_block files) = 12.
Proof. unfold header_block. change (str "LFS1") with [76; 70; 83; 49]. zlens. Qed.

(** A name is looked up in the packed directory as in the list of files. *)
Lemma lookup_name_records cursor files i f :
  files !! i = Some f ->
  (forall j g, (j < i)%nat -> files !! j = Some g -> name g <> name f) ->
  exists off, fs.lookup_name (name f) (records cursor files)
    = Some (fs.mkFileRecord (name f) (mode f) off (data f)).
Proof.
  unfold fs.lookup_name.
  revert cursor i. induction files as [|g files IH]; intros cursor i Hi Hfirst; [done|].
  cbn [records List.find fs.name]. destruct i as [|i].
  - injection Hi as ->. rewrite bool_decide_true by done. eauto.
  - rewrite bool_decide_false by (apply (Hfirst 0%nat); [lia|done]).
    apply (IH _ i Hi). intros j h Hj Hh. apply (Hfirst (S j)); [lia|done].
Qed.

Lemma image_files_of files :
  Forall file_ok files -> zlen files < 2 ^ 16 ->
  let cursor := header_size + zlen files * ENTRY_SIZE in
  let image := header_block files ++ blocks cursor files ++ datas files in
  zlen image < 2 ^ 32 ->
  fs.header image = Ok (fs.mkFsHeader (zlen files)) /\
  fs.files_of image = Ok (records cursor files).
Proof.
  intros Hok Hn cursor image Hlen. unfold header_size, ENTRY_SIZE in cursor.
  pose proof (zlen_nonneg files) as Hf0. pose proof (zlen_nonneg (datas files)) as Hd0.
  pose proof (zlen_header_block files) as Hh. pose proof (zlen_blocks cursor files Hok) as Hb.
  assert (zlen image = cursor + zlen (datas files)) as Hl
    by (unfold image; rewrite !zlen_app, Hh, Hb; lia).
  assert (fs.header image = Ok (fs.mkFsHeader (zlen files))) as Hhdr.
  { unfold fs.header, fs.HEADER_SIZE, fs.ENTRY_SIZE. branch as Hs; [lia|].
    rewrite sub_slice_in by lia. cbn [mbind outcome_bind].
    replace (zslice image 0 4) with (str "LFS1") by done. cbn [bool_decide negb].
    rewrite !read_le_in by lia. cbn [mbind outcome_bind].
    rewrite bool_decide_true by done. cbn [negb].
    replace (from_le (zslice image 4 _)) with 1 by done.
    replace (from_le (zslice image 6 _)) with (from_le (to_le 2 (zlen files mod 2 ^ 16))) by done.
    rewrite from_le_to_le. change (256 ^ Z.of_nat 2) with (2 ^ 16).
    rewrite Z.mod_mod, Z.mod_small by lia.
    change (1 =? fs.VERSION) with true. cbn [negb].
    unfold checked_mul, checked_add.
    rewrite (proj2 (Z.leb_le _ _)) by ilia. cbn [ok_or mbind outcome_bind].
    rewrite (proj2 (Z.leb_le _ _)) by ilia. cbn [ok_or mbind outcome_bind].
    branch as Ht; [lia|done]. }
  split; [done|]. unfold fs.files_of. rewrite Hhdr. cbn [mbind outcome_bind fs.file_count].
  unfold zlen at 1. rewrite Nat2Z.id.
  apply (read_entries_blocks image files (header_block files) (datas files)
    (header_block files ++ blocks cursor files) []); try done.
  - unfold image. by rewrite app_nil_r, <-app_assoc.
  - rewrite zlen_app, Hh, Hb. unfold cursor. lia.
Qed.

Lemma image_bytes_ok files cursor :
  Forall file_ok files -> bytes_ok (header_block files ++ blocks cursor files ++ datas files).
Proof.
  intros Hok. rewrite !bytes_ok_app. split_and!.
  - unfold header_block. rewrite !bytes_ok_app. split_and!; auto with leon.
    + by apply (bool_decide_unpack _).
    + apply bytes_ok_zreplicate. ilia.
  - revert cursor. induction Hok as [|f files (_ & _ & Hn & _ & Hd) _ IH]; intros c; [constructor|].
    cbn [blocks]. apply bytes_ok_app. split; [|apply IH]. unfold entry_block.
    assert (is_u8 0) by ilia. auto 10 with leon.
  - unfold datas. induction Hok as [|f files (_ & _ & _ & _ & Hd) _ IH]; cbn; [constructor|].
    by apply bytes_ok_app.
Qed.

(** ** Properties *)

(** C4: the ramdisk round trip.  Packing files that LFS1 can represent (UTF-8
    names of 1 to 48 bytes, 16-bit modes), fewer than 2^16 of them and less
    than 4 GiB in all, does not panic; the kernel reads back from the image
    exactly the packed directory, in order, with every name, mode and content
    unchanged; and opening a name yields the first file packed under it. *)
Theorem build_lfs1_reads_back (files : list BuildFile) :
  Forall file_ok files -> zlen files < 2 ^ 16 ->
  header_size + zlen files * ENTRY_SIZE + zlen (datas files) < 2 ^ 32 ->
  exists image,
    build_lfs1 files = Ok image /\ bytes_ok image /\
    (exists recs, fs.files_of image = Ok recs /\
       map (fun r => mkBuildFile (fs.name r) (fs.mode r) (fs.data r)) recs = files) /\
    (forall i f, files !! i = Some f ->
       (forall j g, (j < i)%nat -> files !! j = Some g -> name g <> name f) ->
       exists off, fs.open image (name f)
         = Ok (fs.mkFileRecord (name f) (mode f) off (data f))).
Proof.
  intros Hok Hn Hlen. set (cursor := header_size + zlen files * ENTRY_SIZE) in *.
  exists (header_block files ++ blocks cursor files ++ datas files).
  destruct (image_files_of files Hok Hn) as [Hhdr Hfiles].
  { rewrite !zlen_app, zlen_header_block, zlen_blocks by done.
    unfold cursor, header_size, ENTRY_SIZE in Hlen. lia. }
  fold cursor in Hhdr, Hfiles. split_and!.
  - apply build_lfs1_layout. revert Hok. apply Forall_impl. intros f (_ & ? & _). lia.
  - by apply image_bytes_ok.
  - eexists. split; [exact Hfiles|]. fold cursor. generalize cursor. clear.
    induction files as [|[nm m d] files IH]; intros c; [done|]. cbn. by rewrite IH.
  - intros i f Hi Hfirst.
    destruct (lookup_name_records cursor files i f Hi Hfirst) as (off & Hoff).
    exists off. apply bind_Ok in Hfiles as (h & Hh & Hr). unfold fs.open. fold cursor. rewrite Hh.
    cbn [mbind outcome_bind]. rewrite (fs.open_loop_read_entries _ _ _ _ _ Hr).
    by rewrite Hoff.
Qed.

Lemma build_lfs1_reads_back_witness :
  let files := [mkBuildFile (str "initrd.txt") 33188 (str "LeonOS 3 ramdisk");
                mkBuildFile (str "sh") 33261 [127; 69; 76; 70]] in
  exists image, build_lfs1 files = Ok image /\
    exists off, fs.open image (str "sh") = Ok (fs.mkFileRecord (str "sh") 33261 off [127; 69; 76; 70]).
Proof.
  intros files.
  destruct (build_lfs1_reads_back files) as (image & Hb & _ & _ & Hopen).
  - repeat constructor; by apply (bool_decide_unpack _).
  - reflexivity.
  - reflexivity.
  - exists image. split; [exact Hb|].
    apply (Hopen 1%nat (mkBuildFile (str "sh") 33261 [127; 69; 76; 70])); [reflexivity|].
    intros [|j] g Hj Hg; [|lia]. injection Hg as <-. discriminate.
Defined.
End build.
