(* ===== verification/Elf.v ===== *)
(** * The ELF64 parser (kernel/src/elf.rs)

    [parse_elf64] overlays two [repr(C)] structures on the image with
    [read_unaligned] and collects the PT_LOAD program headers.  A raw read
    outside the image is undefined behaviour; the model makes it [Panic], so
    the safety theorem also excludes it. *)
From S2P Require Import Prelude Utf8.

Module elf.
Record LoadSegment := mkLoadSegment {
  vaddr : Z; mem_size : Z; file_offset : Z; file_size : Z; flags : Z }.

Record ElfImage := mkElfImage {
  img_entry : Z; img_e_type : Z; segments : list LoadSegment }.

Inductive ElfError :=
| TooSmall | BadMagic | UnsupportedClass | UnsupportedEndian | UnsupportedMachine | BadHeader.

Record Elf64Ehdr := mkElf64Ehdr {
  e_ident : bytes;
  e_type : Z; e_machine : Z; e_version : Z;
  e_entry : Z; e_phoff : Z; e_shoff : Z;
  e_flags : Z; e_ehsize : Z; e_phentsize : Z; e_phnum : Z;
  e_shentsize : Z; e_shnum : Z; e_shstrndx : Z }.

Record Elf64Phdr := mkElf64Phdr {
  p_type : Z; p_flags : Z; p_offset : Z; p_vaddr : Z; p_paddr : Z;
  p_filesz : Z; p_memsz : Z; p_align : Z }.

Definition EI_CLASS : Z := 4.
Definition EI_DATA : Z := 5.
Definition ELFCLASS64 : Z := 2.
Definition ELFDATA2LSB : Z := 1.
Definition EM_X86_64 : Z := 62.
Definition PT_LOAD : Z := 1.

(** [size_of::<Elf64Ehdr>()] and [size_of::<Elf64Phdr>()]. *)
Definition EHDR_SIZE : Z := 64.
Definition PHDR_SIZE : Z := 56.

(** The [n]-byte field at offset [off] of a structure. *)
Definition field (b : bytes) (off : Z) (n : nat) : Z :=
  from_le (zslice b off (off + Z.of_nat n)).

(** The bytes of a [repr(C)] header as its fields. *)
Definition ehdr_of_bytes (b : bytes) : Elf64Ehdr :=
  mkElf64Ehdr (zslice b 0 16)
    (field b 16 2) (field b 18 2) (field b 20 4)
    (field b 24 8) (field b 32 8) (field b 40 8)
    (field b 48 4) (field b 52 2) (field b 54 2) (field b 56 2)
    (field b 58 2) (field b 60 2) (field b 62 2).
Definition phdr_of_bytes (b : bytes) : Elf64Phdr :=
  mkElf64Phdr (field b 0 4) (field b 4 4) (field b 8 8) (field b 16 8) (field b 24 8)
    (field b 32 8) (field b 40 8) (field b 48 8).

(** [read_unaligned::<T>(image.as_ptr().add(off))] for the two header types. *)
Definition read_ehdr {E} (image : bytes) (off : Z) : outcome E Elf64Ehdr :=
  b ← sub_slice image off (off + EHDR_SIZE); Ok (ehdr_of_bytes b).
Definition read_phdr {E} (image : bytes) (off : Z) : outcome E Elf64Phdr :=
  b ← sub_slice image off (off + PHDR_SIZE); Ok (phdr_of_bytes b).

Definition segment_of (ph : Elf64Phdr) : LoadSegment :=
  mkLoadSegment (p_vaddr ph) (p_memsz ph) (p_offset ph) (p_filesz ph) (p_flags ph).

(** [for i in 0..phnum]: [n] iterations remain; [segs] is the vector so far. *)
Fixpoint load_segments (image : bytes) (phoff phentsize : Z) (n : nat) (i : Z)
    (segs : list LoadSegment) : outcome ElfError (list LoadSegment) :=
  match n with
  | O => Ok segs
  | S n =>
    delta ← mul64 i phentsize;
    off ← add64 phoff delta;
    ph ← read_phdr image off;
    load_segments image phoff phentsize n (i + 1)
      (if p_type ph =? PT_LOAD then segs ++ [segment_of ph] else segs)
  end.

Definition parse_elf64 (image : bytes) : outcome ElfError ElfImage :=
  if zlen image <? EHDR_SIZE then Err TooSmall else
  ehdr ← read_ehdr image 0;
  magic ← sub_slice (e_ident ehdr) 0 4;
  if negb (bool_decide (magic = 0x7F :: str "ELF")) then Err BadMagic else
  class ← index (e_ident ehdr) EI_CLASS;
  if negb (class =? ELFCLASS64) then Err UnsupportedClass else
  endian ← index (e_ident ehdr) EI_DATA;
  if negb (endian =? ELFDATA2LSB) then Err UnsupportedEndian else
  if negb (e_machine ehdr =? EM_X86_64) then Err UnsupportedMachine else
  if negb (e_phentsize ehdr =? PHDR_SIZE) then Err BadHeader else
  let phoff := e_phoff ehdr in
  let phnum := e_phnum ehdr in
  let phentsize := e_phentsize ehdr in
  table_len ← ok_or (checked_mul phnum phentsize) BadHeader;
  end_ ← ok_or (checked_add phoff table_len) BadHeader;
  if zlen image <? end_ then Err BadHeader else
  segs ← load_segments image phoff phentsize (Z.to_nat phnum) 0 [];
  Ok (mkElfImage (e_entry ehdr) (e_type ehdr) segs).

(** ** Specification: the ELF64 layout

    A header the kernel accepts, its program header table as a list, and the
    image that the table describes. *)
Definition ehdr_of (image : bytes) : Elf64Ehdr := ehdr_of_bytes (zslice image 0 EHDR_SIZE).
Definition phdr_at (image : bytes) (phoff : Z) (i : Z) : Elf64Phdr :=
  phdr_of_bytes (zslice image (phoff + i * PHDR_SIZE) (phoff + i * PHDR_SIZE + PHDR_SIZE)).
Definition phdrs_of (image : bytes) : list Elf64Phdr :=
  let h := ehdr_of image in
  map (fun i => phdr_at image (e_phoff h) (Z.of_nat i)) (seq 0 (Z.to_nat (e_phnum h))).
Definition accepted (image : bytes) : Prop :=
  let h := ehdr_of image in
  EHDR_SIZE <= zlen image /\
  take 4 (e_ident h) = 0x7F :: str "ELF" /\
  e_ident h !! 4%nat = Some ELFCLASS64 /\ e_ident h !! 5%nat = Some ELFDATA2LSB /\
  e_machine h = EM_X86_64 /\ e_phentsize h = PHDR_SIZE /\
  e_phoff h + e_phnum h * PHDR_SIZE <= zlen image.
Definition image_of (image : bytes) : ElfImage :=
  let h := ehdr_of image in
  mkElfImage (e_entry h) (e_type h)
    (map segment_of (List.filter (fun ph => p_type ph =? PT_LOAD) (phdrs_of image))).

(** ** Facts *)

Lemma field_bound b off n : bytes_ok b -> 0 <= field b off n < 256 ^ Z.of_nat n.
Proof. apply zslice_le_bound. Qed.

Lemma load_segments_spec image phoff n i segs :
  0 <= phoff -> 0 <= i -> zlen image <= i64_max ->
  phoff + (i + Z.of_nat n) * PHDR_SIZE <= zlen image ->
  load_segments image phoff PHDR_SIZE n i segs
  = Ok (segs ++ map segment_of (List.filter (fun ph => p_type ph =? PT_LOAD)
          (map (fun k => phdr_at image phoff (i + Z.of_nat k)) (seq 0 n)))).
Proof.
  unfold PHDR_SIZE. intros Hp. revert i segs.
  induction n as [|n IH]; intros i segs Hi Hl Hb; cbn [load_segments].
  - cbn. by rewrite app_nil_r.
  - rewrite mul64_small by ilia. cbn [mbind outcome_bind].
    rewrite add64_small by ilia. cbn [mbind outcome_bind].
    unfold read_phdr, PHDR_SIZE. rewrite sub_slice_in by lia. cbn [mbind outcome_bind].
    rewrite IH by lia. cbn [seq map]. rewrite Z.add_0_r. cbn [List.filter].
    unfold phdr_at at 2 4, PHDR_SIZE.
    replace (map (fun k => phdr_at image phoff (i + 1 + Z.of_nat k)) (seq 0 n))
      with (map (fun k => phdr_at image phoff (i + Z.of_nat k)) (seq 1 n)).
    + branch as Ht; cbn [map]; [by rewrite <-app_assoc|done].
    + rewrite <-seq_shift, map_map. apply map_ext. intros k. f_equal. lia.
Qed.

Lemma index_Ok {E A} (l : list A) i x :
  @index E A l i = Ok x <-> 0 <= i /\ l !! Z.to_nat i = Some x.
Proof.
  unfold index. branch as Hb; [|split; [done|lia]].
  destruct (l !! Z.to_nat i); naive_solver lia.
Qed.

(** The identification bytes are all there once the image has 64 bytes. *)
Lemma e_ident_length image :
  EHDR_SIZE <= zlen image -> length (e_ident (ehdr_of image)) = 16%nat.
Proof.
  unfold EHDR_SIZE. intros H. cbn [ehdr_of ehdr_of_bytes e_ident].
  assert (zlen (zslice (zslice image 0 64) 0 16) = 16) as Hl by zlens.
  unfold zlen in Hl. unfold ehdr_of, ehdr_of_bytes, EHDR_SIZE. cbn [e_ident]. lia.
Qed.

(** The fields of a parsed image are 64-bit words. *)
Definition seg_ok (s : LoadSegment) : Prop :=
  is_u64 (vaddr s) /\ is_u64 (mem_size s) /\ is_u64 (file_offset s) /\ is_u64 (file_size s).
Lemma segment_of_ok b : bytes_ok b -> seg_ok (segment_of (phdr_of_bytes b)).
Proof. intros Hb. split_and!; by apply (field_bound _ _ 8). Qed.
Lemma load_segments_ok image phoff phentsize n i segs segs' :
  bytes_ok image -> Forall seg_ok segs ->
  load_segments image phoff phentsize n i segs = Ok segs' -> Forall seg_ok segs'.
Proof.
  intros Hok. revert i segs. induction n as [|n IH]; intros i segs Hs; cbn [load_segments].
  - by intros [= <-].
  - intros (d & _ & (off & _ & (ph & (b & Hb & [= <-])%bind_Ok & H)%bind_Ok)%bind_Ok)%bind_Ok.
    eapply IH; [|exact H]. case_match; [|done]. apply Forall_app. split; [done|].
    constructor; [|done]. apply sub_slice_Ok in Hb as (_ & _ & ->). by apply segment_of_ok, bytes_ok_zslice.
Qed.
Lemma parse_elf64_ok image img :
  bytes_ok image -> parse_elf64 image = Ok img -> is_u64 (img_entry img) /\ Forall seg_ok (segments img).
Proof.
  intros Hok. unfold parse_elf64. branch as Hb; [done|].
  intros (h & (b & (_ & _ & ->)%sub_slice_Ok & [= <-])%bind_Ok & H)%bind_Ok.
  apply bind_Ok in H as (mg & _ & H). branch as H1 in H; [done|].
  apply bind_Ok in H as (c & _ & H). branch as H2 in H; [done|].
  apply bind_Ok in H as (d & _ & H). branch as H3 in H; [done|]. branch as H4 in H; [done|].
  branch as H5 in H; [done|]. apply bind_Ok in H as (t & _ & H). apply bind_Ok in H as (e & _ & H).
  branch as H6 in H; [done|]. apply bind_Ok in H as (segs & Hs & [= <-]). split.
  - apply (field_bound _ 24 8). by apply bytes_ok_zslice.
  - by eapply load_segments_ok; [| |exact Hs].
Qed.

(** The checks of [parse_elf64] in their order, and what it answers. *)
Definition reject (image : bytes) : option ElfError :=
  let h := ehdr_of image in
  if zlen image <? EHDR_SIZE then Some TooSmall else
  if negb (bool_decide (take 4 (e_ident h) = 0x7F :: str "ELF")) then Some BadMagic else
  if negb (e_ident h !!! 4%nat =? ELFCLASS64) then Some UnsupportedClass else
  if negb (e_ident h !!! 5%nat =? ELFDATA2LSB) then Some UnsupportedEndian else
  if negb (e_machine h =? EM_X86_64) then Some UnsupportedMachine else
  if negb (e_phentsize h =? PHDR_SIZE) then Some BadHeader else
  if zlen image <? e_phoff h + e_phnum h * PHDR_SIZE then Some BadHeader else None.
Lemma index_total {E} (l : bytes) i : 0 <= i < zlen l -> @index E Z l i = Ok (l !!! Z.to_nat i).
Proof.
  intros Hi. apply index_Ok. split; [lia|]. apply list_lookup_lookup_total_lt. unfold zlen in Hi. lia.
Qed.
Lemma parse_elf64_reject image :
  bytes_ok image -> zlen image <= i64_max ->
  parse_elf64 image = match reject image with Some e => Err e | None => Ok (image_of image) end.
Proof.
  intros Hok Hlen. unfold parse_elf64, reject, image_of, phdrs_of. cbv zeta.
  branch as Hs; [done|]. apply Z.ltb_ge in Hs. pose proof (e_ident_length image Hs) as Hid.
  assert (read_ehdr (E := ElfError) image 0 = Ok (ehdr_of image)) as ->
    by (unfold read_ehdr; by rewrite sub_slice_in by (unfold EHDR_SIZE in *; lia)).
  assert (is_u16 (e_phnum (ehdr_of image)) /\ 0 <= e_phoff (ehdr_of image) <= u64_max) as [Hn Hp].
  { pose proof (bytes_ok_zslice image 0 EHDR_SIZE Hok) as Hb.
    pose proof (field_bound _ 56 2 Hb) as H1. pose proof (field_bound _ 32 8 Hb) as H2.
    change (256 ^ Z.of_nat 2) with (2 ^ 16) in H1. change (256 ^ Z.of_nat 8) with (2 ^ 64) in H2.
    unfold ehdr_of, ehdr_of_bytes; cbn [e_phnum e_phoff]. ilia. }
  cbn [mbind outcome_bind]. generalize dependent (ehdr_of image). intros h Hid Hn Hp.
  rewrite sub_slice_in by (unfold zlen; lia). cbn [mbind outcome_bind].
  change (zslice (e_ident h) 0 4) with (take 4 (e_ident h)). branch as Hm; [done|].
  rewrite (index_total _ EI_CLASS) by (unfold EI_CLASS, zlen; lia). cbn [mbind outcome_bind].
  change (Z.to_nat EI_CLASS) with 4%nat. branch as Hc; [done|].
  rewrite (index_total _ EI_DATA) by (unfold EI_DATA, zlen; lia). cbn [mbind outcome_bind].
  change (Z.to_nat EI_DATA) with 5%nat. branch as Hd; [done|]. branch as Hmach; [done|].
  destruct (Z.eqb_spec (e_phentsize h) PHDR_SIZE) as [Hph|]; cbn [negb]; [|done].
  rewrite Hph. unfold PHDR_SIZE. unfold checked_mul.
  rewrite (proj2 (Z.leb_le _ _)) by ilia. cbn [ok_or mbind outcome_bind].
  unfold checked_add. branch as Ho; cbn [ok_or mbind outcome_bind].
  - branch as Ht; [done|]. apply Z.ltb_ge in Ht. pose proof (load_segments_spec image (e_phoff h)
      (Z.to_nat (e_phnum h)) 0 []) as Hls. unfold PHDR_SIZE in Hls. by rewrite Hls by ilia.
  - rewrite (proj2 (Z.ltb_lt _ _)); [done|]. ilia.
Qed.
Lemma parse_elf64_no_panic image : bytes_ok image -> zlen image <= i64_max -> parse_elf64 image <> Panic.
Proof. intros. rewrite parse_elf64_reject by done. by destruct (reject image). Qed.

(** Well-formed headers, for concrete images: a header with [phnum] program
    headers right behind it, and one program header. *)
Definition sample_ehdr (ty entry phnum : Z) : bytes :=
  0x7F :: str "ELF" ++ [2; 1; 1; 0] ++ zreplicate 8 0 ++ to_le 2 ty ++ to_le 2 62 ++ to_le 4 1 ++
  to_le 8 entry ++ to_le 8 64 ++ to_le 8 0 ++ to_le 4 0 ++ to_le 2 64 ++ to_le 2 56 ++
  to_le 2 phnum ++ to_le 2 0 ++ to_le 2 0 ++ to_le 2 0.
Definition sample_phdr (ty fl off va filesz memsz : Z) : bytes :=
  to_le 4 ty ++ to_le 4 fl ++ to_le 8 off ++ to_le 8 va ++ to_le 8 va ++ to_le 8 filesz ++
  to_le 8 memsz ++ to_le 8 4096.
Definition sample_elf : bytes :=
  sample_ehdr 2 0x401000 2 ++ sample_phdr 4 4 64 0 56 56 ++
  sample_phdr PT_LOAD 5 176 0x401000 1 4096 ++ [0xC3].

(** ** Properties *)

(** C5: [parse_elf64] is safe and exact.  On every image (a Rust slice is at
    most isize::MAX bytes long) it neither panics nor reads outside the image;
    and it accepts precisely the images with a 64-bit little-endian x86-64
    header, 56-byte program headers and a program header table inside the
    image, answering their entry point, type and the PT_LOAD headers of the
    table in order, field by field. *)
Theorem parse_elf64_exact (image : bytes) :
  bytes_ok image -> zlen image <= i64_max ->
  parse_elf64 image <> Panic /\
  forall img, parse_elf64 image = Ok img <-> accepted image /\ img = image_of image.
Proof.
  intros Hok Hlen. split; [by apply parse_elf64_no_panic|]. intros img.
  rewrite parse_elf64_reject by done. unfold reject, accepted. cbv zeta.
  destruct (Z.ltb_spec (zlen image) EHDR_SIZE) as [|Hs]; [naive_solver lia|].
  pose proof (e_ident_length image Hs) as Hid.
  assert (forall i, (i < 16)%nat ->
    e_ident (ehdr_of image) !! i = Some (e_ident (ehdr_of image) !!! i)) as Ht
    by (intros; apply list_lookup_lookup_total_lt; lia).
  rewrite !Ht by lia. case_bool_decide; cbn [negb]; [|naive_solver].
  repeat match goal with |- context [negb (?a =? ?b)] => destruct (Z.eqb_spec a b); cbn [negb];
    [|naive_solver congruence] end.
  destruct (Z.ltb_spec (zlen image) (e_phoff (ehdr_of image) + e_phnum (ehdr_of image) * PHDR_SIZE));
    [naive_solver lia|]. naive_solver congruence.
Qed.

Lemma parse_elf64_exact_witness :
  bytes_ok sample_elf /\
  parse_elf64 sample_elf = Ok (mkElfImage 0x401000 2 [mkLoadSegment 0x401000 4096 176 1 5]).
Proof.
  assert (bytes_ok sample_elf) as Hok by by apply (bool_decide_unpack _).
  split; [exact Hok|].
  apply (proj2 (parse_elf64_exact sample_elf Hok ltac:(vm_compute; discriminate))).
  split; [|vm_compute; reflexivity].
  repeat split; vm_compute; (reflexivity || discriminate).
Defined.
End elf.
