(* ===== verification/Alloc.v ===== *)
(** * The kernel heap (kernel/src/allocator.rs)

    A lock-free bump allocator: four atomics and a compare-exchange loop.  One
    [alloc] call is a sequence of atomic steps; the calls of several threads
    interleave arbitrarily between these steps. *)
From Stdlib Require Import Sorted.
From stdpp Require Import gmap.
From S2P Require Import Prelude.

Module allocator.
Definition HEAP_SIZE : Z := 32 * 1024 * 1024.

Record BumpAllocator := mkBumpAllocator {
  heap_start : Z; heap_end : Z; next : Z; initialized : bool }.

(** [core::alloc::Layout]: the alignment is a power of two. *)
Record Layout := mkLayout { align : Z; size : Z }.

Definition new : BumpAllocator := mkBumpAllocator 0 0 0 false.

Definition init {E} (a : BumpAllocator) (start heap_size : Z) : outcome E BumpAllocator :=
  end_ ← add64 start heap_size;
  Ok (mkBumpAllocator start end_ start true).

(** [init_heap]: [heap] is the address of the static array [HEAP]. *)
Definition init_heap {E} (a : BumpAllocator) (heap : Z) : outcome E BumpAllocator :=
  if initialized a then Ok a else init a heap HEAP_SIZE.

Definition align_up {E} (addr align : Z) : outcome E Z :=
  s ← add64 addr align;
  s ← sub64 s 1;
  m ← sub64 align 1;
  Ok (Z.land s (not64 m)).

(** Where a call of [alloc] stands: before each of its atomic operations, in
    the loop with the value of [current], and after its return. [Crashed] is a
    panic inside the call; a null result is [None]. *)
Inductive pc :=
| Idle
| CheckInit (l : Layout)
| LoadEnd (l : Layout)
| LoadNext (l : Layout) (end_ : Z)
| Loop (l : Layout) (end_ current : Z)
| Returned (l : Layout) (ptr : option Z)
| Crashed.

(** One iteration of the loop: [None] is the [return null_mut()] exits, [Some]
    the operands of the compare-exchange. *)
Definition attempt (l : Layout) (end_ current : Z) : outcome Empty_set (option (Z * Z)) :=
  alloc_start ← align_up current (align l);
  match checked_add alloc_start (size l) with
  | None => Ok None
  | Some alloc_end => Ok (if end_ <? alloc_end then None else Some (alloc_start, alloc_end))
  end.

Definition with_next (a : BumpAllocator) (n : Z) : BumpAllocator :=
  mkBumpAllocator (heap_start a) (heap_end a) n (initialized a).

(** One atomic step of [alloc]. *)
Definition alloc_step (a : BumpAllocator) (p : pc) : BumpAllocator * pc :=
  match p with
  | CheckInit l => (a, if initialized a then LoadEnd l else Returned l None)
  | LoadEnd l => (a, LoadNext l (heap_end a))
  | LoadNext l end_ => (a, Loop l end_ (next a))
  | Loop l end_ current =>
    match attempt l end_ current with
    | Ok (Some (alloc_start, alloc_end)) =>
      if next a =? current then (with_next a alloc_end, Returned l (Some alloc_start))
      else (a, Loop l end_ (next a))
    | Ok None => (a, Returned l None)
    | _ => (a, Crashed)
    end
  | _ => (a, p)
  end.

Definition running (p : pc) : bool :=
  match p with Idle | Returned _ _ | Crashed => false | _ => true end.

Definition crashed (p : pc) : bool := match p with Crashed => true | _ => false end.


Definition dealloc (a : BumpAllocator) (ptr : Z) (l : Layout) : BumpAllocator := a.

(** ** Interleaved execution

    [blocks] records every block handed out, newest first; memory is never
    reclaimed, so all of them stay live. *)
Record config := mkConfig {
  heap : BumpAllocator; threads : gmap nat pc; blocks : list (Z * Layout) }.

Inductive label := Call (t : nat) (l : Layout) | Run (t : nat).

Definition new_block (p : pc) : list (Z * Layout) :=
  match p with Returned l (Some ptr) => [(ptr, l)] | _ => [] end.

Definition layout_ok (a : BumpAllocator) (l : Layout) : Prop :=
  (exists k, 0 <= k < 64 /\ align l = 2 ^ k) /\ 0 <= size l /\
  heap_end a + align l <= u64_max.

Inductive step : config -> label -> config -> Prop :=
| step_call c t l p :
    threads c !! t = Some p -> running p = false -> p <> Crashed -> layout_ok (heap c) l ->
    step c (Call t l) (mkConfig (heap c) (<[t := CheckInit l]> (threads c)) (blocks c))
| step_run c t p a' p' :
    threads c !! t = Some p -> running p = true -> alloc_step (heap c) p = (a', p') ->
    step c (Run t) (mkConfig a' (<[t := p']> (threads c)) (new_block p' ++ blocks c)).

Inductive steps : config -> list label -> config -> Prop :=
| steps_nil c : steps c [] c
| steps_cons c l c' tr c'' : step c l c' -> steps c' tr c'' -> steps c (l :: tr) c''.

(** Start of the kernel: the heap initialised, every thread idle, no block. *)
Definition boot (a : BumpAllocator) (ts : gset nat) : config :=
  mkConfig a (gset_to_gmap Idle ts) [].

(** ** Facts *)

Lemma align_up_spec {E} x al k :
  0 <= x -> 0 <= k < 64 -> al = 2 ^ k -> x + al <= u64_max ->
  exists y, @align_up E x al = Ok y /\ y mod al = 0 /\ x <= y < x + al.
Proof.
  intros Hx Hk -> Hov. assert (0 < 2 ^ k) by (apply Z.pow_pos_nonneg; lia).
  unfold align_up. rewrite add64_small by lia. cbn [mbind outcome_bind].
  rewrite sub64_small by lia. cbn [mbind outcome_bind].
  rewrite sub64_small by lia. cbn [mbind outcome_bind].
  rewrite land_not64_ones by ilia.
  pose proof (Z.mod_pos_bound (x + 2 ^ k - 1) (2 ^ k)).
  eexists. split; [done|]. split; [|lia].
  rewrite Zminus_mod_idemp_r, Z.sub_diag. by rewrite Z.mod_0_l by lia.
Qed.

Lemma attempt_spec a l cur :
  layout_ok a l -> 0 <= cur <= heap_end a ->
  (attempt l (heap_end a) cur = Ok None) \/
  (exists s, attempt l (heap_end a) cur = Ok (Some (s, s + size l)) /\
     s mod align l = 0 /\ cur <= s < cur + align l /\ s + size l <= heap_end a).
Proof.
  intros ((k & Hk & Hal) & Hs & Hov) Hc. unfold attempt.
  destruct (@align_up_spec Empty_set cur (align l) k) as (y & -> & Hy & Hr); [lia..|].
  cbn [mbind outcome_bind]. destruct (checked_add y (size l)) as [e|] eqn:He; [|by left].
  apply checked_add_Some in He as [-> _]. branch as Hb; [by left|].
  right. exists y. split_and!; try done; lia.
Qed.

(** The state every interleaving preserves. *)
Definition block_ok (a : BumpAllocator) (b : Z * Layout) : Prop :=
  heap_start a <= b.1 /\ 0 <= size b.2 /\ b.1 + size b.2 <= next a /\ b.1 mod align b.2 = 0.
Definition above (b1 b2 : Z * Layout) : Prop := b2.1 + size b2.2 <= b1.1.
Definition pc_ok (a : BumpAllocator) (p : pc) : Prop :=
  match p with
  | CheckInit l | LoadEnd l => layout_ok a l
  | LoadNext l end_ => layout_ok a l /\ end_ = heap_end a
  | Loop l end_ current => layout_ok a l /\ end_ = heap_end a /\ heap_start a <= current <= next a
  | Crashed => False
  | _ => True
  end.
Record inv (c : config) : Prop := mkInv {
  inv_range : 0 <= heap_start (heap c) <= next (heap c) /\ next (heap c) <= heap_end (heap c);
  inv_blocks : Forall (block_ok (heap c)) (blocks c);
  inv_order : StronglySorted above (blocks c);
  inv_pcs : map_Forall (fun _ p => pc_ok (heap c) p) (threads c) }.

(** An atomic step moves [next] up or leaves it, and keeps the rest. *)
Definition grows (a a' : BumpAllocator) : Prop :=
  heap_start a' = heap_start a /\ heap_end a' = heap_end a /\ next a <= next a'.
Lemma grows_refl a : grows a a.
Proof. unfold grows. lia. Qed.
#[local] Hint Resolve grows_refl : leon.

Lemma pc_ok_grows a a' p : grows a a' -> pc_ok a p -> pc_ok a' p.
Proof.
  intros (Hs & He & Hn). unfold pc_ok, layout_ok. destruct p; rewrite ?Hs, ?He; try done.
  intuition lia.
Qed.
Lemma block_ok_grows a a' b : grows a a' -> block_ok a b -> block_ok a' b.
Proof. intros (Hs & He & Hn). unfold block_ok. rewrite Hs. intuition lia. Qed.

Lemma alloc_step_spec a p a' p' :
  0 <= heap_start a <= next a -> next a <= heap_end a ->
  pc_ok a p -> alloc_step a p = (a', p') ->
  grows a a' /\ next a' <= heap_end a' /\ pc_ok a' p' /\
  match p' with
  | Returned l (Some ptr) =>
      running p = true -> next a <= ptr /\ block_ok a' (ptr, l)
  | _ => True
  end.
Proof.
  intros Hr Hr2 Hp Hstep. destruct p as [|l|l|l e|l e cur|l o|]; cbn in Hstep.
  - injection Hstep as <- <-. by split_and!; auto with leon.
  - injection Hstep as <- <-. destruct (initialized a); by split_and!; auto with leon.
  - injection Hstep as <- <-. cbn in *. by split_and!; auto with leon.
  - injection Hstep as <- <-. destruct Hp as [Hl ->]. split_and!; auto with leon.
    cbn. split_and!; auto; lia.
  - destruct Hp as (Hl & -> & Hc).
    destruct (attempt_spec a l cur Hl) as [Ha|(s & Ha & Hal & Hs & He)]; [lia|..];
      rewrite Ha in Hstep.
    + injection Hstep as <- <-. by split_and!; auto with leon.
    + pose proof Hl as (_ & Hsz & _).
      destruct (Z.eqb_spec (next a) cur) as [Hcas|]; injection Hstep as <- <-.
      * unfold grows, block_ok, with_next. cbn. intuition lia.
      * cbn. split_and!; auto with leon; lia.
  - injection Hstep as <- <-. cbn. split_and!; auto with leon. by destruct o.
  - done.
Qed.

Lemma inv_step c l c' : inv c -> step c l c' -> inv c'.
Proof.
  intros [Hr Hb Ho Hp] Hs. destruct Hs as [c t lay p Ht Hrun Hcr Hl|c t p a' p' Ht Hrun Hstep].
  - split; cbn; try done. by apply map_Forall_insert_2.
  - destruct (alloc_step_spec (heap c) p a' p') as (Hg & Hn & Hpc & Hnew); try done;
      try tauto; [by eapply Hp|].
    split; cbn.
    + destruct Hg as (Hs & He & ?). rewrite Hs. lia.
    + apply Forall_app. split.
      * destruct p' as [| | | | |lay [ptr|]|]; cbn; try constructor; [|constructor].
        by apply Hnew.
      * revert Hb. apply Forall_impl. intros b. by apply block_ok_grows.
    + destruct p' as [| | | | |lay [ptr|]|]; cbn; try done. constructor; [done|].
      revert Hb. apply Forall_impl. intros b (_ & _ & Hb & _).
      destruct (Hnew Hrun) as [? _]. unfold above. cbn. lia.
    + apply map_Forall_insert_2; [done|]. eapply map_Forall_impl; [exact Hp|].
      intros i q. by apply pc_ok_grows.
Qed.

Lemma inv_steps c tr c' : inv c -> steps c tr c' -> inv c'.
Proof. intros Hi Hs. induction Hs; [done|]. eauto using inv_step. Qed.

Definition heap_ok (a : BumpAllocator) : Prop :=
  0 <= heap_start a <= next a /\ next a <= heap_end a.
Lemma inv_boot a ts : heap_ok a -> inv (boot a ts).
Proof.
  intros Hok. split; cbn; [done|constructor|constructor|].
  intros t p [_ <-]%lookup_gset_to_gmap_Some. done.
Qed.

(** Every retry of the loop moves [current] up, so a call takes boundedly many
    steps of its own whatever the other threads do. *)
Definition span (a : BumpAllocator) : nat := Z.to_nat (heap_end a - heap_start a).
Definition measure (a : BumpAllocator) (p : pc) : nat :=
  match p with
  | CheckInit _ => 4 + span a
  | LoadEnd _ => 3 + span a
  | LoadNext _ _ => 2 + span a
  | Loop _ end_ current => 1 + Z.to_nat (end_ - current)
  | _ => 0
  end.
Definition thread_measure (c : config) (t : nat) : nat :=
  match threads c !! t with Some p => measure (heap c) p | None => 0 end.
Definition runs_of (t : nat) (tr : list label) : nat :=
  length (List.filter (fun l => match l with Run t' => bool_decide (t' = t) | _ => false end) tr).
Definition calls (t : nat) (l : label) : Prop :=
  match l with Call t' _ => t' = t | Run _ => False end.

Lemma measure_grows a a' p : grows a a' -> measure a' p = measure a p.
Proof. intros (Hs & He & _). unfold measure, span. by rewrite Hs, He. Qed.

Lemma alloc_step_measure a p a' p' :
  0 <= heap_start a <= next a -> next a <= heap_end a ->
  pc_ok a p -> running p = true -> alloc_step a p = (a', p') ->
  (measure a' p' < measure a p)%nat.
Proof.
  intros Hr Hr2 Hp Hrun Hstep. destruct p as [|l|l|l e|l e cur|l o|]; cbn in *; try done.
  - injection Hstep as <- <-. destruct (initialized a); cbn; lia.
  - injection Hstep as <- <-. cbn. lia.
  - injection Hstep as <- <-. destruct Hp as [_ ->]. unfold span. cbn. lia.
  - destruct Hp as (Hl & -> & Hc).
    destruct (attempt_spec a l cur Hl) as [Ha|(s & Ha & _ & _ & He)]; [lia|..];
      rewrite Ha in Hstep; [injection Hstep as <- <-; cbn; lia|].
    destruct (Z.eqb_spec (next a) cur); injection Hstep as <- <-; cbn; lia.
Qed.

Lemma step_measure c l c' t :
  inv c -> step c l c' -> ~ calls t l ->
  (runs_of t [l] + thread_measure c' t <= thread_measure c t)%nat.
Proof.
  intros [Hr Hb Ho Hp] Hs Hn. unfold runs_of, thread_measure.
  destruct Hs as [c t' lay p Ht Hrun Hcr Hl|c t' p a' p' Ht Hrun Hstep]; cbn.
  - cbn in Hn. rewrite lookup_insert_ne by done. done.
  - assert (pc_ok (heap c) p) as Hpc by by eapply Hp.
    destruct (alloc_step_spec (heap c) p a' p') as (Hg & _); try tauto.
    case_bool_decide as Heq; cbn.
    + subst. rewrite lookup_insert_eq, Ht.
      pose proof (alloc_step_measure (heap c) p a' p'). intuition lia.
    + rewrite lookup_insert_ne by done. destruct (threads c !! t); [|done].
      by rewrite (measure_grows (heap c)).
Qed.

(** An executable scheduler: the configuration after a given interleaving. *)
Definition exec_label (c : config) (l : label) : option config :=
  match l with
  | Call t lay =>
    p ← threads c !! t;
    if running p || crashed p then None
    else Some (mkConfig (heap c) (<[t := CheckInit lay]> (threads c)) (blocks c))
  | Run t =>
    p ← threads c !! t;
    if running p then
      let '(a', p') := alloc_step (heap c) p in
      Some (mkConfig a' (<[t := p']> (threads c)) (new_block p' ++ blocks c))
    else None
  end.
Fixpoint exec (c : config) (tr : list label) : option config :=
  match tr with [] => Some c | l :: tr => c' ← exec_label c l; exec c' tr end.

Lemma exec_steps c tr c' :
  inv c -> Forall (fun l => match l with Call _ lay => layout_ok (heap c) lay | Run _ => True end) tr ->
  exec c tr = Some c' -> steps c tr c'.
Proof.
  revert c. induction tr as [|l tr IH]; intros c Hi Hl He; cbn in He.
  - injection He as <-. constructor.
  - apply Forall_cons_iff in Hl as [Hlay Hl]. apply bind_Some in He as (c1 & Hc1 & He).
    assert (step c l c1) as Hst.
    { destruct l as [t lay|t]; cbn in Hc1; apply bind_Some in Hc1 as (p & Hp & Hc1).
      - destruct (running p) eqn:Hr; [done|]. destruct (crashed p) eqn:Hcr; [done|].
        cbn in Hc1. injection Hc1 as <-. eapply step_call; [done..| |done]. by destruct p.
      - destruct (running p) eqn:Hr; [|done]. destruct (alloc_step (heap c) p) eqn:Ha.
        injection Hc1 as <-. by eapply step_run. }
    eapply steps_cons; [exact Hst|]. apply IH; [by eapply inv_step| |done].
    assert (heap_end (heap c1) = heap_end (heap c)) as E.
    { clear -Hi Hst. destruct Hst as [|c t' p a' p' Ht Hrun Hst]; [done|]. cbn.
      destruct Hi as [Hr _ _ Hp].
      destruct (alloc_step_spec (heap c) p a' p') as ((_ & ? & _) & _); try tauto.
      by eapply Hp. }
    revert Hl. apply Forall_impl. intros [t lay|t]; [|done].
    unfold layout_ok. by rewrite E.
Qed.

(** ** Properties *)

(** C6: in every interleaving of allocator calls from any number of threads,
    the blocks handed out lie inside the heap, are aligned as their layout
    asks, and are pairwise disjoint (each one ends before every later one
    begins); and no call panics. *)
Theorem alloc_blocks_disjoint (a : BumpAllocator) (ts : gset nat) tr c :
  heap_ok a -> steps (boot a ts) tr c ->
  Forall (fun b => heap_start a <= b.1 /\ b.1 + size b.2 <= heap_end a /\ b.1 mod align b.2 = 0)
    (blocks c) /\
  (forall i j b1 b2, (i < j)%nat -> blocks c !! i = Some b1 -> blocks c !! j = Some b2 ->
     b2.1 + size b2.2 <= b1.1) /\
  (forall t, threads c !! t <> Some Crashed).
Proof.
  intros Hok Hs. assert (heap_start (heap c) = heap_start a /\ heap_end (heap c) = heap_end a) as [Es Ee].
  { change a with (heap (boot a ts)). pose proof (inv_boot a ts Hok) as Hi. revert Hi.
    induction Hs as [c|c l c' tr c'' Hst _ IH]; intros Hi; [done|].
    destruct (IH (inv_step _ _ _ Hi Hst)) as [-> ->].
    destruct Hst as [c t lay p|c t p a' p' Ht Hrun Hst]; [done|]. cbn.
    destruct (alloc_step_spec (heap c) p a' p') as ((? & ? & _) & _); try done;
      [apply Hi..|by eapply (inv_pcs _ Hi)]. }
  destruct (inv_steps _ _ _ (inv_boot a ts Hok) Hs) as [Hr Hb Ho Hp]. split_and!.
  - revert Hb. apply Forall_impl. intros b (? & ? & ? & ?). rewrite <-Es, <-Ee. intuition lia.
  - clear -Ho. intros i j b1 b2 Hij Hi Hj. revert i j Hij Hi Hj.
    induction Ho as [|b bs _ IH Hall]; intros i j Hij Hi Hj; [done|].
    destruct j as [|j]; [lia|]. destruct i as [|i]; cbn in *; [|by apply (IH i j); [lia|..]].
    injection Hi as ->. rewrite Forall_lookup in Hall. by eapply Hall.
  - intros t Ht. by apply Hp in Ht.
Qed.

Lemma alloc_blocks_disjoint_witness :
  let a := mkBumpAllocator 0x1003 0x2000 0x1003 true in
  let l := mkLayout 16 100 in
  exists c,
    steps (boot a {[0%nat; 1%nat]})
      [Call 0 l; Call 1 l; Run 0; Run 1; Run 0; Run 1; Run 0; Run 1; Run 1; Run 0; Run 0] c /\
    blocks c = [(0x1080, l); (0x1010, l)] /\ forall t, threads c !! t <> Some Crashed.
Proof.
  intros a l.
  assert (layout_ok a l) as Hl by (repeat split; [exists 4; split; [lia|done]|done|vm_compute; discriminate]).
  assert (heap_ok a) as Ha by (repeat split; vm_compute; discriminate).
  assert (exists c, exec (boot a {[0%nat; 1%nat]})
      [Call 0 l; Call 1 l; Run 0; Run 1; Run 0; Run 1; Run 0; Run 1; Run 1; Run 0; Run 0] = Some c /\
    blocks c = [(0x1080, l); (0x1010, l)]) as (c & Hc & Hb).
  { eexists. split; [vm_compute; reflexivity|reflexivity]. }
  apply exec_steps in Hc as Hs; [|apply inv_boot; exact Ha|
    do 2 (apply Forall_cons_iff; split; [exact Hl|]);
    repeat (apply Forall_cons_iff; split; [exact I|]); apply Forall_nil_iff; exact I].
  exists c. split; [exact Hs|]. split; [exact Hb|].
  exact (proj2 (proj2 (alloc_blocks_disjoint a _ _ _
    Ha Hs))).
Defined.

(** C7: an [alloc] call always finishes, whatever the other threads do.  While
    thread [t] is inside one call, the number of its own atomic steps is
    bounded by a measure fixed when the call starts, at most four more than the
    size of the heap in bytes, and a running thread always has a step to take. *)
Theorem alloc_wait_bounded (a : BumpAllocator) (ts : gset nat) tr c tr' c' t :
  heap_ok a -> steps (boot a ts) tr c -> steps c tr' c' ->
  Forall (fun l => ~ calls t l) tr' ->
  (runs_of t tr' + thread_measure c' t <= thread_measure c t)%nat /\
  (forall p, threads c' !! t = Some p ->
     if running p then (0 < thread_measure c' t)%nat /\ exists c'', step c' (Run t) c''
     else thread_measure c' t = 0%nat).
Proof.
  intros Hok Hs Hs' Hn. pose proof (inv_steps _ _ _ (inv_boot a ts Hok) Hs) as Hi.
  clear Hok Hs. split.
  - induction Hs' as [c|c l c' tr'' c'' Hst Hs' IH]; [done|].
    apply Forall_cons_iff in Hn as [Hl Hn].
    pose proof (step_measure _ _ _ t Hi Hst Hl) as Hm.
    pose proof (IH Hn (inv_step _ _ _ Hi Hst)) as IH'. clear -Hm IH'.
    unfold runs_of in *. change (l :: tr'') with ([l] ++ tr'').
    rewrite List.filter_app, length_app. lia.
  - intros p Hp. pose proof (inv_steps _ _ _ Hi Hs') as [Hr _ _ Hpc].
    unfold thread_measure. rewrite Hp. destruct (running p) eqn:Hrun.
    + destruct (alloc_step (heap c') p) as [a' p'] eqn:Hst. split.
      * pose proof (alloc_step_measure (heap c') p a' p'). assert (pc_ok (heap c') p) by by eapply Hpc.
        intuition lia.
      * eexists. by eapply step_run.
    + by destruct p.
Qed.


Lemma alloc_wait_bounded_witness :
  let a := mkBumpAllocator 0x1003 0x2000 0x1003 true in
  let l := mkLayout 16 100 in
  exists c c',
    steps (boot a {[0%nat]}) [Call 0 l] c /\ steps c [Run 0; Run 0] c' /\
    (2 + thread_measure c' 0 <= thread_measure c 0)%nat.
Proof.
  intros a l.
  assert (layout_ok a l) as Hl by (repeat split; [exists 4; split; [lia|done]|done|vm_compute; discriminate]).
  assert (heap_ok a) as Ha by (repeat split; vm_compute; discriminate).
  assert (exists c, exec (boot a {[0%nat]}) [Call 0 l] = Some c /\
    exists c', exec c [Run 0; Run 0] = Some c') as (c & Hc & c' & Hc').
  { eexists. split; [vm_compute; reflexivity|]. eexists. vm_compute. reflexivity. }
  assert (inv (boot a {[0%nat]})) as Hi by (apply inv_boot; exact Ha).
  apply exec_steps in Hc; [|exact Hi|apply Forall_cons_iff; split; [exact Hl|apply Forall_nil_iff; exact I]].
  apply exec_steps in Hc'; [|by eapply inv_steps|repeat (apply Forall_cons_iff; split; [exact I|]);
    apply Forall_nil_iff; exact I].
  exists c, c'. split; [exact Hc|]. split; [exact Hc'|].
  refine (proj1 (alloc_wait_bounded a _ _ c _ c' 0 Ha Hc Hc' _)).
  repeat (apply Forall_cons_iff; split; [intros []|]); apply Forall_nil_iff; exact I.
Defined.

End allocator.
