(* ===== verification/Kernel.v ===== *)
(** * The kernel's state and effects

    The statics of kernel/src/syscall.rs and kernel/src/posix.rs, the memory
    that raw pointers reach, and the monad in which the system calls run.
    There is one address space: a user pointer is dereferenced as it is.

    [mem] holds the memory of programs, their buffers and the ramdisk.  The
    statics, the code and (but for NativeStub.v) the stack of the kernel lie at addresses that are
    not in [mem]: the code reaches them by name, as the fields of the record.
    An access of a raw pointer to an address that is not in [mem] is therefore
    the end of what the model says ([Outside]).  On the machine it is a page
    fault, which kernel/src/traps.rs answers by halting; or, since programs
    run in ring 0 and their pointers are not checked, it reaches the kernel's
    own data or code, and what the kernel does after that is no longer what
    its source says. *)
From stdpp Require Import gmap.
From S2P Require Import Prelude Utf8.

(** ** Effects

    A computation on a state [S] returns a value, returns an error, or stops
    the machine: a panic, an access outside of the modelled memory, overlapping
    operands of [ptr::copy_nonoverlapping], a spin loop whose condition never
    comes true, an overflow of the kernel stack, or a return to the kernel
    with the registers of its callers destroyed. *)
Inductive halt :=
| Panicked
| Outside (addr : Z)
| OverlappingCopy
| Spinning
| StackOverflow
| Clobbered.

Inductive res (S E A : Type) :=
| Done (a : A) (s : S)
| Fail (e : E) (s : S)
| Halt (h : halt).
Arguments Done {S E A} a s.
Arguments Fail {S E A} e s.
Arguments Halt {S E A} h.

Definition prog (S E A : Type) : Type := S -> res S E A.
#[export] Instance prog_ret {S E} : MRet (prog S E) := fun _ a s => Done a s.
#[export] Instance prog_bind {S E} : MBind (prog S E) := fun _ _ f m s =>
  match m s with
  | Done a s => f a s
  | Fail e s => Fail e s
  | Halt h => Halt h
  end.

Definition ret {S E A} (a : A) : prog S E A := fun s => Done a s.
Definition fail {S E A} (e : E) : prog S E A := fun s => Fail e s.
Definition stop {S E A} (h : halt) : prog S E A := fun _ => Halt h.
Definition gets {S E A} (f : S -> A) : prog S E A := fun s => Done (f s) s.
Definition modify {S E} (f : S -> S) : prog S E unit := fun s => Done tt (f s).
(** A pure outcome in a stateful computation. *)
Definition lift {S E A} (m : outcome E A) : prog S E A := fun s =>
  match m with Ok a => Done a s | Err e => Fail e s | Panic => Halt Panicked end.

(** Run the effects of a computation on an explicit state. *)
Ltac run_prog := cbv beta delta [mbind prog_bind ret fail stop gets modify lift]; cbn beta iota.

(** *** Relations between the state before and the state after

    [evolves R m]: when [m] returns or fails, [R] relates the two states. *)
Definition evolves {S E A} (R : S -> S -> Prop) (m : prog S E A) : Prop :=
  forall s, match m s with Done _ s' | Fail _ s' => R s s' | Halt _ => True end.
Section Evolves.
Context {S E : Type} (R : S -> S -> Prop) `{!PreOrder R}.
Lemma evolves_ret {A} (a : A) : evolves R (ret (E := E) a).
Proof. intros s. cbn. reflexivity. Qed.
Lemma evolves_fail {A} (e : E) : evolves R (fail (A := A) e).
Proof. intros s. cbn. reflexivity. Qed.
Lemma evolves_stop {A} h : evolves R (stop (E := E) (A := A) h).
Proof. by intros s. Qed.
Lemma evolves_gets {A} (f : S -> A) : evolves R (gets (E := E) f).
Proof. intros s. cbn. reflexivity. Qed.
Lemma evolves_lift {A} (m : outcome E A) : evolves R (lift m).
Proof. intros s. unfold lift. destruct m; [reflexivity..|done]. Qed.
Lemma evolves_modify f : (forall s, R s (f s)) -> evolves R (modify (E := E) f).
Proof. intros H s. apply H. Qed.
Lemma evolves_bind {A B} (m : prog S E A) (f : A -> prog S E B) :
  evolves R m -> (forall a, evolves R (f a)) -> evolves R (m ≫= f).
Proof.
  intros Hm Hf s. specialize (Hm s). unfold mbind, prog_bind. destruct (m s) as [a s1|e s1|h]; [|done..].
  specialize (Hf a s1). destruct (f a s1); [by etrans..|done].
Qed.
End Evolves.
Lemma evolves_weaken {S E A} (R Q : S -> S -> Prop) (m : prog S E A) :
  (forall s s', R s s' -> Q s s') -> evolves R m -> evolves Q m.
Proof. intros H Hm s. specialize (Hm s). destruct (m s); auto. Qed.
Create HintDb evolve.
#[export] Hint Resolve evolves_ret evolves_fail evolves_stop evolves_gets evolves_lift : evolve.
#[export] Hint Extern 0 (PreOrder _) => apply _ : evolve.

(** ** State *)

Inductive FdEntry :=
| Free
| RootDir (pos : Z)
| File (data_ptr len pos mode : Z).
#[export] Instance FdEntry_eq_dec : EqDecision FdEntry.
Proof. solve_decision. Defined.

Record kernel := mkKernel {
  mem : gmap Z Z;                 (* mapped memory, one byte per address *)
  ROOTFS : option (Z * Z);        (* address and length of the image *)
  CWD_BUF : bytes; CWD_LEN : Z;
  FD_TABLE : list FdEntry;
  pid : Z; brk : Z;               (* the fields of POSIX *)
  STDIN_READER : bool;            (* a reader is installed *)
  polls : list (option Z);        (* what its next calls return *)
  LAST_EXIT : Z; EXIT_WAITABLE : bool;
  MMAP_BASE : Z; ARCH_FS : Z; ARCH_GS : Z }.

Definition with_mem (m : gmap Z Z) (k : kernel) : kernel :=
  mkKernel m (ROOTFS k) (CWD_BUF k) (CWD_LEN k) (FD_TABLE k) (pid k) (brk k) (STDIN_READER k)
    (polls k) (LAST_EXIT k) (EXIT_WAITABLE k) (MMAP_BASE k) (ARCH_FS k) (ARCH_GS k).
Definition with_rootfs (r : option (Z * Z)) (k : kernel) : kernel :=
  mkKernel (mem k) r (CWD_BUF k) (CWD_LEN k) (FD_TABLE k) (pid k) (brk k) (STDIN_READER k)
    (polls k) (LAST_EXIT k) (EXIT_WAITABLE k) (MMAP_BASE k) (ARCH_FS k) (ARCH_GS k).
Definition with_cwd (b : bytes) (n : Z) (k : kernel) : kernel :=
  mkKernel (mem k) (ROOTFS k) b n (FD_TABLE k) (pid k) (brk k) (STDIN_READER k)
    (polls k) (LAST_EXIT k) (EXIT_WAITABLE k) (MMAP_BASE k) (ARCH_FS k) (ARCH_GS k).
Definition with_fds (t : list FdEntry) (k : kernel) : kernel :=
  mkKernel (mem k) (ROOTFS k) (CWD_BUF k) (CWD_LEN k) t (pid k) (brk k) (STDIN_READER k)
    (polls k) (LAST_EXIT k) (EXIT_WAITABLE k) (MMAP_BASE k) (ARCH_FS k) (ARCH_GS k).
Definition with_brk (b : Z) (k : kernel) : kernel :=
  mkKernel (mem k) (ROOTFS k) (CWD_BUF k) (CWD_LEN k) (FD_TABLE k) (pid k) b (STDIN_READER k)
    (polls k) (LAST_EXIT k) (EXIT_WAITABLE k) (MMAP_BASE k) (ARCH_FS k) (ARCH_GS k).
Definition with_reader (b : bool) (k : kernel) : kernel :=
  mkKernel (mem k) (ROOTFS k) (CWD_BUF k) (CWD_LEN k) (FD_TABLE k) (pid k) (brk k) b
    (polls k) (LAST_EXIT k) (EXIT_WAITABLE k) (MMAP_BASE k) (ARCH_FS k) (ARCH_GS k).
Definition with_polls (p : list (option Z)) (k : kernel) : kernel :=
  mkKernel (mem k) (ROOTFS k) (CWD_BUF k) (CWD_LEN k) (FD_TABLE k) (pid k) (brk k) (STDIN_READER k)
    p (LAST_EXIT k) (EXIT_WAITABLE k) (MMAP_BASE k) (ARCH_FS k) (ARCH_GS k).
Definition with_exit (c : Z) (w : bool) (k : kernel) : kernel :=
  mkKernel (mem k) (ROOTFS k) (CWD_BUF k) (CWD_LEN k) (FD_TABLE k) (pid k) (brk k) (STDIN_READER k)
    (polls k) c w (MMAP_BASE k) (ARCH_FS k) (ARCH_GS k).
Definition with_mmap (b : Z) (k : kernel) : kernel :=
  mkKernel (mem k) (ROOTFS k) (CWD_BUF k) (CWD_LEN k) (FD_TABLE k) (pid k) (brk k) (STDIN_READER k)
    (polls k) (LAST_EXIT k) (EXIT_WAITABLE k) b (ARCH_FS k) (ARCH_GS k).
Definition with_arch (f g : Z) (k : kernel) : kernel :=
  mkKernel (mem k) (ROOTFS k) (CWD_BUF k) (CWD_LEN k) (FD_TABLE k) (pid k) (brk k) (STDIN_READER k)
    (polls k) (LAST_EXIT k) (EXIT_WAITABLE k) (MMAP_BASE k) f g.

(** A system call never returns a Rust [Err]: errors are negative results. *)
Definition K (A : Type) : Type := prog kernel Empty_set A.

(** ** Raw memory

    The partial functions on memory, then the same as effects. *)
Fixpoint mem_read (m : gmap Z Z) (a : Z) (n : nat) : bytes + Z :=
  match n with
  | O => inl []
  | S n =>
    match m !! a with
    | None => inr a
    | Some b => match mem_read m (a + 1) n with inl bs => inl (b :: bs) | inr e => inr e end
    end
  end.
Fixpoint mem_write (m : gmap Z Z) (a : Z) (bs : bytes) : gmap Z Z + Z :=
  match bs with
  | [] => inl m
  | b :: bs =>
    match m !! a with
    | None => inr a
    | Some _ => mem_write (<[a := b]> m) (a + 1) bs
    end
  end.

(** Read [n] bytes at [a]; write the bytes [bs] at [a]. *)
Definition load (a : Z) (n : Z) : K bytes := fun k =>
  match mem_read (mem k) a (Z.to_nat n) with
  | inl bs => Done bs k
  | inr e => Halt (Outside e)
  end.
Definition store (a : Z) (bs : bytes) : K unit := fun k =>
  match mem_write (mem k) a bs with
  | inl m => Done tt (with_mem m k)
  | inr e => Halt (Outside e)
  end.
Definition load8 (a : Z) : K Z := fun k =>
  match mem k !! a with Some b => Done b k | None => Halt (Outside a) end.

(** [ptr::copy_nonoverlapping(src, dst, n)]. *)
Definition copy_nonoverlapping (src dst n : Z) : K unit :=
  if (0 <? n) && (Z.abs (src - dst) <? n) then stop OverlappingCopy else
  bs ← load src n; store dst bs.

(** ** Facts about memory *)

Definition mapped (m : gmap Z Z) (a n : Z) : Prop := forall x, a <= x < a + n -> is_Some (m !! x).

Lemma mapped_cons m a n : 0 < n -> mapped m a n <-> is_Some (m !! a) /\ mapped m (a + 1) (n - 1).
Proof.
  intros Hn. unfold mapped. split.
  - intros H. split; [apply H; lia|]. intros x Hx. apply H. lia.
  - intros [H0 H] x Hx. destruct (decide (x = a)) as [->|]; [done|]. apply H. lia.
Qed.

(** A read succeeds exactly on a mapped range and returns its bytes. *)
Lemma mem_read_spec m a n :
  match mem_read m a n with
  | inl bs => length bs = n /\ forall i, (i < n)%nat -> m !! (a + Z.of_nat i) = bs !! i
  | inr e => a <= e < a + Z.of_nat n /\ m !! e = None
  end.
Proof.
  revert a. induction n as [|n IH]; intros a; cbn [mem_read]; [split; [done|lia]|].
  destruct (m !! a) as [b|] eqn:Ha; [|split; [lia|done]].
  specialize (IH (a + 1)). destruct (mem_read m (a + 1) n) as [bs|e].
  - destruct IH as [Hl Hi]. split; [cbn; lia|]. intros [|i] Hlt.
    + by rewrite Z.add_0_r.
    + cbn. rewrite <-Hi by lia. f_equal. lia.
  - destruct IH as [? ?]. split; [lia|done].
Qed.
Lemma mem_read_mapped m a n :
  mapped m a (Z.of_nat n) -> exists bs, mem_read m a n = inl bs.
Proof.
  intros H. pose proof (mem_read_spec m a n) as Hs. destruct (mem_read m a n) as [bs|e]; [eauto|].
  destruct Hs as [He Hn]. apply H in He. rewrite Hn in He. by destruct He.
Qed.
Lemma mem_read_ext m m' a n :
  (forall x, a <= x < a + Z.of_nat n -> m !! x = m' !! x) -> mem_read m a n = mem_read m' a n.
Proof.
  revert a. induction n as [|n IH]; intros a H; cbn [mem_read]; [done|].
  rewrite (H a) by lia. destruct (m' !! a); [|done]. rewrite (IH (a + 1)); [done|].
  intros x Hx. apply H. lia.
Qed.
(** Reading part of a range that was read. *)
Lemma mem_read_slice m a n bs off len :
  mem_read m a n = inl bs -> 0 <= off -> 0 <= len -> off + len <= Z.of_nat n ->
  mem_read m (a + off) (Z.to_nat len) = inl (zslice bs off (off + len)).
Proof.
  intros Hr Ho Hl Hn. pose proof (mem_read_spec m a n) as Hs. rewrite Hr in Hs.
  destruct Hs as [Hlen Hi].
  pose proof (mem_read_spec m (a + off) (Z.to_nat len)) as Hs'.
  destruct (mem_read m (a + off) (Z.to_nat len)) as [cs|e].
  - destruct Hs' as [Hlc Hc]. f_equal. apply list_eq. intros i.
    destruct (decide (i < Z.to_nat len)%nat).
    + rewrite <-Hc by lia. rewrite zslice_lookup by lia. rewrite <-Hi by lia. f_equal. lia.
    + rewrite zslice_lookup_ge by lia. apply lookup_ge_None. lia.
  - destruct Hs' as [He Hne].
    replace e with (a + Z.of_nat (Z.to_nat (e - a))) in Hne by lia.
    rewrite Hi in Hne by lia. apply lookup_ge_None in Hne. lia.
Qed.

(** The memory after a write: the bytes in the range, the rest untouched. *)
Definition in_window (a : Z) (bs : bytes) (x : Z) : bool := (a <=? x) && (x <? a + zlen bs).
Lemma mem_write_spec m a bs :
  match mem_write m a bs with
  | inl m' => mapped m a (zlen bs) /\
      forall x, m' !! x = if in_window a bs x then bs !! Z.to_nat (x - a) else m !! x
  | inr e => a <= e < a + zlen bs /\ m !! e = None
  end.
Proof.
  unfold in_window. revert m a. induction bs as [|b bs IH]; intros m a; cbn [mem_write].
  - change (zlen []) with 0. split; [intros x ?; lia|]. intros x.
    destruct (a <=? x) eqn:H1; cbn; [|done]. destruct (x <? a + 0) eqn:H2; [lia|done].
  - rewrite zlen_cons. pose proof (zlen_nonneg bs).
    destruct (m !! a) as [b0|] eqn:Ha; [|split; [lia|done]].
    specialize (IH (<[a := b]> m) (a + 1)).
    destruct (mem_write (<[a := b]> m) (a + 1) bs) as [m'|e].
    + destruct IH as [Hm Hx]. split.
      * apply mapped_cons; [lia|]. split; [eauto|]. intros x Hr.
        destruct (Hm x) as [v Hv]; [lia|]. rewrite lookup_insert_ne in Hv by lia. eauto.
      * intros x. rewrite Hx.
        destruct (decide (x = a)) as [->|Hne].
        -- rewrite lookup_insert_eq, Z.sub_diag.
           replace ((a + 1 <=? a) && _) with false by lia.
           by replace ((a <=? a) && _) with true by lia.
        -- rewrite lookup_insert_ne by done.
           replace ((a <=? x) && (x <? a + (1 + zlen bs)))
             with ((a + 1 <=? x) && (x <? a + 1 + zlen bs)) by lia.
           destruct ((a + 1 <=? x) && (x <? a + 1 + zlen bs)) eqn:Hw; [|done].
           replace (Z.to_nat (x - a)) with (S (Z.to_nat (x - (a + 1)))) by lia. done.
    + destruct IH as [He Hn]. split; [lia|]. by rewrite lookup_insert_ne in Hn by lia.
Qed.
Lemma mem_write_mapped m a bs :
  mapped m a (zlen bs) -> exists m', mem_write m a bs = inl m'.
Proof.
  intros H. pose proof (mem_write_spec m a bs) as Hs. destruct (mem_write m a bs); [eauto|].
  destruct Hs as [He Hn]. apply H in He. rewrite Hn in He. by destruct He.
Qed.
(** A write keeps every mapped address mapped. *)
Lemma mem_write_domain m a bs m' x :
  mem_write m a bs = inl m' -> is_Some (m !! x) -> is_Some (m' !! x).
Proof.
  intros Hw Hx. pose proof (mem_write_spec m a bs) as Hs. rewrite Hw in Hs.
  destruct Hs as [_ Hs]. rewrite Hs. unfold in_window.
  destruct ((a <=? x) && (x <? a + zlen bs)) eqn:H; [|done].
  apply lookup_lt_is_Some. unfold zlen in H. lia.
Qed.
(** Reading back what was written, and reading elsewhere. *)
Lemma mem_read_write_same m a bs m' :
  mem_write m a bs = inl m' -> mem_read m' a (length bs) = inl bs.
Proof.
  intros Hw. pose proof (mem_write_spec m a bs) as Hs. rewrite Hw in Hs. destruct Hs as [Hm Hs].
  pose proof (mem_read_spec m' a (length bs)) as Hr.
  destruct (mem_read m' a (length bs)) as [cs|e].
  - destruct Hr as [Hl Hi]. f_equal. apply list_eq. intros i.
    destruct (decide (i < length bs)%nat).
    + rewrite <-Hi, Hs by lia. unfold in_window, zlen.
      replace ((a <=? _) && _) with true by lia. f_equal. lia.
    + rewrite !lookup_ge_None_2 by lia. done.
  - destruct Hr as [He Hn]. exfalso. rewrite Hs in Hn. unfold in_window, zlen in Hn.
    replace ((a <=? e) && _) with true in Hn by lia. apply lookup_ge_None in Hn. lia.
Qed.
Lemma mem_read_write_other m a bs m' c n :
  mem_write m a bs = inl m' -> c + Z.of_nat n <= a \/ a + zlen bs <= c ->
  mem_read m' c n = mem_read m c n.
Proof.
  intros Hw Hd. pose proof (mem_write_spec m a bs) as Hs. rewrite Hw in Hs. destruct Hs as [_ Hs].
  apply mem_read_ext. intros x Hx. rewrite Hs. unfold in_window.
  by replace ((a <=? x) && _) with false by lia.
Qed.

(** Consecutive writes are one write. *)
Lemma mem_write_app m a x y :
  mem_write m a (x ++ y) =
  match mem_write m a x with inl m' => mem_write m' (a + zlen x) y | inr e => inr e end.
Proof.
  revert m a. induction x as [|b x IH]; intros m a; cbn [app mem_write].
  - f_equal. unfold zlen. cbn. lia.
  - destruct (m !! a); [|done]. rewrite IH. destruct (mem_write _ _ x); [|done].
    f_equal. rewrite zlen_cons. lia.
Qed.
Lemma store_app a x y k : store a (x ++ y) k = (store a x;; store (a + zlen x) y) k.
Proof.
  unfold mbind, prog_bind, store. rewrite mem_write_app. destruct (mem_write (mem k) a x) as [m|e]; [|done].
  cbn. by destruct (mem_write m _ y).
Qed.
Lemma bind_ext {A B} (m : K A) (f g : A -> K B) k :
  (forall a k', f a k' = g a k') -> (m ≫= f) k = (m ≫= g) k.
Proof. intros H. unfold mbind, prog_bind. by destruct (m k). Qed.
