(* ===== verification/Posix.v ===== *)
(** * The POSIX layer (kernel/src/posix.rs)

    Process identity, the program break and blocking reads of the keyboard.
    The installed reader is polled: each call takes the next element of
    [polls], [None] when no key is ready.  A computation that is still waiting
    when [polls] runs out keeps spinning. *)
From stdpp Require Import gmap.
From S2P Require Import Prelude Utf8 Kernel.

Module posix.
Definition STDIN_FILENO : Z := 0.
Definition STDOUT_FILENO : Z := 1.
Definition STDERR_FILENO : Z := 2.
Definition EBADF : Z := 9.
Definition EINVAL : Z := 22.

(** [PosixLayer::new] gives these values to the two fields. *)
Definition INITIAL_PID : Z := 3.
Definition INITIAL_BRK : Z := 0x40000000.

Definition set_stdin_reader : K unit := modify (with_reader true).

(** [loop { if let Some(ch) = reader_fn() { return Some(ch) } spin_loop() }]. *)
Fixpoint poll_byte (ks : list (option Z)) : K (option Z) :=
  match ks with
  | [] => stop Spinning
  | k :: ks =>
    modify (with_polls ks);;
    match k with Some ch => ret (Some ch) | None => poll_byte ks end
  end.
Definition read_stdin_byte_blocking : K (option Z) :=
  installed ← gets STDIN_READER;
  if negb installed then ret None else
  ks ← gets polls; poll_byte ks.

Definition getpid : K Z := gets pid.
Definition brk_get : K Z := gets brk.
Definition brk_set (new_brk : Z) : K Z :=
  (if new_brk =? 0 then ret tt else modify (with_brk new_brk));;
  brk_get.

Definition write (fd buf len : Z) : K Z :=
  if (fd =? STDOUT_FILENO) || (fd =? STDERR_FILENO) then ret (to_i64 len) else ret (- EBADF).

(** The [while n < len] loop of [read]; [ks] are the polls still to come. *)
Fixpoint read_loop (ks : list (option Z)) (buf len n : Z) : K Z :=
  if len <=? n then ret n else
  match ks with
  | [] => stop Spinning
  | k :: ks =>
    modify (with_polls ks);;
    match k with
    | Some ch =>
      store (buf + n) [ch];;
      if (ch =? 10) || (ch =? 13) then ret (n + 1) else read_loop ks buf len (n + 1)
    | None => read_loop ks buf len n
    end
  end.

Definition read (fd buf len : Z) : K Z :=
  if fd =? STDIN_FILENO then
    if (buf =? 0) || (len =? 0) then ret 0 else
    installed ← gets STDIN_READER;
    if negb installed then ret 0 else
    ks ← gets polls;
    n ← read_loop ks buf len 0;
    ret (to_i64 n)
  else ret (- EBADF).
End posix.
