(* ===== verification/Syscall.v ===== *)
(** * The system call dispatcher (kernel/src/syscall.rs)

    The file descriptor table over the ramdisk, paths, directory listing,
    process status and the dispatch on the system call number.  A function
    returns an [isize]: a count, a descriptor or a negated error number. *)
From stdpp Require Import gmap.
From S2P Require Import Prelude Utf8 Fs Kernel Posix.

(** ** Constants *)
Definition SYS_READ : Z := 0.
Definition SYS_WRITE : Z := 1.
Definition SYS_CLOSE : Z := 3.
Definition SYS_STAT : Z := 4.
Definition SYS_FSTAT : Z := 5.
Definition SYS_LSTAT : Z := 6.
Definition SYS_POLL : Z := 7.
Definition SYS_LSEEK : Z := 8.
Definition SYS_MMAP : Z := 9.
Definition SYS_MPROTECT : Z := 10.
Definition SYS_MUNMAP : Z := 11.
Definition SYS_BRK : Z := 12.
Definition SYS_RT_SIGACTION : Z := 13.
Definition SYS_RT_SIGPROCMASK : Z := 14.
Definition SYS_IOCTL : Z := 16.
Definition SYS_PREAD64 : Z := 17.
Definition SYS_PWRITE64 : Z := 18.
Definition SYS_READV : Z := 19.
Definition SYS_WRITEV : Z := 20.
Definition SYS_ACCESS : Z := 21.
Definition SYS_PIPE : Z := 22.
Definition SYS_SELECT : Z := 23.
Definition SYS_SCHED_YIELD : Z := 24.
Definition SYS_MREMAP : Z := 25.
Definition SYS_MSYNC : Z := 26.
Definition SYS_MINCORE : Z := 27.
Definition SYS_MADVISE : Z := 28.
Definition SYS_DUP : Z := 32.
Definition SYS_DUP2 : Z := 33.
Definition SYS_NANOSLEEP : Z := 35.
Definition SYS_GETPID : Z := 39.
Definition SYS_SOCKET : Z := 41.
Definition SYS_CONNECT : Z := 42.
Definition SYS_ACCEPT : Z := 43.
Definition SYS_SENDTO : Z := 44.
Definition SYS_RECVFROM : Z := 45.
Definition SYS_SHUTDOWN : Z := 48.
Definition SYS_BIND : Z := 49.
Definition SYS_LISTEN : Z := 50.
Definition SYS_CLONE : Z := 56.
Definition SYS_FORK : Z := 57.
Definition SYS_VFORK : Z := 58.
Definition SYS_EXECVE : Z := 59.
Definition SYS_EXIT : Z := 60.
Definition SYS_WAIT4 : Z := 61.
Definition SYS_UNAME : Z := 63.
Definition SYS_FCNTL : Z := 72.
Definition SYS_FSYNC : Z := 74.
Definition SYS_FDATASYNC : Z := 75.
Definition SYS_TRUNCATE : Z := 76.
Definition SYS_FTRUNCATE : Z := 77.
Definition SYS_GETCWD : Z := 79.
Definition SYS_CHDIR : Z := 80.
Definition SYS_RENAME : Z := 82.
Definition SYS_MKDIR : Z := 83.
Definition SYS_RMDIR : Z := 84.
Definition SYS_CREAT : Z := 85.
Definition SYS_LINK : Z := 86.
Definition SYS_UNLINK : Z := 87.
Definition SYS_READLINK : Z := 89.
Definition SYS_CHMOD : Z := 90.
Definition SYS_CHOWN : Z := 92.
Definition SYS_GETTIMEOFDAY : Z := 96.
Definition SYS_GETUID : Z := 102.
Definition SYS_GETGID : Z := 104.
Definition SYS_GETEUID : Z := 107.
Definition SYS_GETEGID : Z := 108.
Definition SYS_GETPPID : Z := 110.
Definition SYS_GETPGRP : Z := 111.
Definition SYS_SETSID : Z := 112.
Definition SYS_SIGALTSTACK : Z := 131.
Definition SYS_ARCH_PRCTL : Z := 158.
Definition SYS_GETDENTS64 : Z := 217.
Definition SYS_SET_TID_ADDRESS : Z := 218.
Definition SYS_GETTID : Z := 186.
Definition SYS_FUTEX : Z := 202.
Definition SYS_CLOCK_GETTIME : Z := 228.
Definition SYS_EXIT_GROUP : Z := 231.
Definition SYS_OPENAT : Z := 257.
Definition SYS_MKDIRAT : Z := 258.
Definition SYS_MKNODAT : Z := 259.
Definition SYS_NEWFSTATAT : Z := 262.
Definition SYS_UNLINKAT : Z := 263.
Definition SYS_RENAMEAT : Z := 264.
Definition SYS_READLINKAT : Z := 267.
Definition SYS_FACCESSAT : Z := 269.
Definition SYS_PSELECT6 : Z := 270.
Definition SYS_PPOLL : Z := 271.
Definition SYS_SET_ROBUST_LIST : Z := 273.
Definition SYS_PRLIMIT64 : Z := 302.
Definition SYS_GETRANDOM : Z := 318.
Definition SYS_MEMFD_CREATE : Z := 319.
Definition SYS_STATX : Z := 332.
Definition SYS_RSEQ : Z := 334.
Definition ENOENT : Z := 2.
Definition EBADF : Z := 9.
Definition ECHILD : Z := 10.
Definition EFAULT : Z := 14.
Definition EBUSY : Z := 16.
Definition ENOTDIR : Z := 20.
Definition EISDIR : Z := 21.
Definition ENOSYS : Z := 38.
Definition ERANGE : Z := 34.
Definition ENOTTY : Z := 25.
Definition AT_FDCWD : Z := (-100).
Definition AT_EMPTY_PATH : Z := 0x1000.
Definition O_DIRECTORY : Z := 65536.
Definition SEEK_SET : Z := 0.
Definition SEEK_CUR : Z := 1.
Definition SEEK_END : Z := 2.
Definition DT_DIR : Z := 4.
Definition DT_REG : Z := 8.
Definition MAX_FDS : Z := 64.
Definition FD_BASE : Z := 3.
Definition CSTR_MAX : Z := 256.

(** [LinuxStat] in its [repr(C)] layout; the times and [__unused] are zero. *)
Record LinuxStat := mkLinuxStat {
  st_dev : Z; st_ino : Z; st_nlink : Z; st_mode : Z; st_uid : Z; st_gid : Z;
  st_rdev : Z; st_size : Z; st_blksize : Z; st_blocks : Z }.
Definition stat_bytes (st : LinuxStat) : bytes :=
  to_le 8 (st_dev st) ++ to_le 8 (st_ino st) ++ to_le 8 (st_nlink st) ++
  to_le 4 (st_mode st) ++ to_le 4 (st_uid st) ++ to_le 4 (st_gid st) ++ to_le 4 0 ++
  to_le 8 (st_rdev st) ++ to_le 8 (st_size st) ++ to_le 8 (st_blksize st) ++
  to_le 8 (st_blocks st) ++ zreplicate 72 0.

(** The values the statics start with; the memory and the keyboard are the machine's. *)
Definition boot_kernel (m : gmap Z Z) (keys : list (option Z)) : kernel :=
  mkKernel m None (zreplicate 64 0) 1 (replicate (Z.to_nat MAX_FDS) Free)
    posix.INITIAL_PID posix.INITIAL_BRK false keys 0 false 0x70000000 0 0.

(** ** Root file system and descriptor table

    The image is an immutable slice with the lifetime of the kernel; a slice
    borrowed from it is read where the code takes it. *)

Definition set_rootfs (image : Z * Z) : K unit :=
  modify (with_rootfs (Some image));;
  modify (with_fds (replicate (Z.to_nat MAX_FDS) Free));;
  b ← gets CWD_BUF;
  modify (with_cwd (<[0%nat := 47]> b) 1).

(** [rootfs()]: the image as a slice, [None] for [Err(-ENOENT)]. *)
Definition rootfs : K (option (Z * bytes)) :=
  r ← gets ROOTFS;
  match r with
  | None => ret None
  | Some (addr, len) => image ← load addr len; ret (Some (addr, image))
  end.

(** A call of fs.rs on the image: its [Result], a panic being a panic. *)
Definition fs_call {A} (m : outcome fs.FsError A) : K (fs.FsError + A) :=
  match m with Ok a => ret (inr a) | Err e => ret (inl e) | Panic => stop Panicked end.

(** [FD_TABLE[fd]], and the assignment to it. *)
Definition fd_get (fd : Z) : K FdEntry :=
  t ← gets FD_TABLE;
  match t !! Z.to_nat fd with Some e => ret e | None => stop Panicked end.
Definition fd_set (fd : Z) (e : FdEntry) : K unit :=
  t ← gets FD_TABLE; modify (with_fds (<[Z.to_nat fd := e]> t)).

(** The loop of [alloc_fd]: the first free index from [i] on. *)
Fixpoint first_free (t : list FdEntry) (i : Z) : option Z :=
  match t with
  | [] => None
  | Free :: _ => Some i
  | _ :: t => first_free t (i + 1)
  end.
Definition alloc_fd (entry : FdEntry) : K Z :=
  t ← gets FD_TABLE;
  match first_free (drop (Z.to_nat FD_BASE) t) FD_BASE with
  | Some i => fd_set i entry;; ret i
  | None => ret (- EBUSY)
  end.

(** ** Paths *)

Definition normalize_path (path : bytes) : option bytes :=
  let trimmed := trim path in
  if bool_decide (trimmed = []) then Some [] else
  let p := match strip_prefix (str "./") trimmed with Some s => s | None => trimmed end in
  let p := trim_start_matches 47 p in
  if contains 47 p then None else Some p.

(** [while len < CSTR_MAX]: [n] bytes may still be read; [acc] is the string. *)
Fixpoint cstr_loop (n : nat) (ptr : Z) (acc : bytes) : K (option bytes) :=
  match n with
  | O => ret None
  | S n =>
    b ← load8 (ptr + zlen acc);
    if b =? 0 then ret (from_utf8 acc) else cstr_loop n ptr (acc ++ [b])
  end.
Definition read_cstr (ptr : Z) : K (option bytes) := cstr_loop (Z.to_nat CSTR_MAX) ptr [].

Definition is_dirfd_ok (dirfd : Z) : K bool :=
  if dirfd =? AT_FDCWD then ret true else
  if dirfd <? 0 then ret false else
  if MAX_FDS <=? dirfd then ret false else
  e ← fd_get dirfd;
  ret (match e with RootDir _ => true | _ => false end).

(** [path.is_empty() || path == "." || path == "/"]. *)
Definition is_root_path (path : bytes) : bool :=
  bool_decide (path = []) || bool_decide (path = str ".") || bool_decide (path = str "/").

Definition path_exists (path : bytes) : K bool :=
  if is_root_path path then ret true else
  match normalize_path path with
  | None => ret false
  | Some name =>
    if bool_decide (name = []) then ret true else
    r ← rootfs;
    match r with
    | None => ret false
    | Some (_, image) =>
      o ← fs_call (fs.open image name);
      ret (match o with inr _ => true | inl _ => false end)
    end
  end.

(** ** Open, read, close, seek, duplicate *)

Definition sys_openat (dirfd path_ptr flags mode_ : Z) : K Z :=
  if path_ptr =? 0 then ret (- EFAULT) else
  ok ← is_dirfd_ok dirfd;
  if negb ok then ret (- EBADF) else
  p ← read_cstr path_ptr;
  match p with
  | None => ret (- EFAULT)
  | Some path =>
    if is_root_path path then alloc_fd (RootDir 0) else
    if bool_decide (path = str "..") then alloc_fd (RootDir 0) else
    match normalize_path path with
    | None => ret (- ENOENT)
    | Some name =>
      if bool_decide (name = []) then alloc_fd (RootDir 0) else
      r ← rootfs;
      match r with
      | None => ret (- ENOENT)
      | Some (addr, image) =>
        o ← fs_call (fs.open image name);
        match o with
        | inr rec =>
          if negb (Z.land flags O_DIRECTORY =? 0) then ret (- ENOTDIR) else
          alloc_fd (File (addr + fs.data_off rec) (zlen (fs.data rec)) 0 (fs.mode rec))
        | inl _ => ret (- ENOENT)
        end
      end
    end
  end.

Definition sys_read (fd buf len : Z) : K Z :=
  if buf =? 0 then ret (- EFAULT) else
  if MAX_FDS <=? fd then ret (- EBADF) else
  e ← fd_get fd;
  match e with
  | Free => ret (- EBADF)
  | RootDir _ => ret (- EISDIR)
  | File data_ptr total pos mode =>
    if total <=? pos then ret 0 else
    let n := Z.min len (total - pos) in
    copy_nonoverlapping (data_ptr + pos) buf n;;
    fd_set fd (File data_ptr total (pos + n) mode);;
    ret (to_i64 n)
  end.

Definition sys_close (fd : Z) : K Z :=
  if MAX_FDS <=? fd then ret (- EBADF) else
  e ← fd_get fd;
  match e with
  | Free => ret (- EBADF)
  | _ => fd_set fd Free;; ret 0
  end.

Definition root_entries_count : K Z :=
  r ← rootfs;
  match r with
  | None => ret 2
  | Some (_, image) =>
    h ← fs_call (fs.header image);
    match h with inr h => ret (fs.file_count h + 2) | inl _ => ret 2 end
  end.

(** The two arms of [sys_lseek] after [base]: [None] is [-EINVAL]. *)
Definition seek_to (base off : Z) : option Z :=
  let new_pos := saturating_add_i64 base off in
  if new_pos <? 0 then None else Some new_pos.

Definition sys_lseek (fd off whence : Z) : K Z :=
  if MAX_FDS <=? fd then ret (- EBADF) else
  e ← fd_get fd;
  match e with
  | Free => ret (- EBADF)
  | RootDir pos =>
    base ← (if whence =? SEEK_SET then ret (Some 0)
            else if whence =? SEEK_CUR then ret (Some (to_i64 pos))
            else if whence =? SEEK_END then n ← root_entries_count; ret (Some n)
            else ret None);
    match base with
    | None => ret (- posix.EINVAL)
    | Some base =>
      match seek_to base off with
      | None => ret (- posix.EINVAL)
      | Some new_pos => fd_set fd (RootDir new_pos);; ret new_pos
      end
    end
  | File data_ptr len pos mode =>
    let base :=
      if whence =? SEEK_SET then Some 0
      else if whence =? SEEK_CUR then Some (to_i64 pos)
      else if whence =? SEEK_END then Some (to_i64 len)
      else None in
    match base with
    | None => ret (- posix.EINVAL)
    | Some base =>
      match seek_to base off with
      | None => ret (- posix.EINVAL)
      | Some new_pos => fd_set fd (File data_ptr len new_pos mode);; ret new_pos
      end
    end
  end.

Definition sys_dup (fd : Z) : K Z :=
  if fd <=? 2 then ret fd else
  if MAX_FDS <=? fd then ret (- EBADF) else
  e ← fd_get fd;
  match e with
  | Free => ret (- EBADF)
  | entry => alloc_fd entry
  end.

Definition sys_dup2 (oldfd newfd : Z) : K Z :=
  if oldfd <=? 2 then
    if newfd <=? 2 then ret newfd else ret (- EBADF)
  else if (MAX_FDS <=? oldfd) || (MAX_FDS <=? newfd) || (newfd <? FD_BASE) then ret (- EBADF)
  else
    e ← fd_get oldfd;
    match e with
    | Free => ret (- EBADF)
    | src => fd_set newfd src;; ret newfd
    end.

(** ** Status and directory listing *)

(** [(&st as *const LinuxStat).cast::<u8>()] copied to [stat_ptr]; [size + 511]
    is a checked addition. *)
Definition write_stat (stat_ptr : Z) (is_dir : bool) (size mode ino : Z) : K Z :=
  let mode_type := if is_dir then 0x4000 else 0x8000 in
  blocks ← lift (E := Empty_set) (add64 size 511);
  store stat_ptr (stat_bytes (mkLinuxStat 1 ino 1 (Z.lor mode_type (Z.land mode 0xFFF)) 0 0
    0 size 4096 (blocks / 512)));;
  ret 0.

(** 0o040755 and 0o020666. *)
Definition DIR_MODE : Z := 0x41ED.
Definition TTY_MODE : Z := 0x21B6.

Definition sys_stat_path (path_ptr stat_ptr : Z) : K Z :=
  if (path_ptr =? 0) || (stat_ptr =? 0) then ret (- EFAULT) else
  p ← read_cstr path_ptr;
  match p with
  | None => ret (- EFAULT)
  | Some path =>
    if is_root_path path then write_stat stat_ptr true 0 DIR_MODE 1 else
    match normalize_path path with
    | None => ret (- ENOENT)
    | Some name =>
      r ← rootfs;
      match r with
      | None => ret (- ENOENT)
      | Some (_, image) =>
        o ← fs_call (fs.open image name);
        match o with
        | inr rec => write_stat stat_ptr false (zlen (fs.data rec)) (fs.mode rec) 2
        | inl _ => ret (- ENOENT)
        end
      end
    end
  end.

Definition sys_fstat (fd stat_ptr : Z) : K Z :=
  if stat_ptr =? 0 then ret (- EFAULT) else
  if fd <=? 2 then write_stat stat_ptr false 0 TTY_MODE 1 else
  if MAX_FDS <=? fd then ret (- EBADF) else
  e ← fd_get fd;
  match e with
  | Free => ret (- EBADF)
  | RootDir _ => write_stat stat_ptr true 0 DIR_MODE 1
  | File _ len _ mode => write_stat stat_ptr false len mode 2
  end.

Definition sys_newfstatat (dirfd path_ptr stat_ptr flags : Z) : K Z :=
  if stat_ptr =? 0 then ret (- EFAULT) else
  if path_ptr =? 0 then ret (- EFAULT) else
  p ← read_cstr path_ptr;
  match p with
  | None => ret (- EFAULT)
  | Some path =>
    if bool_decide (path = []) && negb (Z.land flags AT_EMPTY_PATH =? 0) then
      if dirfd =? AT_FDCWD then write_stat stat_ptr true 0 DIR_MODE 1
      else if dirfd <? 0 then ret (- EBADF)
      else sys_fstat dirfd stat_ptr
    else
      ok ← is_dirfd_ok dirfd;
      if negb ok then ret (- EBADF) else sys_stat_path path_ptr stat_ptr
  end.

Definition root_name_by_index (file_idx : Z) : K (option bytes) :=
  r ← rootfs;
  match r with
  | None => ret None
  | Some (_, image) =>
    o ← fs_call (fs.entry image file_idx);
    ret (match o with inr rec => Some (fs.name rec) | inl _ => None end)
  end.

Definition dirent_record_len (name_len : Z) : Z :=
  let raw := 19 + name_len + 1 in Z.land (raw + 7) (not64 7).

(** The name, type and inode number listed at position [pos]. *)
Definition dirent_at (pos : Z) : K (option (bytes * Z * Z)) :=
  if pos =? 0 then ret (Some (str ".", DT_DIR, 1)) else
  if pos =? 1 then ret (Some (str "..", DT_DIR, 1)) else
  let file_idx := pos - 2 in
  n ← root_name_by_index file_idx;
  ret (match n with Some n => Some (n, DT_REG, file_idx + 2) | None => None end).

(** One record, field by field as the code writes it. *)
Definition write_dirent (rec ino pos reclen typ : Z) (name : bytes) : K unit :=
  store rec (to_le 8 ino);;
  store (rec + 8) (to_le 8 (pos + 1));;
  store (rec + 16) (to_le 2 reclen);;
  store (rec + 18) [typ];;
  store (rec + 19) name;;
  store (rec + 19 + zlen name) [0];;
  store (rec + 20 + zlen name) (zreplicate (reclen - (20 + zlen name)) 0).

(** [while *pos < total]; [fuel] is [total - pos], the iterations left. *)
Fixpoint dents_loop (fuel : nat) (fd dirp count total pos written : Z) : K Z :=
  match fuel with
  | O => ret written
  | S fuel =>
    if total <=? pos then ret written else
    ent ← dirent_at pos;
    match ent with
    | None => ret written
    | Some (name, typ, ino) =>
      let reclen := dirent_record_len (zlen name) in
      if count <? written + reclen then
        if written =? 0 then ret (- posix.EINVAL) else ret written
      else
        write_dirent (dirp + written) ino pos reclen typ name;;
        fd_set fd (RootDir (pos + 1));;
        dents_loop fuel fd dirp count total (pos + 1) (written + reclen)
    end
  end.

Definition sys_getdents64 (fd dirp count : Z) : K Z :=
  if dirp =? 0 then ret (- EFAULT) else
  if MAX_FDS <=? fd then ret (- EBADF) else
  e ← fd_get fd;
  match e with
  | RootDir pos =>
    total ← root_entries_count;
    if total <=? pos then ret 0 else
    dents_loop (Z.to_nat (total - pos)) fd dirp count total pos 0
  | _ => ret (- ENOTDIR)
  end.

(** ** Working directory, access, links *)

Definition sys_getcwd (buf size : Z) : K Z :=
  if (buf =? 0) || (size =? 0) then ret (- posix.EINVAL) else
  n ← gets CWD_LEN;
  if size <? n + 1 then ret (- ERANGE) else
  b ← gets CWD_BUF;
  store buf (take (Z.to_nat n) b);;
  store (buf + n) [0];;
  ret (to_i64 buf).

Definition sys_chdir (path_ptr : Z) : K Z :=
  if path_ptr =? 0 then ret (- EFAULT) else
  p ← read_cstr path_ptr;
  match p with
  | None => ret (- EFAULT)
  | Some path =>
    if is_root_path path then
      b ← gets CWD_BUF;
      modify (with_cwd (<[0%nat := 47]> b) 1);;
      ret 0
    else ret (- ENOENT)
  end.

Definition sys_access (path_ptr : Z) : K Z :=
  if path_ptr =? 0 then ret (- EFAULT) else
  p ← read_cstr path_ptr;
  match p with
  | None => ret (- EFAULT)
  | Some path => b ← path_exists path; ret (if b : bool then 0 else - ENOENT)
  end.
Definition sys_faccessat (dirfd path_ptr : Z) : K Z := sys_access path_ptr.

Definition readlink_impl (path : bytes) (buf bufsz : Z) : K Z :=
  if (buf =? 0) || (bufsz =? 0) then ret (- posix.EINVAL) else
  if bool_decide (path = str "/proc/self/exe") || bool_decide (path = str "proc/self/exe") then
    let target := str "/bin/busybox" in
    let n := Z.min (zlen target) bufsz in
    store buf (take (Z.to_nat n) target);;
    ret n
  else ret (- ENOENT).
Definition sys_readlink (path_ptr buf bufsz : Z) : K Z :=
  if path_ptr =? 0 then ret (- EFAULT) else
  p ← read_cstr path_ptr;
  match p with None => ret (- EFAULT) | Some path => readlink_impl path buf bufsz end.
Definition sys_readlinkat (dirfd path_ptr buf bufsz : Z) : K Z := sys_readlink path_ptr buf bufsz.

(** ** System information *)

Definition UTS_FIELD : Z := 65.
Definition uname_vals : list bytes :=
  [str "LeonOS"; str "leonos3"; str "0.1.0"; str "#1 LeonOS"; str "x86_64"; str ""].
Fixpoint uname_loop (base : Z) (vals : list bytes) : K unit :=
  match vals with
  | [] => ret tt
  | s :: vals =>
    store base (zreplicate UTS_FIELD 0);;
    let n := Z.min (zlen s) (UTS_FIELD - 1) in
    store base (take (Z.to_nat n) s);;
    uname_loop (base + UTS_FIELD) vals
  end.
Definition sys_uname (buf : Z) : K Z :=
  if buf =? 0 then ret (- EFAULT) else uname_loop buf uname_vals;; ret 0.

Definition sys_clock_gettime (clock_id tp : Z) : K Z :=
  if tp =? 0 then ret (- EFAULT) else
  store tp (to_le 8 0);; store (tp + 8) (to_le 8 0);; ret 0.
Definition sys_gettimeofday (tv tz : Z) : K Z :=
  if tv =? 0 then ret 0 else
  store tv (to_le 8 0);; store (tv + 8) (to_le 8 0);; ret 0.

(** The placeholder stream: [x.wrapping_mul(37).wrapping_add(17)] on [u8]. *)
Definition next_random (x : Z) : Z := ((x * 37) mod 2 ^ 8 + 17) mod 2 ^ 8.
Fixpoint random_loop (n : nat) (buf x : Z) : K unit :=
  match n with
  | O => ret tt
  | S n =>
    let x := next_random x in
    store buf [x];; random_loop n (buf + 1) x
  end.
Definition sys_getrandom (buf len : Z) : K Z :=
  if buf =? 0 then ret (- EFAULT) else
  random_loop (Z.to_nat len) buf 0xA7;; ret (to_i64 len).

(** ** Exit and wait *)

(** [code as i32]. *)
Definition to_i32 (z : Z) : Z := sext 32 z.
Definition mark_exit_code (code : Z) : K unit := modify (with_exit (to_i32 code) true).
Definition last_exit_code : K Z := gets LAST_EXIT.

Definition sys_wait4 (pid_ status_ptr options rusage : Z) : K Z :=
  self_pid ← posix.getpid;
  if (0 <? pid_) && negb (pid_ =? self_pid) then ret (- ECHILD) else
  waitable ← gets EXIT_WAITABLE;
  code ← gets LAST_EXIT;
  modify (with_exit code false);;
  if negb waitable then ret (- ECHILD) else
  (if status_ptr =? 0 then ret tt
   else store status_ptr (to_le 4 (Z.shiftl (Z.land code 0xFF) 8)));;
  ret self_pid.

(** ** Memory mapping and architecture registers *)

Definition sys_mmap (length_ : Z) : K Z :=
  let len := Z.max length_ 0x1000 in
  sum ← lift (E := Empty_set) (add64 len 0xFFF);
  let align_len := Z.land sum (not64 0xFFF) in
  base ← gets MMAP_BASE;
  modify (with_mmap (wrapping_add base align_len));;
  ret (to_i64 base).

Definition sys_arch_prctl (code addr : Z) : K Z :=
  if code =? 0x1001 then f ← gets ARCH_FS; modify (with_arch f addr);; ret 0
  else if code =? 0x1002 then g ← gets ARCH_GS; modify (with_arch addr g);; ret 0
  else if (code =? 0x1003) || (code =? 0x1004) then ret 0
  else ret (- posix.EINVAL).

Definition rootfs_image : K (option (Z * Z)) := gets ROOTFS.
Definition posix_snapshot : K (Z * Z) :=
  p ← posix.getpid; b ← posix.brk_get; ret (p, b).

(** ** Dispatch *)

Definition one_of (nr : Z) (nrs : list Z) : bool := existsb (Z.eqb nr) nrs.

Definition dispatch (nr arg0 arg1 arg2 arg3 arg4 arg5 : Z) : K Z :=
  if nr =? SYS_READ then
    if arg0 <=? 2 then posix.read arg0 arg1 arg2 else sys_read arg0 arg1 arg2
  else if nr =? SYS_WRITE then posix.write arg0 arg1 arg2
  else if nr =? SYS_BRK then b ← posix.brk_set arg0; ret (to_i64 b)
  else if one_of nr [SYS_GETPID; SYS_GETTID; SYS_SET_TID_ADDRESS] then posix.getpid
  else if one_of nr [SYS_EXIT; SYS_EXIT_GROUP] then mark_exit_code arg0;; ret 0
  else if nr =? SYS_CLOSE then if arg0 <=? 2 then ret 0 else sys_close arg0
  else if nr =? SYS_LSEEK then
    if arg0 <=? 2 then ret (to_i64 arg1) else sys_lseek arg0 (to_i64 arg1) arg2
  else if nr =? SYS_IOCTL then ret (- ENOTTY)
  else if nr =? SYS_MMAP then sys_mmap arg1
  else if one_of nr [SYS_MPROTECT; SYS_MUNMAP] then ret 0
  else if one_of nr [SYS_RT_SIGACTION; SYS_RT_SIGPROCMASK; SYS_SIGALTSTACK] then ret 0
  else if nr =? SYS_CLOCK_GETTIME then sys_clock_gettime arg0 arg1
  else if nr =? SYS_GETTIMEOFDAY then sys_gettimeofday arg0 arg1
  else if nr =? SYS_NANOSLEEP then ret 0
  else if nr =? SYS_UNAME then sys_uname arg0
  else if one_of nr [SYS_GETUID; SYS_GETEUID; SYS_GETGID; SYS_GETEGID] then ret 0
  else if one_of nr [SYS_GETPPID; SYS_GETPGRP; SYS_SETSID] then ret 1
  else if nr =? SYS_ARCH_PRCTL then sys_arch_prctl arg0 arg1
  else if one_of nr [SYS_SET_ROBUST_LIST; SYS_RSEQ; SYS_PRLIMIT64; SYS_FUTEX] then ret 0
  else if nr =? SYS_GETRANDOM then sys_getrandom arg0 arg1
  else if nr =? SYS_OPENAT then sys_openat (to_i64 arg0) arg1 arg2 arg3
  else if nr =? SYS_NEWFSTATAT then sys_newfstatat (to_i64 arg0) arg1 arg2 arg3
  else if one_of nr [SYS_STAT; SYS_LSTAT] then sys_stat_path arg0 arg1
  else if nr =? SYS_FSTAT then sys_fstat arg0 arg1
  else if nr =? SYS_STATX then ret 0
  else if nr =? SYS_GETDENTS64 then sys_getdents64 arg0 arg1 arg2
  else if nr =? SYS_READLINKAT then sys_readlinkat (to_i64 arg0) arg1 arg2 arg3
  else if nr =? SYS_READLINK then sys_readlink arg0 arg1 arg2
  else if nr =? SYS_FACCESSAT then sys_faccessat (to_i64 arg0) arg1
  else if nr =? SYS_ACCESS then sys_access arg0
  else if nr =? SYS_DUP then sys_dup arg0
  else if nr =? SYS_DUP2 then sys_dup2 arg0 arg1
  else if one_of nr [SYS_FCNTL; SYS_FSYNC; SYS_FDATASYNC; SYS_TRUNCATE; SYS_FTRUNCATE] then ret 0
  else if nr =? SYS_GETCWD then sys_getcwd arg0 arg1
  else if nr =? SYS_CHDIR then sys_chdir arg0
  else if one_of nr [SYS_RENAME; SYS_MKDIR; SYS_RMDIR; SYS_CREAT; SYS_LINK; SYS_UNLINK;
      SYS_CHMOD; SYS_CHOWN; SYS_MKDIRAT; SYS_MKNODAT; SYS_UNLINKAT; SYS_RENAMEAT] then ret 0
  else if one_of nr [SYS_PREAD64; SYS_PWRITE64; SYS_READV; SYS_WRITEV; SYS_PSELECT6; SYS_PPOLL;
      SYS_POLL; SYS_SELECT] then ret 0
  else if nr =? SYS_WAIT4 then sys_wait4 (to_i64 arg0) arg1 arg2 arg3
  else ret (- ENOSYS).
