(* ===== verification/SyscallInv.v ===== *)
(** * Safety of the system calls

    The well-formedness of the kernel state, a small program logic for the
    effects of Kernel.v, and the theorem that every system call preserves
    well-formedness and does not panic. *)
From stdpp Require Import gmap.
From S2P Require Import Prelude Utf8 Fs Kernel Posix Syscall.

(** ** Well-formed states

    [r] is the mounted image; system calls never change it. *)
Definition entry_ok (r : option (Z * Z)) (e : FdEntry) : Prop :=
  match e with
  | Free => True
  | RootDir pos => 0 <= pos <= i64_max
  | File data_ptr len pos mode =>
      0 <= pos <= i64_max /\ is_u16 mode /\
      exists addr n, r = Some (addr, n) /\ addr <= data_ptr /\ 0 <= len <= i64_max /\ data_ptr + len <= addr + n
  end.

Definition rootfs_ok (r : option (Z * Z)) (m : gmap Z Z) : Prop :=
  match r with
  | None => True
  | Some (addr, n) => 0 < addr /\ 0 <= n <= i64_max /\ addr + n <= u64_max /\ mapped m addr n
  end.

Record wf (r : option (Z * Z)) (k : kernel) : Prop := mkWf {
  wf_rootfs : ROOTFS k = r;
  wf_mapped : rootfs_ok r (mem k);
  wf_mem : map_Forall (fun _ b => is_u8 b) (mem k);
  wf_fds_len : length (FD_TABLE k) = Z.to_nat MAX_FDS;
  wf_fds : Forall (entry_ok r) (FD_TABLE k);
  wf_std : take 3 (FD_TABLE k) = replicate 3 Free;
  wf_cwd : length (CWD_BUF k) = 64%nat /\ bytes_ok (CWD_BUF k) /\ CWD_LEN k = 1;
  wf_pid : pid k = posix.INITIAL_PID;
  wf_brk : is_u64 (brk k);
  wf_polls : Forall (fun o => match o with Some ch => is_u8 ch | None => True end) (polls k);
  wf_exit : - 2 ^ 31 <= LAST_EXIT k < 2 ^ 31;
  wf_mmap : is_u64 (MMAP_BASE k) /\ MMAP_BASE k mod 0x1000 = 0 }.

(** ** A logic for safe computations

    [keeps r m phi]: from a well-formed state, [m] ends in a well-formed state
    with a result in [phi], or the machine stops without a panic. *)
Definition keeps (r : option (Z * Z)) {A} (m : K A) (phi : A -> Prop) : Prop :=
  forall k, wf r k ->
    match m k with
    | Done a k' => phi a /\ wf r k'
    | Fail e _ => False
    | Halt h => h <> Panicked
    end.

Section Logic.
Context (r : option (Z * Z)).

Lemma keeps_ret {A} (a : A) (phi : A -> Prop) : phi a -> keeps r (ret a) phi.
Proof. by intros ? k Hk. Qed.
Lemma keeps_stop {A} h (phi : A -> Prop) : h <> Panicked -> keeps r (stop h) phi.
Proof. by intros ? k Hk. Qed.
Lemma keeps_bind {A B} (m : K A) (f : A -> K B) (phi : A -> Prop) (psi : B -> Prop) :
  keeps r m phi -> (forall a, phi a -> keeps r (f a) psi) -> keeps r (m ≫= f) psi.
Proof.
  intros Hm Hf k Hk. specialize (Hm k Hk). unfold mbind, prog_bind.
  destruct (m k) as [a k'|[]|h]; [|done..]. destruct Hm as [Ha Hk']. by apply Hf.
Qed.
Lemma keeps_weaken {A} (m : K A) (phi psi : A -> Prop) :
  keeps r m phi -> (forall a, phi a -> psi a) -> keeps r m psi.
Proof. intros Hm Hi k Hk. specialize (Hm k Hk). destruct (m k); naive_solver. Qed.
Lemma keeps_gets {A} (f : kernel -> A) (phi : A -> Prop) :
  (forall k, wf r k -> phi (f k)) -> keeps r (gets f) phi.
Proof. intros H k Hk. cbn. auto. Qed.
Lemma keeps_modify f (phi : unit -> Prop) :
  phi tt -> (forall k, wf r k -> wf r (f k)) -> keeps r (modify f) phi.
Proof. intros ? H k Hk. cbn. auto. Qed.

(** *** Memory *)
Lemma keeps_load a n : 0 <= n -> keeps r (load a n) (fun bs => zlen bs = n /\ bytes_ok bs).
Proof.
  intros Hn k Hk. unfold load. pose proof (mem_read_spec (mem k) a (Z.to_nat n)) as H.
  destruct (mem_read _ _ _) as [bs|e]; [|done]. destruct H as [Hl Hi]. split; [|done].
  split; [unfold zlen; lia|]. apply Forall_lookup. intros i b Hb.
  assert (i < Z.to_nat n)%nat as Hlt by (rewrite <-Hl; by eapply lookup_lt_Some).
  rewrite <-Hi in Hb by done. by apply (wf_mem _ _ Hk) in Hb.
Qed.
Lemma keeps_load8 a : keeps r (load8 a) is_u8.
Proof.
  intros k Hk. unfold load8. destruct (mem k !! a) as [b|] eqn:Hb; [|done].
  split; [|done]. by apply (wf_mem _ _ Hk) in Hb.
Qed.
Lemma wf_with_mem k m bs a :
  wf r k -> bytes_ok bs -> mem_write (mem k) a bs = inl m -> wf r (with_mem m k).
Proof.
  intros [] Hbs Hw. split; try done; cbn.
  - destruct r as [[addr n]|]; [|done]. cbn in *. intuition. intros x Hx.
    eapply mem_write_domain; eauto.
  - intros x b Hx. pose proof (mem_write_spec (mem k) a bs) as H. rewrite Hw in H.
    destruct H as [_ H]. rewrite H in Hx. case_match.
    + unfold bytes_ok in Hbs. rewrite Forall_lookup in Hbs. eauto.
    + by apply wf_mem0 in Hx.
Qed.
Lemma keeps_store a bs : bytes_ok bs -> keeps r (store a bs) (fun _ => True).
Proof.
  intros Hbs k Hk. unfold store. destruct (mem_write (mem k) a bs) as [m|e] eqn:Hw; [|done].
  split; [done|]. by eapply wf_with_mem.
Qed.
Lemma keeps_copy src dst n : 0 <= n -> keeps r (copy_nonoverlapping src dst n) (fun _ => True).
Proof.
  intros Hn. unfold copy_nonoverlapping. branch as Hb; [by apply keeps_stop|].
  eapply keeps_bind; [by apply keeps_load|]. intros bs [_ ?]. by apply keeps_store.
Qed.

(** *** Descriptors and the image *)
Lemma wf_std_free k fd e : wf r k -> 0 <= fd < 3 -> FD_TABLE k !! Z.to_nat fd = Some e -> e = Free.
Proof.
  intros Hk Hfd He. rewrite <-(lookup_take_lt _ 3) in He by lia.
  rewrite (wf_std _ _ Hk) in He. by apply lookup_replicate in He as [-> _].
Qed.
Lemma keeps_fd_get fd :
  0 <= fd < MAX_FDS -> keeps r (fd_get fd) (fun e => entry_ok r e /\ (e = Free \/ 3 <= fd)).
Proof.
  intros Hfd k Hk. unfold fd_get. run_prog.
  destruct (lookup_lt_is_Some_2 (FD_TABLE k) (Z.to_nat fd)) as [e He].
  { rewrite (wf_fds_len _ _ Hk). unfold MAX_FDS in *. lia. }
  rewrite He. split; [|done]. pose proof (wf_fds _ _ Hk) as H.
  rewrite Forall_lookup in H. split; [eauto|].
  destruct (decide (3 <= fd)); [by right|left]. eapply wf_std_free; [done| |done]. lia.
Qed.
Lemma wf_with_fds k fd e :
  wf r k -> 3 <= fd -> entry_ok r e -> wf r (with_fds (<[Z.to_nat fd := e]> (FD_TABLE k)) k).
Proof.
  intros [] Hfd He. split; try done; cbn.
  - by rewrite length_insert.
  - by apply Forall_insert.
  - by rewrite take_insert_ge by lia.
Qed.
Lemma keeps_fd_set fd e : 3 <= fd -> entry_ok r e -> keeps r (fd_set fd e) (fun _ => True).
Proof. intros Hfd He k Hk. unfold fd_set. run_prog. split; [done|]. by apply wf_with_fds. Qed.

Lemma first_free_spec t i j :
  first_free t i = Some j -> i <= j < i + zlen t /\ t !! Z.to_nat (j - i) = Some Free.
Proof.
  revert i. induction t as [|e t IH]; intros i; cbn [first_free]; [done|].
  rewrite zlen_cons. pose proof (zlen_nonneg t).
  destruct e as [|pos|p l pos m].
  1: intros [= <-]; rewrite Z.sub_diag; split; [lia|done].
  all: intros Hj; apply IH in Hj as [Hj Hl]; split; [lia|];
    replace (Z.to_nat (j - i)) with (S (Z.to_nat (j - (i + 1)))) by lia; done.
Qed.
Lemma keeps_alloc_fd e :
  entry_ok r e -> keeps r (alloc_fd e) (fun v => v = - EBUSY \/ 3 <= v < MAX_FDS).
Proof.
  intros He k Hk. unfold alloc_fd, fd_set. run_prog.
  destruct (first_free _ _) as [i|] eqn:Hf; [|by split; [left|]].
  apply first_free_spec in Hf as [Hi _]. unfold zlen in Hi.
  rewrite length_drop, (wf_fds_len _ _ Hk) in Hi. unfold FD_BASE, MAX_FDS in *.
  split; [right; lia|]. apply wf_with_fds; [done|lia|done].
Qed.

Lemma keeps_rootfs :
  keeps r rootfs (fun o => match o with
    | None => r = None
    | Some (addr, image) => bytes_ok image /\ r = Some (addr, zlen image) end).
Proof.
  unfold rootfs. eapply keeps_bind.
  { apply keeps_gets with (phi := fun x => r = x /\ match x with Some (_, n) => 0 <= n | _ => True end).
    intros k Hk. pose proof (wf_mapped _ _ Hk) as H. rewrite (wf_rootfs _ _ Hk).
    split; [done|]. destruct r as [[]|]; [|done]. cbn in H. lia. }
  intros o [Hr Hn]. destruct o as [[addr n]|]; [|by apply keeps_ret].
  eapply keeps_bind; [by apply keeps_load|]. intros bs [<- ?]. by apply keeps_ret.
Qed.
Lemma keeps_fs_call {A} (m : outcome fs.FsError A) :
  m <> Panic -> keeps r (fs_call m) (fun o => match o with inr a => m = Ok a | inl e => m = Err e end).
Proof. intros Hm. destruct m; [by apply keeps_ret..|done]. Qed.

Lemma keeps_cstr_loop n ptr acc :
  keeps r (cstr_loop n ptr acc) (fun o => match o with Some s => is_str s | None => True end).
Proof.
  revert acc. induction n as [|n IH]; intros acc; cbn [cstr_loop]; [by apply keeps_ret|].
  eapply keeps_bind; [apply keeps_load8|]. intros b _. branch as Hb; [|apply IH].
  apply keeps_ret. destruct (from_utf8 acc) eqn:H; [|done]. by apply from_utf8_Some in H as [-> ?].
Qed.
End Logic.
#[export] Hint Resolve keeps_ret keeps_load8 keeps_load keeps_store keeps_copy keeps_fd_get
  keeps_fd_set keeps_alloc_fd : leon.

(** ** Every system call keeps the state well formed *)

Ltac closed_i64 := solve [vm_compute; split; [discriminate|reflexivity]].
#[export] Hint Extern 0 (is_i64 (- _)) => closed_i64 : leon.
#[export] Hint Extern 0 (is_i64 0) => closed_i64 : leon.
#[export] Hint Extern 0 (is_i64 1) => closed_i64 : leon.

Lemma sext_range w z : 1 <= w -> - 2 ^ (w - 1) <= sext w z < 2 ^ (w - 1).
Proof.
  intros Hw. unfold sext. assert (0 < 2 ^ (w - 1)) by (apply Z.pow_pos_nonneg; lia).
  assert (2 ^ w = 2 * 2 ^ (w - 1)) as E by (rewrite <-Z.pow_succ_r by lia; f_equal; lia).
  pose proof (Z.mod_pos_bound z (2 ^ w)). rewrite E in *. case_match; lia.
Qed.
Lemma to_i64_range z : is_i64 (to_i64 z).
Proof. apply (sext_range 64). lia. Qed.
Lemma to_i64_small z : 0 <= z <= i64_max -> to_i64 z = z.
Proof.
  intros. unfold to_i64, sext. rewrite Z.mod_small by ilia.
  change (64 - 1) with 63. rewrite (proj2 (Z.ltb_lt _ _)); [done|ilia].
Qed.
#[export] Hint Resolve to_i64_range : leon.

(** Structural steps: returns, error branches, the case analyses of the code. *)
Ltac keep_if := match goal with
  | |- keeps _ (if ?b then _ else _) _ => destruct b eqn:?
  | |- keeps _ (match ?x with _ => _ end) _ => destruct x eqn:?
  end.
Ltac keep := repeat (cbv beta zeta; first
  [ solve [eauto with leon] | keep_if
  | eapply keeps_bind; [solve [eauto with leon]|intros; destruct_and?]
  | eapply keeps_weaken; [solve [eauto with leon]|intros; destruct_and?; solve [eauto with leon]] ]).

Section Calls.
Context (r : option (Z * Z)).

Lemma keeps_poll_byte ks :
  Forall (fun o => match o with Some ch => is_u8 ch | None => True end) ks ->
  keeps r (posix.poll_byte ks) (fun o => match o with Some ch => is_u8 ch | None => True end).
Proof.
  induction ks as [|k ks IH]; intros Hks; cbn [posix.poll_byte]; [by apply keeps_stop|].
  apply Forall_cons_iff in Hks as [Hk Hks]. eapply keeps_bind.
  - apply (keeps_modify _ _ (fun _ => True)); [done|]. intros k0 []. by split.
  - intros _ _. destruct k; [by apply keeps_ret|auto].
Qed.
Lemma keeps_read_loop ks buf len n :
  Forall (fun o => match o with Some ch => is_u8 ch | None => True end) ks ->
  keeps r (posix.read_loop ks buf len n) (fun _ => True).
Proof.
  revert n. induction ks as [|k ks IH]; intros n Hks; cbn [posix.read_loop].
  - keep_if; [by apply keeps_ret|by apply keeps_stop].
  - apply Forall_cons_iff in Hks as [Hk Hks]. keep_if; [by apply keeps_ret|]. eapply keeps_bind.
    + apply (keeps_modify _ _ (fun _ => True)); [done|]. intros k0 []. by split.
    + intros _ _. destruct k as [ch|]; [|auto]. eapply keeps_bind.
      * apply keeps_store. by constructor.
      * intros _ _. keep_if; [by apply keeps_ret|auto].
Qed.

Lemma keeps_posix_read fd buf len : keeps r (posix.read fd buf len) is_i64.
Proof.
  unfold posix.read. keep.
  eapply keeps_bind; [apply (keeps_gets _ _ (fun _ => True)); done|]. intros ? _. keep.
  eapply keeps_bind; [apply (keeps_gets _ _ (Forall (fun o => match o with Some ch => is_u8 ch | None => True end)));
    intros k []; done|]. intros ks Hks.
  eapply keeps_bind; [by apply keeps_read_loop|]. intros n _. keep.
Qed.
Lemma keeps_posix_write fd buf len : keeps r (posix.write fd buf len) is_i64.
Proof. unfold posix.write. keep. Qed.
Lemma keeps_brk_set b : is_u64 b -> keeps r (posix.brk_set b) is_u64.
Proof.
  intros Hb. unfold posix.brk_set, posix.brk_get. eapply keeps_bind with (phi := fun _ => True).
  - keep_if; [by apply keeps_ret|]. apply keeps_modify; [done|]. intros k []. by split.
  - intros _ _. apply keeps_gets. by intros k [].
Qed.
Lemma keeps_getpid : keeps r posix.getpid (fun p => p = 3).
Proof. apply keeps_gets. by intros k []. Qed.

Lemma fs_open_no_panic image w : bytes_ok image -> fs.open image w <> Panic.
Proof.
  intros Hok. unfold fs.open. pose proof (fs.header_cases image Hok).
  destruct (fs.header image); cbn; try done. by apply fs.open_loop_no_panic.
Qed.
Lemma fs_open_record image w rec :
  bytes_ok image -> fs.open image w = Ok rec -> fs.record_ok image rec.
Proof.
  intros Hok (h & _ & (j & Hj & He & _)%fs.open_loop_Ok)%bind_Ok.
  pose proof (fs.entry_at_cases image j Hok) as Hc. rewrite He in Hc. apply Hc. lia.
Qed.

Lemma keeps_write_stat p d size mode ino :
  0 <= size <= i64_max -> keeps r (write_stat p d size mode ino) is_i64.
Proof.
  intros Hs. unfold write_stat. rewrite add64_small by ilia.
  eapply (keeps_bind _ _ _ (fun _ => True)); [by intros k Hk|]. intros b _.
  eapply keeps_bind; [apply keeps_store|intros _ _; auto with leon].
  unfold stat_bytes. rewrite !bytes_ok_app. split_and!; auto with leon.
  apply bytes_ok_zreplicate. ilia.
Qed.

(** The image a well-formed state mounts is at most [isize::MAX] bytes. *)
Lemma keeps_rootfs_len :
  keeps r rootfs (fun o => match o with
    | None => True
    | Some (addr, image) => bytes_ok image /\ r = Some (addr, zlen image) /\ zlen image <= i64_max end).
Proof.
  intros k Hk. pose proof (keeps_rootfs r k Hk) as H. pose proof (wf_mapped _ _ Hk) as Hm.
  destruct (rootfs k) as [[[addr image]|] k'|e k'|h]; try done; [|by split; [|apply H]].
  destruct H as [[? Hr] ?]. rewrite Hr in Hm. cbn in Hm. split_and!; try done; lia.
Qed.

Lemma keeps_is_dirfd_ok d : keeps r (is_dirfd_ok d) (fun _ => True).
Proof.
  unfold is_dirfd_ok. keep. eapply keeps_bind; [apply keeps_fd_get; lia|]. intros; by apply keeps_ret.
Qed.
Lemma keeps_alloc e : entry_ok r e -> keeps r (alloc_fd e) is_i64.
Proof.
  intros He. eapply keeps_weaken; [by apply keeps_alloc_fd|].
  unfold MAX_FDS. intros v [->|?]; [closed_i64|ilia].
Qed.
Lemma entry_ok_dir0 : entry_ok r (RootDir 0).
Proof. cbn. ilia. Qed.
#[local] Hint Resolve keeps_alloc entry_ok_dir0 : leon.

Lemma keeps_sys_openat d p fl m : keeps r (sys_openat d p fl m) is_i64.
Proof.
  unfold sys_openat. keep. eapply keeps_bind; [apply keeps_is_dirfd_ok|]. intros ok _. keep.
  eapply keeps_bind; [apply keeps_cstr_loop|]. intros o Ho. keep.
  eapply keeps_bind; [apply keeps_rootfs_len|]. intros [[addr image]|] Hr; [|keep].
  destruct Hr as (Hok & Hr & Hlen).
  eapply keeps_bind; [by apply keeps_fs_call, fs_open_no_panic|]. intros [e|rec] Hrec; keep.
  apply keeps_alloc. apply fs_open_record in Hrec; [|done].
  destruct Hrec as (? & ? & _ & _ & _ & _ & ?). cbn. split; [ilia|]. split; [done|].
  exists addr, (zlen image). pose proof (zlen_nonneg (fs.data rec)). split; [done|lia].
Qed.

Lemma keeps_sys_read fd buf len : 0 <= fd -> is_u64 len -> keeps r (sys_read fd buf len) is_i64.
Proof.
  intros Hfd Hlen. unfold sys_read. keep.
  eapply keeps_bind; [apply keeps_fd_get; lia|]. intros e [He Hf]. keep.
  destruct He as (Hp & Hm & a & n & Hr & Ha & Hl & Hb).
  eapply keeps_bind; [apply keeps_copy; ilia|]. intros _ _.
  eapply keeps_bind; [|intros _ _; auto with leon]. destruct Hf as [|Hf]; [done|].
  apply keeps_fd_set; [done|]. cbn. split; [ilia|]. split; [done|]. exists a, n. auto.
Qed.

Lemma keeps_sys_close fd : 0 <= fd -> keeps r (sys_close fd) is_i64.
Proof.
  intros Hfd. unfold sys_close. keep.
  eapply keeps_bind; [apply keeps_fd_get; lia|]. intros e [He [->|Hf]]; keep;
    (eapply keeps_bind; [by apply keeps_fd_set|intros _ _; auto with leon]).
Qed.

Lemma keeps_root_entries_count : keeps r root_entries_count (fun n => 2 <= n < 2 ^ 16 + 2).
Proof.
  unfold root_entries_count. eapply keeps_bind; [apply keeps_rootfs_len|].
  intros [[addr image]|] Hr; [|by apply keeps_ret].
  pose proof (fs.header_cases image (proj1 Hr)) as Hh.
  eapply keeps_bind; [apply keeps_fs_call; by intros E; rewrite E in Hh|].
  intros [e|h] Hok; [by apply keeps_ret|]. rewrite Hok in Hh. apply keeps_ret.
  destruct Hh. cbv beta. ilia.
Qed.

Lemma seek_to_range base off p : seek_to base off = Some p -> 0 <= p <= i64_max.
Proof. unfold seek_to. case_match; intros [= <-]. ilia. Qed.
Lemma keeps_fd_set_ret fd e v :
  3 <= fd -> entry_ok r e -> is_i64 v -> keeps r (fd_set fd e;; ret v) is_i64.
Proof. intros. eapply keeps_bind; [by apply keeps_fd_set|intros _ _; auto with leon]. Qed.

Lemma keeps_sys_lseek fd off whence : 0 <= fd -> keeps r (sys_lseek fd off whence) is_i64.
Proof.
  intros Hfd. unfold sys_lseek. keep.
  eapply keeps_bind; [apply keeps_fd_get; lia|]. intros e [He Hf].
  destruct e as [|pos|p l pos md]; [keep|..]; destruct Hf as [|Hf]; try done.
  - eapply (keeps_bind _ _ _ (fun _ => True)); [|intros o _].
    + repeat keep_if; try by apply keeps_ret.
      eapply keeps_bind; [apply keeps_root_entries_count|]. intros; by apply keeps_ret.
    + destruct o as [base|]; [|keep]. destruct (seek_to base off) as [np|] eqn:Hs; [|keep].
      apply seek_to_range in Hs. apply keeps_fd_set_ret; [done|by cbn|ilia].
  - keep_if; [|keep]. destruct (seek_to _ off) as [np|] eqn:Hs; [|keep].
    apply seek_to_range in Hs. apply keeps_fd_set_ret; [done| |ilia]. cbn in *. intuition.
Qed.

Lemma keeps_sys_dup fd : is_u64 fd -> keeps r (sys_dup fd) is_i64.
Proof.
  intros Hfd. unfold sys_dup. keep_if; [apply keeps_ret; ilia|]. keep.
  eapply keeps_bind; [apply keeps_fd_get; ilia|]. intros e [He Hf]. keep_if; auto with leon.
Qed.
Lemma keeps_sys_dup2 fd fd2 : is_u64 fd -> is_u64 fd2 -> keeps r (sys_dup2 fd fd2) is_i64.
Proof.
  intros Hfd Hfd2. unfold sys_dup2. keep_if; [keep_if; [apply keeps_ret; ilia|keep]|].
  keep_if; [keep|]. eapply keeps_bind; [apply keeps_fd_get; unfold FD_BASE, MAX_FDS in *; ilia|].
  intros e [He Hf]. unfold FD_BASE, MAX_FDS in *.
  keep_if; [keep|..]; apply keeps_fd_set_ret; auto; ilia.
Qed.

Lemma keeps_stat_file p image rec mode ino :
  bytes_ok image -> zlen image <= i64_max -> fs.record_ok image rec ->
  keeps r (write_stat p false (zlen (fs.data rec)) mode ino) is_i64.
Proof.
  intros Hok Hlen Hrec. apply keeps_write_stat.
  destruct Hrec as (? & ? & _ & _ & _ & _ & ?). pose proof (zlen_nonneg (fs.data rec)). lia.
Qed.
Lemma keeps_write_stat0 p d mode ino : keeps r (write_stat p d 0 mode ino) is_i64.
Proof. apply keeps_write_stat. ilia. Qed.
#[local] Hint Resolve keeps_write_stat0 : leon.

Lemma keeps_read_cstr p :
  keeps r (read_cstr p) (fun o => match o with Some s => is_str s | None => True end).
Proof. apply keeps_cstr_loop. Qed.
Lemma keeps_open image name :
  bytes_ok image ->
  keeps r (fs_call (fs.open image name))
    (fun o => match o with inr rec => fs.record_ok image rec | inl _ => True end).
Proof.
  intros Hok. eapply keeps_weaken; [by apply keeps_fs_call, fs_open_no_panic|].
  intros [e|rec]; [done|]. by apply fs_open_record.
Qed.

Lemma keeps_sys_stat_path p st : keeps r (sys_stat_path p st) is_i64.
Proof.
  unfold sys_stat_path. keep. eapply keeps_bind; [apply keeps_read_cstr|]. intros o _. keep.
  eapply keeps_bind; [apply keeps_rootfs_len|]. intros [[addr image]|] Hr; [|keep].
  destruct Hr as (Hok & Hr & Hlen).
  eapply keeps_bind; [by apply keeps_open|]. intros [e|rec] Hrec; [keep|].
  by eapply keeps_stat_file.
Qed.
Lemma keeps_sys_fstat fd st : 0 <= fd -> keeps r (sys_fstat fd st) is_i64.
Proof.
  intros Hfd. unfold sys_fstat. keep.
  eapply keeps_bind; [apply keeps_fd_get; lia|]. intros e [He Hf]. keep.
  apply keeps_write_stat. destruct He as (_ & _ & a & n & _ & _ & ? & _). done.
Qed.
Lemma keeps_sys_newfstatat d p st fl : keeps r (sys_newfstatat d p st fl) is_i64.
Proof.
  unfold sys_newfstatat. keep. eapply keeps_bind; [apply keeps_read_cstr|]. intros o _. keep.
  - apply keeps_sys_fstat. lia.
  - eapply keeps_bind; [apply keeps_is_dirfd_ok|]. intros ok _. keep. apply keeps_sys_stat_path.
Qed.

Lemma keeps_sys_getcwd buf size : keeps r (sys_getcwd buf size) is_i64.
Proof.
  unfold sys_getcwd. keep.
  eapply keeps_bind; [apply (keeps_gets _ _ (fun n => n = 1)); by intros k []; intuition|].
  intros n ->. keep.
  eapply keeps_bind; [apply (keeps_gets _ _ bytes_ok); by intros k []; intuition|].
  intros b Hb. eapply keeps_bind; [apply keeps_store; by apply Forall_take|]. intros _ _.
  eapply keeps_bind; [apply keeps_store; by repeat constructor|]. intros _ _. keep.
Qed.
Lemma keeps_sys_chdir p : keeps r (sys_chdir p) is_i64.
Proof.
  unfold sys_chdir. keep. eapply keeps_bind; [apply keeps_read_cstr|]. intros o _. keep.
  eapply keeps_bind; [apply (keeps_gets _ _ (fun b => length b = 64%nat /\ bytes_ok b)); intros k []; intuition|].
  intros b [Hl Hb]. eapply keeps_bind; [|intros _ _; keep].
  apply (keeps_modify _ _ (fun _ => True)); [done|]. intros k []. split; try done; cbn.
  rewrite length_insert. split_and!; try done.
  apply Forall_insert; [done|]. by split.
Qed.
Lemma keeps_path_exists path : keeps r (path_exists path) (fun _ => True).
Proof.
  unfold path_exists. keep_if; [by apply keeps_ret|]. keep_if; [|by apply keeps_ret].
  keep_if; [by apply keeps_ret|]. eapply keeps_bind; [apply keeps_rootfs_len|].
  intros [[addr image]|] Hr; [|by apply keeps_ret].
  eapply keeps_bind; [by apply keeps_open, Hr|]. intros; by apply keeps_ret.
Qed.
Lemma keeps_sys_access p : keeps r (sys_access p) is_i64.
Proof.
  unfold sys_access. keep. eapply keeps_bind; [apply keeps_read_cstr|]. intros o _. keep.
  eapply keeps_bind; [apply keeps_path_exists|]. intros b _. apply keeps_ret.
  destruct b; auto with leon.
Qed.
Lemma keeps_sys_readlink p buf n : 0 <= n -> keeps r (sys_readlink p buf n) is_i64.
Proof.
  intros Hn. unfold sys_readlink, readlink_impl. keep.
  eapply keeps_bind; [apply keeps_read_cstr|]. intros o _. keep.
  eapply keeps_bind; [apply keeps_store; apply Forall_take; by apply (bool_decide_unpack _)|].
  intros _ _. apply keeps_ret. change (zlen (str "/bin/busybox")) with 12. ilia.
Qed.

(** *** Directory listing *)
Lemma dirent_record_len_eq n :
  0 <= n <= i64_max -> dirent_record_len n = (n + 27) - (n + 27) mod 8.
Proof.
  intros Hn. unfold dirent_record_len. change 7 with (2 ^ 3 - 1) at 2.
  replace (19 + n + 1 + 7) with (n + 27) by lia. by rewrite land_not64_ones by ilia.
Qed.
Lemma dirent_record_len_range n :
  0 <= n <= i64_max -> n + 20 <= dirent_record_len n <= n + 27.
Proof.
  intros Hn. rewrite dirent_record_len_eq by done.
  pose proof (Z.mod_pos_bound (n + 27) 8). lia.
Qed.
Lemma fs_entry_cases image i :
  bytes_ok image -> 0 <= i ->
  match fs.entry image i with Ok rec => fs.record_ok image rec | Err _ => True | Panic => False end.
Proof.
  intros Hok Hi. unfold fs.entry. pose proof (fs.header_cases image Hok).
  destruct (fs.header image); cbn; try done. branch as Hb; [done|].
  pose proof (fs.entry_at_cases image i Hok Hi). by destruct (fs.entry_at image i).
Qed.
Definition listed_ok (o : option (bytes * Z * Z)) : Prop :=
  match o with
  | Some (name, typ, ino) => 1 <= zlen name <= fs.NAME_CAP /\ bytes_ok name /\ is_u8 typ
  | None => True
  end.
Lemma keeps_dirent_at pos : 0 <= pos -> keeps r (dirent_at pos) listed_ok.
Proof.
  intros Hpos. unfold dirent_at. keep_if; [apply keeps_ret; by apply (bool_decide_unpack _)|].
  keep_if; [apply keeps_ret; by apply (bool_decide_unpack _)|].
  unfold root_name_by_index. eapply (keeps_bind _ _ _
    (fun o => match o with Some n => 1 <= zlen n <= fs.NAME_CAP /\ bytes_ok n | None => True end)).
  - eapply keeps_bind; [apply keeps_rootfs_len|]. intros [[addr image]|] Hr; [|by apply keeps_ret].
    destruct Hr as [Hok _].
    pose proof (fs_entry_cases image (pos - 2) Hok) as Hc.
    destruct (Z.eqb_spec pos 0), (Z.eqb_spec pos 1); try done.
    specialize (Hc ltac:(lia)). eapply keeps_bind.
    + apply keeps_fs_call. intros E. by rewrite E in Hc.
    + intros [e|rec] Ho; apply keeps_ret; [done|]. rewrite Ho in Hc.
      by destruct Hc as (_ & _ & _ & ? & _ & ? & _).
  - intros [n|] Hn; apply keeps_ret; [|done]. destruct Hn.
    cbn. split_and!; try done; try lia.
Qed.

Lemma keeps_write_dirent rec ino pos reclen typ name :
  is_u8 typ -> bytes_ok name -> keeps r (write_dirent rec ino pos reclen typ name) (fun _ => True).
Proof.
  intros Ht Hn. unfold write_dirent.
  repeat (eapply keeps_bind; [apply keeps_store; first
    [by auto with leon | by constructor | by repeat constructor]|intros _ _]).
  apply keeps_store. apply bytes_ok_zreplicate. ilia.
Qed.
(** Positions stay below the number of entries, so what is written does too. *)
Lemma keeps_dents_loop fuel fd dirp count total pos written :
  3 <= fd -> 0 <= pos <= total -> total < 2 ^ 16 + 2 -> 0 <= written <= pos * 75 ->
  keeps r (dents_loop fuel fd dirp count total pos written) is_i64.
Proof.
  intros Hfd Hpos Ht. revert pos written Hpos. induction fuel as [|fuel IH];
    intros pos written Hpos Hw; cbn [dents_loop].
  all: assert (is_i64 written) by ilia; auto with leon.
  keep_if; [auto with leon|].
  eapply keeps_bind; [apply keeps_dirent_at; lia|]. intros [[[name typ] ino]|] Hl; [|auto with leon].
  destruct Hl as (Hn & Hb & Htyp). keep_if; [keep_if; auto with leon|].
  eapply keeps_bind; [by apply keeps_write_dirent|]. intros _ _.
  eapply keeps_bind; [apply keeps_fd_set; [done|cbn; ilia]|]. intros _ _.
  pose proof (dirent_record_len_range (zlen name)). unfold fs.NAME_CAP in *. apply IH; ilia.
Qed.
Lemma keeps_sys_getdents64 fd dirp count :
  0 <= fd -> keeps r (sys_getdents64 fd dirp count) is_i64.
Proof.
  intros Hfd. unfold sys_getdents64. keep.
  eapply keeps_bind; [apply keeps_fd_get; lia|]. intros e [He Hf]. keep.
  destruct Hf as [|Hf]; [done|]. cbn in He.
  eapply keeps_bind; [apply keeps_root_entries_count|]. intros total Ht. keep.
  cbv beta in Ht. apply keeps_dents_loop; lia.
Qed.

(** *** The rest *)
Lemma keeps_uname_loop vals base :
  Forall bytes_ok vals -> keeps r (uname_loop base vals) (fun _ => True).
Proof.
  intros Hv. revert base. induction Hv as [|s vals Hs _ IH]; intros base; cbn [uname_loop];
    [by apply keeps_ret|].
  eapply keeps_bind; [apply keeps_store, bytes_ok_zreplicate; ilia|]. intros _ _.
  eapply keeps_bind; [apply keeps_store; by apply Forall_take|]. intros _ _. apply IH.
Qed.
Lemma keeps_sys_uname buf : keeps r (sys_uname buf) is_i64.
Proof.
  unfold sys_uname. keep. eapply keeps_bind; [apply keeps_uname_loop|intros _ _; keep].
  by apply (bool_decide_unpack _).
Qed.
Lemma keeps_two_words p q v :
  is_i64 v -> keeps r (store p (to_le 8 0);; store q (to_le 8 0);; ret v) is_i64.
Proof. intros Hv. repeat (eapply keeps_bind; [apply keeps_store, to_le_ok|intros _ _]). keep. Qed.
Lemma next_random_u8 x : is_u8 (next_random x).
Proof. unfold next_random, is_u8. apply Z.mod_pos_bound. lia. Qed.
Lemma keeps_random_loop n buf x : keeps r (random_loop n buf x) (fun _ => True).
Proof.
  revert buf x. induction n as [|n IH]; intros buf x; cbn [random_loop]; [by apply keeps_ret|].
  eapply keeps_bind; [|intros _ _; apply IH]. apply keeps_store.
  constructor; [apply next_random_u8|done].
Qed.
Lemma keeps_sys_getrandom buf len : keeps r (sys_getrandom buf len) is_i64.
Proof.
  unfold sys_getrandom. keep. eapply keeps_bind; [apply keeps_random_loop|intros _ _; keep].
Qed.
Lemma keeps_mark_exit code v : is_i64 v -> keeps r (mark_exit_code code;; ret v) is_i64.
Proof.
  intros Hv. eapply keeps_bind; [|intros _ _; keep].
  apply (keeps_modify _ _ (fun _ => True)); [done|]. intros k []. split; try done; cbn.
  apply (sext_range 32). lia.
Qed.
Lemma keeps_sys_wait4 p st o u : keeps r (sys_wait4 p st o u) is_i64.
Proof.
  unfold sys_wait4. eapply keeps_bind; [apply keeps_getpid|]. intros ? ->. keep.
  eapply keeps_bind; [by apply (keeps_gets _ _ (fun _ => True))|]. intros w _.
  eapply keeps_bind; [apply (keeps_gets _ _ (fun c => - 2 ^ 31 <= c < 2 ^ 31)); by intros k []|].
  intros c Hc.
  eapply keeps_bind; [apply (keeps_modify _ _ (fun _ => True)); [done|]; by intros k []; split|].
  intros _ _. keep. eapply (keeps_bind _ _ _ (fun _ => True)); [|intros _ _; apply keeps_ret; ilia].
  keep_if; [by apply keeps_ret|]. apply keeps_store, to_le_ok.
Qed.
Lemma keeps_sys_arch_prctl c a : keeps r (sys_arch_prctl c a) is_i64.
Proof.
  unfold sys_arch_prctl. keep.
  all: eapply keeps_bind; [by apply (keeps_gets _ _ (fun _ => True))|]; intros f _.
  all: eapply keeps_bind; [|intros _ _; keep].
  all: apply (keeps_modify _ _ (fun _ => True)); [done|]; by intros k []; split.
Qed.
(** The length of a mapping is rounded up to whole pages, which overflows
    only in the last page of the address space. *)
Definition mmap_ok (n : Z) : Prop := n <= u64_max - 0xFFF.
Lemma page_round n :
  0 <= n <= u64_max -> Z.land n (not64 0xFFF) = 0x1000 * (n / 0x1000).
Proof.
  intros Hn. change 0xFFF with (2 ^ 12 - 1). rewrite land_not64_ones by ilia.
  change (2 ^ 12) with 0x1000. pose proof (Z.div_mod n 0x1000). lia.
Qed.
Lemma wrapping_add_pages b c : b mod 0x1000 = 0 -> wrapping_add b (0x1000 * c) mod 0x1000 = 0.
Proof.
  intros Hb. unfold wrapping_add. rewrite Z.mod_mod_divide by (by exists (2 ^ 52)).
  rewrite Z.add_comm, Z.mul_comm, Z.add_mod, Z.mod_mul, Hb by lia. done.
Qed.
Lemma keeps_sys_mmap n : 0 <= n -> mmap_ok n -> keeps r (sys_mmap n) is_i64.
Proof.
  intros Hn Hm. unfold mmap_ok in Hm. unfold sys_mmap. rewrite add64_small by ilia.
  eapply (keeps_bind _ _ _ (fun x => x = Z.max n 0x1000 + 0xFFF)); [by intros k Hk|]. intros x ->.
  rewrite page_round by ilia.
  eapply keeps_bind; [apply (keeps_gets _ _ (fun b => b mod 0x1000 = 0)); intros k []; intuition|].
  intros b Hb. eapply keeps_bind; [|intros _ _; keep].
  apply (keeps_modify _ _ (fun _ => True)); [done|]. intros k []. split; try done; cbn.
  split; [unfold wrapping_add, is_u64; by apply Z.mod_pos_bound|by apply wrapping_add_pages].
Qed.
Lemma sys_mmap_overflow n k : ~ mmap_ok n -> sys_mmap n k = Halt Panicked.
Proof.
  intros Hm. unfold mmap_ok in Hm. unfold sys_mmap, add64.
  rewrite (proj2 (Z.leb_gt _ _)) by ilia. done.
Qed.

(** *** The dispatcher *)
Lemma keeps_dispatch nr a0 a1 a2 a3 a4 a5 :
  is_u64 a0 -> is_u64 a1 -> is_u64 a2 -> is_u64 a3 -> (nr = SYS_MMAP -> mmap_ok a1) ->
  keeps r (dispatch nr a0 a1 a2 a3 a4 a5) is_i64.
Proof.
  intros H0 H1 H2 H3 Hm. unfold dispatch, sys_clock_gettime, sys_gettimeofday, sys_faccessat,
    sys_readlinkat.
  assert (forall p : Z, is_u64 p -> 0 <= p) by (intros; ilia).
  repeat keep_if; auto using keeps_posix_read, keeps_sys_read, keeps_posix_write,
    keeps_sys_close, keeps_sys_lseek, keeps_sys_uname, keeps_sys_arch_prctl, keeps_sys_getrandom,
    keeps_sys_openat, keeps_sys_newfstatat, keeps_sys_stat_path, keeps_sys_fstat,
    keeps_sys_getdents64, keeps_sys_readlink, keeps_sys_access, keeps_sys_dup, keeps_sys_dup2,
    keeps_sys_getcwd, keeps_sys_chdir, keeps_sys_wait4, keeps_two_words, keeps_mark_exit with leon.
  - eapply keeps_bind; [by apply keeps_brk_set|]. intros b _. keep.
  - eapply keeps_weaken; [apply keeps_getpid|]. intros ? ->. ilia.
  - apply keeps_sys_mmap; [auto|]. apply Hm. lia.
Qed.
End Calls.

(** ** From the statics' first values *)
Lemma wf_boot m keys :
  map_Forall (fun _ b => is_u8 b) m ->
  Forall (fun o => match o with Some ch => is_u8 ch | None => True end) keys ->
  wf None (boot_kernel m keys).
Proof.
  intros Hm Hk. split; try done; cbn [FD_TABLE boot_kernel CWD_BUF CWD_LEN LAST_EXIT MMAP_BASE brk].
  - by apply Forall_replicate.
  - split_and!; [done|apply bytes_ok_zreplicate; ilia|done].
Qed.
Lemma wf_set_rootfs r a n k :
  wf r k -> rootfs_ok (Some (a, n)) (mem k) ->
  exists k', set_rootfs (a, n) k = Done tt k' /\ wf (Some (a, n)) k' /\ mem k' = mem k.
Proof.
  intros Hk Hr. eexists. split; [reflexivity|]. split; [|done]. destruct Hk. split; try done; cbn.
  - by apply Forall_replicate.
  - destruct wf_cwd0 as (? & ? & ?). rewrite length_insert. split_and!; try done.
    apply Forall_insert; [done|ilia].
Qed.
Lemma wf_set_stdin_reader r k :
  wf r k -> exists k', posix.set_stdin_reader k = Done tt k' /\ wf r k'.
Proof. intros []. eexists. split; [reflexivity|]. by split. Qed.

Lemma dispatch_wf r k nr a0 a1 a2 a3 a4 a5 :
  wf r k -> is_u64 a0 -> is_u64 a1 -> is_u64 a2 -> is_u64 a3 ->
  match dispatch nr a0 a1 a2 a3 a4 a5 k with
  | Done v k' => is_i64 v /\ wf r k'
  | Fail e _ => False
  | Halt h => True
  end.
Proof.
  intros Hk H0 H1 H2 H3. destruct (decide (nr = SYS_MMAP /\ ~ mmap_ok a1)) as [[-> Hm]|Hn].
  - change (dispatch _ _ _ _ _ _ _ k) with (sys_mmap a1 k). by rewrite sys_mmap_overflow.
  - assert (keeps r (dispatch nr a0 a1 a2 a3 a4 a5) is_i64) as H.
    { apply keeps_dispatch; auto. intros ->. destruct (decide (a1 <= u64_max - 0xFFF)); [done|].
      destruct Hn. by split. }
    specialize (H k Hk). by destruct (dispatch _ _ _ _ _ _ _ k) as [v k'|[]|h].
Qed.

(** ** The theorem *)

(** C9: system calls are safe.  In a well-formed kernel (the mounted image is
    mapped memory, every descriptor points into it, descriptors 0 to 2 are
    not in the table, ...) a system call with any number and any 64-bit
    arguments either returns a 64-bit signed result in a well-formed kernel
    with the same image, or stops the machine (an access outside of the
    modelled memory, where the statics are, or an endless wait for the
    keyboard); it stops with a panic for exactly one call, [mmap] with a length
    in the last page of the address space. *)
Theorem dispatch_safe r k nr a0 a1 a2 a3 a4 a5 :
  wf r k -> is_u64 a0 -> is_u64 a1 -> is_u64 a2 -> is_u64 a3 ->
  match dispatch nr a0 a1 a2 a3 a4 a5 k with
  | Done v k' => is_i64 v /\ wf r k'
  | Fail e _ => False
  | Halt h => h = Panicked <-> nr = SYS_MMAP /\ u64_max - 0xFFF < a1
  end.
Proof.
  intros Hk H0 H1 H2 H3.
  destruct (decide (nr = SYS_MMAP /\ u64_max - 0xFFF < a1)) as [[-> Hm]|Hn].
  - change (dispatch _ _ _ _ _ _ _ k) with (sys_mmap a1 k).
    rewrite sys_mmap_overflow by (unfold mmap_ok; lia). done.
  - assert (keeps r (dispatch nr a0 a1 a2 a3 a4 a5) is_i64) as H.
    { apply keeps_dispatch; auto. unfold mmap_ok. intros ->. destruct (decide (u64_max - 0xFFF < a1)); [|lia].
      by destruct Hn. }
    specialize (H k Hk). destruct (dispatch _ _ _ _ _ _ _ k) as [v k'|[]|h]; naive_solver.
Qed.

(** ** A concrete machine

    A path at 0x1000, a buffer at 0x2000 and the image of Fs.v at 0x8000. *)
Fixpoint put (m : gmap Z Z) (a : Z) (bs : bytes) : gmap Z Z :=
  match bs with [] => m | b :: bs => put (<[a := b]> m) (a + 1) bs end.
Definition sample_mem : gmap Z Z :=
  put (put (put ∅ 0x1000 (str "/motd" ++ [0])) 0x2000 (zreplicate 160 0)) 0x8000 fs.sample_image.
Definition sample_keys : list (option Z) := [None; Some 104; Some 105; None; Some 10; Some 104].
Definition sample_root : option (Z * Z) := Some (0x8000, zlen fs.sample_image).
Definition sample_kernel : kernel :=
  with_cwd (<[0%nat := 47]> (zreplicate 64 0)) 1
    (with_rootfs sample_root (boot_kernel sample_mem sample_keys)).

Lemma mem_read_is_mapped m a n bs : mem_read m a (Z.to_nat n) = inl bs -> mapped m a n.
Proof.
  intros Hr x Hx. pose proof (mem_read_spec m a (Z.to_nat n)) as H. rewrite Hr in H.
  destruct H as [Hl Hi]. replace x with (a + Z.of_nat (Z.to_nat (x - a))) by lia.
  rewrite Hi by lia. apply lookup_lt_is_Some. lia.
Qed.
Lemma put_bytes m a bs :
  map_Forall (fun _ b => is_u8 b) m -> bytes_ok bs -> map_Forall (fun _ b => is_u8 b) (put m a bs).
Proof.
  intros Hm Hb. revert m a Hm. induction Hb as [|b bs Hb _ IH]; intros m a Hm; [done|].
  apply IH. by apply map_Forall_insert_2.
Qed.
Lemma sample_wf : wf sample_root sample_kernel.
Proof.
  assert (wf None (boot_kernel sample_mem sample_keys)) as Hb.
  { apply wf_boot; [|unfold is_u8; repeat (constructor; try lia)].
    repeat apply put_bytes; try by apply (bool_decide_unpack _).
  }
  destruct (wf_set_rootfs None 0x8000 (zlen fs.sample_image) _ Hb) as (k' & Hk & Hw & _).
  - split_and!; [done|by apply (bool_decide_unpack _)..|].
    apply (mem_read_is_mapped _ _ _ fs.sample_image). vm_compute. reflexivity.
  - injection Hk as <-. exact Hw.
Qed.

Lemma dispatch_safe_witness :
  wf sample_root sample_kernel /\
  (exists k', dispatch SYS_OPENAT (2 ^ 64 - 100) 0x1000 0 0 0 0 sample_kernel = Done 3 k' /\ wf sample_root k') /\
  dispatch SYS_MMAP 0 u64_max 0 0 0 0 sample_kernel = Halt Panicked.
Proof.
  split; [exact sample_wf|]. split; [|reflexivity].
  pose proof (dispatch_safe sample_root sample_kernel SYS_OPENAT (2 ^ 64 - 100) 0x1000 0 0 0 0
    sample_wf ltac:(by apply (bool_decide_unpack _)) ltac:(by apply (bool_decide_unpack _))
    ltac:(by apply (bool_decide_unpack _)) ltac:(by apply (bool_decide_unpack _))) as H.
  assert (match dispatch SYS_OPENAT (2 ^ 64 - 100) 0x1000 0 0 0 0 sample_kernel with
    Done v _ => v = 3 | _ => False end) as H3 by (vm_compute; reflexivity).
  destruct (dispatch _ _ _ _ _ _ _ sample_kernel) as [v k'|e k'|h]; [|destruct H3..].
  exists k'. split; [by rewrite H3|apply H].
Defined.
