(* ===== verification/SyscallFrame.v ===== *)
(** * What each system call may change

    The state of the kernel falls into parts; the table [touched] says which
    parts a system call may modify.  Everything else is the same after the
    call, whatever its arguments and whatever the state.  From this follows
    the life of an exit status: between two exits, [wait4] hands it out at
    most once. *)
From stdpp Require Import gmap.
From S2P Require Import Prelude Utf8 Fs Kernel Posix Syscall SyscallInv.

Inductive part := PMem | PFds | PCwd | PBrk | PPolls | PExit | PMmap | PArch.

(** Two states that agree on every part outside [ps]; the mounted image, the
    process identity and the keyboard reader are never touched. *)
Record agree (ps : part -> bool) (k k' : kernel) : Prop := mkAgree {
  ag_root : ROOTFS k' = ROOTFS k; ag_pid : pid k' = pid k; ag_reader : STDIN_READER k' = STDIN_READER k;
  ag_mem : ps PMem = false -> mem k' = mem k;
  ag_fds : ps PFds = false -> FD_TABLE k' = FD_TABLE k;
  ag_cwd : ps PCwd = false -> CWD_BUF k' = CWD_BUF k /\ CWD_LEN k' = CWD_LEN k;
  ag_brk : ps PBrk = false -> brk k' = brk k;
  ag_polls : ps PPolls = false -> polls k' = polls k;
  ag_exit : ps PExit = false -> LAST_EXIT k' = LAST_EXIT k /\ EXIT_WAITABLE k' = EXIT_WAITABLE k;
  ag_mmap : ps PMmap = false -> MMAP_BASE k' = MMAP_BASE k;
  ag_arch : ps PArch = false -> ARCH_FS k' = ARCH_FS k /\ ARCH_GS k' = ARCH_GS k }.

#[export] Instance agree_refl ps : Reflexive (agree ps).
Proof. done. Qed.
#[export] Instance agree_trans ps : Transitive (agree ps).
Proof. intros k1 k2 k3 [] []. split; intros; try split; try congruence; intuition congruence. Qed.

Definition frames {A} (ps : part -> bool) (m : K A) : Prop := evolves (agree ps) m.
#[export] Instance agree_preorder ps : PreOrder (agree ps).
Proof. split; apply _. Qed.

(** ** The rules *)
Section Rules.
Context (ps : part -> bool).

Lemma frames_ret {A} (a : A) : frames ps (ret a).
Proof. by apply evolves_ret, _. Qed.
Lemma frames_stop {A} h : frames (A := A) ps (stop h).
Proof. apply evolves_stop. Qed.
Lemma frames_gets {A} (f : kernel -> A) : frames ps (gets f).
Proof. by apply evolves_gets, _. Qed.
Lemma frames_lift {A} (m : outcome Empty_set A) : frames ps (lift m).
Proof. by apply evolves_lift, _. Qed.
Lemma frames_load a n : frames ps (load a n).
Proof. intros k. unfold load. by destruct (mem_read _ _ _). Qed.
Lemma frames_load8 a : frames ps (load8 a).
Proof. intros k. unfold load8. by destruct (mem k !! a). Qed.
Lemma frames_bind {A B} (m : K A) (f : A -> K B) :
  frames ps m -> (forall a, frames ps (f a)) -> frames ps (m ≫= f).
Proof. apply evolves_bind, _. Qed.
Lemma frames_modify f : (forall k, agree ps k (f k)) -> frames ps (modify f).
Proof. apply evolves_modify. Qed.
Lemma frames_store a bs : ps PMem = true -> frames ps (store a bs).
Proof.
  intros Hp k. unfold store. destruct (mem_write _ _ _); [|done]. split; try done. cbn. congruence.
Qed.
Lemma frames_fd_get fd : frames ps (fd_get fd).
Proof. apply frames_bind; [apply frames_gets|]. intros t. case_match; [apply frames_ret|apply frames_stop]. Qed.
Lemma frames_fd_set fd e : ps PFds = true -> frames ps (fd_set fd e).
Proof.
  intros Hp. apply frames_bind; [apply frames_gets|]. intros t. apply frames_modify.
  intros k. split; try done. cbn. congruence.
Qed.
Lemma frames_cwd b n : ps PCwd = true -> frames ps (modify (with_cwd b n)).
Proof. intros Hp. apply frames_modify. intros k. split; try done. cbn. congruence. Qed.
Lemma frames_brk b : ps PBrk = true -> frames ps (modify (with_brk b)).
Proof. intros Hp. apply frames_modify. intros k. split; try done. cbn. congruence. Qed.
Lemma frames_polls p : ps PPolls = true -> frames ps (modify (with_polls p)).
Proof. intros Hp. apply frames_modify. intros k. split; try done. cbn. congruence. Qed.
Lemma frames_exit c w : ps PExit = true -> frames ps (modify (with_exit c w)).
Proof. intros Hp. apply frames_modify. intros k. split; try done. cbn. congruence. Qed.
Lemma frames_mmap b : ps PMmap = true -> frames ps (modify (with_mmap b)).
Proof. intros Hp. apply frames_modify. intros k. split; try done. cbn. congruence. Qed.
Lemma frames_arch f g : ps PArch = true -> frames ps (modify (with_arch f g)).
Proof. intros Hp. apply frames_modify. intros k. split; try done. cbn. congruence. Qed.
End Rules.

Create HintDb frame.
#[export] Hint Resolve frames_ret frames_stop frames_gets frames_lift frames_load frames_load8
  frames_store frames_fd_get frames_fd_set frames_cwd frames_brk frames_polls frames_exit
  frames_mmap frames_arch : frame.
Ltac fr := repeat (cbv beta zeta; first
  [ match goal with |- frames _ (if ?b then _ else _) => destruct b end
  | match goal with |- frames _ (match ?x with _ => _ end) => destruct x end
  | match goal with |- frames _ (_ ≫= _) => apply frames_bind; [|intros] end
  | solve [auto with frame] ]).

Section Calls.
Context (ps : part -> bool).

Lemma frames_rootfs : frames ps rootfs.
Proof. unfold rootfs. fr. Qed.
Lemma frames_fs_call {A} (m : outcome fs.FsError A) : frames ps (fs_call m).
Proof. unfold fs_call. fr. Qed.
Lemma frames_cstr_loop n p acc : frames ps (cstr_loop n p acc).
Proof. revert acc. induction n as [|n IH]; intros acc; cbn [cstr_loop]; fr. Qed.
Lemma frames_read_cstr p : frames ps (read_cstr p).
Proof. apply frames_cstr_loop. Qed.
End Calls.
#[export] Hint Resolve frames_rootfs frames_fs_call frames_read_cstr : frame.

Section Calls2.
Context (ps : part -> bool).
Lemma frames_path_exists n : frames ps (path_exists n).
Proof. unfold path_exists. fr. Qed.
Lemma frames_is_dirfd_ok d : frames ps (is_dirfd_ok d).
Proof. unfold is_dirfd_ok. fr. Qed.
Lemma frames_alloc_fd e : ps PFds = true -> frames ps (alloc_fd e).
Proof. intros. unfold alloc_fd. fr. Qed.
Lemma frames_entries : frames ps root_entries_count.
Proof. unfold root_entries_count. fr. Qed.
Lemma frames_write_stat p d s m i : ps PMem = true -> frames ps (write_stat p d s m i).
Proof. intros. unfold write_stat. fr. Qed.
Lemma frames_copy a b n : ps PMem = true -> frames ps (copy_nonoverlapping a b n).
Proof. intros. unfold copy_nonoverlapping. fr. Qed.
Hint Resolve frames_path_exists frames_is_dirfd_ok frames_alloc_fd frames_entries frames_write_stat
  frames_copy : frame.

Lemma frames_sys_openat d p fl m : ps PFds = true -> frames ps (sys_openat d p fl m).
Proof. intros. unfold sys_openat. fr. Qed.
Lemma frames_sys_read fd buf len : ps PFds = true -> ps PMem = true -> frames ps (sys_read fd buf len).
Proof. intros. unfold sys_read. fr. Qed.
Lemma frames_sys_close fd : ps PFds = true -> frames ps (sys_close fd).
Proof. intros. unfold sys_close. fr. Qed.
Lemma frames_sys_lseek fd o w : ps PFds = true -> frames ps (sys_lseek fd o w).
Proof. intros. unfold sys_lseek. fr. Qed.
Lemma frames_sys_dup fd : ps PFds = true -> frames ps (sys_dup fd).
Proof. intros. unfold sys_dup. fr. Qed.
Lemma frames_sys_dup2 fd fd2 : ps PFds = true -> frames ps (sys_dup2 fd fd2).
Proof. intros. unfold sys_dup2. fr. Qed.
Lemma frames_sys_stat_path p st : ps PMem = true -> frames ps (sys_stat_path p st).
Proof. intros. unfold sys_stat_path. fr. Qed.
Lemma frames_sys_fstat fd st : ps PMem = true -> frames ps (sys_fstat fd st).
Proof. intros. unfold sys_fstat. fr. Qed.
Hint Resolve frames_sys_stat_path frames_sys_fstat : frame.
Lemma frames_sys_newfstatat d p st fl : ps PMem = true -> frames ps (sys_newfstatat d p st fl).
Proof. intros. unfold sys_newfstatat. fr. Qed.
Lemma frames_dirent_at pos : frames ps (dirent_at pos).
Proof. unfold dirent_at, root_name_by_index. fr. Qed.
Lemma frames_write_dirent rec ino pos l t n : ps PMem = true -> frames ps (write_dirent rec ino pos l t n).
Proof. intros. unfold write_dirent. fr. Qed.
Hint Resolve frames_dirent_at frames_write_dirent : frame.
Lemma frames_dents_loop f fd d c t pos w :
  ps PMem = true -> ps PFds = true -> frames ps (dents_loop f fd d c t pos w).
Proof. intros Hm Hf. revert pos w. induction f as [|f IH]; intros pos w; cbn [dents_loop]; fr. Qed.
Hint Resolve frames_dents_loop : frame.
Lemma frames_sys_getdents64 fd d c :
  ps PMem = true -> ps PFds = true -> frames ps (sys_getdents64 fd d c).
Proof. intros. unfold sys_getdents64. fr. Qed.
Lemma frames_sys_getcwd b n : ps PMem = true -> frames ps (sys_getcwd b n).
Proof. intros. unfold sys_getcwd. fr. Qed.
Lemma frames_sys_chdir p : ps PCwd = true -> frames ps (sys_chdir p).
Proof. intros. unfold sys_chdir. fr. Qed.
Lemma frames_sys_access p : frames ps (sys_access p).
Proof. unfold sys_access. fr. Qed.
Lemma frames_sys_readlink p b n : ps PMem = true -> frames ps (sys_readlink p b n).
Proof. intros. unfold sys_readlink, readlink_impl. fr. Qed.
Lemma frames_uname_loop v b : ps PMem = true -> frames ps (uname_loop b v).
Proof. intros Hm. revert b. induction v as [|x v IH]; intros b; cbn [uname_loop]; fr. Qed.
Hint Resolve frames_uname_loop : frame.
Lemma frames_sys_uname b : ps PMem = true -> frames ps (sys_uname b).
Proof. intros. unfold sys_uname. fr. Qed.
Lemma frames_random_loop n b x : ps PMem = true -> frames ps (random_loop n b x).
Proof. intros Hm. revert b x. induction n as [|n IH]; intros b x; cbn [random_loop]; fr. Qed.
Hint Resolve frames_random_loop : frame.
Lemma frames_sys_getrandom b n : ps PMem = true -> frames ps (sys_getrandom b n).
Proof. intros. unfold sys_getrandom. fr. Qed.
Lemma frames_sys_wait4 p st o u : ps PMem = true -> ps PExit = true -> frames ps (sys_wait4 p st o u).
Proof. intros. unfold sys_wait4, posix.getpid. fr. Qed.
Lemma frames_sys_mmap n : ps PMmap = true -> frames ps (sys_mmap n).
Proof. intros. unfold sys_mmap. fr. Qed.
Lemma frames_sys_arch_prctl c a : ps PArch = true -> frames ps (sys_arch_prctl c a).
Proof. intros. unfold sys_arch_prctl. fr. Qed.
Lemma frames_brk_set b : ps PBrk = true -> frames ps (posix.brk_set b).
Proof. intros. unfold posix.brk_set, posix.brk_get. fr. Qed.
Lemma frames_mark_exit c : ps PExit = true -> frames ps (mark_exit_code c).
Proof. intros. unfold mark_exit_code. fr. Qed.
Lemma frames_read_loop ks b l n : ps PMem = true -> ps PPolls = true -> frames ps (posix.read_loop ks b l n).
Proof.
  intros Hm Hp. revert n. induction ks as [|o ks IH]; intros n; cbn [posix.read_loop]; fr.
Qed.
Hint Resolve frames_read_loop : frame.
Lemma frames_posix_read fd b l : ps PMem = true -> ps PPolls = true -> frames ps (posix.read fd b l).
Proof. intros. unfold posix.read. fr. Qed.
Lemma frames_posix_write fd b l : frames ps (posix.write fd b l).
Proof. unfold posix.write. fr. Qed.
End Calls2.
#[export] Hint Resolve frames_sys_openat frames_sys_read frames_sys_close frames_sys_lseek frames_sys_dup
  frames_sys_dup2 frames_sys_stat_path frames_sys_fstat frames_sys_newfstatat frames_sys_getdents64
  frames_sys_getcwd frames_sys_chdir frames_sys_access frames_sys_readlink frames_sys_uname
  frames_sys_getrandom frames_sys_wait4 frames_sys_mmap frames_sys_arch_prctl frames_brk_set
  frames_mark_exit frames_posix_read frames_posix_write : frame.

(** ** The table *)
Definition touched (nr : Z) (p : part) : bool :=
  match p with
  | PMem => one_of nr [SYS_READ; SYS_CLOCK_GETTIME; SYS_GETTIMEOFDAY; SYS_UNAME; SYS_GETRANDOM;
      SYS_NEWFSTATAT; SYS_STAT; SYS_LSTAT; SYS_FSTAT; SYS_GETDENTS64; SYS_READLINKAT; SYS_READLINK;
      SYS_GETCWD; SYS_WAIT4]
  | PFds => one_of nr [SYS_READ; SYS_CLOSE; SYS_LSEEK; SYS_OPENAT; SYS_GETDENTS64; SYS_DUP; SYS_DUP2]
  | PCwd => nr =? SYS_CHDIR
  | PBrk => nr =? SYS_BRK
  | PPolls => nr =? SYS_READ
  | PExit => one_of nr [SYS_EXIT; SYS_EXIT_GROUP; SYS_WAIT4]
  | PMmap => nr =? SYS_MMAP
  | PArch => nr =? SYS_ARCH_PRCTL
  end.
Lemma frames_dispatch nr a0 a1 a2 a3 a4 a5 :
  frames (touched nr) (dispatch nr a0 a1 a2 a3 a4 a5).
Proof.
  unfold dispatch, sys_clock_gettime, sys_gettimeofday, sys_faccessat, sys_readlinkat, posix.getpid.
  repeat match goal with
  | |- frames _ (if ?n =? ?c then _ else _) => destruct (Z.eqb_spec n c) as [->|]; [fr|]
  | |- frames _ (if one_of ?n ?l then _ else _) => destruct (one_of n l) eqn:?; [fr|]
  end.
  - apply frames_mark_exit. cbn in Heqb0 |- *. by destruct (nr =? SYS_EXIT), (nr =? SYS_EXIT_GROUP).
  - apply frames_sys_stat_path. match goal with H : one_of nr _ = true |- _ =>
      apply existsb_exists in H as (x & Hx & ->%Z.eqb_eq) end.
    cbn in Hx. by destruct Hx as [<-|[<-|[]]].
  - fr.
Qed.

(** ** Exit statuses *)

(** A system call with its number and arguments. *)
Definition call : Type := Z * (Z * Z * Z * Z * Z * Z).
Definition run_call (c : call) : K Z :=
  let '(nr, (a0, a1, a2, a3, a4, a5)) := c in dispatch nr a0 a1 a2 a3 a4 a5.
Fixpoint run_calls (cs : list call) : K (list Z) :=
  match cs with
  | [] => ret []
  | c :: cs => v ← run_call c; vs ← run_calls cs; ret (v :: vs)
  end.
Definition is_exit (c : call) : bool := one_of c.1 [SYS_EXIT; SYS_EXIT_GROUP].
(** [wait4] answered a process number. *)
Definition reaped (c : call) (v : Z) : bool := (c.1 =? SYS_WAIT4) && (0 <=? v).
Fixpoint exits (cs : list call) : Z :=
  match cs with [] => 0 | c :: cs => (if is_exit c then 1 else 0) + exits cs end.
Fixpoint reaps (cs : list call) (vs : list Z) : Z :=
  match cs, vs with
  | c :: cs, v :: vs => (if reaped c v then 1 else 0) + reaps cs vs
  | _, _ => 0
  end.
Definition pending (k : kernel) : Z := if EXIT_WAITABLE k then 1 else 0.

(** [wait4] in closed form: refusal, or the status and the end of the wait. *)
Lemma sys_wait4_eq p st o u k :
  sys_wait4 p st o u k =
    if (0 <? p) && negb (p =? pid k) then Done (- ECHILD) k
    else if negb (EXIT_WAITABLE k) then Done (- ECHILD) (with_exit (LAST_EXIT k) false k)
    else if st =? 0 then Done (pid k) (with_exit (LAST_EXIT k) false k)
    else match mem_write (mem k) st (to_le 4 (Z.shiftl (Z.land (LAST_EXIT k) 0xFF) 8)) with
         | inl m => Done (pid k) (with_mem m (with_exit (LAST_EXIT k) false k))
         | inr e => Halt (Outside e)
         end.
Proof.
  unfold sys_wait4, posix.getpid. run_prog. branch as H1; [done|]. run_prog.
  branch as H2; [done|]. destruct (st =? 0); run_prog; [done|]. unfold store. cbn [mem with_exit].
  by destruct (mem_write _ _ _).
Qed.
Lemma one_of_not nr l x : one_of nr l = false -> x ∈ l -> nr <> x.
Proof.
  intros H Hx ->. assert (one_of x l = true) as E; [|congruence].
  apply existsb_exists. exists x. split; [by apply list_elem_of_In|apply Z.eqb_refl].
Qed.
(** What one call does to the exit status. *)
Lemma run_call_pending c k v k' :
  run_call c k = Done v k' ->
  (if reaped c v then 1 else 0) + pending k' <= (if is_exit c then 1 else 0) + pending k.
Proof.
  destruct c as [nr [[[[[a0 a1] a2] a3] a4] a5]]. cbn [run_call]. unfold is_exit, reaped. cbn [fst].
  intros Hd. destruct (one_of nr [SYS_EXIT; SYS_EXIT_GROUP]) eqn:He.
  { assert ((nr =? SYS_WAIT4) = false) as ->.
    { apply existsb_exists in He as (x & Hx & ->%Z.eqb_eq). cbn in Hx. by destruct Hx as [<-|[<-|[]]]. }
    cbn [andb]. unfold pending. destruct (EXIT_WAITABLE k'), (EXIT_WAITABLE k); lia. }
  destruct (Z.eqb_spec nr SYS_WAIT4) as [->|Hw]; cbn [andb].
  - change (dispatch _ _ _ _ _ _ _) with (sys_wait4 (to_i64 a0) a1 a2 a3) in Hd.
    rewrite sys_wait4_eq in Hd. unfold pending.
    branch as H1 in Hd; [injection Hd as <- <-; change (0 <=? - ECHILD) with false; destruct (EXIT_WAITABLE k); lia|].
    branch as H2 in Hd; [injection Hd as <- <-; change (0 <=? - ECHILD) with false; cbn;
      destruct (EXIT_WAITABLE k); lia|].
    apply negb_false_iff in H2. rewrite H2.
    branch as H3 in Hd; [|destruct (mem_write _ _ _); [|done]]; injection Hd as <- <-; cbn;
      destruct (0 <=? pid k); lia.
  - pose proof (frames_dispatch nr a0 a1 a2 a3 a4 a5 k) as Hf. rewrite Hd in Hf.
    destruct (ag_exit _ _ _ Hf) as [_ Hx]; [|unfold pending; rewrite Hx; lia].
    cbn [touched]. unfold one_of in *. cbn in *. rewrite orb_false_r in *.
    apply orb_false_iff in He as [-> ->]. by apply Z.eqb_neq in Hw as ->.
Qed.

(** C15: system calls only touch what they are for.  A system call that
    returns has changed nothing but the parts of the kernel that the table
    [touched] lists for its number: memory is written only by the calls that
    have an output buffer, descriptors change only in the file calls, the
    break only in [brk], the exit status only in [exit] and [wait4], and so
    on; no call changes the mounted image, the process number or the
    keyboard reader. *)
Theorem dispatch_frame nr a0 a1 a2 a3 a4 a5 k v k' :
  dispatch nr a0 a1 a2 a3 a4 a5 k = Done v k' -> agree (touched nr) k k'.
Proof.
  intros Hd. pose proof (frames_dispatch nr a0 a1 a2 a3 a4 a5 k) as H. by rewrite Hd in H.
Qed.

(** C16: an exit status is reaped at most once.  In every sequence of system
    calls that runs to its end, the number of [wait4] calls that answer a
    process is at most the number of exits, plus one when an exit was pending
    at the start. *)
Theorem wait4_reaps_once cs k vs k' :
  run_calls cs k = Done vs k' -> reaps cs vs + pending k' <= exits cs + pending k.
Proof.
  revert k vs. induction cs as [|c cs IH]; intros k vs; cbn [run_calls exits].
  - intros [= <- <-]. cbn. lia.
  - run_prog. destruct (run_call c k) as [v k1|[]|h] eqn:Hc; [|done].
    destruct (run_calls cs k1) as [vs1 k2|[]|h] eqn:Hr; [|done]. intros [= <- <-].
    apply run_call_pending in Hc. apply IH in Hr. cbn [reaps]. lia.
Qed.

(** [getpid] in the sample machine. *)
Lemma dispatch_frame_witness :
  exists k', dispatch SYS_EXIT 263 0 0 0 0 0 sample_kernel = Done 0 k' /\ LAST_EXIT k' = 263 /\
    agree (touched SYS_EXIT) sample_kernel k'.
Proof.
  exists (with_exit 263 true sample_kernel). split_and!; [reflexivity|reflexivity|].
  apply (dispatch_frame SYS_EXIT 263 0 0 0 0 0 _ 0). reflexivity.
Defined.
(** One exit, two waits: the second one finds no child. *)
Lemma wait4_reaps_once_witness :
  let cs := [(SYS_EXIT, (7, 0, 0, 0, 0, 0)); (SYS_WAIT4, (2 ^ 64 - 1, 0x2000, 0, 0, 0, 0));
             (SYS_WAIT4, (2 ^ 64 - 1, 0, 0, 0, 0, 0))] in
  match run_calls cs sample_kernel with
  | Done vs k' => vs = [0; 3; -10] /\ mem_read (mem k') 0x2000 4 = inl [0; 7; 0; 0] /\
      reaps cs vs + pending k' <= exits cs + pending sample_kernel
  | _ => False
  end.
Proof.
  cbv zeta.
  assert (match run_calls [(SYS_EXIT, (7, 0, 0, 0, 0, 0)); (SYS_WAIT4, (2 ^ 64 - 1, 0x2000, 0, 0, 0, 0));
             (SYS_WAIT4, (2 ^ 64 - 1, 0, 0, 0, 0, 0))] sample_kernel with
    | Done vs k' => vs = [0; 3; -10] /\ mem_read (mem k') 0x2000 4 = inl [0; 7; 0; 0]
    | _ => False end) as Hv by (vm_compute; split; reflexivity).
  destruct (run_calls _ sample_kernel) as [vs k'|e k'|h] eqn:E; [|destruct Hv..].
  split; [apply Hv|]. split; [apply Hv|]. exact (wait4_reaps_once _ _ _ _ E).
Defined.
