(* ===== verification/SyscallMem.v ===== *)
(** * What memory a system call may write

    A system call writes memory through the buffers its caller passes, and
    nowhere else: [window] is the buffer that a call with given arguments may
    write.  It is the caller's claim that is bounded, not the caller's right:
    the calls check no pointer, so the buffer may lie anywhere. *)
From stdpp Require Import gmap.
From S2P Require Import Prelude Utf8 Fs Kernel Posix Syscall SyscallInv SyscallFrame.

(** The memory changes at most on [P], and no address is unmapped. *)
Definition mem_within (P : Z -> Prop) (k k' : kernel) : Prop := forall x,
  (is_Some (mem k !! x) -> is_Some (mem k' !! x)) /\ (mem k' !! x = mem k !! x \/ P x).
#[export] Instance mem_within_preorder P : PreOrder (mem_within P).
Proof.
  split.
  - intros k x. auto.
  - intros k1 k2 k3 H1 H2 x. destruct (H1 x) as [? [E1|?]], (H2 x) as [? [E2|?]];
      (split; [auto|]); first [by right|left; congruence].
Qed.
Lemma mem_within_weaken P Q k k' : (forall x, P x -> Q x) -> mem_within P k k' -> mem_within Q k k'.
Proof. intros H Hm x. destruct (Hm x) as [? [?|?]]; auto. Qed.
Lemma mem_within_mapped P k k' a n : mem_within P k k' -> mapped (mem k) a n -> mapped (mem k') a n.
Proof. intros H Hm x Hx. apply H. auto. Qed.

(** [n] bytes from [a] on. *)
Definition range (a n x : Z) : Prop := a <= x < a + n.

Section Rules.
Context (P : Z -> Prop).
Definition writes {A} (m : K A) : Prop := evolves (mem_within P) m.

Lemma writes_bind {A B} (m : K A) (f : A -> K B) : writes m -> (forall a, writes (f a)) -> writes (m ≫= f).
Proof. apply evolves_bind, _. Qed.
Lemma writes_ret {A} (a : A) : writes (ret a).
Proof. by apply evolves_ret, _. Qed.
Lemma writes_stop {A} h : writes (A := A) (stop h).
Proof. apply evolves_stop. Qed.
Lemma writes_frames {A} ps (m : K A) : ps PMem = false -> frames ps m -> writes m.
Proof.
  intros Hp. apply evolves_weaken. intros k k' Ha x. rewrite (ag_mem _ _ _ Ha Hp). auto.
Qed.
Lemma writes_store a bs : (forall x, range a (zlen bs) x -> P x) -> writes (store a bs).
Proof.
  intros H k. unfold store. pose proof (mem_write_spec (mem k) a bs) as Hs.
  destruct (mem_write (mem k) a bs) as [m|e] eqn:Hw; [|done]. destruct Hs as [_ Hs]. intros x. cbn. split.
  - by eapply mem_write_domain.
  - rewrite Hs. unfold in_window. branch as Hx; [|by left]. right. apply H. unfold range. lia.
Qed.
Lemma writes_copy src dst n : (forall x, range dst n x -> P x) -> writes (copy_nonoverlapping src dst n).
Proof.
  intros H k. unfold copy_nonoverlapping. branch as Hb; [done|].
  unfold mbind, prog_bind, load. pose proof (mem_read_spec (mem k) src (Z.to_nat n)) as Hr.
  destruct (mem_read _ _ _) as [bs|e]; [|done]. destruct Hr as [Hl _].
  apply writes_store. intros x Hx. apply H. unfold range, zlen in *. lia.
Qed.
End Rules.

(** Computations that do not write memory at all. *)
Definition quiet : part -> bool := fun p => match p with PMem => false | _ => true end.
Lemma writes_quiet P {A} (m : K A) : frames quiet m -> writes P m.
Proof. by apply writes_frames. Qed.
Lemma frames_set_quiet (f : kernel -> kernel) : (forall k, mem (f k) = mem k) ->
  (forall k, ROOTFS (f k) = ROOTFS k /\ pid (f k) = pid k /\ STDIN_READER (f k) = STDIN_READER k) ->
  frames quiet (modify f).
Proof. intros H1 H2. apply frames_modify. intros k. destruct (H2 k) as (?&?&?). by split. Qed.
Create HintDb wr.
#[export] Hint Resolve writes_ret writes_stop writes_store writes_copy : wr.
#[export] Hint Extern 2 (writes _ _) => (apply writes_quiet; solve [auto with frame]) : wr.
Ltac wr := repeat (cbv beta zeta; first
  [ match goal with |- writes _ (if ?b then _ else _) => destruct b end
  | match goal with |- writes _ (match ?x with _ => _ end) => destruct x end
  | match goal with |- writes _ (_ ≫= _) => apply writes_bind; [|intros] end
  | solve [auto with wr] ]).

Section Calls.
Context (P : Z -> Prop).

Lemma writes_write_stat p d s m i : (forall x, range p 144 x -> P x) -> writes P (write_stat p d s m i).
Proof. intros H. unfold write_stat. wr. Qed.
Hint Resolve writes_write_stat : wr.
Hint Extern 1 (frames quiet (path_exists _)) => apply frames_path_exists : frame.
Hint Extern 1 (frames quiet (is_dirfd_ok _)) => apply frames_is_dirfd_ok : frame.
Hint Extern 1 (frames quiet root_entries_count) => apply frames_entries : frame.
Hint Extern 1 (frames quiet (dirent_at _)) => apply frames_dirent_at : frame.

Lemma writes_sys_read fd buf len : (forall x, range buf len x -> P x) -> writes P (sys_read fd buf len).
Proof.
  intros H. unfold sys_read. wr. apply writes_copy. intros x Hx. apply H. unfold range in *. lia.
Qed.
Lemma writes_sys_stat_path p st : (forall x, range st 144 x -> P x) -> writes P (sys_stat_path p st).
Proof. intros. unfold sys_stat_path. wr. Qed.
Lemma writes_sys_fstat fd st : (forall x, range st 144 x -> P x) -> writes P (sys_fstat fd st).
Proof. intros. unfold sys_fstat. wr. Qed.
Hint Resolve writes_sys_stat_path writes_sys_fstat : wr.
Lemma writes_sys_newfstatat d p st fl : (forall x, range st 144 x -> P x) -> writes P (sys_newfstatat d p st fl).
Proof. intros. unfold sys_newfstatat. wr. Qed.
Lemma writes_sys_readlink p buf n : (forall x, range buf n x -> P x) -> writes P (sys_readlink p buf n).
Proof.
  intros H. unfold sys_readlink, readlink_impl. wr. apply writes_store. intros x Hx. apply H.
  unfold range, zlen in *. rewrite length_take in Hx. lia.
Qed.
Lemma writes_two_words p v : (forall x, range p 16 x -> P x) ->
  writes P ((store p (to_le 8 0);; store (p + 8) (to_le 8 0);; ret v) : K Z).
Proof.
  intros H. repeat (apply writes_bind; [apply writes_store|intros _; try apply writes_ret]);
    intros x; rewrite zlen_to_le; unfold range in *; intros; apply H; lia.
Qed.
Lemma writes_uname_loop v b : (forall x, range b (65 * zlen v) x -> P x) -> writes P (uname_loop b v).
Proof.
  revert b. induction v as [|s v IH]; intros b H; cbn [uname_loop]; [apply writes_ret|].
  rewrite zlen_cons in H. pose proof (zlen_nonneg v). unfold range, UTS_FIELD in *.
  repeat (apply writes_bind; [apply writes_store|intros _]).
  - intros x. rewrite zlen_zreplicate by lia. unfold range. intros. apply H. lia.
  - intros x. unfold range, zlen. rewrite length_take. intros. apply H. lia.
  - apply IH. intros x Hx. apply H. lia.
Qed.
Lemma writes_random_loop n b s : (forall x, range b (Z.of_nat n) x -> P x) -> writes P (random_loop n b s).
Proof.
  revert b s. induction n as [|n IH]; intros b s H; cbn [random_loop]; [apply writes_ret|].
  unfold range in *. apply writes_bind; [apply writes_store|intros _; apply IH; intros x Hx; apply H; lia].
  intros x. unfold range. change (zlen [next_random s]) with 1. intros. apply H. lia.
Qed.
Lemma writes_wait4 p st o u : (forall x, range st 4 x -> P x) -> writes P (sys_wait4 p st o u).
Proof.
  intros H. unfold sys_wait4, posix.getpid. wr; try (apply writes_quiet, frames_set_quiet; by intros k).
Qed.
Lemma writes_read_loop ks b l n : 0 <= n -> (forall x, range b l x -> P x) -> writes P (posix.read_loop ks b l n).
Proof.
  intros Hn H. revert n Hn. induction ks as [|o ks IH]; intros n Hn; cbn [posix.read_loop].
  - wr.
  - destruct (l <=? n) eqn:Hl; [wr|]. apply writes_bind; [apply writes_quiet, frames_set_quiet; by intros k|intros _].
    destruct o as [ch|]; [|by apply IH]. apply writes_bind; [apply writes_store|intros _].
    + intros x. unfold range in *. change (zlen [ch]) with 1. intros. apply H. lia.
    + branch as Hc; [apply writes_ret|]. apply IH. lia.
Qed.
Lemma writes_posix_read fd b l : (forall x, range b l x -> P x) -> writes P (posix.read fd b l).
Proof.
  intros H. unfold posix.read. wr. apply writes_read_loop; [lia|done].
Qed.
End Calls.

(** *** Calls whose output is bounded by the invariant *)
Section Invariant.
Context (r : option (Z * Z)) (P : Z -> Prop).
Definition writes_wf {A} (m : K A) : Prop := forall k, wf r k ->
  match m k with Done _ k' => mem_within P k k' | _ => True end.
Lemma writes_wf_writes {A} (m : K A) : writes P m -> writes_wf m.
Proof. intros H k _. specialize (H k). by destruct (m k). Qed.
Lemma writes_wf_bind {A B} (m : K A) (f : A -> K B) phi :
  keeps r m phi -> writes P m -> (forall a, phi a -> writes_wf (f a)) -> writes_wf (m ≫= f).
Proof.
  intros Hk Hw Hf k H. specialize (Hk k H). specialize (Hw k). unfold mbind, prog_bind.
  destruct (m k) as [a k1|e k1|h]; [|done..]. destruct Hk as [Ha H1]. specialize (Hf a Ha k1 H1).
  destruct (f a k1); [|done..]. by etrans.
Qed.

Lemma writes_write_dirent rec ino pos reclen typ name :
  20 + zlen name <= reclen -> (forall x, range rec reclen x -> P x) ->
  writes P (write_dirent rec ino pos reclen typ name).
Proof.
  intros Hl H. pose proof (zlen_nonneg name). unfold write_dirent, range in *.
  repeat (apply writes_bind; [|intros _]); apply writes_store; intros x; unfold range;
    rewrite ?zlen_to_le, ?zlen_zreplicate by lia; rewrite ?zlen_cons, ?zlen_nil; intros; apply H; lia.
Qed.
Lemma writes_dents_loop fuel fd dirp count total pos written :
  3 <= fd -> 0 <= pos <= total -> total < 2 ^ 16 + 2 -> 0 <= written -> (forall x, range dirp count x -> P x) ->
  writes_wf (dents_loop fuel fd dirp count total pos written).
Proof.
  intros Hfd Hpos Ht Hw H. revert pos written Hpos Hw. induction fuel as [|fuel IH];
    intros pos written Hpos Hw; cbn [dents_loop]; [apply writes_wf_writes; auto with wr|].
  destruct (total <=? pos) eqn:Hb; [apply writes_wf_writes; auto with wr|].
  eapply writes_wf_bind; [apply keeps_dirent_at; lia|apply writes_quiet, frames_dirent_at|].
  intros [[[name typ] ino]|] Hl; [|apply writes_wf_writes; auto with wr]. destruct Hl as (Hn & Hbs & Hty).
  pose proof (dirent_record_len_range (zlen name) ltac:(unfold fs.NAME_CAP in *; ilia)). cbv zeta.
  destruct (count <? written + _) eqn:Hc; [destruct (written =? 0); apply writes_wf_writes; auto with wr|].
  eapply writes_wf_bind; [by apply keeps_write_dirent|apply writes_write_dirent; [lia|]|].
  { intros x Hx. apply H. unfold range in *. lia. }
  intros _ _. eapply writes_wf_bind; [apply keeps_fd_set; [done|cbn; ilia]|auto with wr|]. intros _ _.
  apply IH; lia.
Qed.
Lemma writes_sys_getdents64 fd dirp count :
  0 <= fd -> (forall x, range dirp count x -> P x) -> writes_wf (sys_getdents64 fd dirp count).
Proof.
  intros Hfd H. unfold sys_getdents64. destruct (dirp =? 0); [apply writes_wf_writes; auto with wr|].
  destruct (MAX_FDS <=? fd) eqn:Hm; [apply writes_wf_writes; auto with wr|].
  eapply writes_wf_bind; [apply keeps_fd_get; lia|auto with wr|]. intros e [He Hf].
  destruct e as [|pos|]; try (apply writes_wf_writes; solve [auto with wr]).
  destruct Hf as [|Hf]; [done|]. cbn in He.
  eapply writes_wf_bind; [apply keeps_root_entries_count|apply writes_quiet, frames_entries|].
  intros total Ht. cbv beta in Ht. destruct (total <=? pos) eqn:Hp; [apply writes_wf_writes; auto with wr|].
  apply writes_dents_loop; lia || done.
Qed.
Lemma writes_sys_getcwd buf size : (forall x, range buf size x -> P x) -> writes_wf (sys_getcwd buf size).
Proof.
  intros H. unfold sys_getcwd. destruct (_ || _); [apply writes_wf_writes; auto with wr|].
  eapply writes_wf_bind; [apply (keeps_gets _ _ (fun n => n = 1)); intros k []; tauto|auto with wr|]. intros n ->.
  destruct (size <? 1 + 1) eqn:Hs; [apply writes_wf_writes; auto with wr|]. unfold range in *.
  apply writes_wf_writes. wr; apply writes_store; intros x; unfold range, zlen; rewrite ?length_take;
    cbn [length]; intros; apply H; lia.
Qed.
End Invariant.

(** ** The table *)

(** The buffer, as an address and a length, that a call may write. *)
Definition window (nr a0 a1 a2 a3 : Z) : Z * Z :=
  if nr =? SYS_READ then (a1, a2) else
  if nr =? SYS_CLOCK_GETTIME then (a1, 16) else
  if nr =? SYS_GETTIMEOFDAY then (a0, 16) else
  if nr =? SYS_UNAME then (a0, 6 * UTS_FIELD) else
  if nr =? SYS_GETRANDOM then (a0, a1) else
  if nr =? SYS_NEWFSTATAT then (a2, 144) else
  if one_of nr [SYS_STAT; SYS_LSTAT; SYS_FSTAT] then (a1, 144) else
  if nr =? SYS_GETDENTS64 then (a1, a2) else
  if nr =? SYS_READLINKAT then (a2, a3) else
  if nr =? SYS_READLINK then (a1, a2) else
  if nr =? SYS_GETCWD then (a0, a1) else
  if nr =? SYS_WAIT4 then (a1, 4) else (0, 0).
Definition in_window_of (nr a0 a1 a2 a3 x : Z) : Prop := range (window nr a0 a1 a2 a3).1 (window nr a0 a1 a2 a3).2 x.

Lemma writes_stdin P : writes P posix.read_stdin_byte_blocking.
Proof.
  apply writes_quiet. unfold posix.read_stdin_byte_blocking. fr. generalize a0. clear.
  intros ks. induction ks as [|k ks IH]; cbn [posix.poll_byte]; fr.
Qed.

Ltac window := solve [exact (fun x Hx => Hx)].
Lemma writes_dispatch r nr a0 a1 a2 a3 a4 a5 :
  is_u64 a0 -> is_u64 a1 ->
  writes_wf r (in_window_of nr a0 a1 a2 a3) (dispatch nr a0 a1 a2 a3 a4 a5).
Proof.
  intros H0 H1. destruct (touched nr PMem) eqn:Ht.
  2: { intros k _. pose proof (frames_dispatch nr a0 a1 a2 a3 a4 a5 k) as Hf.
       destruct (dispatch _ _ _ _ _ _ _ k); [|done..]. intros x. rewrite (ag_mem _ _ _ Hf Ht). auto. }
  apply existsb_exists in Ht as (c & Hc & ->%Z.eqb_eq). cbn [In] in Hc.
  repeat destruct Hc as [<-|Hc]; [..|done].
  - change (dispatch _ _ _ _ _ _ _) with (if a0 <=? 2 then posix.read a0 a1 a2 else sys_read a0 a1 a2).
    apply writes_wf_writes. destruct (a0 <=? 2); [apply writes_posix_read|apply writes_sys_read]; window.
  - apply writes_wf_writes. change (dispatch _ _ _ _ _ _ _) with (sys_clock_gettime a0 a1). unfold sys_clock_gettime.
    destruct (a1 =? 0); [auto with wr|apply writes_two_words; window].
  - apply writes_wf_writes. change (dispatch _ _ _ _ _ _ _) with (sys_gettimeofday a0 a1). unfold sys_gettimeofday.
    destruct (a0 =? 0); [auto with wr|apply writes_two_words; window].
  - apply writes_wf_writes. change (dispatch _ _ _ _ _ _ _) with (sys_uname a0). unfold sys_uname.
    destruct (a0 =? 0); [auto with wr|]. apply writes_bind; [apply writes_uname_loop; window|auto with wr].
  - apply writes_wf_writes. change (dispatch _ _ _ _ _ _ _) with (sys_getrandom a0 a1). unfold sys_getrandom.
    destruct (a0 =? 0); [auto with wr|]. apply writes_bind; [apply writes_random_loop|auto with wr].
    intros x Hx. rewrite Z2Nat.id in Hx by ilia. exact Hx.
  - apply writes_wf_writes, writes_sys_newfstatat. window.
  - apply writes_wf_writes, writes_sys_stat_path. window.
  - apply writes_wf_writes, writes_sys_stat_path. window.
  - apply writes_wf_writes, writes_sys_fstat. window.
  - apply writes_sys_getdents64; [ilia|window].
  - apply writes_wf_writes, writes_sys_readlink. window.
  - apply writes_wf_writes, writes_sys_readlink. window.
  - apply writes_sys_getcwd. window.
  - apply writes_wf_writes, writes_wait4. window.
Qed.

(** *** Without the invariant: no call unmaps memory *)
Definition anywhere : Z -> Prop := fun _ => True.
Lemma writes_dents_anywhere fuel fd dirp count total pos written :
  writes anywhere (dents_loop fuel fd dirp count total pos written).
Proof.
  revert pos written. induction fuel as [|fuel IH]; intros pos written; cbn [dents_loop]; [auto with wr|].
  destruct (total <=? pos); [auto with wr|].
  apply writes_bind; [apply writes_quiet, frames_dirent_at|]. intros [[[name typ] ino]|]; [|auto with wr]. cbv zeta.
  destruct (count <? _); [destruct (written =? 0); auto with wr|].
  apply writes_bind; [|intros _; apply writes_bind; [auto with wr|intros _; apply IH]].
  unfold write_dirent. repeat (apply writes_bind; [by apply writes_store|intros _]). by apply writes_store.
Qed.
Lemma writes_dispatch_anywhere nr a0 a1 a2 a3 a4 a5 : writes anywhere (dispatch nr a0 a1 a2 a3 a4 a5).
Proof.
  destruct (touched nr PMem) eqn:Ht.
  2: { eapply writes_frames; [exact Ht|apply frames_dispatch]. }
  apply existsb_exists in Ht as (c & Hc & ->%Z.eqb_eq). cbn [In] in Hc.
  repeat destruct Hc as [<-|Hc]; [..|done].
  - change (dispatch _ _ _ _ _ _ _) with (if a0 <=? 2 then posix.read a0 a1 a2 else sys_read a0 a1 a2).
    destruct (a0 <=? 2); [by apply writes_posix_read|by apply writes_sys_read].
  - change (dispatch _ _ _ _ _ _ _) with (sys_clock_gettime a0 a1). unfold sys_clock_gettime.
    destruct (a1 =? 0); [auto with wr|by apply writes_two_words].
  - change (dispatch _ _ _ _ _ _ _) with (sys_gettimeofday a0 a1). unfold sys_gettimeofday.
    destruct (a0 =? 0); [auto with wr|by apply writes_two_words].
  - change (dispatch _ _ _ _ _ _ _) with (sys_uname a0). unfold sys_uname.
    destruct (a0 =? 0); [auto with wr|]. apply writes_bind; [by apply writes_uname_loop|auto with wr].
  - change (dispatch _ _ _ _ _ _ _) with (sys_getrandom a0 a1). unfold sys_getrandom.
    destruct (a0 =? 0); [auto with wr|]. apply writes_bind; [by apply writes_random_loop|auto with wr].
  - by apply writes_sys_newfstatat.
  - by apply writes_sys_stat_path.
  - by apply writes_sys_stat_path.
  - by apply writes_sys_fstat.
  - change (dispatch _ _ _ _ _ _ _) with (sys_getdents64 a0 a1 a2). unfold sys_getdents64.
    destruct (a1 =? 0); [auto with wr|]. destruct (MAX_FDS <=? a0); [auto with wr|].
    apply writes_bind; [auto with wr|]. intros [|pos|]; [auto with wr| |auto with wr].
    apply writes_bind; [apply writes_quiet, frames_entries|]. intros total.
    destruct (total <=? pos); [auto with wr|apply writes_dents_anywhere].
  - by apply writes_sys_readlink.
  - by apply writes_sys_readlink.
  - change (dispatch _ _ _ _ _ _ _) with (sys_getcwd a0 a1). unfold sys_getcwd. wr; by apply writes_store.
  - by apply writes_wait4.
Qed.
