(* ===== verification/SyscallFiles.v ===== *)
(** * Files as a program sees them

    The descriptor table of the kernel holds raw pointers into the mounted
    image.  This file gives the table its meaning, a list of open files with
    their contents and positions, specifies the file calls on that meaning,
    and proves that the calls of kernel/src/syscall.rs refine the
    specification. *)
From stdpp Require Import gmap.
From S2P Require Import Prelude Utf8 Fs Kernel Posix Syscall SyscallInv SyscallFrame.

(** ** The abstract table *)

Inductive open_file :=
| ADir (pos : Z)
| AFile (content : bytes) (pos mode : Z).
Abbreviation files := (list (option open_file)).

Definition abs_fd (m : gmap Z Z) (e : FdEntry) : option open_file :=
  match e with
  | Free => None
  | RootDir pos => Some (ADir pos)
  | File p len pos mode =>
      match mem_read m p (Z.to_nat len) with inl c => Some (AFile c pos mode) | inr _ => None end
  end.
Definition abs (k : kernel) : files := map (abs_fd (mem k)) (FD_TABLE k).

(** ** The specification

    Each call answers its result and the table it leaves; [spec_read] also
    answers the bytes it delivers. *)
Definition spec_get (t : files) (fd : Z) : option open_file := mjoin (t !! Z.to_nat fd).
Definition spec_set (t : files) (fd : Z) (f : option open_file) : files := <[Z.to_nat fd := f]> t.

Definition spec_read (t : files) (fd len : Z) : Z * bytes * files :=
  match spec_get t fd with
  | None => (- EBADF, [], t)
  | Some (ADir _) => (- EISDIR, [], t)
  | Some (AFile c pos mode) =>
      let data := take (Z.to_nat len) (drop (Z.to_nat pos) c) in
      (zlen data, data, spec_set t fd (Some (AFile c (pos + zlen data) mode)))
  end.
Definition spec_seek (entries : Z) (t : files) (fd off whence : Z) : Z * files :=
  match spec_get t fd with
  | None => (- EBADF, t)
  | Some f =>
      let size := match f with ADir _ => entries | AFile c _ _ => zlen c end in
      let cur := match f with ADir p | AFile _ p _ => p end in
      let base := if whence =? SEEK_SET then Some 0 else if whence =? SEEK_CUR then Some cur
                  else if whence =? SEEK_END then Some size else None in
      match base with
      | None => (- posix.EINVAL, t)
      | Some b =>
          let new := Z.min (b + off) i64_max in
          if new <? 0 then (- posix.EINVAL, t) else
          (new, spec_set t fd (Some (match f with ADir _ => ADir new | AFile c _ m => AFile c new m end)))
      end
  end.
Definition spec_close (t : files) (fd : Z) : Z * files :=
  match spec_get t fd with
  | None => (- EBADF, t)
  | Some _ => (0, spec_set t fd None)
  end.
(** The lowest free descriptor from 3 on. *)
Definition lowest_free (t : files) (fd : Z) : Prop :=
  3 <= fd < MAX_FDS /\ spec_get t fd = None /\ forall j, 3 <= j < fd -> is_Some (spec_get t j).
Definition spec_alloc (t : files) (f : open_file) (out : Z * files) : Prop :=
  (lowest_free t out.1 /\ out.2 = spec_set t out.1 (Some f)) \/
  ((forall j, 3 <= j < MAX_FDS -> is_Some (spec_get t j)) /\ out = (- EBUSY, t)).

(** Opening: what a path names, then the lowest free descriptor.  [Err] is the
    error number. *)
Definition spec_resolve (image : option bytes) (path : bytes) (flags : Z) : outcome Z open_file :=
  if is_root_path path || bool_decide (path = str "..") then Ok (ADir 0) else
  name ← ok_or (normalize_path path) ENOENT;
  if bool_decide (name = []) then Ok (ADir 0) else
  image ← ok_or image ENOENT;
  rec ← map_err (fun _ => ENOENT) (fs.open image name);
  if negb (Z.land flags O_DIRECTORY =? 0) then Err ENOTDIR else
  Ok (AFile (fs.data rec) 0 (fs.mode rec)).
Definition spec_open (image : option bytes) (t : files) (path : bytes) (flags : Z) (out : Z * files) : Prop :=
  match spec_resolve image path flags with
  | Ok f => spec_alloc t f out
  | Err e => out = (- e, t)
  | Panic => False
  end.

(** ** The abstraction of a well-formed kernel *)
Section Abs.
Context (r : option (Z * Z)) (k : kernel) (Hk : wf r k).

Lemma abs_lookup fd : abs k !! fd = abs_fd (mem k) <$> FD_TABLE k !! fd.
Proof. apply list_lookup_fmap. Qed.
(** Every open descriptor has a meaning: its pointer is inside the image. *)
Lemma abs_file p len pos mode :
  entry_ok r (File p len pos mode) ->
  exists c, mem_read (mem k) p (Z.to_nat len) = inl c /\ zlen c = len.
Proof.
  intros (_ & _ & a & n & -> & Hp & Hl & Hb). pose proof (wf_mapped _ _ Hk) as (_ & _ & _ & Hm).
  destruct (mem_read_mapped (mem k) p (Z.to_nat len)) as [c Hc].
  { intros x Hx. apply Hm. lia. }
  exists c. split; [done|]. pose proof (mem_read_spec (mem k) p (Z.to_nat len)) as H. rewrite Hc in H.
  unfold zlen. lia.
Qed.
Lemma entry_at_ok fd e : FD_TABLE k !! Z.to_nat fd = Some e -> entry_ok r e.
Proof. intros He. pose proof (wf_fds _ _ Hk) as H. rewrite Forall_lookup in H. eauto. Qed.
Lemma fd_lookup fd : 0 <= fd < MAX_FDS -> exists e, FD_TABLE k !! Z.to_nat fd = Some e.
Proof.
  intros Hfd. apply lookup_lt_is_Some_2. rewrite (wf_fds_len _ _ Hk). unfold MAX_FDS in *. lia.
Qed.
Lemma spec_get_abs fd e :
  FD_TABLE k !! Z.to_nat fd = Some e -> spec_get (abs k) fd = abs_fd (mem k) e.
Proof. intros He. unfold spec_get. rewrite abs_lookup, He. done. Qed.
Lemma spec_get_Some e : entry_ok r e -> e <> Free -> is_Some (abs_fd (mem k) e).
Proof.
  intros He Hf. destruct e as [|pos|p len pos mode]; [done|by eexists|].
  destruct (abs_file _ _ _ _ He) as (c & Hc & _). cbn. rewrite Hc. by eexists.
Qed.
Lemma abs_set fd e :
  abs (with_fds (<[Z.to_nat fd := e]> (FD_TABLE k)) k) = spec_set (abs k) fd (abs_fd (mem k) e).
Proof. unfold abs, spec_set. cbn. apply list_fmap_insert. Qed.
End Abs.

(** ** Each call refines its specification *)
Section Refine.
Context (r : option (Z * Z)) (k : kernel) (Hk : wf r k).

Lemma close_refines fd : 3 <= fd < MAX_FDS ->
  exists k', sys_close fd k = Done (spec_close (abs k) fd).1 k' /\ abs k' = (spec_close (abs k) fd).2.
Proof.
  intros Hfd. unfold sys_close. rewrite (proj2 (Z.leb_gt _ _)) by lia.
  destruct (fd_lookup r k Hk fd) as [e He]; [lia|]. unfold fd_get. run_prog. rewrite He. run_prog.
  unfold spec_close. rewrite (spec_get_abs k fd e He). pose proof (entry_at_ok r k Hk fd e He) as Hok.
  destruct (decide (e = Free)) as [->|Hne]; [by exists k|].
  destruct (spec_get_Some r k Hk e Hok Hne) as [f ->]. unfold fd_set. run_prog.
  exists (with_fds (<[Z.to_nat fd := Free]> (FD_TABLE k)) k).
  split; [by destruct e|]. apply abs_set.
Qed.

(** *** The lowest free descriptor *)
Lemma first_free_min t i :
  match first_free t i with
  | Some j => i <= j /\ t !! Z.to_nat (j - i) = Some Free /\
      forall x, i <= x < j -> exists e, t !! Z.to_nat (x - i) = Some e /\ e <> Free
  | None => Forall (fun e => e <> Free) t
  end.
Proof.
  revert i. induction t as [|e t IH]; intros i; cbn [first_free]; [constructor|].
  destruct (decide (e = Free)) as [->|Hne].
  { split; [lia|]. rewrite Z.sub_diag. split; [done|]. intros x ?. lia. }
  assert (match e with Free => Some i | _ => first_free t (i + 1) end = first_free t (i + 1)) as ->
    by by destruct e.
  specialize (IH (i + 1)). destruct (first_free t (i + 1)) as [j|]; [|by constructor].
  destruct IH as (? & Hj & Hx). assert (forall x, i + 1 <= x ->
    (e :: t) !! Z.to_nat (x - i) = t !! Z.to_nat (x - (i + 1))) as Hs.
  { intros x ?. by replace (Z.to_nat (x - i)) with (S (Z.to_nat (x - (i + 1)))) by lia. }
  split_and!; [lia|rewrite Hs by lia; done|]. intros x ?.
  destruct (decide (x = i)) as [->|]; [rewrite Z.sub_diag; by exists e|].
  rewrite Hs by lia. apply Hx. lia.
Qed.
Lemma alloc_refines e f :
  abs_fd (mem k) e = Some f -> exists v k', alloc_fd e k = Done v k' /\ spec_alloc (abs k) f (v, abs k').
Proof.
  intros Hef. unfold alloc_fd. run_prog. pose proof (first_free_min (drop (Z.to_nat FD_BASE) (FD_TABLE k)) FD_BASE) as H.
  assert (forall x, 3 <= x -> drop (Z.to_nat FD_BASE) (FD_TABLE k) !! Z.to_nat (x - FD_BASE) = FD_TABLE k !! Z.to_nat x) as Hd.
  { intros x ?. rewrite lookup_drop. f_equal. unfold FD_BASE. lia. }
  assert (forall x e', FD_TABLE k !! Z.to_nat x = Some e' -> e' <> Free -> is_Some (spec_get (abs k) x)) as Hn.
  { intros x e' He' Hne. rewrite (spec_get_abs k x e' He'). apply (spec_get_Some r); [done| |done].
    by eapply entry_at_ok. }
  destruct (first_free _ _) as [j|].
  - destruct H as (Hj & Hfree & Hbusy). rewrite Hd in Hfree by (unfold FD_BASE in *; lia).
    unfold fd_set. run_prog. eexists _, _. split; [reflexivity|]. left. cbn [fst snd].
    rewrite abs_set, Hef. split; [|done]. split_and!.
    + unfold FD_BASE in Hj. lia.
    + apply lookup_lt_Some in Hfree. rewrite (wf_fds_len _ _ Hk) in Hfree. unfold MAX_FDS, FD_BASE in *. lia.
    + by rewrite (spec_get_abs k j Free Hfree).
    + intros x Hx. destruct (Hbusy x) as (e' & He' & Hne); [unfold FD_BASE; lia|].
      rewrite Hd in He' by lia. eauto.
  - eexists _, _. split; [reflexivity|]. right. split; [|done]. intros x Hx.
    destruct (fd_lookup r k Hk x) as [e' He']; [lia|]. apply (Hn x e' He').
    rewrite Forall_lookup in H. apply (H (Z.to_nat (x - FD_BASE))). rewrite Hd by lia. done.
Qed.
Lemma dup_refines fd : 3 <= fd < MAX_FDS ->
  match spec_get (abs k) fd with
  | None => sys_dup fd k = Done (- EBADF) k
  | Some f => exists v k', sys_dup fd k = Done v k' /\ spec_alloc (abs k) f (v, abs k')
  end.
Proof.
  intros Hfd. unfold sys_dup. rewrite (proj2 (Z.leb_gt fd 2)), (proj2 (Z.leb_gt MAX_FDS _)) by lia.
  destruct (fd_lookup r k Hk fd) as [e He]; [lia|]. unfold fd_get. run_prog. rewrite He. run_prog.
  rewrite (spec_get_abs k fd e He). pose proof (entry_at_ok r k Hk fd e He) as Hok.
  destruct (decide (e = Free)) as [->|Hne]; [done|].
  destruct (spec_get_Some r k Hk e Hok Hne) as [f Hf]. rewrite Hf.
  destruct (alloc_refines e f Hf) as (v & k' & Ha & Hs). exists v, k'. split; [|done]. by destruct e.
Qed.
Lemma dup2_refines fd fd2 : 3 <= fd < MAX_FDS -> 3 <= fd2 < MAX_FDS ->
  match spec_get (abs k) fd with
  | None => sys_dup2 fd fd2 k = Done (- EBADF) k
  | Some f => exists k', sys_dup2 fd fd2 k = Done fd2 k' /\ abs k' = spec_set (abs k) fd2 (Some f)
  end.
Proof.
  intros Hfd Hfd2. unfold sys_dup2. rewrite (proj2 (Z.leb_gt fd 2)) by lia.
  replace (_ || _ || _) with false by (unfold FD_BASE, MAX_FDS in *; lia).
  destruct (fd_lookup r k Hk fd) as [e He]; [lia|]. unfold fd_get. run_prog. rewrite He. run_prog.
  rewrite (spec_get_abs k fd e He). pose proof (entry_at_ok r k Hk fd e He) as Hok.
  destruct (decide (e = Free)) as [->|Hne]; [done|].
  destruct (spec_get_Some r k Hk e Hok Hne) as [f Hf]. rewrite Hf. unfold fd_set. run_prog.
  exists (with_fds (<[Z.to_nat fd2 := e]> (FD_TABLE k)) k). split; [by destruct e|]. by rewrite abs_set, Hf.
Qed.

(** *** Seeking *)
Lemma rootfs_total : exists o, rootfs k = Done o k.
Proof.
  unfold rootfs. run_prog. pose proof (wf_mapped _ _ Hk) as Hm. rewrite (wf_rootfs _ _ Hk).
  destruct r as [[a n]|]; [|by eexists]. destruct Hm as (_ & Hn & _ & Hm). run_prog. unfold load.
  destruct (mem_read_mapped (mem k) a (Z.to_nat n)) as [c ->]; [intros x ?; apply Hm; lia|]. by eexists.
Qed.
Lemma entries_total : exists n, root_entries_count k = Done n k /\ 2 <= n < 2 ^ 16 + 2.
Proof.
  pose proof (keeps_root_entries_count r k Hk) as H.
  assert (exists n, root_entries_count k = Done n k) as [n Hn].
  { unfold root_entries_count in *. run_prog. destruct rootfs_total as [o Ho].
    unfold mbind, prog_bind in H. rewrite Ho in H |- *. destruct o as [[a image]|]; [|by eexists].
    unfold fs_call in *. destruct (fs.header image); [eexists; reflexivity..|]. by specialize (H eq_refl). }
  exists n. rewrite Hn in H. by destruct H.
Qed.
Lemma seek_refines fd off whence entries : 3 <= fd < MAX_FDS -> is_i64 off ->
  root_entries_count k = Done entries k ->
  exists k', sys_lseek fd off whence k = Done (spec_seek entries (abs k) fd off whence).1 k' /\
    abs k' = (spec_seek entries (abs k) fd off whence).2.
Proof.
  intros Hfd Hoff Hent. unfold sys_lseek. rewrite (proj2 (Z.leb_gt MAX_FDS _)) by lia.
  destruct (fd_lookup r k Hk fd) as [e He]; [lia|]. unfold fd_get. run_prog. rewrite He. run_prog.
  unfold spec_seek. rewrite (spec_get_abs k fd e He). pose proof (entry_at_ok r k Hk fd e He) as Hok.
  assert (forall b, seek_to b off = if Z.min (b + off) i64_max <? 0 then None
      else Some (Z.min (b + off) i64_max)) as Hseek.
  { intros b. unfold seek_to. cbv zeta. repeat case_match; try done; try (f_equal; ilia); ilia. }
  destruct e as [|pos|p len pos mode]; [by exists k|..].
  - cbn [abs_fd entry_ok] in *. rewrite to_i64_small by lia.
    assert (forall e', abs (with_fds (<[Z.to_nat fd := e']> (FD_TABLE k)) k) =
      spec_set (abs k) fd (abs_fd (mem k) e')) as Hset by (intros; apply abs_set).
    destruct (whence =? SEEK_SET); [|destruct (whence =? SEEK_CUR); [|destruct (whence =? SEEK_END)]];
      run_prog; rewrite ?Hent, ?Hseek; [branch as Hn..|by exists k]; try (by exists k);
      unfold fd_set; run_prog; eexists; (split; [reflexivity|apply Hset]).
  - destruct (abs_file r k Hk _ _ _ _ Hok) as (c & Hc & Hl).
    assert (forall q, abs (with_fds (<[Z.to_nat fd := File p len q mode]> (FD_TABLE k)) k) =
      spec_set (abs k) fd (Some (AFile c q mode))) as Hset by (intros; rewrite abs_set; cbn; by rewrite Hc).
    cbn [abs_fd]. rewrite Hc, Hl. destruct Hok as (Hpos & _ & a & n & _ & _ & Hlen & _).
    rewrite !to_i64_small by lia.
    destruct (whence =? SEEK_SET); [|destruct (whence =? SEEK_CUR); [|destruct (whence =? SEEK_END)]];
      run_prog; rewrite ?Hseek; [branch as Hn..|by exists k]; try (by exists k);
      unfold fd_set; run_prog; eexists; (split; [reflexivity|apply Hset]).
Qed.

(** *** Reading *)
(** [bs] was written at [buf] and nothing else changed. *)
Definition delivered (m m' : gmap Z Z) (buf : Z) (bs : bytes) : Prop :=
  mem_read m' buf (length bs) = inl bs /\
  forall x, ~ (buf <= x < buf + zlen bs) -> m' !! x = m !! x.
(** A mapped buffer outside the mounted image. *)
Definition user_buffer (m : gmap Z Z) (buf len : Z) : Prop :=
  0 < buf /\ mapped m buf len /\
  match r with None => True | Some (a, n) => buf + len <= a \/ a + n <= buf end.

Lemma take_length_of {A} n (l : list A) : take (length (take n l)) l = take n l.
Proof. revert n. induction l as [|x l IH]; intros [|n]; cbn; try done. by rewrite IH. Qed.
Lemma abs_fd_ext m e : entry_ok r e ->
  (forall a n x, r = Some (a, n) -> a <= x < a + n -> m !! x = mem k !! x) -> abs_fd m e = abs_fd (mem k) e.
Proof.
  intros He Hm. destruct e as [|pos|p len pos mode]; [done..|]. cbn.
  destruct He as (_ & _ & a & n & Hr & ? & ? & ?).
  rewrite (mem_read_ext m (mem k)); [done|]. intros x Hx. apply (Hm a n); [done|lia].
Qed.
Lemma abs_mem_ext t m : Forall (entry_ok r) t ->
  (forall a n x, r = Some (a, n) -> a <= x < a + n -> m !! x = mem k !! x) ->
  abs (with_fds t (with_mem m k)) = map (abs_fd (mem k)) t.
Proof.
  intros Ht Hm. unfold abs. cbn. induction Ht; cbn; [done|]. f_equal; [by apply abs_fd_ext|done].
Qed.
Lemma store_delivers buf bs : mapped (mem k) buf (zlen bs) ->
  exists m', store buf bs k = Done tt (with_mem m' k) /\ delivered (mem k) m' buf bs.
Proof.
  intros Hm. unfold store. destruct (mem_write_mapped _ _ _ Hm) as [m' Hw]. rewrite Hw.
  exists m'. split; [done|]. split; [by eapply mem_read_write_same|]. intros x Hx.
  pose proof (mem_write_spec (mem k) buf bs) as H. rewrite Hw in H. destruct H as [_ ->].
  unfold in_window. by replace ((_ <=? _) && _) with false by lia.
Qed.

Lemma read_refines fd buf len : 3 <= fd < MAX_FDS -> 0 <= len -> user_buffer (mem k) buf len ->
  let '(v, data, t) := spec_read (abs k) fd len in
  exists k', sys_read fd buf len k = Done v k' /\ abs k' = t /\ delivered (mem k) (mem k') buf data.
Proof.
  intros Hfd Hlen (Hb0 & Hbuf & Hdis). unfold sys_read. rewrite (proj2 (Z.eqb_neq buf 0)) by lia.
  rewrite (proj2 (Z.leb_gt MAX_FDS _)) by lia.
  destruct (fd_lookup r k Hk fd) as [e He]; [lia|]. unfold fd_get. run_prog. rewrite He. run_prog.
  unfold spec_read. rewrite (spec_get_abs k fd e He). pose proof (entry_at_ok r k Hk fd e He) as Hok.
  assert (delivered (mem k) (mem k) buf []) as Hnil by by split.
  destruct e as [|pos|p total pos mode]; [by exists k..|].
  destruct (abs_file r k Hk _ _ _ _ Hok) as (c & Hc & Hl). cbn [abs_fd]. rewrite Hc.
  set (data := take _ _). assert (zlen data = Z.max 0 (Z.min len (total - pos))) as Hd.
  { subst data. unfold zlen in *. rewrite length_take, length_drop. destruct Hok. lia. }
  destruct Hok as (Hpos & Hmode & a & n & Hr & Hp & Ht & Hpn). rewrite Hr in Hdis. branch as Hle.
  - assert (data = []) as -> by (apply length_zero_iff_nil; unfold zlen in Hd; lia).
    exists k. split_and!; [done| |done]. rewrite zlen_nil, Z.add_0_r.
    symmetry. apply list_insert_id. rewrite abs_lookup, He. cbn. by rewrite Hc.
  - unfold copy_nonoverlapping.
    replace (_ && _) with false by (symmetry; apply andb_false_iff; rewrite Z.ltb_ge, Z.ltb_ge; lia).
    assert (Z.min len (total - pos) = zlen data) as -> by lia.
    assert (load (p + pos) (zlen data) k = Done data k) as Hld.
    { unfold load. rewrite (mem_read_slice _ _ (Z.to_nat total) c); [|exact Hc|lia..]. f_equal.
      unfold zslice. replace (pos + zlen data - pos) with (zlen data) by lia.
      unfold zlen. rewrite Nat2Z.id. apply take_length_of. }
    destruct (store_delivers buf data) as (m' & Hst & Hdel); [intros x ?; apply Hbuf; lia|].
    run_prog. rewrite Hld, Hst. unfold fd_set. run_prog. rewrite to_i64_small by lia.
    eexists. split; [reflexivity|]. split; [|exact Hdel].
    change (with_fds ?t (with_mem m' k)) with (with_fds t (with_mem m' k)). cbn [FD_TABLE with_mem].
    rewrite abs_mem_ext.
    + unfold spec_set, abs. rewrite list_fmap_insert. cbn. by rewrite Hc.
    + apply Forall_insert; [apply (wf_fds _ _ Hk)|]. cbn. split; [ilia|]. split; [done|]. exists a, n. auto.
    + intros a' n' x Hr' Hx. assert (a' = a /\ n' = n) as [-> ->] by (rewrite Hr in Hr'; by simplify_eq).
      apply Hdel. lia.
Qed.

(** *** Opening *)
(** The string [p] lies at [ptr], zero-terminated. *)
Definition cstr_at (m : gmap Z Z) (ptr : Z) (p : bytes) : Prop :=
  mem_read m ptr (S (length p)) = inl (p ++ [0]) /\ Forall (fun b => b <> 0) p /\ zlen p < CSTR_MAX.

Lemma cstr_loop_at n ptr p acc rest :
  mem_read (mem k) ptr (S (length p)) = inl (p ++ [0]) -> Forall (fun b => b <> 0) p ->
  p = acc ++ rest -> (length rest < n)%nat -> cstr_loop n ptr acc k = Done (from_utf8 p) k.
Proof.
  intros Hr Hnz. revert n acc. induction rest as [|b rest IH]; intros n acc Hp Hn;
    (destruct n as [|n]; [cbn in Hn; lia|]); cbn [cstr_loop]; unfold load8; run_prog;
    pose proof (mem_read_spec (mem k) ptr (S (length p))) as Hs; rewrite Hr in Hs; destruct Hs as [_ Hs];
    unfold zlen; rewrite (Hs (length acc)) by (subst p; rewrite length_app; lia); subst p.
  - rewrite app_nil_r, lookup_app_r, Nat.sub_diag by done. cbn. done.
  - rewrite <-app_assoc, lookup_app_r, Nat.sub_diag by done. cbn.
    apply Forall_app in Hnz as [_ Hnz]. inversion_clear Hnz as [|? ? Hb _].
    rewrite (proj2 (Z.eqb_neq b 0)) by done.
    rewrite (IH n (acc ++ [b])); [done|by rewrite <-app_assoc|cbn in Hn; lia].
Qed.
Lemma read_cstr_at ptr p : cstr_at (mem k) ptr p -> read_cstr ptr k = Done (from_utf8 p) k.
Proof.
  intros (Hr & Hnz & Hl). unfold read_cstr. eapply cstr_loop_at; try done.
  unfold zlen in Hl. lia.
Qed.

(** The bytes of the mounted image. *)
Definition image_of : option bytes :=
  match r with
  | Some (a, n) => match mem_read (mem k) a (Z.to_nat n) with inl c => Some c | inr _ => None end
  | None => None
  end.
Lemma rootfs_image_of : exists o, rootfs k = Done o k /\ image_of = snd <$> o.
Proof.
  unfold rootfs, image_of. run_prog. rewrite (wf_rootfs _ _ Hk). destruct rootfs_total as [o Ho].
  unfold rootfs in Ho. revert Ho. run_prog. rewrite (wf_rootfs _ _ Hk). unfold load.
  destruct r as [[a n]|]; [|by exists None]. destruct (mem_read _ _ _) as [c|]; [|done].
  by exists (Some (a, c)).
Qed.
Lemma image_of_read a c : r = Some (a, zlen c) -> image_of = Some c -> mem_read (mem k) a (length c) = inl c.
Proof.
  unfold image_of. intros ->. unfold zlen. rewrite Nat2Z.id. destruct (mem_read _ _ _); [|done].
  by intros [= ->].
Qed.
Lemma open_refines dirfd ptr flags mode path : is_dirfd_ok dirfd k = Done true k ->
  ptr <> 0 -> cstr_at (mem k) ptr path -> is_str path ->
  exists v k', sys_openat dirfd ptr flags mode k = Done v k' /\
    spec_open image_of (abs k) path flags (v, abs k').
Proof.
  intros Hd Hp Hs Hstr. unfold sys_openat. rewrite (proj2 (Z.eqb_neq ptr 0)) by done. run_prog.
  rewrite Hd. cbn [negb]. run_prog. rewrite (read_cstr_at _ _ Hs), Hstr. unfold spec_open, spec_resolve.
  assert (exists v k', alloc_fd (RootDir 0) k = Done v k' /\ spec_alloc (abs k) (ADir 0) (v, abs k')) as Hdir
    by by apply alloc_refines.
  destruct (is_root_path path); cbn [orb]; [exact Hdir|]. destruct (bool_decide (path = str "..")); [exact Hdir|].
  destruct (normalize_path path) as [name|]; cbn [ok_or mbind outcome_bind]; [|by eexists _, k].
  destruct (bool_decide (name = [])); [exact Hdir|]. destruct rootfs_image_of as (o & Ho & Him).
  pose proof (keeps_rootfs_len r k Hk) as Hroot. rewrite Ho in Hroot |- *.
  destruct o as [[a c]|]; rewrite Him; cbn [fmap option_fmap option_map snd ok_or mbind outcome_bind];
    [|by eexists _, k]. destruct Hroot as [(Hcok & Hn & Hlen) _]. unfold fs_call.
  pose proof (fs_open_record c name) as Hrec. pose proof (fs_open_no_panic c name Hcok) as Hnp.
  destruct (fs.open c name) as [rec|e|]; cbn [map_err outcome_bind]; [|by eexists _, k|done].
  specialize (Hrec rec Hcok eq_refl). branch as Hf; [by eexists _, k|].
  apply alloc_refines. cbn [abs_fd]. destruct Hrec as (Ho1 & Hb & Hdata & _).
  rewrite (mem_read_slice _ _ (length c) c); [|by apply image_of_read|unfold zlen in *; lia..].
  by rewrite <-Hdata.
Qed.
End Refine.

(** ** Reading a file to its end

    A client of the kernel: [reads] calls [read] with each length and collects
    the bytes that the calls deliver. *)
Fixpoint reads (fd buf : Z) (lens : list Z) : K bytes :=
  match lens with
  | [] => ret []
  | len :: lens =>
    n ← dispatch SYS_READ fd buf len 0 0 0;
    data ← load buf n;
    rest ← reads fd buf lens;
    ret (data ++ rest)
  end.
Definition total (lens : list Z) : Z := foldr Z.add 0 lens.

Lemma total_nonneg max lens : Forall (fun len => 0 <= len <= max) lens -> 0 <= total lens.
Proof. unfold total. induction 1 as [|x l Hx _ IH]; cbn [foldr]; lia. Qed.
Lemma take_drop_split {A} (l : list A) n m p :
  take (n + m) (drop p l) =
  take n (drop p l) ++ take m (drop (p + length (take n (drop p l))) l).
Proof.
  rewrite <-drop_drop. generalize (drop p l). clear. intros l. rewrite length_take.
  destruct (decide (n <= length l)%nat).
  - rewrite Nat.min_l by done. rewrite <-(take_drop n l) at 1.
    rewrite take_app_ge by (rewrite length_take; lia). f_equal. f_equal. rewrite length_take. lia.
  - rewrite Nat.min_r by lia. rewrite drop_all, take_nil, app_nil_r, !take_ge; [done|lia..].
Qed.
Lemma user_buffer_mono r m m' buf len len' :
  user_buffer r m buf len -> len' <= len -> (forall x, is_Some (m !! x) -> is_Some (m' !! x)) ->
  user_buffer r m' buf len'.
Proof.
  intros (Hb & Hm & Hd) Hl Hdom. split; [done|]. split; [intros x ?; apply Hdom, Hm; lia|].
  destruct r as [[a n]|]; [lia|done].
Qed.
Lemma delivered_dom m m' buf bs x : delivered m m' buf bs -> is_Some (m !! x) -> is_Some (m' !! x).
Proof.
  intros [Hr Ho] Hx. destruct (decide (buf <= x < buf + zlen bs)); [|by rewrite Ho].
  apply (mem_read_is_mapped m' buf (zlen bs) bs); [unfold zlen; by rewrite Nat2Z.id|done].
Qed.
Lemma reads_spec r fd buf max c mode lens k pos :
  wf r k -> 3 <= fd < MAX_FDS -> user_buffer r (mem k) buf max ->
  Forall (fun len => 0 <= len <= max) lens -> max <= u64_max ->
  spec_get (abs k) fd = Some (AFile c pos mode) -> 0 <= pos ->
  exists k', reads fd buf lens k = Done (take (Z.to_nat (total lens)) (drop (Z.to_nat pos) c)) k'.
Proof.
  intros Hk Hfd Hbuf Hlens Hmax. revert k pos Hk Hbuf.
  induction Hlens as [|len lens Hl Hlens IH]; intros k pos Hk Hbuf Hget Hpos; [by exists k|].
  pose proof (read_refines r k Hk fd buf len Hfd ltac:(lia)
    (user_buffer_mono _ _ _ _ _ _ Hbuf (proj2 Hl) (fun _ h => h))) as H.
  unfold spec_read in H. rewrite Hget in H. set (data := take _ _) in H.
  destruct H as (k1 & Hread & Habs & Hdel).
  assert (wf r k1) as Hk1.
  { pose proof (keeps_sys_read r fd buf len ltac:(lia) ltac:(ilia) k Hk) as H. rewrite Hread in H. apply H. }
  destruct (IH k1 (pos + zlen data)) as (k2 & Hrest).
  - done.
  - eapply user_buffer_mono; [exact Hbuf|lia|]. intros x. by apply delivered_dom with (1 := Hdel).
  - rewrite Habs. unfold spec_get, spec_set. rewrite list_lookup_insert_eq; [done|].
    unfold spec_get in Hget. destruct (abs k !! Z.to_nat fd) eqn:He; [by eapply lookup_lt_Some|done].
  - pose proof (zlen_nonneg data). lia.
  - exists k2. cbn [reads]. run_prog.
    replace (dispatch SYS_READ fd buf len 0 0 0 k) with (sys_read fd buf len k)
      by (unfold dispatch; rewrite (proj2 (Z.leb_gt fd 2)) by lia; done).
    rewrite Hread. unfold load. destruct Hdel as [Hdel _].
    replace (Z.to_nat (zlen data)) with (length data) by (unfold zlen; lia). rewrite Hdel, Hrest.
    cbn [total foldr]. fold (total lens).
    pose proof (total_nonneg _ _ Hlens).
    rewrite (Z2Nat.inj_add len), take_drop_split by lia. fold data. do 4 f_equal.
    unfold zlen. lia.
Qed.

(** ** Properties *)

(** C17: the file calls implement the table of open files.  The descriptor
    table, seen as open files with contents and positions, behaves as the
    specification says.  [read] into a mapped buffer outside the image delivers
    the bytes of the file at the position, at most [len], advances the position
    by their number, writes them at the buffer and changes no other byte of
    memory; [lseek] moves to the offset from the start, the position or the
    end, and rejects negative positions and unknown anchors; [close] frees the
    descriptor; [dup] and [dup2] copy a description to the lowest free
    descriptor and to the given one; [openat] opens what the path names, with
    position 0, at the lowest free descriptor.  An unused descriptor answers
    EBADF everywhere and changes nothing. *)
Theorem file_calls_refine r k fd a3 a4 a5 :
  wf r k -> 3 <= fd < MAX_FDS ->
  (forall buf len, 0 <= len -> user_buffer r (mem k) buf len ->
     let '(v, data, t) := spec_read (abs k) fd len in
     exists k', dispatch SYS_READ fd buf len a3 a4 a5 k = Done v k' /\ abs k' = t /\
       delivered (mem k) (mem k') buf data) /\
  (forall off whence, exists entries k', root_entries_count k = Done entries k /\
     let '(v, t) := spec_seek entries (abs k) fd (to_i64 off) whence in
     dispatch SYS_LSEEK fd off whence a3 a4 a5 k = Done v k' /\ abs k' = t) /\
  (exists k', dispatch SYS_CLOSE fd 0 0 a3 a4 a5 k = Done (spec_close (abs k) fd).1 k' /\
     abs k' = (spec_close (abs k) fd).2) /\
  match spec_get (abs k) fd with
  | None => dispatch SYS_DUP fd 0 0 a3 a4 a5 k = Done (- EBADF) k
  | Some f => exists v k', dispatch SYS_DUP fd 0 0 a3 a4 a5 k = Done v k' /\
      spec_alloc (abs k) f (v, abs k')
  end /\
  (forall fd2, 3 <= fd2 < MAX_FDS ->
     match spec_get (abs k) fd with
     | None => dispatch SYS_DUP2 fd fd2 0 a3 a4 a5 k = Done (- EBADF) k
     | Some f => exists k', dispatch SYS_DUP2 fd fd2 0 a3 a4 a5 k = Done fd2 k' /\
         abs k' = spec_set (abs k) fd2 (Some f)
     end) /\
  (forall dirfd ptr flags mode path, is_dirfd_ok (to_i64 dirfd) k = Done true k ->
     ptr <> 0 -> cstr_at (mem k) ptr path -> is_str path ->
     exists v k', dispatch SYS_OPENAT dirfd ptr flags mode a4 a5 k = Done v k' /\
       spec_open (image_of r k) (abs k) path flags (v, abs k')).
Proof.
  intros Hk Hfd. assert ((fd <=? 2) = false) as Hf by lia.
  split_and!.
  - intros buf len Hl Hb. pose proof (read_refines r k Hk fd buf len Hfd Hl Hb) as H.
    unfold dispatch. rewrite Hf. exact H.
  - intros off whence. destruct (entries_total r k Hk) as (n & Hn & _).
    destruct (seek_refines r k Hk fd (to_i64 off) whence n Hfd (to_i64_range off) Hn) as (k' & Hs & Ha).
    exists n, k'. split; [done|]. unfold dispatch. rewrite Hf.
    destruct (spec_seek n (abs k) fd (to_i64 off) whence). by split.
  - unfold dispatch. rewrite Hf. by apply (close_refines r).
  - exact (dup_refines r k Hk fd Hfd).
  - intros fd2 Hfd2. exact (dup2_refines r k Hk fd fd2 Hfd Hfd2).
  - intros dirfd ptr flags mode path. exact (open_refines r k Hk (to_i64 dirfd) ptr flags mode path).
Qed.

Lemma alloc_lowest t f fd v t' : length t = Z.to_nat MAX_FDS ->
  lowest_free t fd -> spec_alloc t f (v, t') -> v = fd /\ spec_get t' fd = Some f.
Proof.
  intros Hl (Hr & Hn & Hlow) [[(Hr' & Hn' & Hlow') Ht]|[Hall _]]; cbn [fst snd] in *.
  - assert (v = fd) as ->.
    { destruct (Z.lt_trichotomy v fd) as [H|[H|H]]; [|done|].
      - destruct (Hlow v) as [f' Hf']; [lia|]. congruence.
      - destruct (Hlow' fd) as [f' Hf']; [lia|]. congruence. }
    split; [done|]. rewrite Ht. unfold spec_get, spec_set.
    rewrite list_lookup_insert_eq; [done|]. unfold MAX_FDS in *. lia.
  - destruct (Hall fd Hr) as [f' Hf']. congruence.
Qed.

(** C18: a program reads a file of the image back exactly.  When a path names
    a record of the mounted image and a descriptor is free, opening the path
    answers the lowest free descriptor, and from then on any sequence of reads
    into a mapped buffer outside the image delivers, joined together, exactly
    the first bytes of the record's data, as many as were asked for, and all
    of them once enough were asked for. *)
Theorem read_back r k image ptr path name rec flags mode buf max lens fd :
  wf r k -> image_of r k = Some image ->
  ptr <> 0 -> cstr_at (mem k) ptr path -> is_str path ->
  is_root_path path || bool_decide (path = str "..") = false ->
  normalize_path path = Some name -> name <> [] -> fs.open image name = Ok rec ->
  Z.land flags O_DIRECTORY = 0 -> lowest_free (abs k) fd ->
  user_buffer r (mem k) buf max -> max <= u64_max -> Forall (fun len => 0 <= len <= max) lens ->
  exists k1 k2, dispatch SYS_OPENAT (of_i64 AT_FDCWD) ptr flags mode 0 0 k = Done fd k1 /\
    reads fd buf lens k1 = Done (take (Z.to_nat (total lens)) (fs.data rec)) k2.
Proof.
  intros Hk Him Hp Hs Hstr Hroot Hn Hne Hrec Hfl Hfd Hbuf Hmax Hlens.
  assert (spec_resolve (image_of r k) path flags = Ok (AFile (fs.data rec) 0 (fs.mode rec))) as Hres.
  { unfold spec_resolve. rewrite Hroot, Hn. cbn. rewrite bool_decide_false by done.
    rewrite Him. cbn. rewrite Hrec. cbn. by rewrite Hfl. }
  destruct (open_refines r k Hk AT_FDCWD ptr flags mode path eq_refl Hp Hs Hstr) as (v & k1 & Ho & Hspec).
  unfold spec_open in Hspec. rewrite Hres in Hspec.
  assert (wf r k1) as Hk1.
  { pose proof (keeps_sys_openat r AT_FDCWD ptr flags mode k Hk) as H. rewrite Ho in H. apply H. }
  assert (mem k1 = mem k) as Hm.
  { pose proof (frames_sys_openat (touched SYS_OPENAT) AT_FDCWD ptr flags mode eq_refl k) as H.
    rewrite Ho in H. by apply H. }
  apply (alloc_lowest _ _ fd) in Hspec as [-> Hget];
    [|unfold abs; rewrite length_map; apply (wf_fds_len _ _ Hk)|done].
  assert (user_buffer r (mem k1) buf max) as Hbuf1 by by rewrite Hm.
  destruct (reads_spec r fd buf max (fs.data rec) (fs.mode rec) lens k1 0) as (k2 & Hr); try done.
  { split; [apply Hfd|]. apply Hfd. }
  exists k1, k2. split; [exact Ho|]. exact Hr.
Qed.

(** Three reads of /motd in the sample machine; and a seek, a close, ... *)
Lemma sample_cstr : cstr_at (mem sample_kernel) 0x1000 (str "/motd").
Proof. split_and!; [vm_compute; reflexivity|repeat constructor; done|done]. Qed.
Lemma sample_buffer : user_buffer sample_root (mem sample_kernel) 0x2000 160.
Proof.
  split_and!; [done| |left; done]. apply (mem_read_is_mapped _ _ _ (zreplicate 160 0)).
  vm_compute. reflexivity.
Qed.
(** The sample machine with /motd open at descriptor 3. *)
Definition open_kernel : kernel :=
  with_fds (<[Z.to_nat 3 := File (0x8000 + 76) 3 0 33188]> (FD_TABLE sample_kernel)) sample_kernel.
Lemma open_wf : wf sample_root open_kernel.
Proof.
  apply wf_with_fds; [exact sample_wf|lia|]. split; [by vm_compute|]. split; [by vm_compute|].
  exists 0x8000, (zlen fs.sample_image). split; [done|]. by vm_compute.
Qed.
Lemma file_calls_refine_witness :
  wf sample_root open_kernel /\
  (spec_read (abs open_kernel) 3 2).1 = (2, str "Hi") /\
  exists k', dispatch SYS_READ 3 0x2000 2 0 0 0 open_kernel = Done 2 k' /\
    delivered (mem open_kernel) (mem k') 0x2000 (str "Hi").
Proof.
  split; [exact open_wf|]. split; [vm_compute; reflexivity|].
  pose proof (proj1 (file_calls_refine sample_root open_kernel 3 0 0 0 open_wf ltac:(by vm_compute))
    0x2000 2 ltac:(lia)) as H.
  assert (user_buffer sample_root (mem open_kernel) 0x2000 2) as Hb.
  { apply (user_buffer_mono _ (mem sample_kernel) _ _ 160); [exact sample_buffer|lia|done]. }
  specialize (H Hb).
  assert ((spec_read (abs open_kernel) 3 2).1 = (2, str "Hi")) as Hs by (vm_compute; reflexivity).
  destruct (spec_read (abs open_kernel) 3 2) as [[v data] t]. cbn [fst] in Hs. injection Hs as -> ->.
  destruct H as (k' & Hd & _ & Hdel). exists k'. by split.
Defined.
Lemma read_back_witness :
  wf sample_root sample_kernel /\ fs.open fs.sample_image (str "motd") = Ok fs.sample_record /\
  exists k1 k2, dispatch SYS_OPENAT (of_i64 AT_FDCWD) 0x1000 0 0 0 0 sample_kernel = Done 3 k1 /\
    reads 3 0x2000 [2; 0; 5] k1 = Done (str "Hi!") k2.
Proof.
  split; [exact sample_wf|]. split; [reflexivity|].
  apply (read_back sample_root sample_kernel fs.sample_image 0x1000 (str "/motd") (str "motd")
    fs.sample_record 0 0 0x2000 160 [2; 0; 5] 3).
  - exact sample_wf.
  - vm_compute. reflexivity.
  - done.
  - exact sample_cstr.
  - reflexivity.
  - reflexivity.
  - reflexivity.
  - done.
  - reflexivity.
  - reflexivity.
  - split; [by vm_compute|]. split; [reflexivity|]. intros j Hj. lia.
  - exact sample_buffer.
  - by vm_compute.
  - repeat constructor; done.
Defined.
