(* ===== verification/SyscallDents.v ===== *)
(** * Listing the root directory

    [getdents64] packs as many directory records as fit into the caller's
    buffer and remembers the position in the descriptor.  This file says what
    the records are, which of them one call delivers, and that a program which
    calls [getdents64] until it answers 0 and decodes the records gets every
    name of the mounted image, once and in order. *)
From stdpp Require Import gmap.
From S2P Require Import Prelude Utf8 Fs Kernel Posix Syscall SyscallInv SyscallFrame SyscallFiles.

(** ** The records *)

(** Name, type and inode number. *)
Abbreviation dirent := (bytes * Z * Z)%type.
(** The root directory of an image with the files [recs]. *)
Definition listing (recs : list fs.FileRecord) : list dirent :=
  (str ".", DT_DIR, 1) :: (str "..", DT_DIR, 1) ::
  imap (fun i rec => (fs.name rec, DT_REG, Z.of_nat i + 2)) recs.
Definition reclen_of (e : dirent) : Z := dirent_record_len (zlen e.1.1).
Definition dirent_bytes (pos : Z) (e : dirent) : bytes :=
  to_le 8 e.2 ++ to_le 8 (pos + 1) ++ to_le 2 (reclen_of e) ++ [e.1.2] ++ e.1.1 ++ [0] ++
  zreplicate (reclen_of e - (20 + zlen e.1.1)) 0.
Fixpoint dirents (pos : Z) (es : list dirent) : bytes :=
  match es with [] => [] | e :: es => dirent_bytes pos e ++ dirents (pos + 1) es end.
(** The entries one call delivers: those that fit, in order. *)
Fixpoint fitting (count written : Z) (es : list dirent) : list dirent :=
  match es with
  | [] => []
  | e :: es =>
    if count <? written + reclen_of e then [] else e :: fitting count (written + reclen_of e) es
  end.

(** ** The reader's side

    Decoding the buffer: [d_reclen] leads from record to record, the name ends
    at its zero byte. *)
Definition name_at (bs : bytes) : bytes :=
  (fix go bs := match bs with [] => [] | b :: bs => if b =? 0 then [] else b :: go bs end) bs.
Fixpoint decode_dirents (fuel : nat) (bs : bytes) : list dirent :=
  match fuel with
  | O => []
  | S fuel =>
    if bool_decide (bs = []) then [] else
    let reclen := from_le (zslice bs 16 18) in
    (name_at (drop 19 bs), from_le (zslice bs 18 19), from_le (zslice bs 0 8)) ::
    decode_dirents fuel (drop (Z.to_nat reclen) bs)
  end.
(** [getdents64] until it answers 0 or an error. *)
Fixpoint list_dir (fuel : nat) (fd dirp count : Z) : K (list dirent) :=
  match fuel with
  | O => ret []
  | S fuel =>
    n ← dispatch SYS_GETDENTS64 fd dirp count 0 0 0;
    if n <=? 0 then ret [] else
    bs ← load dirp n;
    rest ← list_dir fuel fd dirp count;
    ret (decode_dirents (length bs) bs ++ rest)
  end.

(** ** Facts *)
Definition entry_fits (e : dirent) : Prop :=
  1 <= zlen e.1.1 <= fs.NAME_CAP /\ is_u8 e.1.2 /\ is_u64 e.2.

Lemma reclen_range e : entry_fits e -> zlen e.1.1 + 20 <= reclen_of e <= zlen e.1.1 + 27.
Proof. intros (Hn & _). apply dirent_record_len_range. unfold fs.NAME_CAP in *. ilia. Qed.
Lemma reclen_max e : entry_fits e -> reclen_of e <= 72.
Proof.
  intros He. pose proof (reclen_range e He). destruct He as (Hn & _). unfold reclen_of in *.
  rewrite dirent_record_len_eq in * by (unfold fs.NAME_CAP in *; ilia). unfold fs.NAME_CAP in *.
  pose proof (Z.mod_eq (zlen e.1.1 + 27) 8). lia.
Qed.
Lemma dirent_bytes_len pos e : entry_fits e -> zlen (dirent_bytes pos e) = reclen_of e.
Proof. intros He. pose proof (reclen_range e He). unfold dirent_bytes. zlens. Qed.

(** The seven stores of one record are one store of its bytes. *)
Lemma write_dirent_store rec pos e k :
  write_dirent rec e.2 pos (reclen_of e) e.1.2 e.1.1 k = store rec (dirent_bytes pos e) k.
Proof.
  unfold write_dirent, dirent_bytes. rewrite store_app, zlen_to_le. apply bind_ext. intros _ k1.
  rewrite store_app, zlen_to_le. apply bind_ext. intros _ k2.
  rewrite store_app, zlen_to_le. replace (rec + Z.of_nat 8 + Z.of_nat 8) with (rec + 16) by lia. apply bind_ext. intros _ k3.
  rewrite store_app. replace (rec + 16 + Z.of_nat 2) with (rec + 18) by lia.
  apply bind_ext. intros _ k4.
  rewrite store_app. replace (rec + 18 + zlen [e.1.2]) with (rec + 19) by (rewrite zlen_cons, zlen_nil; lia).
  apply bind_ext. intros _ k5.
  rewrite store_app. apply bind_ext. intros _ k6. f_equal. rewrite zlen_cons, zlen_nil. lia.
Qed.

Lemma mem_read_app m a x y n :
  mem_read m a (length x) = inl x -> mem_read m (a + zlen x) n = inl y ->
  mem_read m a (length x + n) = inl (x ++ y).
Proof.
  unfold zlen. revert a. induction x as [|b x IH]; intros a Hx Hy; cbn [mem_read Nat.add app length] in *.
  - by rewrite Z.add_0_r in Hy.
  - destruct (m !! a) as [b'|]; [|done]. destruct (mem_read m (a + 1) (length x)) as [x'|] eqn:E; [|done].
    injection Hx as -> ->. rewrite (IH (a + 1)); [done|done|]. rewrite <-Hy. f_equal. lia.
Qed.
Lemma delivered_app m m1 m2 a x y :
  delivered m m1 a x -> delivered m1 m2 (a + zlen x) y -> delivered m m2 a (x ++ y).
Proof.
  intros [Hx Hox] [Hy Hoy]. split.
  - rewrite length_app. apply mem_read_app; [|done]. rewrite <-Hx. apply mem_read_ext.
    intros z Hz. apply Hoy. unfold zlen. lia.
  - intros z Hz. rewrite zlen_app in Hz. pose proof (zlen_nonneg x). pose proof (zlen_nonneg y).
    rewrite Hoy, Hox by lia. done.
Qed.
Lemma delivered_nil m a : delivered m m a [].
Proof. by split. Qed.

Lemma user_buffer_shift r m m' buf len bs :
  user_buffer r m buf len -> delivered m m' buf bs -> user_buffer r m' (buf + zlen bs) (len - zlen bs).
Proof.
  intros (Hb & Hm & Hd) Hdel. pose proof (zlen_nonneg bs). split; [lia|]. split.
  - intros x Hx. apply (delivered_dom _ _ _ _ _ Hdel). apply Hm. lia.
  - destruct r as [[a n]|]; [lia|done].
Qed.

(** *** What the kernel reads from the image *)
Section Kernel.
Context (r : option (Z * Z)) (image : bytes) (recs : list fs.FileRecord).
Hypothesis Hrecs : fs.files_of image = Ok recs.

Lemma rootfs_bytes_ok k : wf r k -> image_of r k = Some image -> bytes_ok image.
Proof.
  intros Hk Him. destruct (rootfs_image_of r k Hk) as (o & Ho & Hi). rewrite Him in Hi.
  pose proof (keeps_rootfs r k Hk) as H. rewrite Ho in H. destruct o as [[a c]|]; [|done].
  injection Hi as <-. apply H.
Qed.
Lemma listing_len : zlen (listing recs) = zlen recs + 2.
Proof. unfold zlen. cbn. rewrite length_imap. lia. Qed.
Lemma dirent_at_listing k pos :
  wf r k -> image_of r k = Some image -> 0 <= pos -> dirent_at pos k = Done (listing recs !! Z.to_nat pos) k.
Proof.
  intros Hk Him Hpos. unfold dirent_at.
  destruct (Z.eqb_spec pos 0) as [->|]; [done|]. destruct (Z.eqb_spec pos 1) as [->|]; [done|].
  replace (Z.to_nat pos) with (S (S (Z.to_nat (pos - 2)))) by lia. 
  change (listing recs !! S (S ?n)) with (imap (fun i rec => (fs.name rec, DT_REG, Z.of_nat i + 2)) recs !! n).
  rewrite list_lookup_imap. unfold root_name_by_index. run_prog.
  destruct (rootfs_image_of r k Hk) as (o & Ho & Hi). rewrite Him in Hi. rewrite Ho.
  destruct o as [[a c]|]; [|done]. injection Hi as <-.
  rewrite (fs.files_of_entry _ recs) by (done || lia).
  destruct (recs !! Z.to_nat (pos - 2)) as [rec|]; cbn; [|done]. do 4 f_equal. lia.
Qed.
Lemma entries_listing k :
  wf r k -> image_of r k = Some image -> root_entries_count k = Done (zlen (listing recs)) k.
Proof.
  intros Hk Him. unfold root_entries_count. run_prog.
  destruct (rootfs_image_of r k Hk) as (o & Ho & Hi). rewrite Him in Hi. rewrite Ho.
  destruct o as [[a c]|]; [|done]. injection Hi as <-.
  destruct (fs.files_of_header image recs) as (h & Hh & Hc); [by eapply rootfs_bytes_ok|done|].
  unfold fs_call. rewrite Hh. cbn. by rewrite Hc, listing_len.
Qed.
Lemma listing_fits e k : wf r k -> image_of r k = Some image -> e ∈ listing recs -> entry_fits e.
Proof.
  intros Hk Him. unfold listing. rewrite !elem_of_cons. intros [->|[->|He]].
  1, 2: unfold entry_fits, is_u8, is_u64; by apply (bool_decide_unpack _).
  apply list_elem_of_lookup in He as [i Hi]. rewrite list_lookup_imap in Hi.
  destruct (recs !! i) as [rec|] eqn:Hrec; [|done]. injection Hi as <-.
  pose proof (rootfs_bytes_ok k Hk Him) as Hok.
  pose proof (fs_entry_cases image (Z.of_nat i) Hok ltac:(lia)) as Hc.
  rewrite (fs.files_of_entry _ recs), Nat2Z.id, Hrec in Hc by (done || lia). cbn in Hc.
  destruct Hc as (_ & _ & _ & Hn & _ & Hb & _).
  destruct (fs.files_of_header image recs) as (h & Hh & Hcnt); [done..|].
  pose proof (fs.header_cases image Hok) as Hh'. rewrite Hh in Hh'.
  apply lookup_lt_Some in Hrec. unfold zlen in Hcnt.
  split_and!; cbn; try done; try apply Hn; ilia.
Qed.

(** *** One call *)
(** The state after a call that delivers [es] from position [pos]. *)
Definition listed (fd pos : Z) (es : list dirent) (m : gmap Z Z) (k : kernel) : kernel :=
  with_fds (<[Z.to_nat fd := RootDir (pos + zlen es)]> (FD_TABLE k)) (with_mem m k).

Lemma image_of_listed k m fd pos es bs buf len :
  wf r k -> delivered (mem k) m buf bs -> zlen bs <= len -> user_buffer r (mem k) buf len ->
  image_of r (listed fd pos es m k) = image_of r k.
Proof.
  intros Hk Hdel Hlen Hbuf. unfold image_of. destruct r as [[a n]|] eqn:Hr; [|done]. cbn.
  rewrite (mem_read_ext m (mem k)); [done|]. intros x Hx. apply Hdel.
  destruct Hbuf as (_ & _ & Hd). pose proof (wf_mapped _ _ Hk) as (_ & ? & _). lia.
Qed.
Lemma wf_listed k m fd pos es bs buf len :
  wf r k -> 3 <= fd -> 0 <= pos -> pos + zlen es <= i64_max ->
  delivered (mem k) m buf bs -> zlen bs <= len -> bytes_ok bs -> user_buffer r (mem k) buf len ->
  wf r (listed fd pos es m k) /\ image_of r (listed fd pos es m k) = image_of r k.
Proof.
  intros Hk Hfd Hpos Hmax Hdel Hlen Hbs Hbuf. split.
  - unfold listed. change (FD_TABLE k) with (FD_TABLE (with_mem m k)).
    apply wf_with_fds; [|done|cbn; pose proof (zlen_nonneg es); lia].
    destruct Hk. split; try done; cbn.
    + destruct r as [[a n]|]; [|done]. cbn in *. intuition. intros x Hx.
      apply (delivered_dom _ _ _ _ _ Hdel). auto.
    + intros x b Hx. destruct (decide (buf <= x < buf + zlen bs)) as [Hin|Hout].
      * destruct Hdel as [Hr _]. pose proof (mem_read_spec m buf (length bs)) as Hs. rewrite Hr in Hs.
        destruct Hs as [_ Hs]. replace x with (buf + Z.of_nat (Z.to_nat (x - buf))) in Hx by lia.
        rewrite Hs in Hx by (unfold zlen in Hin; lia). unfold bytes_ok in Hbs.
        rewrite Forall_lookup in Hbs. eauto.
      * rewrite (proj2 Hdel x Hout) in Hx. by apply wf_mem in Hx.
  - by eapply image_of_listed.
Qed.

Lemma fitting_In count written es e : e ∈ fitting count written es -> e ∈ es.
Proof.
  revert written. induction es as [|x es IH]; intros written; cbn [fitting]; [done|].
  branch as Hc; [by intros ?%elem_of_nil|]. rewrite !elem_of_cons. naive_solver.
Qed.
Lemma bytes_ok_dirent pos e : entry_fits e -> bytes_ok e.1.1 -> bytes_ok (dirent_bytes pos e).
Proof.
  intros (Hn & Ht & _) Hb. unfold dirent_bytes. rewrite !bytes_ok_app.
  split_and!; try apply to_le_ok; try done; [by apply Forall_singleton|by apply (bool_decide_unpack _)|].
  apply bytes_ok_zreplicate. ilia.
Qed.
Lemma listing_names_ok k e : wf r k -> image_of r k = Some image -> e ∈ listing recs -> bytes_ok e.1.1.
Proof.
  intros Hk Him. unfold listing. rewrite !elem_of_cons. intros [->|[->|He]].
  1, 2: by apply (bool_decide_unpack _).
  apply list_elem_of_lookup in He as [i Hi]. rewrite list_lookup_imap in Hi.
  destruct (recs !! i) as [rec|] eqn:Hrec; [|done]. injection Hi as <-.
  pose proof (rootfs_bytes_ok k Hk Him) as Hok.
  pose proof (fs_entry_cases image (Z.of_nat i) Hok ltac:(lia)) as Hc.
  rewrite (fs.files_of_entry _ recs), Nat2Z.id, Hrec in Hc by (done || lia). apply Hc.
Qed.

Definition loop_result (count written : Z) (rest : list dirent) (pos : Z) : Z :=
  let es := fitting count written rest in
  if (written =? 0) && bool_decide (es = []) && bool_decide (rest <> []) then - posix.EINVAL
  else written + zlen (dirents pos es).

(** One record written and the position advanced. *)
Lemma write_listed k fd pos e buf len :
  wf r k -> image_of r k = Some image -> 3 <= fd -> listing recs !! Z.to_nat pos = Some e -> 0 <= pos ->
  user_buffer r (mem k) buf len -> reclen_of e <= len ->
  exists m, (write_dirent buf e.2 pos (reclen_of e) e.1.2 e.1.1;; fd_set fd (RootDir (pos + 1))) k =
      Done tt (listed fd pos [e] m k) /\
    delivered (mem k) m buf (dirent_bytes pos e) /\
    wf r (listed fd pos [e] m k) /\ image_of r (listed fd pos [e] m k) = Some image.
Proof.
  intros Hk Him Hfd Hl Hpos Hbuf Hlen.
  assert (e ∈ listing recs) as Hin by (apply list_elem_of_lookup; eauto).
  pose proof (listing_fits e k Hk Him Hin) as Hfit. pose proof (listing_names_ok k e Hk Him Hin) as Hname.
  pose proof (dirent_bytes_len pos e Hfit) as Hbl.
  destruct (store_delivers k buf (dirent_bytes pos e)) as (m & Hst & Hdel).
  { intros x Hx. apply Hbuf. lia. }
  exists m. unfold mbind, prog_bind at 1. rewrite write_dirent_store, Hst.
  split; [reflexivity|]. split; [exact Hdel|]. rewrite <-Him.
  assert (zlen (listing recs) <= i64_max) as Hmax.
  { pose proof (keeps_root_entries_count r k Hk) as Hn. rewrite (entries_listing k Hk Him) in Hn. ilia. }
  apply lookup_lt_Some in Hl. unfold zlen in Hmax.
  apply (wf_listed k m fd pos [e] (dirent_bytes pos e) buf len); try done; [rewrite zlen_cons, zlen_nil; lia|lia|by apply bytes_ok_dirent].
Qed.
Lemma listed_listed fd pos e es m m1 k :
  listed fd (pos + 1) es m (listed fd pos [e] m1 k) = listed fd pos (e :: es) m k.
Proof.
  unfold listed. cbn [FD_TABLE with_fds with_mem]. rewrite list_insert_insert_eq.
  replace (pos + 1 + zlen es) with (pos + zlen (e :: es)) by (rewrite zlen_cons; lia). reflexivity.
Qed.
Lemma listed_nil fd pos k :
  FD_TABLE k !! Z.to_nat fd = Some (RootDir pos) -> listed fd pos [] (mem k) k = k.
Proof. intros He. unfold listed. rewrite zlen_nil, Z.add_0_r, list_insert_id by done. by destruct k. Qed.

Lemma dents_loop_fills rest k fd dirp count pos written :
  wf r k -> image_of r k = Some image -> 3 <= fd < MAX_FDS ->
  FD_TABLE k !! Z.to_nat fd = Some (RootDir pos) -> rest = drop (Z.to_nat pos) (listing recs) ->
  0 <= pos -> pos + zlen rest = zlen (listing recs) -> 0 <= written ->
  user_buffer r (mem k) (dirp + written) (count - written) ->
  let es := fitting count written rest in
  exists m, dents_loop (length rest) fd dirp count (zlen (listing recs)) pos written k =
      Done (loop_result count written rest pos) (listed fd pos es m k) /\
    delivered (mem k) m (dirp + written) (dirents pos es).
Proof.
  intros Hk Him Hfd. revert k pos written Hk Him.
  induction rest as [|e rest IH]; intros k pos written Hk Him He Hrest Hpos Htot Hw Hbuf;
    unfold loop_result; cbn [fitting length dents_loop].
  - exists (mem k). split; [|apply delivered_nil]. rewrite (listed_nil _ _ _ He), andb_false_r, Z.add_0_r. done.
  - rewrite zlen_cons in Htot. pose proof (zlen_nonneg rest). rewrite (proj2 (Z.leb_gt _ pos)) by lia.
    unfold mbind, prog_bind at 1. rewrite (dirent_at_listing k pos) by done.
    assert (listing recs !! Z.to_nat pos = Some e) as Hl.
    { rewrite <-(Nat.add_0_r (Z.to_nat pos)), <-lookup_drop, <-Hrest. done. }
    pose proof (reclen_range e (listing_fits e k Hk Him ltac:(apply list_elem_of_lookup; eauto))) as Hlen.
    pose proof (zlen_nonneg e.1.1). rewrite Hl. destruct e as [[name typ] ino].
    change (dirent_record_len (zlen name)) with (reclen_of (name, typ, ino)).
    set (e := (name, typ, ino)) in *. branch as Hc.
    + exists (mem k). split; [|apply delivered_nil]. rewrite (listed_nil _ _ _ He), !andb_true_r. cbn [dirents].
      destruct (written =? 0); [done|]. rewrite zlen_nil, Z.add_0_r. done.
    + set (es := fitting count (written + reclen_of e) rest).
      destruct (write_listed k fd pos e (dirp + written) (count - written)) as (m1 & Hw1 & Hdel & Hk1 & Him1);
        try done; try lia.
      pose proof (dirent_bytes_len pos e (listing_fits e k Hk Him ltac:(apply list_elem_of_lookup; eauto))) as Hbl.
      destruct (IH (listed fd pos [e] m1 k) (pos + 1) (written + reclen_of e)) as (m & Hloop & Hdel2); try done; try lia.
      * cbn [listed FD_TABLE with_fds]. rewrite list_lookup_insert_eq; [done|by eapply lookup_lt_Some].
      * replace (Z.to_nat (pos + 1)) with (Z.to_nat pos + 1)%nat by lia.
        by rewrite <-drop_drop, <-Hrest.
      * rewrite Z.add_assoc, Z.sub_add_distr, <-Hbl. by eapply user_buffer_shift.
      * exists m. fold es in Hloop, Hdel2. split.
        -- change (write_dirent _ ino pos _ typ name)
             with (write_dirent (dirp + written) e.2 pos (reclen_of e) e.1.2 e.1.1).
           revert Hw1. unfold mbind, prog_bind. destruct (write_dirent _ _ _ _ _ _ k) as [? k'| |]; [|done..].
           intros ->. rewrite Hloop, listed_listed. f_equal. unfold loop_result. fold es.
           replace (written + reclen_of e =? 0) with false by lia. cbn [andb dirents].
           rewrite andb_false_r, zlen_app, Hbl. cbn [andb]. lia.
        -- cbn [dirents]. eapply delivered_app; [exact Hdel|]. by rewrite Hbl, <-Z.add_assoc.
Qed.

Lemma getdents_call k fd dirp count pos :
  wf r k -> image_of r k = Some image -> 3 <= fd < MAX_FDS ->
  FD_TABLE k !! Z.to_nat fd = Some (RootDir pos) -> user_buffer r (mem k) dirp count ->
  let rest := drop (Z.to_nat pos) (listing recs) in
  let es := fitting count 0 rest in
  exists m, sys_getdents64 fd dirp count k = Done (loop_result count 0 rest pos) (listed fd pos es m k) /\
    delivered (mem k) m dirp (dirents pos es).
Proof.
  intros Hk Him Hfd He Hbuf rest es. pose proof (entry_at_ok r k Hk fd _ He) as Hpos. cbn in Hpos.
  assert (zlen rest = Z.max 0 (zlen (listing recs) - pos)) as Hrest.
  { subst rest. unfold zlen. rewrite length_drop. lia. }
  unfold sys_getdents64. destruct Hbuf as (Hb & Hbuf). rewrite (proj2 (Z.eqb_neq _ _)) by lia.
  rewrite (proj2 (Z.leb_gt MAX_FDS _)) by lia. unfold fd_get. run_prog. rewrite He. run_prog.
  rewrite (entries_listing k) by done. branch as Hend.
  - assert (rest = []) as Hr by (apply length_zero_iff_nil; unfold zlen in *; lia).
    exists (mem k). subst es. rewrite Hr. cbn [fitting]. rewrite (listed_nil _ _ _ He).
    split; [done|apply delivered_nil].
  - destruct (dents_loop_fills rest k fd dirp count pos 0) as (m & Hl & Hd); try done; try lia.
    { rewrite Z.add_0_r, Z.sub_0_r. by split. }
    exists m. rewrite Z.add_0_r in Hd. split; [|exact Hd].
    replace (Z.to_nat (zlen (listing recs) - pos)) with (length rest) by (unfold zlen in *; lia). exact Hl.
Qed.
End Kernel.

(** *** Decoding what was encoded *)
Lemma name_at_app name rest : Forall (fun b => b <> 0) name -> name_at (name ++ 0 :: rest) = name.
Proof. unfold name_at. induction 1 as [|b name Hb _ IH]; cbn; [done|]. rewrite (proj2 (Z.eqb_neq b 0)) by done. by rewrite IH. Qed.
Definition names_c (e : dirent) : Prop := entry_fits e /\ Forall (fun b => b <> 0) e.1.1.

Lemma dirent_fields pos e rest : names_c e ->
  let bs := dirent_bytes pos e ++ rest in
  from_le (zslice bs 16 18) = reclen_of e /\ from_le (zslice bs 18 19) = e.1.2 /\
  from_le (zslice bs 0 8) = e.2 /\ name_at (drop 19 bs) = e.1.1 /\
  drop (Z.to_nat (reclen_of e)) bs = rest.
Proof.
  intros [Hf Hn] bs. pose proof (reclen_max e Hf). pose proof (reclen_range e Hf) as Hl.
  pose proof (dirent_bytes_len pos e Hf) as Hbl. pose proof (zlen_nonneg e.1.1).
  destruct Hf as (_ & Ht & Hi).
  assert (bs = to_le 8 e.2 ++ to_le 8 (pos + 1) ++ to_le 2 (reclen_of e) ++ [e.1.2] ++
    e.1.1 ++ [0] ++ zreplicate (reclen_of e - (20 + zlen e.1.1)) 0 ++ rest) as Hbs.
  { unfold bs, dirent_bytes. by rewrite <-!app_assoc. }
  split_and!.
  - rewrite Hbs. change (zslice _ 16 18) with (to_le 2 (reclen_of e)).
    rewrite from_le_to_le, Z.mod_small; [done|]. change (256 ^ Z.of_nat 2) with 65536. lia.
  - rewrite Hbs. change (zslice _ 18 19) with [e.1.2]. cbn. lia.
  - rewrite Hbs. change (zslice _ 0 8) with (to_le 8 e.2). by rewrite from_le_to_le, Z.mod_small.
  - rewrite Hbs. by apply name_at_app.
  - unfold bs. rewrite drop_app_ge by (unfold zlen in Hbl; lia).
    replace (_ - _)%nat with 0%nat by (unfold zlen in Hbl; lia). done.
Qed.
Lemma decode_encode fuel pos es :
  Forall names_c es -> (length es <= fuel)%nat -> decode_dirents fuel (dirents pos es) = es.
Proof.
  intros Hes. revert fuel pos. induction Hes as [|e es He _ IH]; intros fuel pos Hfuel; cbn [dirents].
  - by destruct fuel.
  - destruct fuel as [|fuel]; [cbn in Hfuel; lia|]. cbn [decode_dirents].
    assert (dirent_bytes pos e ++ dirents (pos + 1) es <> []) as Hne.
    { intros [Hnil _]%app_eq_nil. pose proof (dirent_bytes_len pos e (proj1 He)) as Hl.
      pose proof (reclen_range e (proj1 He)). pose proof (zlen_nonneg e.1.1). rewrite Hnil, zlen_nil in Hl. lia. }
    rewrite bool_decide_false by done.
    destruct (dirent_fields pos e (dirents (pos + 1) es) He) as (-> & -> & -> & -> & ->).
    rewrite IH by (cbn in Hfuel; lia). by destruct e as [[??]?].
Qed.
Lemma dirents_len pos es : Forall names_c es -> (length es <= length (dirents pos es))%nat.
Proof.
  intros Hes. revert pos. induction Hes as [|e es He _ IH]; intros pos; cbn [dirents length]; [done|].
  rewrite length_app. specialize (IH (pos + 1)). pose proof (dirent_bytes_len pos e (proj1 He)) as Hl.
  pose proof (reclen_range e (proj1 He)). pose proof (zlen_nonneg e.1.1). unfold zlen in Hl. unfold zlen in *. lia.
Qed.
Lemma fitting_size count written pos es :
  Forall entry_fits es -> written <= count -> written + zlen (dirents pos (fitting count written es)) <= count.
Proof.
  intros Hes. revert written pos. induction Hes as [|e es He _ IH]; intros written pos Hw; cbn [fitting dirents].
  - by rewrite zlen_nil, Z.add_0_r.
  - branch as Hc; cbn [dirents]; [by rewrite zlen_nil, Z.add_0_r|].
    rewrite zlen_app, dirent_bytes_len by done. specialize (IH (written + reclen_of e) (pos + 1)). lia.
Qed.
Lemma take_app_drop_length {A} j (l : list A) : take j l ++ drop (length (take j l)) l = l.
Proof.
  destruct (decide (j <= length l)%nat).
  - rewrite length_take, Nat.min_l by done. apply take_drop.
  - rewrite take_ge, drop_all by lia. apply app_nil_r.
Qed.
Lemma fitting_prefix count written es :
  exists j, fitting count written es = take j es /\ zlen (fitting count written es) <= zlen es.
Proof.
  revert written. induction es as [|e es IH]; intros written; cbn [fitting]; [by exists 0%nat|].
  branch as Hc; [exists 0%nat; split; [done|apply zlen_nonneg]|].
  destruct (IH (written + reclen_of e)) as (j & Hj & Hl). exists (S j). cbn [take]. rewrite Hj at 1.
  rewrite !zlen_cons. split; [done|lia].
Qed.

(** ** Properties *)
Section Listing.
Context (r : option (Z * Z)) (image : bytes) (recs : list fs.FileRecord).
Hypothesis Hrecs : fs.files_of image = Ok recs.

Lemma listing_c k : wf r k -> image_of r k = Some image ->
  Forall (fun rec => Forall (fun b => b <> 0) (fs.name rec)) recs -> Forall names_c (listing recs).
Proof.
  intros Hk Him Hz. apply Forall_forall. intros e He%list_elem_of_In. split; [exact (listing_fits r image recs Hrecs e k Hk Him He)|].
  unfold listing in He. rewrite !elem_of_cons in He. destruct He as [->|[->|He]].
  1, 2: cbn; repeat constructor; done.
  apply list_elem_of_lookup in He as [i Hi]. rewrite list_lookup_imap in Hi.
  destruct (recs !! i) as [rec|] eqn:Hrec; [|done]. injection Hi as <-.
  rewrite Forall_lookup in Hz. by apply (Hz i).
Qed.
Lemma list_dir_lists fuel fd dirp count k pos :
  wf r k -> image_of r k = Some image -> 3 <= fd < MAX_FDS -> 72 <= count ->
  Forall names_c (listing recs) ->
  FD_TABLE k !! Z.to_nat fd = Some (RootDir pos) -> user_buffer r (mem k) dirp count ->
  (length (drop (Z.to_nat pos) (listing recs)) < fuel)%nat ->
  exists k', list_dir fuel fd dirp count k = Done (drop (Z.to_nat pos) (listing recs)) k'.
Proof.
  intros Hk Him Hfd Hcount Hnames. revert k pos Hk Him.
  induction fuel as [|fuel IH]; intros k pos Hk Him He Hbuf Hfuel; [lia|]. cbn [list_dir].
  destruct (getdents_call r image recs Hrecs k fd dirp count pos Hk Him Hfd He Hbuf) as (m & Hcall & Hdel).
  set (rest := drop (Z.to_nat pos) (listing recs)) in *. set (es := fitting count 0 rest) in *.
  change (dispatch SYS_GETDENTS64 fd dirp count 0 0 0) with (sys_getdents64 fd dirp count).
  run_prog. rewrite Hcall. unfold loop_result. fold es.
  destruct rest as [|e rest'] eqn:Hrest; [by eexists|].
  assert (Forall names_c (e :: rest')) as Hn by (rewrite <-Hrest; by apply Forall_drop).
  pose proof (Forall_inv Hn) as [Hfe _]. pose proof (reclen_max e Hfe). pose proof (reclen_range e Hfe).
  pose proof (zlen_nonneg e.1.1).
  destruct (fitting_prefix count 0 (e :: rest')) as (j & Hj & Hjl). fold es in Hj, Hjl.
  assert (es = e :: fitting count (0 + reclen_of e) rest') as Hes.
  { subst es. cbn [fitting]. by rewrite (proj2 (Z.ltb_ge _ _)) by lia. }
  rewrite (bool_decide_false (es = [])) by by rewrite Hes. cbn [andb]. rewrite andb_false_r. cbn [andb].
  assert (Forall names_c es) as Hnes by (rewrite Hj; by apply Forall_take).
  pose proof (dirents_len pos es Hnes) as Hdl.
  rewrite (proj2 (Z.leb_gt _ 0)) by (rewrite Hes in *; unfold zlen; cbn [length] in *; lia).
  unfold load. rewrite Z.add_0_l. unfold zlen at 1. rewrite Nat2Z.id.
  set (k1 := listed fd pos es m k) in *. change (mem k1) with m. rewrite (proj1 Hdel), decode_encode by done.
  pose proof (fitting_size count 0 pos (e :: rest') (Forall_impl entry_fits (fun e' (H' : names_c e') => proj1 H') Hn) ltac:(lia)) as Hsz.
  destruct (IH k1 (pos + zlen es)) as (k2 & Hk2).
  - pose proof (keeps_sys_getdents64 r fd dirp count ltac:(lia) k Hk) as Hw. rewrite Hcall in Hw. apply Hw.
  - unfold k1. rewrite (image_of_listed r k m fd pos es (dirents pos es) dirp count); done.
  - unfold k1. cbn [listed FD_TABLE with_fds]. rewrite list_lookup_insert_eq; [done|by eapply lookup_lt_Some].
  - eapply user_buffer_mono; [exact Hbuf|lia|]. intros x. by apply (delivered_dom _ _ _ _ _ Hdel).
  - pose proof (entry_at_ok r k Hk fd _ He) as Hpos. cbn in Hpos.
    replace (Z.to_nat (pos + zlen es)) with (Z.to_nat pos + length es)%nat by (unfold zlen; lia).
    rewrite <-drop_drop. fold rest. rewrite Hrest, length_drop, Hes. cbn [length] in *. lia.
  - exists k2. rewrite Hk2. f_equal. pose proof (entry_at_ok r k Hk fd _ He) as Hpos. cbn in Hpos.
    replace (Z.to_nat (pos + zlen es)) with (Z.to_nat pos + length es)%nat by (unfold zlen; lia).
    rewrite <-drop_drop. fold rest. rewrite Hrest, Hj. apply take_app_drop_length.
Qed.
Lemma abs_dir k fd pos : spec_get (abs k) fd = Some (ADir pos) -> FD_TABLE k !! Z.to_nat fd = Some (RootDir pos).
Proof.
  unfold spec_get. rewrite abs_lookup. destruct (FD_TABLE k !! Z.to_nat fd) as [[|p|p len q md]|]; cbn; try done.
  - by intros [= ->].
  - by destruct (mem_read _ _ _).
Qed.

(** C19: one [getdents64] call delivers the records that fit.  On a directory
    descriptor at position [pos], with a mapped buffer outside the image, the
    call writes at the buffer the records of the entries from [pos] on, in
    order and as many as fit into [count] bytes (never more than [count]
    bytes), each with its inode number, the position after it, its
    length rounded up to 8, its type and its name ended and padded with
    zeros; nothing else in memory changes; it answers the number of bytes
    written, 0 at the end of the directory, and EINVAL when not even the next
    record fits; and the descriptor's position advances past the records. *)
Theorem getdents64_delivers k fd dirp count pos a3 a4 a5 :
  wf r k -> image_of r k = Some image -> 3 <= fd < MAX_FDS ->
  spec_get (abs k) fd = Some (ADir pos) -> user_buffer r (mem k) dirp count -> 0 <= count ->
  let rest := drop (Z.to_nat pos) (listing recs) in
  let es := fitting count 0 rest in
  let v := if bool_decide (es = []) && bool_decide (rest <> []) then - posix.EINVAL else zlen (dirents pos es) in
  zlen (dirents pos es) <= count /\
  exists k', dispatch SYS_GETDENTS64 fd dirp count a3 a4 a5 k = Done v k' /\
    abs k' = spec_set (abs k) fd (Some (ADir (pos + zlen es))) /\
    delivered (mem k) (mem k') dirp (dirents pos es).
Proof.
  intros Hk Him Hfd Hget Hbuf Hcount rest es v. apply abs_dir in Hget as He.
  assert (zlen (dirents pos es) <= count) as Hsz.
  { rewrite <-(Z.add_0_l (zlen _)). apply fitting_size; [|done]. apply Forall_drop, Forall_forall.
    intros e Hin%list_elem_of_In. exact (listing_fits r image recs Hrecs e k Hk Him Hin). }
  split; [exact Hsz|].
  destruct (getdents_call r image recs Hrecs k fd dirp count pos Hk Him Hfd He Hbuf) as (m & Hcall & Hdel).
  fold rest es in Hcall, Hdel. exists (listed fd pos es m k). split; [exact Hcall|]. split; [|exact Hdel].
  unfold listed. rewrite (abs_mem_ext r k).
  - unfold spec_set, abs. by rewrite list_fmap_insert.
  - apply Forall_insert; [apply (wf_fds _ _ Hk)|].
    pose proof (keeps_sys_getdents64 r fd dirp count ltac:(lia) k Hk) as Hw. rewrite Hcall in Hw.
    pose proof (wf_fds _ _ (proj2 Hw)) as Hf. cbn [listed FD_TABLE with_fds] in Hf. rewrite Forall_lookup in Hf.
    apply (Hf (Z.to_nat fd)). rewrite list_lookup_insert_eq; [done|by eapply lookup_lt_Some].
  - intros a n x Hr Hx. apply Hdel. destruct Hbuf as (_ & _ & Hd). rewrite Hr in Hd. clear -Hd Hx Hsz. lia.
Qed.

(** C20: listing the root directory returns every file of the image.  A
    program that calls [getdents64] with a buffer of at least 72 bytes (one
    longest record) until it answers 0, and decodes the records by their
    lengths, gets ".", ".." and then the name of every file of the mounted
    image, once, in the order of the image, and the calls come to an end. *)
Theorem directory_round_trip k fd dirp count fuel :
  wf r k -> image_of r k = Some image -> 3 <= fd < MAX_FDS ->
  Forall (fun rec => Forall (fun b => b <> 0) (fs.name rec)) recs ->
  spec_get (abs k) fd = Some (ADir 0) -> user_buffer r (mem k) dirp count -> 72 <= count ->
  (length recs + 2 < fuel)%nat ->
  exists k', list_dir fuel fd dirp count k = Done (listing recs) k' /\
    map (fun e => e.1.1) (listing recs) = str "." :: str ".." :: map fs.name recs.
Proof.
  intros Hk Him Hfd Hnames Hget Hbuf Hcount Hfuel. apply abs_dir in Hget as He.
  destruct (list_dir_lists fuel fd dirp count k 0 Hk Him Hfd Hcount (listing_c k Hk Him Hnames) He Hbuf) as (k' & Hl).
  { pose proof (listing_len recs) as Hll. unfold zlen in Hll. rewrite length_drop. lia. }
  exists k'. split; [exact Hl|]. cbn [listing map fst]. do 2 f_equal. apply list_eq. intros i.
  rewrite !list_lookup_fmap, list_lookup_imap. by destruct (recs !! i).
Qed.
End Listing.

(** The sample machine with the root directory open at descriptor 4. *)
Definition dir_kernel : kernel :=
  with_fds (<[Z.to_nat 4 := RootDir 0]> (FD_TABLE sample_kernel)) sample_kernel.
Lemma dir_wf : wf sample_root dir_kernel.
Proof. apply wf_with_fds; [exact sample_wf|lia|]. split; [lia|by vm_compute]. Qed.
(** 60 bytes hold the two first records and not the third. *)
Lemma getdents64_delivers_witness :
  wf sample_root dir_kernel /\ fs.files_of fs.sample_image = Ok [fs.sample_record] /\
  exists k', dispatch SYS_GETDENTS64 4 0x2000 60 0 0 0 dir_kernel = Done 48 k' /\
    abs k' = spec_set (abs dir_kernel) 4 (Some (ADir 2)).
Proof.
  split; [exact dir_wf|]. split; [reflexivity|].
  destruct (getdents64_delivers sample_root fs.sample_image [fs.sample_record] eq_refl dir_kernel 4 0x2000 60 0 0 0 0
    dir_wf ltac:(vm_compute; reflexivity) ltac:(by vm_compute) eq_refl
    (user_buffer_mono _ (mem sample_kernel) _ _ 160 60 sample_buffer ltac:(lia) (fun _ h => h)) ltac:(lia))
    as (_ & k' & Hc & Ha & _).
  exists k'. split; [exact Hc|]. exact Ha.
Defined.
Lemma directory_round_trip_witness :
  exists k', list_dir 4 4 0x2000 72 dir_kernel =
    Done [(str ".", DT_DIR, 1); (str "..", DT_DIR, 1); (str "motd", DT_REG, 2)] k'.
Proof.
  destruct (directory_round_trip sample_root fs.sample_image [fs.sample_record] eq_refl dir_kernel 4 0x2000 72 4
    dir_wf ltac:(vm_compute; reflexivity) ltac:(by vm_compute) ltac:(repeat constructor; done) eq_refl
    (user_buffer_mono _ (mem sample_kernel) _ _ 160 72 sample_buffer ltac:(lia) (fun _ h => h)) ltac:(lia) ltac:(cbn; lia))
    as (k' & Hl & _).
  exists k'. exact Hl.
Defined.
