(* ===== verification/UserMem.v ===== *)
(** * User memory and the initial stack

    kernel/src/elf_runner.rs and kernel/src/native_runner.rs each hold a copy
    of the same functions on the memory of a program: a byte vector [mem] that
    appears at the virtual address [base].  They differ in the error type
    only, so the section below is written for any type with the
    [AddressOutOfRange] error. *)
From S2P Require Import Prelude Utf8.

Definition AT_NULL : Z := 0.
Definition AT_PAGESZ : Z := 6.

Section UserMem.
Context {E : Type} (AddressOutOfRange : E).

(** ** Reads and writes *)

Definition va_to_index (base : Z) (mem : bytes) (va : Z) : outcome E Z :=
  if va <? base then Err AddressOutOfRange else
  let idx := va - base in
  if zlen mem <=? idx then Err AddressOutOfRange else Ok idx.

Definition read_bytes (base : Z) (mem : bytes) (va : Z) : outcome E bytes :=
  idx ← va_to_index base mem va;
  let n := Z.min 8 (zlen mem - idx) in
  src ← sub_slice mem idx (idx + n);
  copy_from_slice (zreplicate 8 0) 0 n src.

Definition read_u8 (base : Z) (mem : bytes) (va : Z) : outcome E Z :=
  i ← va_to_index base mem va; index mem i.

(** [n] bytes, little-endian: [read_u32] and [read_u64]. *)
Definition read_uN (n : nat) (base : Z) (mem : bytes) (va : Z) : outcome E Z :=
  i ← va_to_index base mem va;
  end_ ← ok_or (checked_add i (Z.of_nat n)) AddressOutOfRange;
  if zlen mem <? end_ then Err AddressOutOfRange else
  read_le mem i n.
Definition read_u32 : Z -> bytes -> Z -> outcome E Z := read_uN 4.
Definition read_u64 : Z -> bytes -> Z -> outcome E Z := read_uN 8.
Definition read_i32 (base : Z) (mem : bytes) (va : Z) : outcome E Z :=
  v ← read_u32 base mem va; Ok (sext 32 v).

Definition write_uN (n : nat) (base : Z) (mem : bytes) (va v : Z) : outcome E bytes :=
  i ← va_to_index base mem va;
  end_ ← ok_or (checked_add i (Z.of_nat n)) AddressOutOfRange;
  if zlen mem <? end_ then Err AddressOutOfRange else
  copy_from_slice mem i end_ (to_le n v).
Definition write_u32 : Z -> bytes -> Z -> Z -> outcome E bytes := write_uN 4.
Definition write_u64 : Z -> bytes -> Z -> Z -> outcome E bytes := write_uN 8.

(** ** The initial stack *)

Definition push_cstr (base : Z) (mem : bytes) (sp : Z) (s : bytes) : outcome E (Z * bytes) :=
  let len := zlen s + 1 in
  new_sp ← ok_or (checked_sub sp len) AddressOutOfRange;
  start ← va_to_index base mem new_sp;
  end_ ← ok_or (checked_add start len) AddressOutOfRange;
  if zlen mem <? end_ then Err AddressOutOfRange else
  mem ← copy_from_slice mem start (start + zlen s) s;
  mem ← copy_from_slice mem (start + zlen s) (start + zlen s + 1) [0];
  Ok (new_sp, mem).

(** The loop over [(0..argv.len()).rev()] and the reversal of its pointers:
    the last string is pushed first, the pointers come out in order. *)
Fixpoint push_strs (base : Z) (mem : bytes) (sp : Z) (ss : list bytes) : outcome E (list Z * Z * bytes) :=
  match ss with
  | [] => Ok ([], sp, mem)
  | s :: ss =>
    '(ptrs, sp, mem) ← push_strs base mem sp ss;
    '(sp, mem) ← push_cstr base mem sp s;
    Ok (sp :: ptrs, sp, mem)
  end.

(** [words.iter().enumerate()], [i] being the next index. *)
Fixpoint write_words (base : Z) (mem : bytes) (sp i : Z) (words : list Z) : outcome E bytes :=
  match words with
  | [] => Ok mem
  | v :: words =>
    va ← add64 sp (i * 8);
    mem ← write_u64 base mem va v;
    write_words base mem sp (i + 1) words
  end.

Definition stack_words (arg_ptrs env_ptrs : list Z) : list Z :=
  zlen arg_ptrs :: arg_ptrs ++ 0 :: env_ptrs ++ [0; AT_PAGESZ; 4096; AT_NULL; 0].

Definition build_initial_stack (base : Z) (mem : bytes) (stack_top : Z) (argv envp : list bytes)
    : outcome E (Z * bytes) :=
  let sp := Z.land stack_top (not64 0xf) in
  '(arg_ptrs, sp, mem) ← push_strs base mem sp argv;
  '(env_ptrs, sp, mem) ← push_strs base mem sp envp;
  let words := stack_words arg_ptrs env_ptrs in
  let sp := Z.land sp (not64 0xf) in
  sp ← ok_or (checked_sub sp (zlen words * 8)) AddressOutOfRange;
  mem ← write_words base mem sp 0 words;
  Ok (sp, mem).

(** ** Reading strings back ([execve]) *)

(** [for i in 0..4096]: [n] iterations remain. *)
Fixpoint user_cstr_loop (n : nat) (base : Z) (mem : bytes) (va i : Z) (acc : bytes)
    : outcome E (option bytes) :=
  match n with
  | O => Ok None
  | S n =>
    b ← read_u8 base mem (wrapping_add va i);
    if b =? 0 then Ok (from_utf8 acc) else user_cstr_loop n base mem va (i + 1) (acc ++ [b])
  end.
Definition read_user_cstr (base : Z) (mem : bytes) (va : Z) : outcome E (option bytes) :=
  if va =? 0 then Ok None else user_cstr_loop (Z.to_nat 4096) base mem va 0 [].

Fixpoint ptr_array_loop (n : nat) (base : Z) (mem : bytes) (va i : Z) : outcome E (list Z) :=
  match n with
  | O => Ok []
  | S n =>
    a ← add64 va (i * 8);
    p ← read_u64 base mem a;
    if p =? 0 then Ok [] else
    ps ← ptr_array_loop n base mem va (i + 1);
    Ok (p :: ps)
  end.
Definition read_user_ptr_array (base : Z) (mem : bytes) (va : Z) (max : nat) : outcome E (list Z) :=
  if va =? 0 then Ok [] else ptr_array_loop max base mem va 0.

Fixpoint read_user_strs (base : Z) (mem : bytes) (ptrs : list Z) : outcome E (list bytes) :=
  match ptrs with
  | [] => Ok []
  | p :: ptrs =>
    o ← read_user_cstr base mem p;
    s ← ok_or o AddressOutOfRange;
    ss ← read_user_strs base mem ptrs;
    Ok (s :: ss)
  end.
Definition read_user_str_array (base : Z) (mem : bytes) (va : Z) (max : nat) : outcome E (list bytes) :=
  ptrs ← read_user_ptr_array base mem va max;
  read_user_strs base mem ptrs.

(** ** Views of memory

    A view is a byte string at an address; [frame lo hi] says that memory
    changed between two addresses at most. *)
Definition at_va (base : Z) (mem : bytes) (va : Z) (bs : bytes) : Prop :=
  base <= va /\ va - base + zlen bs <= zlen mem /\
  zslice mem (va - base) (va - base + zlen bs) = bs.
Definition frame (base lo hi : Z) (mem mem' : bytes) : Prop :=
  zlen mem' = zlen mem /\
  forall c d, 0 <= c -> d <= lo - base \/ hi - base <= c -> zslice mem' c d = zslice mem c d.

Lemma frame_refl base lo hi mem : frame base lo hi mem mem.
Proof. by split. Qed.
Lemma frame_trans base lo hi m1 m2 m3 :
  frame base lo hi m1 m2 -> frame base lo hi m2 m3 -> frame base lo hi m1 m3.
Proof. intros [? H1] [? H2]. split; [congruence|]. intros. by rewrite H2, H1. Qed.
Lemma frame_weaken base lo hi lo' hi' m m' :
  frame base lo hi m m' -> lo' <= lo -> hi <= hi' -> frame base lo' hi' m m'.
Proof. intros [? H] ??. split; [done|]. intros. apply H; lia. Qed.
Lemma frame_at base lo hi m m' va bs :
  frame base lo hi m m' -> va + zlen bs <= lo \/ hi <= va -> at_va base m va bs -> at_va base m' va bs.
Proof.
  intros [Hl H] Hd (? & ? & Hs). split_and!; [done|lia|]. rewrite H by lia. done.
Qed.
Lemma frame_splice base va src m :
  base <= va -> va - base + zlen src <= zlen m ->
  frame base va (va + zlen src) m (splice m (va - base) src) /\
  at_va base (splice m (va - base) src) va src.
Proof.
  intros. repeat split; try lia.
  - zlens.
  - intros c d ? ?. apply zslice_splice_other; lia.
  - zlens.
  - apply zslice_splice_same; lia.
Qed.
Lemma at_va_app base m va s t :
  at_va base m va s -> at_va base m (va + zlen s) t -> at_va base m va (s ++ t).
Proof.
  intros (? & ? & Hs) (? & ? & Ht). unfold at_va. rewrite zlen_app.
  pose proof (zlen_nonneg s). pose proof (zlen_nonneg t). split_and!; [done|lia|].
  rewrite <-Hs at 2. rewrite <-Ht at 2. unfold zslice.
  replace (Z.to_nat (va - base + (zlen s + zlen t) - (va - base))) with (Z.to_nat (zlen s) + Z.to_nat (zlen t))%nat by lia.
  rewrite <-take_take_drop. rewrite drop_drop. do 2 f_equal; try f_equal; lia.
Qed.

(** ** Each access, exactly *)

Lemma va_to_index_Ok base mem va i :
  va_to_index base mem va = Ok i <-> base <= va /\ i = va - base /\ va - base < zlen mem.
Proof. unfold va_to_index. repeat case_match; split; intros; destruct_and?; simplify_eq; try done; lia. Qed.
Lemma va_to_index_no_panic base mem va : va_to_index base mem va <> Panic.
Proof. unfold va_to_index. by repeat case_match. Qed.

(** A width-[n] access succeeds exactly inside memory, and never panics. *)
Lemma write_uN_Ok n base mem va v m' :
  write_uN n base mem va v = Ok m' ->
  base <= va /\ va - base + Z.of_nat n <= zlen mem /\ m' = splice mem (va - base) (to_le n v).
Proof.
  unfold write_uN. intros (i & (? & -> & ?)%va_to_index_Ok & (e & [-> ?]%ok_or_Ok%checked_add_Some & Hm')%bind_Ok)%bind_Ok.
  branch as Hb in Hm'; [done|]. apply copy_from_slice_Ok in Hm' as (? & ? & _ & ->). split_and!; [done|lia|done].
Qed.
Lemma write_uN_in n base mem va v :
  (0 < n)%nat -> base <= va -> va - base + Z.of_nat n <= zlen mem -> zlen mem <= u64_max ->
  write_uN n base mem va v = Ok (splice mem (va - base) (to_le n v)).
Proof.
  intros. unfold write_uN. rewrite (proj2 (va_to_index_Ok _ _ _ (va - base))) by lia. cbn [mbind outcome_bind].
  rewrite (proj2 (checked_add_Some _ _ _)) by (split; [reflexivity|lia]). cbn [mbind outcome_bind ok_or].
  branch as Hb; [lia|]. apply copy_from_slice_in; [lia| |lia]. rewrite zlen_to_le. lia.
Qed.
Lemma write_uN_no_panic n base mem va v : write_uN n base mem va v <> Panic.
Proof.
  unfold write_uN. intros [H1|(i & (? & -> & ?)%va_to_index_Ok & [H2|(e & [-> ?]%ok_or_Ok%checked_add_Some & Hm')]%bind_Panic)]%bind_Panic.
  - by apply va_to_index_no_panic in H1.
  - by apply ok_or_no_panic in H2.
  - revert Hm'. branch as Hb; [done|]. rewrite copy_from_slice_in; [done|lia|rewrite zlen_to_le; lia|lia].
Qed.
Lemma read_uN_at n base mem va bs :
  (0 < n)%nat -> at_va base mem va bs -> length bs = n -> zlen mem <= u64_max ->
  read_uN n base mem va = Ok (from_le bs).
Proof.
  intros Hn (? & ? & Hs) Hl ?. assert (zlen bs = Z.of_nat n) as El by (unfold zlen; lia). rewrite El in *.
  unfold read_uN. rewrite (proj2 (va_to_index_Ok _ _ _ (va - base))) by lia. cbn [mbind outcome_bind].
  rewrite (proj2 (checked_add_Some _ _ _)) by (split; [reflexivity|lia]). cbn [mbind outcome_bind ok_or].
  branch as Hb; [lia|]. rewrite read_le_in by lia. by rewrite Hs.
Qed.
Lemma read_uN_range n base mem va v :
  bytes_ok mem -> read_uN n base mem va = Ok v -> 0 <= v < 256 ^ Z.of_nat n.
Proof.
  intros Hm. unfold read_uN. intros (i & (? & -> & ?)%va_to_index_Ok & (e & [-> ?]%ok_or_Ok%checked_add_Some & Hm')%bind_Ok)%bind_Ok.
  branch as Hb in Hm'; [done|]. rewrite read_le_in in Hm' by lia. injection Hm' as <-. by apply zslice_le_bound.
Qed.
Lemma read_uN_no_panic n base mem va : read_uN n base mem va <> Panic.
Proof.
  unfold read_uN. intros [H1|(i & (? & -> & ?)%va_to_index_Ok & [H2|(e & [-> ?]%ok_or_Ok%checked_add_Some & Hm')]%bind_Panic)]%bind_Panic.
  - by apply va_to_index_no_panic in H1.
  - by apply ok_or_no_panic in H2.
  - revert Hm'. branch as Hb; [done|]. by rewrite read_le_in by lia.
Qed.
Lemma read_u8_at base mem va b : at_va base mem va [b] -> read_u8 base mem va = Ok b.
Proof.
  intros (? & Hl & Hs). change (zlen [b]) with 1 in *. unfold read_u8.
  rewrite (proj2 (va_to_index_Ok _ _ _ (va - base))) by lia. cbn [mbind outcome_bind].
  unfold index. rewrite (proj2 (Z.leb_le _ _)) by lia.
  pose proof (zslice_lookup mem (va - base) (va - base + 1) 0) as H1. rewrite Hs in H1.
  rewrite Nat.add_0_r in H1. by rewrite <-H1 by lia.
Qed.
Lemma read_u8_no_panic base mem va : read_u8 base mem va <> Panic.
Proof.
  unfold read_u8. intros [Hm'|(i & (? & -> & ?)%va_to_index_Ok & Hm')]%bind_Panic; [by apply va_to_index_no_panic in Hm'|].
  revert Hm'. unfold index. rewrite (proj2 (Z.leb_le _ _)) by lia.
  destruct (lookup_lt_is_Some_2 mem (Z.to_nat (va - base))) as [b ->]; [unfold zlen in *; lia|done].
Qed.

(** ** The initial stack, piece by piece *)

Lemma push_cstr_Ok base mem sp s sp' m' :
  push_cstr base mem sp s = Ok (sp', m') ->
  sp' = sp - (zlen s + 1) /\ base <= sp' /\ sp - base <= zlen mem /\
  frame base sp' sp mem m' /\ at_va base m' sp' (s ++ [0]).
Proof.
  unfold push_cstr. intros (n & [-> ?]%ok_or_Ok%checked_sub_Some & (i & (? & -> & ?)%va_to_index_Ok
    & (e & [-> ?]%ok_or_Ok%checked_add_Some & Hm')%bind_Ok)%bind_Ok)%bind_Ok.
  branch as Hb in Hm'; [done|]. apply bind_Ok in Hm' as (m1 & (? & ? & _ & ->)%copy_from_slice_Ok & Hm').
  apply bind_Ok in Hm' as (m2 & (? & ? & _ & ->)%copy_from_slice_Ok & [= <- <-]).
  pose proof (zlen_nonneg s). set (p := sp - (zlen s + 1)) in *.
  destruct (frame_splice base p s mem) as [Hf1 Ha1]; [lia..|].
  destruct (frame_splice base (p + zlen s) [0] (splice mem (p - base) s)) as [Hf2 Ha2]; [lia|zlens|].
  change (zlen [0]) with 1 in *. replace (p + zlen s - base) with (p - base + zlen s) in * by lia.
  split_and!; [done|lia|lia| |].
  - eapply frame_trans; eapply frame_weaken; eauto; lia.
  - apply at_va_app; [|done]. eapply frame_at; eauto. lia.
Qed.

(** The pointers stay in the part of the stack above the final pointer. *)
Definition cstrs_at (base : Z) (m : bytes) (lo hi : Z) (ptrs : list Z) (ss : list bytes) : Prop :=
  Forall2 (fun p s => lo <= p /\ p + zlen s + 1 <= hi /\ at_va base m p (s ++ [0])) ptrs ss.
Lemma cstrs_at_frame base m m' lo hi lo' hi' l h ptrs ss :
  cstrs_at base m lo hi ptrs ss -> frame base l h m m' -> hi <= l \/ h <= lo ->
  lo' <= lo -> hi <= hi' -> cstrs_at base m' lo' hi' ptrs ss.
Proof.
  intros Hc Hf Hd ? ?. revert Hc. apply Forall2_impl. intros p s (? & ? & Ha).
  split_and!; [lia|lia|]. eapply frame_at; [exact Hf| |done].
  rewrite zlen_app. change (zlen [0]) with 1. pose proof (zlen_nonneg s). lia.
Qed.
Lemma cstrs_zlen base m lo hi ptrs ss : cstrs_at base m lo hi ptrs ss -> zlen ptrs = zlen ss.
Proof. intros H. apply Forall2_length in H. unfold zlen. lia. Qed.
Lemma push_strs_Ok base mem sp ss ptrs sp' m' :
  push_strs base mem sp ss = Ok (ptrs, sp', m') -> base <= sp -> sp - base <= zlen mem ->
  base <= sp' <= sp /\ frame base sp' sp mem m' /\ cstrs_at base m' sp' sp ptrs ss.
Proof.
  revert ptrs sp' m'. induction ss as [|s ss IH]; intros ptrs sp' m'; cbn [push_strs].
  - intros [= <- <- <-] ??. split_and!; [lia|lia|apply frame_refl|constructor].
  - intros ([[ps sp1] m1] & H1 & ([sp2 m2] & H2 & [= <- <- <-])%bind_Ok)%bind_Ok Hb Hl.
    destruct (IH _ _ _ H1 Hb Hl) as (Hs1 & Hf1 & Hc1).
    apply push_cstr_Ok in H2 as (-> & ? & _ & Hf2 & Ha2). pose proof (zlen_nonneg s).
    split_and!; [lia|lia| |].
    + eapply frame_trans; eapply frame_weaken; eauto; lia.
    + constructor; [split_and!; [lia|lia|done]|]. eapply cstrs_at_frame; eauto; lia.
Qed.

(** Word [v] at [va]. *)
Definition word_at (base : Z) (m : bytes) (va v : Z) : Prop := at_va base m va (to_le 8 v).
Lemma read_u64_word base m va v :
  word_at base m va v -> is_u64 v -> zlen m <= u64_max -> read_u64 base m va = Ok v.
Proof.
  intros Hw Hv Hm. unfold read_u64. rewrite (read_uN_at 8 _ _ _ _ ltac:(lia) Hw (to_le_length _ _) Hm).
  rewrite from_le_to_le. f_equal. change (256 ^ Z.of_nat 8) with (2 ^ 64). apply Z.mod_small. ilia.
Qed.
Definition words_at (base : Z) (m : bytes) (va : Z) (ws : list Z) : Prop :=
  forall i v, ws !! i = Some v -> word_at base m (va + 8 * Z.of_nat i) v.
Lemma write_words_Ok base mem sp i ws m' :
  write_words base mem sp i ws = Ok m' ->
  frame base (sp + 8 * i) (sp + 8 * (i + zlen ws)) mem m' /\ words_at base m' (sp + 8 * i) ws.
Proof.
  revert mem i. induction ws as [|v ws IH]; intros mem i; cbn [write_words].
  - intros [= <-]. split; [apply frame_refl|]. intros [] ? [=].
  - intros (va & [-> _]%add64_Ok & (m1 & (? & ? & ->)%write_uN_Ok & Hw)%bind_Ok)%bind_Ok.
    apply IH in Hw as [Hf Hw]. rewrite zlen_cons. pose proof (zlen_nonneg ws).
    destruct (frame_splice base (sp + i * 8) (to_le 8 v) mem) as [Hf1 Ha1]; [lia|rewrite zlen_to_le; lia|].
    rewrite zlen_to_le in Hf1. split.
    + eapply frame_trans; eapply frame_weaken; eauto; lia.
    + intros [|j] u Hj; cbn in Hj.
      * injection Hj as <-. replace (sp + 8 * i + _) with (sp + i * 8) by lia.
        eapply frame_at; [exact Hf|left; rewrite zlen_to_le; lia|done].
      * replace (sp + 8 * i + _) with (sp + 8 * (i + 1) + 8 * Z.of_nat j) by lia. by apply Hw.
Qed.

Lemma stack_align x : 0 <= x <= u64_max -> Z.land x (not64 0xf) = 16 * (x / 16).
Proof.
  intros. change 0xf with (2 ^ 4 - 1). rewrite land_not64_ones by ilia.
  change (2 ^ 4) with 16. pose proof (Z.div_mod x 16). lia.
Qed.

Lemma align_range x : x - 15 <= 16 * (x / 16) <= x.
Proof. pose proof (Z.div_mod x 16). pose proof (Z.mod_pos_bound x 16). lia. Qed.

(** What a successful [build_initial_stack] leaves in memory. *)
Lemma build_initial_stack_Ok base mem top argv envp sp m' :
  0 <= base -> base + 16 <= top <= u64_max -> top - base <= zlen mem ->
  build_initial_stack base mem top argv envp = Ok (sp, m') ->
  exists arg_ptrs env_ptrs, let words := stack_words arg_ptrs env_ptrs in
    base <= sp /\ sp + 8 * zlen words <= top /\
    (exists q, sp = 16 * q - 8 * (zlen argv + zlen envp + 7)) /\
    frame base sp top mem m' /\ words_at base m' sp words /\
    cstrs_at base m' (sp + 8 * zlen words) top arg_ptrs argv /\
    cstrs_at base m' (sp + 8 * zlen words) top env_ptrs envp.
Proof.
  intros Hb Ht Hl. unfold build_initial_stack. rewrite (stack_align top) by lia.
  set (sp0 := 16 * (top / 16)). assert (top - 15 <= sp0 <= top) as Hsp0 by (pose proof (align_range top); lia).
  intros ([[aps sp1] m1] & H1 & ([[eps sp2] m2] & H2 & H3)%bind_Ok)%bind_Ok. cbv zeta in H3.
  destruct (push_strs_Ok _ _ _ _ _ _ _ H1) as (Hs1 & Hf1 & Hc1); [lia..|].
  destruct (push_strs_Ok _ _ _ _ _ _ _ H2) as (Hs2 & Hf2 & Hc2); [destruct Hf1; lia..|].
  assert (base <= sp1 /\ sp1 - base <= zlen m1) as [] by (destruct Hf1; lia).
  rewrite stack_align in H3 by lia.
  apply bind_Ok in H3 as (sp3 & [-> Hge]%ok_or_Ok%checked_sub_Some & (m3 & H4 & [= <- <-])%bind_Ok).
  exists aps, eps. set (ws := stack_words aps eps) in *. cbv zeta.
  destruct (write_words_Ok _ _ _ _ _ _ H4) as [Hf3 Hw]. rewrite Z.add_0_r in *.
  pose proof (align_range sp2) as Ha. assert (zlen ws = zlen argv + zlen envp + 7) as Hn.
  { unfold ws, stack_words. rewrite !zlen_cons, zlen_app, zlen_cons, zlen_app.
    change (zlen [_; _; _; _; _]) with 5. apply cstrs_zlen in Hc1, Hc2. lia. }
  assert (base <= 16 * (sp2 / 16) - zlen ws * 8) as Hlo.
  { destruct (Hw 0%nat (zlen aps) eq_refl) as [? _]. lia. }
  pose proof (zlen_nonneg ws). split_and!; try lia; try done.
  - exists (sp2 / 16). lia.
  - eapply frame_trans; [|eapply frame_trans]; eapply frame_weaken; eauto; lia.
  - apply (cstrs_at_frame _ _ _ _ _ sp1 sp0 _ _ _ _ Hc1) in Hf2; [|lia..].
    eapply cstrs_at_frame; [exact Hf2|exact Hf3|..]; lia.
  - eapply cstrs_at_frame; [exact Hc2|exact Hf3|..]; lia.
Qed.

(** The stack is made of bytes when the strings are. *)
Lemma push_strs_bytes base mem sp ss ptrs sp' m' :
  Forall bytes_ok ss -> bytes_ok mem -> push_strs base mem sp ss = Ok (ptrs, sp', m') -> bytes_ok m'.
Proof.
  intros Hs. revert ptrs sp' m'. induction Hs as [|s ss Hb Hs IH]; intros ptrs sp' m' Hm; cbn [push_strs].
  - by intros [= _ _ <-].
  - intros ([[ps sp1] m1] & H1%IH & ([sp2 m2] & H2 & [= _ _ <-])%bind_Ok)%bind_Ok; [|done].
    unfold push_cstr in H2. apply bind_Ok in H2 as (nsp & _ & H2). apply bind_Ok in H2 as (st & _ & H2).
    apply bind_Ok in H2 as (e & _ & H2). branch as Hbr in H2; [done|].
    apply bind_Ok in H2 as (m3 & (_ & _ & _ & ->)%copy_from_slice_Ok & H2).
    apply bind_Ok in H2 as (m4 & (_ & _ & _ & ->)%copy_from_slice_Ok & [= _ <-]).
    apply bytes_ok_splice; [by apply bytes_ok_splice|]. constructor; [ilia|done].
Qed.
Lemma write_words_bytes base mem sp i ws m' :
  bytes_ok mem -> write_words base mem sp i ws = Ok m' -> bytes_ok m'.
Proof.
  revert mem i. induction ws as [|v ws IH]; intros mem i Hm; cbn [write_words].
  - by intros [= <-].
  - intros (va & _ & (m1 & (_ & _ & ->)%write_uN_Ok & Hw)%bind_Ok)%bind_Ok.
    eapply IH; [|exact Hw]. apply bytes_ok_splice; [done|apply to_le_ok].
Qed.
Lemma build_initial_stack_bytes base mem top argv envp sp m' :
  Forall bytes_ok argv -> Forall bytes_ok envp -> bytes_ok mem ->
  build_initial_stack base mem top argv envp = Ok (sp, m') -> bytes_ok m'.
Proof.
  intros Ha He Hm ([[aps sp1] m1] & H1%push_strs_bytes & H2)%bind_Ok; [|done..].
  apply bind_Ok in H2 as ([[eps sp2] m2] & H2%push_strs_bytes & H3); [|done..].
  apply bind_Ok in H3 as (sp3 & _ & (m3 & H4%write_words_bytes & [= _ <-])%bind_Ok); done.
Qed.

(** ** Reading back *)

Lemma at_va_cons base m va b bs :
  at_va base m va (b :: bs) -> at_va base m va [b] /\ at_va base m (va + 1) bs.
Proof.
  intros (? & ? & Hs). rewrite zlen_cons in *. pose proof (zlen_nonneg bs).
  assert (forall c d, 0 <= c -> d <= zlen (b :: bs) ->
    zslice m (va - base + c) (va - base + d) = zslice (b :: bs) c d) as Hz.
  { rewrite zlen_cons. intros c d Hc Hd. rewrite <-Hs. apply list_eq. intros i.
    destruct (decide (Z.of_nat i < d - c)).
    - rewrite !zslice_lookup by lia. f_equal. lia.
    - by rewrite !zslice_lookup_ge by lia. }
  unfold at_va. change (zlen [b]) with 1. rewrite zlen_cons in Hz. split_and!; try lia.
  - specialize (Hz 0 1). rewrite Z.add_0_r in Hz. rewrite Hz by lia. done.
  - replace (va + 1 - base) with (va - base + 1) by lia.
    replace (va - base + 1 + zlen bs) with (va - base + (1 + zlen bs)) by lia.
    rewrite Hz by lia. unfold zslice, zlen. change (Z.to_nat 1) with 1%nat. cbn [drop]. rewrite ?drop_0, take_ge; [done|lia].
Qed.
Lemma at_va_skip base m va pre bs : at_va base m va (pre ++ bs) -> at_va base m (va + zlen pre) bs.
Proof.
  revert va. induction pre as [|x pre IH]; intros va H; [by rewrite Z.add_0_r|].
  apply at_va_cons in H as [_ H]. apply IH in H. rewrite zlen_cons, Z.add_assoc. done.
Qed.
Lemma at_va_prefix base m va bs post : at_va base m va (bs ++ post) -> at_va base m va bs.
Proof.
  revert va. induction bs as [|x bs IH]; intros va H.
  - destruct H as (? & ? & _). rewrite zlen_app in *. pose proof (zlen_nonneg post).
    change (zlen (@nil Z)) with 0 in *. split_and!; [done|change (zlen (@nil Z)) with 0; lia|].
    unfold zslice. change (zlen (@nil Z)) with 0. by replace (Z.to_nat _) with 0%nat by lia.
  - cbn [app] in H. apply at_va_cons in H as [H1 H2]. apply (at_va_app _ _ _ [x]); [done|]. by apply IH.
Qed.
Lemma user_cstr_loop_at n base m va i acc rest :
  at_va base m (va + i) (rest ++ [0]) -> Forall (fun b => b <> 0) rest ->
  (length rest < n)%nat -> 0 <= va -> 0 <= i -> va + i + zlen rest <= u64_max ->
  user_cstr_loop n base m va i acc = Ok (from_utf8 (acc ++ rest)).
Proof.
  revert i acc rest. induction n as [|n IH]; intros i acc rest Ha Hnz Hlen Hva Hi Hr; [lia|].
  cbn [user_cstr_loop]. pose proof (zlen_nonneg rest). unfold wrapping_add. rewrite Z.mod_small by ilia.
  destruct rest as [|b rest]; cbn [app] in Ha; apply at_va_cons in Ha as [Ha Ha'].
  - rewrite (read_u8_at _ _ _ _ Ha). cbn. by rewrite app_nil_r.
  - apply Forall_cons_iff in Hnz as [Hb Hnz]. rewrite (read_u8_at _ _ _ _ Ha).
    cbn [mbind outcome_bind]. branch as Hb0; [lia|]. rewrite zlen_cons in Hr. cbn in Hlen.
    rewrite (IH (i + 1) (acc ++ [b]) rest); [by rewrite <-app_assoc|..]; try done; try lia.
    by rewrite Z.add_assoc.
Qed.
(** A string the kernel can pass to a program and read back. *)
Definition arg_ok (s : bytes) : Prop := is_str s /\ Forall (fun b => b <> 0) s /\ zlen s < 4096.
#[export] Instance arg_ok_dec s : Decision (arg_ok s).
Proof. unfold arg_ok, is_str. apply _. Defined.
Lemma read_user_cstr_at base m va s :
  at_va base m va (s ++ [0]) -> arg_ok s -> 0 < va -> va + zlen s <= u64_max ->
  read_user_cstr base m va = Ok (Some s).
Proof.
  intros Ha (Hs & Hnz & Hlen) Hva Hr. unfold read_user_cstr. branch as Hb; [lia|].
  rewrite (user_cstr_loop_at _ _ _ _ _ _ s); cbn [app]; try done; try lia.
  - by rewrite Hs.
  - by rewrite Z.add_0_r.
  - unfold zlen in Hlen. lia.
Qed.
Lemma read_user_strs_at base m lo hi ptrs ss :
  cstrs_at base m lo hi ptrs ss -> Forall arg_ok ss -> 0 < lo -> hi <= u64_max ->
  read_user_strs base m ptrs = Ok ss.
Proof.
  intros Hc Hok Hlo Hhi. induction Hc as [|p s ptrs ss (? & ? & Ha) _ IH]; [done|].
  apply Forall_cons_iff in Hok as [Hs Hss]. cbn [read_user_strs].
  rewrite (read_user_cstr_at _ _ _ _ Ha Hs) by lia. cbn. by rewrite IH.
Qed.
Lemma ptr_array_loop_at n base m va i ptrs :
  words_at base m (va + 8 * i) (ptrs ++ [0]) -> Forall (fun p => 0 < p < 2 ^ 64) ptrs ->
  (length ptrs <= n)%nat -> 0 <= i -> va + 8 * (i + zlen ptrs) <= u64_max -> zlen m <= u64_max ->
  ptr_array_loop n base m va i = Ok ptrs.
Proof.
  revert i ptrs. induction n as [|n IH]; intros i ptrs Hw Hp Hlen Hi Hr Hm.
  { by destruct ptrs; cbn in Hlen; [|lia]. }
  cbn [ptr_array_loop]. pose proof (zlen_nonneg ptrs). rewrite add64_small by lia. cbn [mbind outcome_bind].
  replace (va + i * 8) with (va + 8 * i) by lia.
  destruct ptrs as [|p ptrs].
  - pose proof (Hw 0%nat 0 eq_refl) as H0. rewrite Z.add_0_r in H0.
    rewrite (read_u64_word _ _ _ _ H0) by ilia. done.
  - pose proof (Hw 0%nat p eq_refl) as H0. rewrite Z.add_0_r in H0.
    apply Forall_cons_iff in Hp as [Hp0 Hp]. rewrite (read_u64_word _ _ _ _ H0) by ilia.
    cbn [mbind outcome_bind]. branch as Hb; [lia|]. rewrite zlen_cons in Hr. cbn in Hlen.
    rewrite (IH (i + 1) ptrs); try done; try lia.
    intros j v Hj. replace (va + 8 * (i + 1) + _) with (va + 8 * i + 8 * Z.of_nat (S j)) by lia.
    by apply Hw.
Qed.

Lemma words_at_slice base m va ws pre mid post :
  words_at base m va ws -> ws = pre ++ mid ++ post -> words_at base m (va + 8 * zlen pre) mid.
Proof.
  intros Hw -> i v Hi. replace (va + 8 * zlen pre + 8 * Z.of_nat i) with
    (va + 8 * Z.of_nat (length pre + i)) by (unfold zlen; lia).
  apply Hw. rewrite lookup_app_r, Nat.add_comm, Nat.add_sub by lia. by apply lookup_app_l_Some.
Qed.
Lemma read_user_str_array_at base m va lo hi ptrs ss :
  words_at base m va (ptrs ++ [0]) -> cstrs_at base m lo hi ptrs ss -> Forall arg_ok ss ->
  zlen ss <= 64 -> 0 < va -> 0 < lo -> hi <= u64_max -> va + 8 * zlen ptrs <= u64_max ->
  zlen m <= u64_max -> read_user_str_array base m va 64 = Ok ss.
Proof.
  intros Hw Hc Hok Hn Hva Hlo Hhi Hr Hm. unfold read_user_str_array, read_user_ptr_array.
  branch as Hb; [lia|]. pose proof (cstrs_zlen _ _ _ _ _ _ Hc) as Hlen.
  rewrite (ptr_array_loop_at _ _ _ _ _ ptrs); [|by rewrite Z.add_0_r| |unfold zlen in *; lia|lia|lia|done].
  - cbn [mbind outcome_bind]. by eapply read_user_strs_at.
  - apply Forall_lookup. intros i p Hp. destruct (Forall2_lookup_l _ _ _ _ _ Hc Hp) as (s & _ & ? & ? & _).
    pose proof (zlen_nonneg s). ilia.
Qed.

(** ** When the stack fits *)

Fixpoint need (ss : list bytes) : Z := match ss with [] => 0 | s :: ss => zlen s + 1 + need ss end.
Lemma need_nonneg ss : 0 <= need ss.
Proof. induction ss as [|s ss IH]; cbn; [lia|]. pose proof (zlen_nonneg s). lia. Qed.
Lemma push_cstr_fits base mem sp s :
  0 <= base -> zlen mem <= u64_max -> base + zlen s + 1 <= sp -> sp - base <= zlen mem ->
  exists m', push_cstr base mem sp s = Ok (sp - (zlen s + 1), m').
Proof.
  intros. unfold push_cstr. pose proof (zlen_nonneg s).
  rewrite (proj2 (checked_sub_Some sp _ _)) by (split; [reflexivity|lia]). cbn [mbind outcome_bind ok_or].
  rewrite (proj2 (va_to_index_Ok _ _ _ (sp - (zlen s + 1) - base))) by lia. cbn [mbind outcome_bind].
  rewrite (proj2 (checked_add_Some _ _ _)) by (split; [reflexivity|lia]). cbn [mbind outcome_bind ok_or].
  branch as Hb; [lia|]. rewrite copy_from_slice_in by lia. cbn [mbind outcome_bind].
  rewrite copy_from_slice_in; [cbn; eauto|lia|done|zlens].
Qed.
Lemma push_strs_fits base mem sp ss :
  0 <= base -> zlen mem <= u64_max -> base + need ss <= sp -> sp - base <= zlen mem ->
  exists ptrs m', push_strs base mem sp ss = Ok (ptrs, sp - need ss, m').
Proof.
  intros Hb Hm Hn Hl. induction ss as [|s ss IH]; cbn [push_strs need] in *.
  - rewrite Z.sub_0_r. eauto.
  - pose proof (zlen_nonneg s). destruct IH as (ps & m1 & H1); [lia|]. rewrite H1. cbn [mbind outcome_bind].
    pose proof (need_nonneg ss). destruct (push_strs_Ok _ _ _ _ _ _ _ H1) as (_ & [Hlen _] & _); [lia..|].
    destruct (push_cstr_fits base m1 (sp - need ss) s) as [m2 ->]; [lia..|]. cbn.
    replace (sp - need ss - (zlen s + 1)) with (sp - (zlen s + 1 + need ss)) by lia. eauto.
Qed.
Lemma write_words_fits base mem sp i ws :
  zlen mem <= u64_max -> base <= sp -> 0 <= i -> sp + 8 * (i + zlen ws) - base <= zlen mem ->
  sp + 8 * (i + zlen ws) <= u64_max -> exists m', write_words base mem sp i ws = Ok m'.
Proof.
  revert mem i. induction ws as [|v ws IH]; intros mem i Hm Hb Hi Hl Hr; cbn [write_words]; [eauto|].
  rewrite zlen_cons in *. pose proof (zlen_nonneg ws). rewrite add64_small by lia. cbn [mbind outcome_bind].
  unfold write_u64. rewrite write_uN_in by lia. cbn [mbind outcome_bind].
  apply IH; try lia; rewrite zlen_splice by (rewrite ?zlen_to_le; lia); lia.
Qed.
Lemma build_initial_stack_fits base mem top argv envp :
  0 <= base -> top <= u64_max -> top - base <= zlen mem <= u64_max ->
  base + need argv + need envp + 8 * (zlen argv + zlen envp + 7) + 30 <= top ->
  exists sp m', build_initial_stack base mem top argv envp = Ok (sp, m') /\
    top - (need argv + need envp + 8 * (zlen argv + zlen envp + 7) + 30) <= sp.
Proof.
  intros Hb Ht Hl Hn. pose proof (need_nonneg argv). pose proof (need_nonneg envp).
  pose proof (zlen_nonneg argv). pose proof (zlen_nonneg envp).
  unfold build_initial_stack. rewrite (stack_align top) by lia. pose proof (align_range top).
  destruct (push_strs_fits base mem (16 * (top / 16)) argv) as (aps & m1 & Hp1); [lia..|].
  rewrite Hp1. cbn [mbind outcome_bind].
  destruct (push_strs_Ok _ _ _ _ _ _ _ Hp1) as (_ & [Hl1 _] & Hc1%cstrs_zlen); [lia..|].
  destruct (push_strs_fits base m1 (16 * (top / 16) - need argv) envp) as (eps & m2 & Hp2); [lia..|].
  rewrite Hp2. cbn [mbind outcome_bind].
  destruct (push_strs_Ok _ _ _ _ _ _ _ Hp2) as (_ & [Hl2 _] & Hc2%cstrs_zlen); [lia..|].
  set (sp2 := _ - need envp) in *. rewrite stack_align by lia. pose proof (align_range sp2).
  assert (zlen (stack_words aps eps) = zlen argv + zlen envp + 7) as Hn'.
  { unfold stack_words. rewrite !zlen_cons, zlen_app, zlen_cons, zlen_app.
    change (zlen [_; _; _; _; _]) with 5. lia. }
  rewrite (proj2 (checked_sub_Some (16 * (sp2 / 16)) _ _)) by (split; [reflexivity|lia]). cbn [mbind outcome_bind ok_or].
  destruct (write_words_fits base m2 (16 * (sp2 / 16) - zlen (stack_words aps eps) * 8) 0
    (stack_words aps eps)) as [m3 ->]; [lia..|]. eexists _, m3. split; [reflexivity|]. lia.
Qed.

(** ** The theorem *)

(** C10: a program reads back the arguments it was started with.  When the
    strings, the pointers and the auxiliary vector fit between [base] and
    [top], the initial stack is built; the stack pointer then points at the
    argument count, the argument and environment arrays read back (with the
    code [execve] itself uses) to exactly [argv] and [envp], and the auxiliary
    vector holds the page size.  Memory outside [sp, top) is unchanged, and
    the stack pointer is a multiple of 16 exactly when the number of
    arguments and environment strings is odd. *)
Theorem initial_stack_round_trip base mem top argv envp :
  0 <= base -> top <= u64_max -> top - base <= zlen mem <= u64_max ->
  Forall arg_ok argv -> Forall arg_ok envp -> zlen argv <= 64 -> zlen envp <= 64 ->
  base + need argv + need envp + 8 * (zlen argv + zlen envp + 7) + 30 <= top ->
  exists sp mem', build_initial_stack base mem top argv envp = Ok (sp, mem') /\
    read_u64 base mem' sp = Ok (zlen argv) /\
    read_user_str_array base mem' (sp + 8) 64 = Ok argv /\
    read_user_str_array base mem' (sp + 8 * (zlen argv + 2)) 64 = Ok envp /\
    read_u64 base mem' (sp + 8 * (zlen argv + zlen envp + 3)) = Ok AT_PAGESZ /\
    read_u64 base mem' (sp + 8 * (zlen argv + zlen envp + 4)) = Ok 4096 /\
    read_u64 base mem' (sp + 8 * (zlen argv + zlen envp + 5)) = Ok AT_NULL /\
    frame base sp top mem mem' /\
    (sp mod 16 = 0 <-> (zlen argv + zlen envp) mod 2 = 1).
Proof.
  intros Hb Ht Hl Ha He Hna Hne Hn. pose proof (need_nonneg argv). pose proof (need_nonneg envp).
  pose proof (zlen_nonneg argv). pose proof (zlen_nonneg envp).
  destruct (build_initial_stack_fits base mem top argv envp) as (sp & m' & Hok & _); [lia..|].
  exists sp, m'. split; [done|].
  destruct (build_initial_stack_Ok base mem top argv envp sp m' Hb ltac:(lia) ltac:(lia) Hok)
    as (aps & eps & Hsp & Htop & [q Hq] & Hf & Hw & Hca & Hce).
  pose proof (cstrs_zlen _ _ _ _ _ _ Hca) as Hla. pose proof (cstrs_zlen _ _ _ _ _ _ Hce) as Hle.
  pose proof (proj1 Hf) as Hzm.
  assert (zlen (stack_words aps eps) = zlen argv + zlen envp + 7) as Hws.
  { unfold stack_words. rewrite !zlen_cons, zlen_app, zlen_cons, zlen_app.
    change (zlen [_; _; _; _; _]) with 5. lia. }
  assert (forall pre v post, stack_words aps eps = pre ++ v :: post -> is_u64 v ->
    read_u64 base m' (sp + 8 * zlen pre) = Ok v) as Hword.
  { intros pre v post Hpre Hv. apply read_u64_word; [|done|lia].
    pose proof (words_at_slice _ _ _ _ pre [v] post Hw Hpre 0%nat v eq_refl) as Hv'. by rewrite Z.add_0_r in Hv'. }
  split_and!.
  - specialize (Hword [] (zlen aps) _ eq_refl). rewrite Z.add_0_r, Hla in Hword. apply Hword. ilia.
  - eapply read_user_str_array_at; [|exact Hca|done|lia..].
    eapply (words_at_slice _ _ _ _ [zlen aps] (aps ++ [0])); [exact Hw|].
    unfold stack_words. by rewrite <-app_assoc.
  - eapply read_user_str_array_at; [|exact Hce|done|lia..].
    replace (zlen argv + 2) with (zlen (zlen aps :: aps ++ [0])) by zlens.
    eapply (words_at_slice _ _ _ _ _ (eps ++ [0])); [exact Hw|].
    unfold stack_words. cbn. by rewrite <-!app_assoc.
  - replace (zlen argv + zlen envp + 3) with (zlen (zlen aps :: aps ++ 0 :: eps ++ [0])) by zlens.
    eapply Hword; [|unfold AT_PAGESZ; ilia]. unfold stack_words. cbn. rewrite <-app_assoc. cbn. by rewrite <-app_assoc.
  - replace (zlen argv + zlen envp + 4) with (zlen (zlen aps :: aps ++ 0 :: eps ++ [0; AT_PAGESZ])) by zlens.
    eapply Hword; [|ilia]. unfold stack_words. cbn. rewrite <-app_assoc. cbn. by rewrite <-app_assoc.
  - replace (zlen argv + zlen envp + 5) with (zlen (zlen aps :: aps ++ 0 :: eps ++ [0; AT_PAGESZ; 4096])) by zlens.
    eapply Hword; [|unfold AT_NULL; ilia]. unfold stack_words. cbn. rewrite <-app_assoc. cbn. by rewrite <-app_assoc.
  - done.
  - rewrite Hq. replace (16 * q - 8 * (zlen argv + zlen envp + 7)) with (8 * (2 * q - (zlen argv + zlen envp + 7))) by lia.
    change 16 with (8 * 2). rewrite Z.mul_mod_distr_l by lia. set (n := zlen argv + zlen envp).
    pose proof (Z.div_mod (2 * q - (n + 7)) 2). pose proof (Z.mod_pos_bound (2 * q - (n + 7)) 2).
    pose proof (Z.div_mod n 2). pose proof (Z.mod_pos_bound n 2). lia.
Qed.

End UserMem.

Lemma initial_stack_round_trip_witness :
  exists sp mem', build_initial_stack tt 0x1000 (zreplicate 512 0) 0x11F0 [str "sh"; str "-c"] [str "A=1"]
      = Ok (sp, mem') /\
    read_user_str_array tt 0x1000 mem' (sp + 8) 64 = Ok [str "sh"; str "-c"] /\
    read_user_str_array tt 0x1000 mem' (sp + 32) 64 = Ok [str "A=1"].
Proof.
  destruct (initial_stack_round_trip tt 0x1000 (zreplicate 512 0) 0x11F0 [str "sh"; str "-c"] [str "A=1"])
    as (sp & mem' & H1 & _ & H2 & H3 & _).
  - lia.
  - by vm_compute.
  - rewrite zlen_zreplicate by lia. unfold u64_max. lia.
  - by apply (bool_decide_unpack _).
  - by apply (bool_decide_unpack _).
  - by vm_compute.
  - by vm_compute.
  - by vm_compute.
  - change (8 * (zlen [str "sh"; str "-c"] + 2)) with 32 in H3.
    exists sp, mem'. split_and!; [exact H1|exact H2|exact H3].
Defined.
