(* ===== verification/Loader.v ===== *)
(** * Placing the segments of a program

    The part of [run_linux_elf_with_args] (kernel/src/elf_runner.rs) and of
    [run_native_elf_with_args] (kernel/src/native_runner.rs) that computes the
    address range of the segments and copies them into a zeroed vector, for
    any error type with an [AddressOutOfRange]. *)
From S2P Require Import Prelude Elf.

Import elf.

(** The loop that computes [min_vaddr] and [max_vaddr]. *)
Definition vaddr_range (segs : list LoadSegment) : Z * Z :=
  foldl (fun '(lo, hi) seg =>
    (Z.min lo (vaddr seg), Z.max hi (saturating_add (vaddr seg) (mem_size seg)))) (u64_max, 0) segs.

Section Copy.
Context {E : Type} (AddressOutOfRange : E).

Definition copy_segment (min_vaddr : Z) (image mem : bytes) (seg : LoadSegment) : outcome E bytes :=
  dst_start ← sub64 (vaddr seg) min_vaddr;
  let dst_end := saturating_add dst_start (mem_size seg) in
  if zlen mem <? dst_end then Err AddressOutOfRange else
  let src_start := file_offset seg in
  let src_end := saturating_add src_start (file_size seg) in
  if zlen image <? src_end then Err AddressOutOfRange else
  let file_len := file_size seg in
  src ← sub_slice image src_start src_end;
  dst_stop ← add64 dst_start file_len;
  copy_from_slice mem dst_start dst_stop src.

Fixpoint copy_segments (min_vaddr : Z) (image mem : bytes) (segs : list LoadSegment) : outcome E bytes :=
  match segs with
  | [] => Ok mem
  | seg :: segs =>
    mem ← copy_segment min_vaddr image mem seg;
    copy_segments min_vaddr image mem segs
  end.
End Copy.

(** ** What the copies leave in memory

    [loaded] gives byte [i] of the memory: the last segment whose file part
    covers it decides, otherwise it is the byte that was there. *)
Definition seg_fits (min_vaddr : Z) (image mem : bytes) (seg : LoadSegment) : Prop :=
  vaddr seg - min_vaddr + mem_size seg <= zlen mem /\
  file_offset seg + file_size seg <= zlen image.
(** The file part reaches past the end of the memory: the code checks the
    memory part only. *)
Definition overruns (min_vaddr : Z) (mem : bytes) (seg : LoadSegment) : Prop :=
  zlen mem < vaddr seg - min_vaddr + file_size seg.
Definition copied (min_vaddr : Z) (image mem : bytes) (seg : LoadSegment) : Prop :=
  seg_fits min_vaddr image mem seg /\ ~ overruns min_vaddr mem seg.
(** [seg] is the first segment that is not copied. *)
Definition first_bad (min_vaddr : Z) (image mem : bytes) (segs : list LoadSegment) (seg : LoadSegment) : Prop :=
  exists pre post, segs = pre ++ seg :: post /\ Forall (copied min_vaddr image mem) pre /\
    ~ copied min_vaddr image mem seg.
Definition covers (min_vaddr : Z) (seg : LoadSegment) (i : nat) : bool :=
  let dst := vaddr seg - min_vaddr in
  (dst <=? Z.of_nat i) && (Z.of_nat i <? dst + file_size seg).
Fixpoint loaded (min_vaddr : Z) (image : bytes) (segs : list LoadSegment) (i : nat) (d : option Z) : option Z :=
  match segs with
  | [] => d
  | seg :: segs =>
    loaded min_vaddr image segs i
      (if covers min_vaddr seg i
       then image !! Z.to_nat (file_offset seg + (Z.of_nat i - (vaddr seg - min_vaddr))) else d)
  end.

Lemma saturating_add_le a b c : c < u64_max -> saturating_add a b <= c <-> a + b <= c.
Proof. ilia. Qed.

Section Facts.
Context {E : Type} (oor : E) (min_vaddr : Z) (image : bytes).
Context (Himage : zlen image <= i64_max).

(** A segment that does not fit is an error, one whose file part is larger
    than its place is a panic, every other one is copied. *)
Lemma copy_segment_eq mem seg :
  zlen mem <= i64_max -> seg_ok seg -> min_vaddr <= vaddr seg ->
  copy_segment oor min_vaddr image mem seg =
    if bool_decide (vaddr seg - min_vaddr + mem_size seg <= zlen mem) &&
       bool_decide (file_offset seg + file_size seg <= zlen image) then
      if bool_decide (vaddr seg - min_vaddr + file_size seg <= zlen mem) then
        Ok (splice mem (vaddr seg - min_vaddr)
              (zslice image (file_offset seg) (file_offset seg + file_size seg)))
      else Panic
    else Err oor.
Proof.
  intros Hm (Hv & Hms & Hfo & Hfs) Hmin. unfold copy_segment. rewrite sub64_small by lia. cbn [mbind outcome_bind].
  destruct (Z.ltb_spec (zlen mem) (saturating_add (vaddr seg - min_vaddr) (mem_size seg))) as [H1|H1].
  { case_bool_decide as Hx; [|done]. apply saturating_add_le in Hx; [lia|ilia]. }
  apply saturating_add_le in H1; [|ilia]. rewrite bool_decide_true by done. cbn [andb].
  destruct (Z.ltb_spec (zlen image) (saturating_add (file_offset seg) (file_size seg))) as [H2|H2].
  { case_bool_decide as Hx; [|done]. apply saturating_add_le in Hx; [lia|ilia]. }
  apply saturating_add_le in H2; [|ilia]. rewrite bool_decide_true by done.
  replace (saturating_add (file_offset seg) (file_size seg)) with (file_offset seg + file_size seg) by ilia.
  rewrite sub_slice_in by ilia. cbn [mbind outcome_bind].
  rewrite add64_small by ilia. cbn [mbind outcome_bind]. case_bool_decide as H3.
  - apply copy_from_slice_in; [lia| |lia]. rewrite zlen_zslice; ilia.
  - unfold copy_from_slice. replace (_ <=? zlen mem) with false by lia. by rewrite andb_false_r.
Qed.
Lemma zlen_file seg : seg_ok seg -> file_offset seg + file_size seg <= zlen image ->
  zlen (zslice image (file_offset seg) (file_offset seg + file_size seg)) = file_size seg.
Proof. intros (? & ? & ? & ?) ?. rewrite zlen_zslice; ilia. Qed.
Lemma copy_segment_Ok mem seg mem' :
  zlen mem <= i64_max -> seg_ok seg -> min_vaddr <= vaddr seg ->
  copy_segment oor min_vaddr image mem seg = Ok mem' ->
  zlen mem' = zlen mem /\ (bytes_ok image -> bytes_ok mem -> bytes_ok mem') /\
  forall i, mem' !! i = loaded min_vaddr image [seg] i (mem !! i).
Proof.
  intros Hm Hs Hmin. rewrite copy_segment_eq by done.
  repeat case_bool_decide; cbn [andb]; try done. intros [= <-].
  pose proof (zlen_file seg Hs ltac:(done)) as Hl. destruct Hs as (_ & _ & Hfo & Hfs). split_and!.
  - rewrite zlen_splice; [done|lia|]. lia.
  - intros. apply bytes_ok_splice; [done|]. by apply bytes_ok_zslice.
  - intros i. cbn [loaded]. unfold covers. cbv zeta. branch as Hc.
    + rewrite splice_lookup_in by lia. rewrite zslice_lookup by ilia. f_equal. ilia.
    + rewrite splice_lookup_out by lia. done.
Qed.
Lemma copy_segments_Ok mem segs mem' :
  zlen mem <= i64_max -> Forall seg_ok segs -> Forall (fun s => min_vaddr <= vaddr s) segs ->
  copy_segments oor min_vaddr image mem segs = Ok mem' ->
  zlen mem' = zlen mem /\ (bytes_ok image -> bytes_ok mem -> bytes_ok mem') /\
  forall i, mem' !! i = loaded min_vaddr image segs i (mem !! i).
Proof.
  intros Hm Hs. revert mem Hm. induction Hs as [|seg segs Hseg Hs IH]; intros mem Hm Hmin; cbn [copy_segments].
  - by intros [= <-].
  - apply Forall_cons_iff in Hmin as [H1 Hmin]. intros (m1 & Hc & Hr)%bind_Ok.
    apply copy_segment_Ok in Hc as (Hl1 & Hb1 & Hi1); [|done..].
    apply IH in Hr as (Hl & Hb & Hi); [|lia|done]. split_and!; [lia|auto|].
    intros i. rewrite Hi, Hi1. done.
Qed.
(** The first segment that cannot be copied decides: one that does not fit is
    an error, one that fits but whose file part overruns the memory a panic. *)
Lemma first_bad_cons mem mem' seg0 segs seg : zlen mem' = zlen mem ->
  copied min_vaddr image mem seg0 -> first_bad min_vaddr image mem' segs seg ->
  first_bad min_vaddr image mem (seg0 :: segs) seg.
Proof.
  intros Hl H0 (pre & post & -> & Hpre & Hbad). exists (seg0 :: pre), post.
  unfold copied, seg_fits, overruns in *. rewrite Hl in Hpre, Hbad. split_and!; [done|by constructor|done].
Qed.
Lemma copy_segments_cases mem segs :
  zlen mem <= i64_max -> Forall seg_ok segs -> Forall (fun s => min_vaddr <= vaddr s) segs ->
  match copy_segments oor min_vaddr image mem segs with
  | Ok mem' => Forall (copied min_vaddr image mem) segs
  | Err e => e = oor /\ exists seg, first_bad min_vaddr image mem segs seg /\ ~ seg_fits min_vaddr image mem seg
  | Panic => exists seg, first_bad min_vaddr image mem segs seg /\ seg_fits min_vaddr image mem seg
  end.
Proof.
  intros Hm Hs. revert mem Hm. induction Hs as [|seg segs Hseg Hs IH]; intros mem Hm Hmin; cbn [copy_segments]; [done|].
  apply Forall_cons_iff in Hmin as [H1 Hmin].
  assert (forall x, ~ copied min_vaddr image mem seg -> (x = seg) -> first_bad min_vaddr image mem (seg :: segs) x)
    as Hhere by (intros x Hn ->; exists [], segs; split_and!; [done|constructor|done]).
  pose proof (copy_segment_eq mem seg Hm Hseg H1) as Heq.
  destruct (copy_segment oor min_vaddr image mem seg) as [m1|e|] eqn:Hc; cbn [mbind outcome_bind].
  - assert (copied min_vaddr image mem seg) as Hgood.
    { unfold copied, seg_fits, overruns. repeat case_bool_decide; try done. lia. }
    apply copy_segment_Ok in Hc as (Hl & _); [|done..]. specialize (IH m1 ltac:(lia) Hmin).
    assert (forall x, seg_fits min_vaddr image m1 x <-> seg_fits min_vaddr image mem x) as Hfit
      by (intros x; unfold seg_fits; by rewrite Hl).
    destruct (copy_segments _ _ _ m1 segs) as [m2|e|].
    + constructor; [done|]. revert IH. apply Forall_impl. intros x. unfold copied, overruns. by rewrite Hfit, Hl.
    + destruct IH as (-> & x & Hx & Hn). split; [done|]. exists x. rewrite <-Hfit. split; [|done]. by eapply first_bad_cons.
    + destruct IH as (x & Hx & Hn). exists x. rewrite <-Hfit. split; [|done]. by eapply first_bad_cons.
  - assert (e = oor /\ ~ seg_fits min_vaddr image mem seg) as [-> Hn].
    { unfold seg_fits. repeat case_bool_decide; cbn [andb] in Heq; try done; split; congruence || tauto. }
    split; [done|]. exists seg. split; [|done]. apply Hhere; [|done]. unfold copied. tauto.
  - assert (seg_fits min_vaddr image mem seg /\ overruns min_vaddr mem seg) as [Hf Ho].
    { unfold seg_fits, overruns. repeat case_bool_decide; cbn [andb] in Heq; try done. lia. }
    exists seg. split; [|done]. apply Hhere; [|done]. unfold copied. tauto.
Qed.
End Facts.

(** The range contains every segment; it is below the 64-bit limit. *)
Lemma vaddr_range_spec segs :
  Forall seg_ok segs ->
  let '(lo, hi) := vaddr_range segs in
  0 <= lo <= u64_max /\ 0 <= hi <= u64_max /\
  Forall (fun s => lo <= vaddr s /\ saturating_add (vaddr s) (mem_size s) <= hi) segs.
Proof.
  intros Hs. unfold vaddr_range.
  assert (forall l h, 0 <= l <= u64_max -> 0 <= h <= u64_max ->
    let '(lo, hi) := foldl (fun '(lo, hi) seg =>
      (Z.min lo (vaddr seg), Z.max hi (saturating_add (vaddr seg) (mem_size seg)))) (l, h) segs in
    0 <= lo <= l /\ h <= hi <= u64_max /\
    Forall (fun s => lo <= vaddr s /\ saturating_add (vaddr s) (mem_size s) <= hi) segs) as H.
  { induction Hs as [|s segs (Hv & Hm & _) Hs IH]; intros l h Hl Hh; cbn [foldl]; [split_and!; lia || done|].
    specialize (IH (Z.min l (vaddr s)) (Z.max h (saturating_add (vaddr s) (mem_size s)))
      ltac:(ilia) ltac:(ilia)).
    destruct (foldl _ _ segs) as [lo hi]. destruct IH as (? & ? & ?).
    split_and!; try lia. constructor; [lia|done]. }
  specialize (H u64_max 0 ltac:(ilia) ltac:(ilia)). destruct (foldl _ _ segs). intuition lia.
Qed.

(** ** The theorem *)

(** C11: loading is exact.  Copying the segments into a zeroed vector
    succeeds exactly when every segment's memory part fits in the vector and
    its file part in the image and in the vector; each byte of the vector is
    then the byte of the last segment whose file part covers it, and zero where
    none does.  Otherwise the first segment that does not pass decides: if its
    memory part or the image is too short the loader answers
    [AddressOutOfRange], and if both checks pass, because the file part is
    larger than the memory part and leaves the vector, the copy panics. *)
Theorem copy_segments_exact {E} (oor : E) min_vaddr image segs total :
  zlen image <= i64_max -> 0 <= total <= i64_max -> Forall seg_ok segs ->
  Forall (fun s => min_vaddr <= vaddr s) segs ->
  let zeros := zreplicate total 0 in
  match copy_segments oor min_vaddr image zeros segs with
  | Ok mem => Forall (copied min_vaddr image zeros) segs /\ zlen mem = total /\
      forall i, (i < Z.to_nat total)%nat -> mem !! i = loaded min_vaddr image segs i (Some 0)
  | Err e => e = oor /\ exists seg, first_bad min_vaddr image zeros segs seg /\ ~ seg_fits min_vaddr image zeros seg
  | Panic => exists seg, first_bad min_vaddr image zeros segs seg /\ seg_fits min_vaddr image zeros seg
  end.
Proof.
  intros Hi Ht Hs Hmin. cbv zeta. set (zeros := zreplicate total 0).
  assert (zlen zeros = total) as Hz by (apply zlen_zreplicate; lia).
  pose proof (copy_segments_cases oor min_vaddr image Hi zeros segs ltac:(lia) Hs Hmin) as H.
  destruct (copy_segments oor min_vaddr image zeros segs) as [mem|e|] eqn:Hc; [|done..].
  apply copy_segments_Ok in Hc as (Hl & _ & Hb); [|done|lia|done..].
  split_and!; [done|lia|]. intros i Hlt. rewrite Hb. unfold zeros, zreplicate. by rewrite lookup_replicate_2 by lia.
Qed.

(** Two overlapping segments; the second one wins. *)
Lemma copy_segments_exact_witness :
  let segs := [mkLoadSegment 0x1000 8 0 4 5; mkLoadSegment 0x1002 4 4 2 6] in
  let image := [1; 2; 3; 4; 5; 6] in
  match copy_segments tt 0x1000 image (zreplicate 8 0) segs with
  | Ok mem => mem = [1; 2; 5; 6; 0; 0; 0; 0] /\
      forall i, (i < Z.to_nat 8)%nat -> mem !! i = loaded 0x1000 image segs i (Some 0)
  | _ => False
  end.
Proof.
  cbv zeta.
  pose proof (copy_segments_exact tt 0x1000 [1; 2; 3; 4; 5; 6]
    [mkLoadSegment 0x1000 8 0 4 5; mkLoadSegment 0x1002 4 4 2 6] 8) as H.
  assert (Forall seg_ok [mkLoadSegment 0x1000 8 0 4 5; mkLoadSegment 0x1002 4 4 2 6]) as Hs
    by (repeat constructor; cbn; lia).
  specialize (H ltac:(by vm_compute) ltac:(by vm_compute) Hs ltac:(repeat constructor; cbn; lia)).
  cbv zeta in H. destruct (copy_segments _ _ _ _ _) as [mem|e|] eqn:Hc; vm_compute in Hc; [|done..].
  injection Hc as <-. split; [reflexivity|]. apply H.
Defined.
