(* ===== verification/Native.v ===== *)
(** * Running a program natively (kernel/src/native_runner.rs)

    The second way to start a program: its segments are copied into a vector,
    the pages of the vector are made executable and the processor jumps into
    it.  A system call instruction leads to [native_syscall_dispatch], which
    handles the terminal and the keyboard itself and passes everything else
    to the dispatcher of Syscall.v.  The memory of a native program is the
    machine's, so its pointers reach the [mem] of Kernel.v. *)
From stdpp Require Import gmap.
From S2P Require Import Prelude Utf8 Fs Elf Kernel Posix Syscall UserMem Loader.

Module native.

Inductive NativeError :=
| Parse (e : elf.ElfError)
| NoLoadSegment
| AddressOutOfRange
| FixedVaddrUnsupported (min_vaddr e_type : Z)
| PagingUnavailable
| PageNotMapped (addr : Z)
| PageFlagUpdate (addr : Z)
| UnsupportedComplexElf (entry segments memory_size : Z).

Definition MAX_NATIVE_MEM : Z := 32 * 1024 * 1024.
Definition STACK_SIZE : Z := 256 * 1024.

(** ** System calls

    [OUT] says that [OUT_CTX] and [OUT_FN], which are set and cleared
    together, hold the terminal; [shown] is what was handed to it. *)
Record native := mkNative { nk : kernel; OUT : bool; shown : list bytes }.
Definition N (A : Type) : Type := prog native Empty_set A.
Definition ncall {A} (m : K A) : N A := fun s =>
  match m (nk s) with
  | Done a k => Done a (mkNative k (OUT s) (shown s))
  | Fail e k => Fail e s
  | Halt h => Halt h
  end.

Definition term_write_impl (ptr len : Z) : N unit :=
  if (ptr =? 0) || (len =? 0) then ret tt else
  bs ← ncall (load ptr len);
  modify (fun s => mkNative (nk s) (OUT s) (shown s ++ [bs])).

(** [while got < len]: [n] bytes may still be stored. *)
Fixpoint native_read_line (n : nat) (ptr got : Z) : N Z :=
  match n with
  | O => ret got
  | S n =>
    o ← ncall posix.read_stdin_byte_blocking;
    match o with
    | None => ret got
    | Some ch =>
      let mapped := if ch =? 13 then 10 else ch in
      ncall (store (ptr + got) [mapped]);;
      if mapped =? 10 then ret (got + 1) else native_read_line n ptr (got + 1)
    end
  end.

Definition native_mark_exit (code : Z) : N unit := ncall (mark_exit_code code).

Definition native_syscall_dispatch (nr a0 a1 a2 a3 a4 : Z) : N Z :=
  let pass := v ← ncall (dispatch nr a0 a1 a2 a3 a4 0); ret (of_i64 v) in
  if nr =? SYS_WRITE then
    if ((a0 =? 1) || (a0 =? 2)) && negb (a1 =? 0) && negb (a2 =? 0) then
      writer ← gets OUT;
      (if writer : bool then term_write_impl a1 a2 else ret tt);;
      ret a2
    else pass
  else if nr =? SYS_READ then
    if a0 =? 0 then
      if (a1 =? 0) || (a2 =? 0) then ret 0 else native_read_line (Z.to_nat a2) a1 0
    else pass
  else pass.

(** ** Loading *)

Definition ENDBR64 : bytes := [0xF3; 0x0F; 0x1E; 0xFA].

(** Up to [ensure_region_executable]; [runtime_base] is the address at which
    the allocator placed the vector.  The memory, the entry point and the
    stack pointer. *)
Definition load_native (runtime_base : Z) (image : bytes) (argv envp : list bytes)
    : outcome NativeError (bytes * Z * Z) :=
  img ← map_err Parse (elf.parse_elf64 image);
  if bool_decide (elf.segments img = []) then Err NoLoadSegment else
  let '(min_vaddr, max_vaddr) := vaddr_range (elf.segments img) in
  if elf.img_e_type img =? 2 then Err (FixedVaddrUnsupported min_vaddr (elf.img_e_type img)) else
  if max_vaddr <=? min_vaddr then Err AddressOutOfRange else
  let mem_len := max_vaddr - min_vaddr in
  if (MAX_NATIVE_MEM <? mem_len) || (16 <? zlen (elf.segments img))
  then Err (UnsupportedComplexElf (elf.img_entry img) (zlen (elf.segments img)) mem_len) else
  total_len ← ok_or (checked_add mem_len STACK_SIZE) AddressOutOfRange;
  mem ← copy_segments AddressOutOfRange min_vaddr image (zreplicate total_len 0) (elf.segments img);
  top ← add64 runtime_base (zlen mem);
  stack_top ← sub64 top 0x10;
  '(user_rsp, mem) ← build_initial_stack AddressOutOfRange runtime_base mem stack_top argv envp;
  entry_off ← ok_or (checked_sub (elf.img_entry img) min_vaddr) AddressOutOfRange;
  entry ← add64 runtime_base entry_off;
  entry_idx ← va_to_index AddressOutOfRange runtime_base mem entry;
  let preview_len := Z.min 16 (zlen mem - entry_idx) in
  preview ← sub_slice mem entry_idx (entry_idx + preview_len);
  let entry := if bool_decide (take 4 preview = ENDBR64) then saturating_add entry 4 else entry in
  Ok (mem, entry, user_rsp).

(** ** Executable pages

    The page tables are the x86_64 crate's: [translate] gives the flags of the
    entry that maps a page, [update_flags] replaces them, [pages_of start end]
    lists [Page::range_inclusive] of the pages that contain the two addresses,
    and [virt_ok] holds of the addresses that [VirtAddr::new] accepts.  Flags
    are the bits of an entry; [defined_flags] are all bits the crate's
    [PageTableFlags] names, so its complement of a set of flags is the others
    of these.  The processor's no-execute flag is bit 63. *)
Definition NO_EXECUTE : Z := 2 ^ 63.
(** [flags.contains(f)], and [flags & !f]. *)
Definition contains (flags f : Z) : bool := Z.land flags f =? f.
Definition without (defined_flags flags f : Z) : Z := Z.land flags (Z.ldiff defined_flags f).

Section Paging.
Context {PT : Type}.
Context (translate : PT -> Z -> option Z) (update_flags : PT -> Z -> Z -> option PT).
Context (defined_flags : Z) (pages_of : Z -> Z -> list Z) (virt_ok : Z -> bool).

(** The [for page in Page::range_inclusive(...)] loop: the tables it leaves
    and its result. *)
Fixpoint set_executable (pt : PT) (pages : list Z) : PT * outcome NativeError unit :=
  match pages with
  | [] => (pt, Ok tt)
  | vaddr :: pages =>
    match translate pt vaddr with
    | None => (pt, Err (PageNotMapped vaddr))
    | Some flags =>
      if contains flags NO_EXECUTE then
        let new_flags := without defined_flags flags NO_EXECUTE in
        match update_flags pt vaddr new_flags with
        | Some pt => set_executable pt pages
        | None => (pt, Err (PageFlagUpdate vaddr))
        end
      else set_executable pt pages
    end
  end.

Definition ensure_region_executable (phys_off : option Z) (pt : PT) (start len : Z)
    : PT * outcome NativeError unit :=
  if len =? 0 then (pt, Ok tt) else
  match phys_off with
  | None => (pt, Err PagingUnavailable)
  | Some off =>
    if negb (virt_ok off) || negb (virt_ok start) then (pt, Panic) else
    match checked_add start len ≫= fun v => checked_sub v 1 with
    | None => (pt, Err AddressOutOfRange)
    | Some end_ => if virt_ok end_ then set_executable pt (pages_of start end_) else (pt, Panic)
    end
  end.
End Paging.

(** ** What the loader leaves *)

Definition fits_range (lo : Z) (image : bytes) (total : Z) (img : elf.ElfImage) : Prop :=
  Forall (seg_fits lo image (zreplicate total 0)) (elf.segments img).
Definition loads (base : Z) (image : bytes) (img : elf.ElfImage) (lo hi : Z) (out : bytes * Z * Z) : Prop :=
  let '(mem, entry, rsp) := out in
  let e := base + (elf.img_entry img - lo) in
  elf.img_e_type img <> 2 /\ zlen mem = hi - lo + STACK_SIZE /\
  Forall (copied lo image (zreplicate (hi - lo + STACK_SIZE) 0)) (elf.segments img) /\
  base + (hi - lo) <= rsp < base + zlen mem /\
  (forall i, Z.of_nat i < hi - lo -> mem !! i = loaded lo image (elf.segments img) i (Some 0)) /\
  base <= e < base + zlen mem /\
  entry = (if bool_decide (zslice mem (e - base) (e - base + 4) = ENDBR64) then e + 4 else e).
(** A segment passes the checks of the copy, but its file part, larger than
    its memory part, leaves the vector. *)
Definition copy_overruns (lo : Z) (image : bytes) (total : Z) (img : elf.ElfImage) : Prop :=
  exists seg, first_bad lo image (zreplicate total 0) (elf.segments img) seg /\ seg_fits lo image (zreplicate total 0) seg.
(** Why the loader refuses. *)
Definition refuses (image : bytes) (img : elf.ElfImage) (lo hi : Z) (e : NativeError) : Prop :=
  (e = NoLoadSegment /\ elf.segments img = []) \/
  (e = FixedVaddrUnsupported lo 2 /\ elf.img_e_type img = 2) \/
  (e = UnsupportedComplexElf (elf.img_entry img) (zlen (elf.segments img)) (hi - lo) /\
    (MAX_NATIVE_MEM < hi - lo \/ 16 < zlen (elf.segments img))) \/
  (e = AddressOutOfRange /\ (hi <= lo \/ ~ fits_range lo image (hi - lo + STACK_SIZE) img \/
    elf.img_entry img < lo \/ hi - lo + STACK_SIZE <= elf.img_entry img - lo)).

Lemma frame_lookup base lo hi m m' i :
  frame base lo hi m m' -> base <= lo -> Z.of_nat i < lo - base -> m' !! i = m !! i.
Proof.
  intros [Hl Hf] Hb Hi. specialize (Hf (Z.of_nat i) (Z.of_nat i + 1) ltac:(lia) ltac:(lia)).
  assert (forall l : bytes, zslice l (Z.of_nat i) (Z.of_nat i + 1) !! 0%nat = l !! i) as Hz.
  { intros l. rewrite zslice_lookup by lia. f_equal. lia. }
  by rewrite <-Hz, Hf, Hz.
Qed.

(** The second half of the loader, once the vector holds the segments. *)
Lemma place_stack base mem argv envp : 0 < base ->
  zlen mem <= MAX_NATIVE_MEM + STACK_SIZE -> base + zlen mem <= u64_max ->
  need argv + need envp + 8 * (zlen argv + zlen envp + 7) + 46 <= STACK_SIZE -> STACK_SIZE <= zlen mem ->
  exists rsp mem', build_initial_stack AddressOutOfRange base mem (base + zlen mem - 0x10) argv envp = Ok (rsp, mem') /\
    zlen mem' = zlen mem /\ base + (zlen mem - STACK_SIZE) <= rsp < base + zlen mem /\
    forall i, Z.of_nat i < zlen mem - STACK_SIZE -> mem' !! i = mem !! i.
Proof.
  intros Hb Hm Hr Hn Hs. pose proof (need_nonneg argv). pose proof (need_nonneg envp).
  pose proof (zlen_nonneg argv). pose proof (zlen_nonneg envp). unfold STACK_SIZE, MAX_NATIVE_MEM in *.
  destruct (build_initial_stack_fits AddressOutOfRange base mem (base + zlen mem - 0x10) argv envp)
    as (rsp & mem' & Hok & Hlow); [ilia..|].
  destruct (build_initial_stack_Ok AddressOutOfRange base mem (base + zlen mem - 0x10) argv envp rsp mem'
    ltac:(lia) ltac:(lia) ltac:(lia) Hok) as (aps & eps & Hsp & Htop & _ & Hf & _).
  pose proof (zlen_nonneg (stack_words aps eps)).
  exists rsp, mem'. split_and!; [exact Hok|apply Hf|lia|lia|]. intros i Hi.
  eapply frame_lookup; [exact Hf|lia|lia].
Qed.
Lemma preview_take (mem : bytes) i : 0 <= i < zlen mem ->
  take 4 (zslice mem i (i + Z.min 16 (zlen mem - i))) = zslice mem i (i + 4).
Proof.
  intros Hi. unfold zslice. rewrite take_take. replace (i + 4 - i) with 4 by lia.
  destruct (decide (4 <= zlen mem - i)); [f_equal; lia|].
  rewrite !(take_ge (drop _ mem)); [done|..]; unfold zlen in *; rewrite length_drop; lia.
Qed.
Lemma loaded_zeros lo image total segs mem :
  zlen image <= i64_max -> 0 <= total <= i64_max -> Forall elf.seg_ok segs ->
  Forall (fun s => lo <= elf.vaddr s) segs ->
  copy_segments AddressOutOfRange lo image (zreplicate total 0) segs = Ok mem ->
  zlen mem = total /\ forall i, Z.of_nat i < total -> mem !! i = loaded lo image segs i (Some 0).
Proof.
  intros Hl Ht Hs Hmin Hc. assert (zlen (zreplicate total 0) = total) as Hz by (apply zlen_zreplicate; lia).
  apply copy_segments_Ok in Hc as (Hlen & _ & Hi); [|done|lia|done..]. split; [lia|].
  intros i Hlt. rewrite Hi. unfold zreplicate. by rewrite lookup_replicate_2 by lia.
Qed.

(** The loader after the parser and the scan of the segments. *)
Lemma load_native_scanned base image argv envp img lo hi :
  zlen image <= i64_max -> 0 < base -> base + MAX_NATIVE_MEM + STACK_SIZE <= i64_max ->
  need argv + need envp + 8 * (zlen argv + zlen envp + 7) + 46 <= STACK_SIZE ->
  elf.parse_elf64 image = Ok img -> Forall elf.seg_ok (elf.segments img) -> is_u64 (elf.img_entry img) ->
  vaddr_range (elf.segments img) = (lo, hi) ->
  match load_native base image argv envp with
  | Ok out => loads base image img lo hi out
  | Err e => refuses image img lo hi e
  | Panic => copy_overruns lo image (hi - lo + STACK_SIZE) img \/ u64_max < base + (elf.img_entry img - lo)
  end.
Proof.
  intros Hil Hb Hr Hn Hp Hs Hent Hrange. unfold load_native, refuses. rewrite Hp. cbn [map_err mbind outcome_bind].
  case_bool_decide as Hne; [by left|]. pose proof (vaddr_range_spec _ Hs) as Hspec. rewrite Hrange in *.
  destruct Hspec as (Hlo & Hhi & Hall). branch as Ht; [apply Z.eqb_eq in Ht; rewrite Ht; auto|].
  apply Z.eqb_neq in Ht. branch as Hle; [right; right; right; split; [done|left; lia]|]. cbv zeta.
  branch as Hbig; [right; right; left; split; [done|lia]|]. unfold MAX_NATIVE_MEM in *.
  rewrite (proj2 (checked_add_Some (hi - lo) STACK_SIZE (hi - lo + STACK_SIZE)))
    by (split; [done|unfold STACK_SIZE; ilia]).
  cbn [ok_or mbind outcome_bind]. set (total := hi - lo + STACK_SIZE).
  assert (Forall (fun s => lo <= elf.vaddr s) (elf.segments img)) as Hmin by (revert Hall; apply Forall_impl; tauto).
  assert (0 <= total <= MAX_NATIVE_MEM + STACK_SIZE) as Htot by (subst total; unfold MAX_NATIVE_MEM, STACK_SIZE in *; lia).
  assert (total <= i64_max) as Hti by (unfold MAX_NATIVE_MEM, STACK_SIZE in *; ilia).
  assert (zlen (zreplicate total 0) = total) as Hz by (apply zlen_zreplicate; lia).
  pose proof (copy_segments_cases AddressOutOfRange lo image Hil (zreplicate total 0) (elf.segments img) ltac:(lia) Hs Hmin) as Hcases.
  destruct (copy_segments _ lo image _ _) as [mem|e|] eqn:Hc; cbn [mbind outcome_bind].
  2: { destruct Hcases as (-> & seg & Hbad & Hnf). right. right. right. split; [done|]. right. left.
       intros Hall'. apply Hnf. destruct Hbad as (pre & post & Heq & _). unfold fits_range in Hall'.
       rewrite Heq, Forall_app, Forall_cons_iff in Hall'. tauto. }
  2: { left. exact Hcases. }
  destruct (loaded_zeros lo image total _ _ Hil ltac:(lia) Hs Hmin Hc) as [Hml Hmi].
  destruct (place_stack base mem argv envp Hb) as (rsp & mem' & Hst & Hl' & Hrsp & Hsame);
    [lia|unfold MAX_NATIVE_MEM in *; ilia|done|lia|].
  rewrite add64_small by (unfold MAX_NATIVE_MEM in *; ilia). cbn [mbind outcome_bind].
  rewrite sub64_small by (unfold STACK_SIZE in *; lia). cbn [mbind outcome_bind]. rewrite Hst. cbn [mbind outcome_bind].
  unfold checked_sub. branch as Hel; [|right; right; right; split; [done|right; right; left; lia]].
  cbn [ok_or mbind outcome_bind]. unfold add64. branch as Hov.
  2: cbn [mbind outcome_bind]; right; lia.
  cbn [mbind outcome_bind]. unfold va_to_index. branch as Hlt; [lia|]. cbv zeta. branch as Hin.
  { cbn [mbind outcome_bind]. right. right. right. split; [done|]. right. right. right. lia. }
  cbn [mbind outcome_bind]. set (e := base + (elf.img_entry img - lo)) in *.
  rewrite sub_slice_in by lia. cbn [mbind outcome_bind]. rewrite preview_take by lia. unfold loads. fold e.
  split_and!; try lia.
  - exact Hcases.
  - intros i Hi. rewrite Hsame, Hmi by lia. done.
  - case_bool_decide; [|done]. unfold saturating_add. unfold MAX_NATIVE_MEM, STACK_SIZE in *. ilia.
Qed.

(** C21: the native loader is exact.  With arguments that fit in the stack
    area and a vector below the 63-bit limit, the loader either refuses for one
    of its stated reasons (the parser's, no segment, a fixed-address program,
    too large, an address out of range), or returns a memory in which every
    byte of the image range is the byte of the last segment that covers it or
    zero, a stack pointer above that range, and an entry point that is the
    program's entry relocated to the vector, 4 bytes on when the instruction
    there is ENDBR64.  It panics only in the two cases its checks miss: a
    segment whose file part is larger than its memory part and leaves the
    vector, and an entry point whose relocated address leaves 64 bits. *)
Theorem load_native_exact base image argv envp :
  bytes_ok image -> zlen image <= i64_max -> 0 < base -> base + MAX_NATIVE_MEM + STACK_SIZE <= i64_max ->
  need argv + need envp + 8 * (zlen argv + zlen envp + 7) + 46 <= STACK_SIZE ->
  match elf.parse_elf64 image with
  | Err pe => load_native base image argv envp = Err (Parse pe)
  | Panic => False
  | Ok img =>
      let '(lo, hi) := vaddr_range (elf.segments img) in
      match load_native base image argv envp with
      | Ok out => loads base image img lo hi out
      | Err e => refuses image img lo hi e
      | Panic => copy_overruns lo image (hi - lo + STACK_SIZE) img \/ u64_max < base + (elf.img_entry img - lo)
      end
  end.
Proof.
  intros Hi Hil Hb Hr Hn. destruct (elf.parse_elf64 image) as [img|pe|] eqn:Hp.
  - destruct (elf.parse_elf64_ok _ _ Hi Hp) as [Hent Hs].
    destruct (vaddr_range (elf.segments img)) as [lo hi] eqn:Hrange.
    apply load_native_scanned; auto.
  - unfold load_native. by rewrite Hp.
  - by apply (elf.parse_elf64_no_panic image).
Qed.

(** ** Executable pages *)
Definition page_of (x : Z) : Z := 4096 * (x / 4096).

Section PagingFacts.
Context {PT : Type}.
Context (translate : PT -> Z -> option Z) (update_flags : PT -> Z -> Z -> option PT).
Context (defined_flags : Z) (pages_of : Z -> Z -> list Z) (virt_ok : Z -> bool).
(** The documented behaviour of the page tables: the flags of an entry are
    named ones; an update is seen by the next translation of that page and of
    no other; a range of pages is the pages of the addresses in between. *)
Hypothesis flags_defined : forall pt p f, translate pt p = Some f -> Z.land f defined_flags = f.
Hypothesis update_same : forall pt p f pt', Z.land f defined_flags = f ->
  update_flags pt p f = Some pt' -> translate pt' p = Some f.
Hypothesis update_other : forall pt p f pt' q, update_flags pt p f = Some pt' -> q <> p -> translate pt' q = translate pt q.
Hypothesis pages_between : forall a b p, a <= b -> p ∈ pages_of a b <-> exists x, a <= x <= b /\ p = page_of x.

(** The entry that maps page [p] does not forbid execution. *)
Definition executable (pt : PT) (p : Z) : Prop := exists f, translate pt p = Some f /\ Z.testbit f 63 = false.
(** [pt'] is [pt] with bit 63 cleared, and no other bit changed, in the entries
    of some of the pages. *)
Definition only_nx (pages : Z -> Prop) (pt pt' : PT) : Prop := forall q,
  translate pt' q = translate pt q \/
  (pages q /\ exists f, translate pt q = Some f /\ Z.testbit f 63 = true /\ translate pt' q = Some (Z.clearbit f 63)).

Lemma contains_nx f : contains f NO_EXECUTE = Z.testbit f 63.
Proof.
  unfold contains, NO_EXECUTE. destruct (Z.testbit f 63) eqn:Hf.
  - apply Z.eqb_eq, Z.bits_inj'. intros i Hi. rewrite Z.land_spec, Z.pow2_bits_eqb by lia.
    destruct (Z.eqb_spec 63 i) as [<-|]; [by rewrite Hf|by rewrite andb_false_r].
  - apply Z.eqb_neq. intros E. apply (f_equal (fun z => Z.testbit z 63)) in E.
    by rewrite Z.land_spec, Hf, Z.pow2_bits_true in E by lia.
Qed.
Lemma without_nx f : Z.land f defined_flags = f -> without defined_flags f NO_EXECUTE = Z.clearbit f 63.
Proof.
  intros Hf. apply Z.bits_inj'. intros i Hi. unfold without, NO_EXECUTE.
  rewrite Z.clearbit_eqb, Z.land_spec, Z.ldiff_spec, Z.pow2_bits_eqb by lia.
  rewrite <-Hf at 2. rewrite Z.land_spec. by rewrite andb_assoc.
Qed.
Lemma clearbit_defined f : Z.land f defined_flags = f -> Z.land (Z.clearbit f 63) defined_flags = Z.clearbit f 63.
Proof.
  intros Hf. apply Z.bits_inj'. intros i Hi. rewrite Z.land_spec, !Z.clearbit_eqb by lia.
  rewrite <-Hf at 2. rewrite Z.land_spec. destruct (Z.testbit f i), (Z.testbit defined_flags i), (63 =? i); done.
Qed.
Lemma only_nx_step (pages : Z -> Prop) pt p f pt1 pt' :
  update_flags pt p (Z.clearbit f 63) = Some pt1 -> translate pt p = Some f -> Z.testbit f 63 = true -> pages p ->
  only_nx pages pt1 pt' -> only_nx pages pt pt'.
Proof.
  intros Hu Ht Hnx Hp H q. pose proof (clearbit_defined f (flags_defined _ _ _ Ht)) as Hd.
  destruct (decide (q = p)) as [->|Hne].
  - right. split; [done|]. exists f. split; [done|]. split; [done|]. destruct (H p) as [->|(_ & f1 & Hf1 & Hn1 & _)].
    + by eapply update_same.
    + rewrite (update_same _ _ _ _ Hd Hu) in Hf1. injection Hf1 as <-. by rewrite Z.clearbit_eq in Hn1.
  - by rewrite <-(update_other _ _ _ _ _ Hu Hne).
Qed.
Lemma executable_kept pages pt pt' p : only_nx pages pt pt' -> executable pt p -> executable pt' p.
Proof.
  intros H (f & Hf & Hn). destruct (H p) as [Hp|(_ & f1 & Hf1 & _ & Hp)].
  - exists f. by rewrite Hp.
  - exists (Z.clearbit f1 63). rewrite Z.clearbit_eq. by split.
Qed.
Lemma set_executable_spec (region : Z -> Prop) pt pages : Forall region pages ->
  let '(pt', res) := set_executable translate update_flags defined_flags pt pages in
  only_nx region pt pt' /\
  match res with
  | Ok _ => Forall (executable pt') pages
  | Err e => exists p, region p /\ ((e = PageNotMapped p /\ translate pt' p = None) \/
      (e = PageFlagUpdate p /\ exists f, translate pt' p = Some f /\ Z.testbit f 63 = true /\
        update_flags pt' p (Z.clearbit f 63) = None))
  | Panic => False
  end.
Proof.
  intros Hreg. revert pt. induction Hreg as [|p pages Hp _ IH]; intros pt; cbn [set_executable].
  - split; [intros q; by left|constructor].
  - destruct (translate pt p) as [f|] eqn:Ht; [|split; [intros q; by left|exists p; auto]].
    rewrite contains_nx. cbv zeta. rewrite without_nx by (by eapply flags_defined). destruct (Z.testbit f 63) eqn:Hnx.
    + destruct (update_flags pt p (Z.clearbit f 63)) as [pt1|] eqn:Hu.
      2: { split; [intros q; by left|]. exists p. split; [done|]. right. split; [done|]. by exists f. }
      specialize (IH pt1). destruct (set_executable _ _ _ pt1 pages) as [pt' res]. destruct IH as [Ho Hres].
      split; [by eapply only_nx_step|]. destruct res as [[]|e|]; [|done..].
      constructor; [|done]. eapply executable_kept; [exact Ho|]. exists (Z.clearbit f 63).
      split; [|apply Z.clearbit_eq]. eapply update_same; [|exact Hu]. apply clearbit_defined. by eapply flags_defined.
    + specialize (IH pt). destruct (set_executable _ _ _ pt pages) as [pt' res]. destruct IH as [Ho Hres].
      split; [done|]. destruct res as [[]|e|]; [|done..].
      constructor; [|done]. eapply executable_kept; [exact Ho|]. by exists f.
Qed.

(** C23: the pages of a program become executable, and only that changes.
    Whatever [ensure_region_executable] answers, the page tables are as before
    except that in the entries of some pages of the region bit 63, the
    no-execute flag, is now clear; every other bit of these entries and every
    other entry is the same.  When it answers success, every address of the
    region is in a page that is mapped by an entry with that flag clear (the
    entries of the upper levels are not looked at).  Otherwise it names a page
    of the region that is not mapped, or whose cleared flags the page tables
    refuse, or says that paging is unavailable or that the region leaves the
    address space; it panics only for an address that is no virtual address. *)
Theorem region_executable phys_off pt start len :
  0 <= start -> 0 <= len ->
  let '(pt', res) := ensure_region_executable translate update_flags defined_flags pages_of virt_ok
    phys_off pt start len in
  let region p := exists x, start <= x < start + len /\ p = page_of x in
  only_nx region pt pt' /\
  match res with
  | Ok _ => forall x, start <= x < start + len -> executable pt' (page_of x)
  | Err PagingUnavailable => phys_off = None
  | Err (PageNotMapped p) => region p /\ translate pt' p = None
  | Err (PageFlagUpdate p) => region p /\ exists f, translate pt' p = Some f /\ Z.testbit f 63 = true /\
      update_flags pt' p (Z.clearbit f 63) = None
  | Err e => e = AddressOutOfRange /\ u64_max < start + len
  | Panic => exists off a, phys_off = Some off /\ In a [off; start; start + len - 1] /\ virt_ok a = false
  end.
Proof.
  intros Hs Hl. cbv zeta. set (region := fun p => exists x, start <= x < start + len /\ p = page_of x).
  unfold ensure_region_executable.
  assert (forall Q, only_nx Q pt pt) as Hrefl by (intros Q q; by left).
  branch as H0; [split; [done|intros; lia]|]. destruct phys_off as [off|]; [|done].
  destruct (virt_ok off) eqn:Hv1; cbn [negb orb]; [|split; [done|exists off, off; cbn; auto]].
  destruct (virt_ok start) eqn:Hv2; cbn [negb orb]; [|split; [done|exists off, start; cbn; auto]].
  unfold checked_add. branch as Ho; cbn [mbind option_bind]; [|split; [done|split; [done|lia]]].
  unfold checked_sub. rewrite (proj2 (Z.leb_le 1 _)) by lia.
  destruct (virt_ok (start + len - 1)) eqn:Hv3; [|split; [done|exists off, (start + len - 1); cbn; auto 8]].
  assert (Forall region (pages_of start (start + len - 1))) as Hreg.
  { apply Forall_forall. intros p Hp%list_elem_of_In. apply pages_between in Hp as (x & Hx & ->); [|lia]. exists x. split; [lia|done]. }
  pose proof (set_executable_spec region pt _ Hreg) as H.
  destruct (set_executable _ _ _ _ _) as [pt' res]. destruct H as [Hn Hr]. split; [done|].
  destruct res as [[]|e|]; [|naive_solver|done]. intros x Hx. rewrite Forall_forall in Hr. apply Hr, list_elem_of_In.
  apply pages_between; [lia|]. exists x. split; [lia|done].
Qed.
End PagingFacts.

(** ** Concrete programs

    A position-independent program of one segment, at 0 in the file's address
    space, that starts with ENDBR64. *)
Definition pie : bytes :=
  elf.sample_ehdr 3 0x10 1 ++ elf.sample_phdr elf.PT_LOAD 5 120 0 32 64 ++
  zreplicate 16 0x90 ++ ENDBR64 ++ zreplicate 12 0xC3.
Lemma load_native_exact_witness :
  exists out, load_native 0x10000000 pie [str "pie"; str "x"] [] = Ok out /\
    loads 0x10000000 pie (elf.image_of pie) 0 64 out /\ out.1.2 = 0x10000014.
Proof.
  pose proof (load_native_exact 0x10000000 pie [str "pie"; str "x"] []) as H.
  assert (bytes_ok pie) as Hok by by apply (bool_decide_unpack _).
  assert (elf.parse_elf64 pie = Ok (elf.image_of pie)) as Hp by (vm_compute; reflexivity).
  specialize (H Hok ltac:(by vm_compute) ltac:(lia) ltac:(by vm_compute) ltac:(by vm_compute)).
  rewrite Hp in H.
  assert (match load_native 0x10000000 pie [str "pie"; str "x"] [] with
    Ok out => bool_decide (out.1.2 = 0x10000014) | _ => false end = true) as Hl by (vm_compute; reflexivity).
  assert (vaddr_range (elf.segments (elf.image_of pie)) = (0, 64)) as Hr by (vm_compute; reflexivity).
  rewrite Hr in H.
  destruct (load_native _ _ _ _) as [out|e|]; [|discriminate Hl..].
  apply bool_decide_eq_true in Hl. exists out. split; [reflexivity|]. split; [exact H|exact Hl].
Defined.

(** Page tables as a map from page to flags. *)
Definition map_translate (pt : gmap Z Z) (p : Z) : option Z := Z.land (2 ^ 64 - 1) <$> pt !! p.
Definition map_update (pt : gmap Z Z) (p f : Z) : option (gmap Z Z) :=
  match pt !! p with Some _ => Some (<[p := f]> pt) | None => None end.
Definition map_pages (start end_ : Z) : list Z :=
  map (fun i => 4096 * (start / 4096 + Z.of_nat i)) (seq 0 (Z.to_nat (end_ / 4096 - start / 4096 + 1))).
Lemma map_pages_between a b p : a <= b -> p ∈ map_pages a b <-> exists x, a <= x <= b /\ p = page_of x.
Proof.
  intros Hab. unfold map_pages, page_of. rewrite list_elem_of_In, in_map_iff. setoid_rewrite in_seq. split.
  - intros (i & <- & Hi). exists (Z.max a (4096 * (a / 4096 + Z.of_nat i))). pose proof (Z.div_mod a 4096).
    pose proof (Z.mod_pos_bound a 4096). pose proof (Z.div_mod b 4096). pose proof (Z.mod_pos_bound b 4096).
    split; [lia|]. f_equal. destruct i as [|i].
    + rewrite Z.max_l by lia. lia.
    + rewrite Z.max_r by lia. by rewrite Z.mul_comm, Z.div_mul.
  - intros (x & Hx & ->). exists (Z.to_nat (x / 4096 - a / 4096)).
    assert (a / 4096 <= x / 4096 <= b / 4096) by (split; apply Z.div_le_mono; lia). split; [lia|lia].
Qed.
Lemma region_executable_witness :
  let pt : gmap Z Z := <[0x1000 := 2 ^ 63 + 3]> (<[0x2000 := 3]> (<[0x3000 := 2 ^ 63 + 3]> ∅)) in
  let '(pt', res) := ensure_region_executable map_translate map_update (2 ^ 64 - 1) map_pages
    (fun _ => true) (Some 0) pt 0x1800 0x1000 in
  res = Ok tt /\ pt' !! 0x1000 = Some 3 /\ pt' !! 0x3000 = Some (2 ^ 63 + 3) /\
  forall x, 0x1800 <= x < 0x2800 -> executable map_translate pt' (page_of x).
Proof.
  intros pt.
  assert (forall pt0 p f, map_translate pt0 p = Some f -> Z.land f (2 ^ 64 - 1) = f) as Hd.
  { intros pt0 p f. unfold map_translate. destruct (pt0 !! p); [|discriminate 1]. intros [= <-].
    rewrite (Z.land_comm _ (2 ^ 64 - 1)), Z.land_assoc. by rewrite Z.land_diag. }
  assert (forall pt0 p f pt1, Z.land f (2 ^ 64 - 1) = f -> map_update pt0 p f = Some pt1 -> map_translate pt1 p = Some f) as Hs.
  { intros pt0 p f pt1 Hf. unfold map_update, map_translate. destruct (pt0 !! p); [|discriminate 1]. intros [= <-].
    rewrite lookup_insert_eq. cbn [fmap option_fmap option_map]. by rewrite Z.land_comm, Hf. }
  assert (forall pt0 p f pt1 q, map_update pt0 p f = Some pt1 -> q <> p -> map_translate pt1 q = map_translate pt0 q) as Ho.
  { intros pt0 p f pt1 q. unfold map_update, map_translate. destruct (pt0 !! p); [|discriminate 1]. intros [= <-] Hq.
    by rewrite lookup_insert_ne. }
  pose proof (region_executable map_translate map_update (2 ^ 64 - 1) map_pages (fun _ => true) Hd Hs Ho map_pages_between
    (Some 0) pt 0x1800 0x1000 ltac:(lia) ltac:(lia)) as H.
  assert (let '(pt', res) := ensure_region_executable map_translate map_update (2 ^ 64 - 1) map_pages
    (fun _ => true) (Some 0) pt 0x1800 0x1000 in
    res = Ok tt /\ pt' !! 0x1000 = Some 3 /\ pt' !! 0x3000 = Some (2 ^ 63 + 3)) as Hc by (vm_compute; repeat split).
  destruct (ensure_region_executable _ _ _ _ _ _ _ _ _) as [pt' res]. destruct Hc as (-> & H1 & H3).
  destruct H as [_ Hf]. repeat split; assumption.
Defined.
End native.
