(* ===== verification/NativeInv.v ===== *)
(** * Safety of a native program's system calls

    What a native program's system call may do: the kernel stays well formed,
    the terminal receives exactly the bytes of a [write] to descriptor 1 or 2
    while the terminal is installed, and everything but such a [write] and a
    [read] of standard input is the dispatcher's answer. *)
From stdpp Require Import gmap.
From S2P Require Import Prelude Utf8 Fs Kernel Posix Syscall SyscallInv SyscallFrame SyscallMem Native.

Module native_inv.
Import native.

(** ** The memory a call may write *)
Definition on_nk (P : Z -> Prop) : native -> native -> Prop := fun s s' => mem_within P (nk s) (nk s').
#[export] Instance on_nk_preorder P : PreOrder (on_nk P).
Proof. split; [by intros s; unfold on_nk|intros s1 s2 s3; unfold on_nk; by etrans]. Qed.
Lemma native_ncall P {A} (m : K A) : writes P m -> evolves (on_nk P) (ncall m).
Proof. intros H s. specialize (H (nk s)). unfold ncall. by destruct (m (nk s)). Qed.
Lemma native_read_line_within P n ptr got :
  (forall x, range (ptr + got) (Z.of_nat n) x -> P x) -> evolves (on_nk P) (native_read_line n ptr got).
Proof.
  revert got. induction n as [|n IH]; intros got H; cbn [native_read_line]; [by apply evolves_ret, _|].
  unfold range in *. apply evolves_bind; [apply _|apply native_ncall, writes_stdin|].
  intros [ch|]; [|by apply evolves_ret, _]. cbv zeta.
  apply evolves_bind; [apply _|apply native_ncall, writes_store|].
  { intros x. unfold range. rewrite zlen_cons, zlen_nil. intros. apply H. lia. }
  intros _. destruct (_ =? 10); [by apply evolves_ret, _|]. apply IH. intros x Hx. apply H. lia.
Qed.
Lemma native_within r nr a0 a1 a2 a3 a4 s : wf r (nk s) -> is_u64 a0 -> is_u64 a1 -> is_u64 a2 ->
  match native_syscall_dispatch nr a0 a1 a2 a3 a4 s with
  | Done _ s' => on_nk (in_window_of nr a0 a1 a2 a3) s s'
  | _ => True
  end.
Proof.
  intros Hw H0 H1 H2.
  assert (match (v ← ncall (dispatch nr a0 a1 a2 a3 a4 0); ret (of_i64 v)) s with
    Done _ s' => on_nk (in_window_of nr a0 a1 a2 a3) s s' | _ => True end : Prop) as Hpass.
  { pose proof (writes_dispatch r nr a0 a1 a2 a3 a4 0 H0 H1 _ Hw) as H. run_prog. unfold ncall.
    by destruct (dispatch _ _ _ _ _ _ _ _) as [v k|[]|h]. }
  assert (forall (m : N Z), evolves (on_nk (in_window_of nr a0 a1 a2 a3)) m -> match m s with
    Done _ s' => on_nk (in_window_of nr a0 a1 a2 a3) s s' | _ => True end : Prop) as Hev.
  { intros m H. specialize (H s). by destruct (m s). }
  unfold native_syscall_dispatch. destruct (nr =? SYS_WRITE).
  - destruct (_ && _); [|exact Hpass]. apply Hev. unfold term_write_impl.
    apply evolves_bind; [apply _|by apply evolves_gets, _|]. intros b.
    apply evolves_bind; [apply _| |intros _; by apply evolves_ret, _]. destruct b; [|by apply evolves_ret, _].
    destruct (_ || _); [by apply evolves_ret, _|].
    apply evolves_bind; [apply _|apply native_ncall, writes_quiet; auto with frame|].
    intros bs. apply evolves_modify. intros n. unfold on_nk. cbn. reflexivity.
  - destruct (Z.eqb_spec nr SYS_READ) as [->|]; [|exact Hpass]. destruct (a0 =? 0); [|exact Hpass].
    destruct (_ || _); [by apply Hev, evolves_ret, _|]. apply Hev, native_read_line_within.
    intros x Hx. unfold range in Hx. unfold in_window_of, range. cbn. ilia.
Qed.

Section Safe.
Context (r : option (Z * Z)).

(** As [keeps] of SyscallInv.v, for computations that leave the terminal alone. *)
Definition nkeeps {A} (m : N A) (phi : A -> Prop) : Prop := forall s, wf r (nk s) ->
  match m s with
  | Done a s' => phi a /\ wf r (nk s') /\ OUT s' = OUT s /\ shown s' = shown s
  | Fail e _ => False
  | Halt h => h <> Panicked
  end.
Lemma nkeeps_ncall {A} (m : K A) phi : keeps r m phi -> nkeeps (ncall m) phi.
Proof.
  intros Hm s Hs. specialize (Hm (nk s) Hs). unfold ncall.
  destruct (m (nk s)) as [a k|[]|h]; [|done]. by destruct Hm.
Qed.
Lemma nkeeps_ret {A} (a : A) (phi : A -> Prop) : phi a -> nkeeps (ret a) phi.
Proof. by intros H s Hs. Qed.
Lemma nkeeps_bind {A B} (m : N A) (f : A -> N B) (phi : A -> Prop) (psi : B -> Prop) :
  nkeeps m phi -> (forall a, phi a -> nkeeps (f a) psi) -> nkeeps (m ≫= f) psi.
Proof.
  intros Hm Hf s Hs. specialize (Hm s Hs). unfold mbind, prog_bind.
  destruct (m s) as [a s'|[]|h]; [|done]. destruct Hm as (Ha & Hs' & Ho & Hsh).
  specialize (Hf a Ha s' Hs'). destruct (f a s') as [b s2|[]|h]; [|done]. intuition congruence.
Qed.
Lemma nkeeps_read_line n ptr got : 0 <= got -> got + Z.of_nat n <= u64_max ->
  nkeeps (native_read_line n ptr got) is_u64.
Proof.
  revert got. induction n as [|n IH]; intros got Hg Hb; cbn [native_read_line].
  - apply nkeeps_ret. ilia.
  - eapply nkeeps_bind.
    + apply nkeeps_ncall. unfold posix.read_stdin_byte_blocking.
      eapply (keeps_bind _ _ _ (fun _ => True)); [by apply keeps_gets|]. intros b _.
      branch as Hi; [by apply (keeps_ret _ None (fun o => match o with Some ch => is_u8 ch | None => True end))|].
      eapply keeps_bind; [apply (keeps_gets _ _ (Forall (fun o => match o with Some ch => is_u8 ch | None => True end)));
        intros k []; done|]. intros ks Hks. by apply keeps_poll_byte.
    + intros [ch|] Hch; [|apply nkeeps_ret; ilia].
      assert (is_u8 (if ch =? 13 then 10 else ch)) as Hc by (branch as H13; [ilia|done]).
      eapply nkeeps_bind; [apply nkeeps_ncall, keeps_store; by constructor|]. intros _ _.
      branch as He; [apply nkeeps_ret; ilia|]. apply IH; lia.
Qed.
Lemma nkeeps_pass nr a0 a1 a2 a3 a4 :
  is_u64 a0 -> is_u64 a1 -> is_u64 a2 -> is_u64 a3 -> (nr = SYS_MMAP -> mmap_ok a1) ->
  nkeeps (v ← ncall (dispatch nr a0 a1 a2 a3 a4 0); ret (of_i64 v)) is_u64.
Proof.
  intros. eapply nkeeps_bind; [apply nkeeps_ncall; by apply keeps_dispatch|]. intros v Hv.
  apply nkeeps_ret. unfold of_i64, is_u64. by apply Z.mod_pos_bound.
Qed.

(** A [write] to the terminal. *)
Definition to_terminal (nr a0 a1 a2 : Z) : bool :=
  (nr =? SYS_WRITE) && ((a0 =? 1) || (a0 =? 2)) && negb (a1 =? 0) && negb (a2 =? 0).

(** C26: a native program's system calls are safe.  With any number and any
    64-bit arguments, in a well-formed kernel, the call answers a 64-bit value
    and leaves the kernel well formed with the same image, or the machine
    stops (as at an access outside of the modelled memory, where the statics
    are), with a panic only for an [mmap] of the last page of the address
    space.  A [write] to descriptor 1 or 2 from a non-null buffer answers its
    length, leaves the kernel as it is and shows on the installed terminal
    exactly the bytes of the buffer, in one piece; no other call shows
    anything. *)
Theorem native_dispatch_safe s nr a0 a1 a2 a3 a4 :
  wf r (nk s) -> is_u64 a0 -> is_u64 a1 -> is_u64 a2 -> is_u64 a3 ->
  match native_syscall_dispatch nr a0 a1 a2 a3 a4 s with
  | Done v s' => is_u64 v /\ wf r (nk s') /\ OUT s' = OUT s /\
      if to_terminal nr a0 a1 a2 then
        v = a2 /\ nk s' = nk s /\
        exists bs, (OUT s = true -> mem_read (mem (nk s)) a1 (Z.to_nat a2) = inl bs) /\
          shown s' = if OUT s then shown s ++ [bs] else shown s
      else shown s' = shown s
  | Fail e _ => False
  | Halt h => h = Panicked <-> nr = SYS_MMAP /\ u64_max - 0xFFF < a1
  end.
Proof.
  intros Hk H0 H1 H2 H3.
  assert (forall m : N Z, nkeeps m is_u64 -> (nr = SYS_MMAP -> mmap_ok a1) -> to_terminal nr a0 a1 a2 = false ->
    match m s with
    | Done v s' => is_u64 v /\ wf r (nk s') /\ OUT s' = OUT s /\
        if to_terminal nr a0 a1 a2 then
          v = a2 /\ nk s' = nk s /\ exists bs, (OUT s = true -> mem_read (mem (nk s)) a1 (Z.to_nat a2) = inl bs) /\
            shown s' = if OUT s then shown s ++ [bs] else shown s
        else shown s' = shown s
    | Fail e _ => False
    | Halt h => h = Panicked <-> nr = SYS_MMAP /\ u64_max - 0xFFF < a1
    end) as Hsafe.
  { intros m Hm Hmm ->. specialize (Hm s Hk). destruct (m s) as [v s'|[]|h]; [by destruct_and!|].
    split; [done|]. intros [Hn Ha]. specialize (Hmm Hn). unfold mmap_ok in Hmm. lia. }
  unfold native_syscall_dispatch. destruct (Z.eqb_spec nr SYS_WRITE) as [->|Hw].
  - assert (SYS_WRITE = SYS_MMAP -> mmap_ok a1) as Hmm by done.
    unfold to_terminal in *. cbn [andb] in *. change (SYS_WRITE =? SYS_WRITE) with true in *. cbn [andb] in *.
    destruct (((a0 =? 1) || (a0 =? 2)) && negb (a1 =? 0) && negb (a2 =? 0)) eqn:Ht.
    + unfold term_write_impl. replace ((a1 =? 0) || (a2 =? 0)) with false by lia. run_prog. destruct (OUT s) eqn:Ho.
      * unfold ncall, load. destruct (mem_read (mem (nk s)) a1 (Z.to_nat a2)) as [bs|e]; [|split; [done|by intros [? _]]].
        cbn. split_and!; try done. by exists bs.
      * cbn. split_and!; try done. exists []. by split.
    + apply Hsafe; [by apply nkeeps_pass|done|done].
  - assert (to_terminal nr a0 a1 a2 = false) as Hf by (unfold to_terminal; by rewrite (proj2 (Z.eqb_neq nr SYS_WRITE))).
    destruct (Z.eqb_spec nr SYS_READ) as [->|Hr].
    + branch as Hz; [|apply Hsafe; [by apply nkeeps_pass|done|done]].
      apply Hsafe; [|done|done]. branch as Hn; [apply nkeeps_ret; ilia|]. apply nkeeps_read_line; ilia.
    + destruct (decide (nr = SYS_MMAP /\ u64_max - 0xFFF < a1)) as [[-> Hm]|Hn].
      * change (dispatch SYS_MMAP a0 a1 a2 a3 a4 0) with (sys_mmap a1). run_prog. unfold ncall.
        rewrite sys_mmap_overflow by (unfold mmap_ok; lia). done.
      * assert (nr = SYS_MMAP -> mmap_ok a1) as Hmm by (unfold mmap_ok; intros ->; destruct (decide (u64_max - 0xFFF < a1)); [by destruct Hn|lia]).
        apply Hsafe; [by apply nkeeps_pass|done|done].
Qed.
End Safe.

(** A program prints "Hi!" from the image. *)
Lemma native_dispatch_safe_witness :
  let s := mkNative sample_kernel true [] in
  exists s', native_syscall_dispatch SYS_WRITE 1 (0x8000 + 76) 3 0 0 s = Done 3 s' /\ nk s' = sample_kernel /\
    shown s' = [str "Hi!"].
Proof.
  intros s.
  pose proof (native_dispatch_safe sample_root s SYS_WRITE 1 (0x8000 + 76) 3 0 0 sample_wf
    ltac:(by vm_compute) ltac:(by vm_compute) ltac:(by vm_compute) ltac:(by vm_compute)) as H.
  assert (match native_syscall_dispatch SYS_WRITE 1 (0x8000 + 76) 3 0 0 s with
    Done v s' => v = 3 /\ shown s' = [str "Hi!"] | _ => False end) as Hv by (vm_compute; split; reflexivity).
  destruct (native_syscall_dispatch _ _ _ _ _ _ s) as [v s'|e s'|h]; [|destruct Hv..].
  destruct Hv as [-> Hsh]. exists s'. split; [reflexivity|]. split; [apply H|exact Hsh].
Defined.
End native_inv.
