(* ===== verification/NativeStub.v ===== *)
(** * Entering and leaving a native program (kernel/src/native_runner.rs)

    The assembly at the head of the file: [leonos3_native_enter] jumps into a
    program and remembers how to come back, [leonos3_native_syscall_entry] is
    where the [syscall] instruction lands.  The instructions the two use are
    given their effect on the registers and on memory; the Rust functions they
    call are the ones of Native.v, run on the same memory: the program's stack
    is where the stub saves registers, where the compiled function has its
    frame, and where the program may have the buffer it passes. *)
From stdpp Require Import gmap.
From S2P Require Import Prelude Utf8 Fs Kernel Posix Syscall SyscallInv SyscallFrame SyscallMem Native NativeInv.

Module stub.
Import native.

(** ** The processor *)
Inductive areg := RAX | RBX | RCX | RDX | RSI | RDI | RBP | RSP | R8 | R9 | R10 | R11 | R12 | R13 | R14 | R15.
#[export] Instance areg_eq_dec : EqDecision areg.
Proof. solve_decision. Defined.

(** The registers, the instruction pointer, the kernel with its memory, and
    the two statics of the stubs. *)
Record asm := mkAsm {
  gpr : areg -> Z; ip : Z; sys : native; return_rsp : Z; return_rip : Z }.
Definition upd (r : areg) (v : Z) (g : areg -> Z) : areg -> Z := fun q => if decide (q = r) then v else g q.
Definition set_gpr (r : areg) (v : Z) (s : asm) : asm :=
  mkAsm (upd r v (gpr s)) (ip s) (sys s) (return_rsp s) (return_rip s).
Definition set_ip (v : Z) (s : asm) : asm := mkAsm (gpr s) v (sys s) (return_rsp s) (return_rip s).
Definition set_return (rsp rip : Z) (s : asm) : asm := mkAsm (gpr s) (ip s) (sys s) rsp rip.

Definition A (T : Type) : Type := prog asm Empty_set T.
(** A Rust function, or an access to memory, on the kernel's state. *)
Definition on_sys {T} (m : N T) : A T := fun s =>
  match m (sys s) with
  | Done x n => Done x (mkAsm (gpr s) (ip s) n (return_rsp s) (return_rip s))
  | Fail e _ => match e with end
  | Halt h => Halt h
  end.
Definition reg (r : areg) : A Z := gets (fun s => gpr s r).
Definition mov (dst src : areg) : A unit := v ← reg src; modify (set_gpr dst v).
Definition push_val (v : Z) : A unit :=
  sp ← reg RSP;
  let sp := wrapping_sub sp 8 in
  on_sys (ncall (store sp (to_le 8 v)));; modify (set_gpr RSP sp).
Definition push (r : areg) : A unit := v ← reg r; push_val v.
Definition pop_val : A Z :=
  sp ← reg RSP;
  bs ← on_sys (ncall (load sp 8));
  modify (set_gpr RSP (wrapping_add sp 8));; ret (from_le bs).
Definition pop (r : areg) : A unit := v ← pop_val; modify (set_gpr r v).
Definition ret_insn : A unit := v ← pop_val; modify (set_ip v).
Definition jmp (r : areg) : A unit := v ← reg r; modify (set_ip v).

(** *** Calls of compiled functions

    A C function keeps the callee-saved registers, leaves its result in RAX,
    and may leave anything in the others ([scratch]) and in the frame it has
    below the stack pointer ([frame]). *)
Definition callee_saved : list areg := [RBX; RBP; RSP; R12; R13; R14; R15].
Section Stubs.
Context (scratch : areg -> Z) (frame : bytes).
(** The addresses of the labels: where each [call] returns to. *)
Context (native_return after_dispatch after_mark : Z).

Definition clobber (v : Z) (s : asm) : asm :=
  mkAsm (fun q => if decide (q ∈ callee_saved) then gpr s q else if decide (q = RAX) then v else scratch q)
    (ip s) (sys s) (return_rsp s) (return_rip s).
Definition call (back : Z) (body : N Z) : A unit :=
  push_val back;;
  sp ← reg RSP;
  on_sys (ncall (store (wrapping_sub sp (zlen frame)) frame));;
  v ← on_sys body;
  modify (clobber v);;
  ret_insn.
Definition call_dispatch : A unit :=
  nr ← reg RDI; a0 ← reg RSI; a1 ← reg RDX; a2 ← reg RCX; a3 ← reg R8; a4 ← reg R9;
  call after_dispatch (native_syscall_dispatch nr a0 a1 a2 a3 a4).
Definition call_mark : A unit :=
  code ← reg RDI; call after_mark (native_mark_exit code;; ret (scratch RAX)).

(** ** The stubs *)

(** Up to the first instruction of the program. *)
Definition leonos3_native_enter : A unit :=
  sp ← reg RSP; modify (fun s => set_return sp (return_rip s) s);;
  modify (set_gpr RAX native_return);;
  back ← reg RAX; modify (fun s => set_return (return_rsp s) back s);;
  mov RSP RSI;;
  target ← reg RDI;
  push_val native_return;; modify (set_ip target).

Definition save_regs : A unit :=
  push RCX;; push R11;; push RBX;; push RBP;; push R12;; push R13;; push R14;; push R15;; ret tt.
Definition place_args : A unit :=
  mov RBX RDI;; mov RBP RSI;; mov R12 RDX;; mov R13 R10;; mov R14 R8;; mov R15 R9;;
  mov RDI RAX;; mov RSI RBX;; mov RDX RBP;; mov RCX R12;; mov R8 R13;; mov R9 R14.
Definition restore_regs : A unit :=
  pop R15;; pop R14;; pop R13;; pop R12;; pop RBP;; pop RBX;; pop R11;; pop RCX;; ret tt.

Definition native_exit : A unit :=
  call_mark;;
  sp ← gets return_rsp; modify (set_gpr RSP sp);;
  back ← gets return_rip; modify (set_ip back).

Definition leonos3_native_syscall_entry : A unit :=
  nr ← reg RAX;
  if (nr =? 60) || (nr =? 231) then native_exit else
  save_regs;; place_args;; call_dispatch;; restore_regs;; jmp RCX.

(** ** Words in memory *)
Definition memory (s : asm) : gmap Z Z := mem (nk (sys s)).
Definition with_memory (m : gmap Z Z) (n : native) : native := mkNative (with_mem m (nk n)) (OUT n) (shown n).
Definition word_at (m : gmap Z Z) (a v : Z) : Prop := mem_read m a 8 = inl (to_le 8 v).
(** [vs] from address [a] on. *)
Fixpoint words_at (m : gmap Z Z) (a : Z) (vs : list Z) : Prop :=
  match vs with [] => True | v :: vs => word_at m a v /\ words_at m (a + 8) vs end.

Lemma word_at_ext m m' a v : (forall x, range a 8 x -> m' !! x = m !! x) -> word_at m a v -> word_at m' a v.
Proof. intros Hm Hv. unfold word_at in *. rewrite <-Hv. by apply mem_read_ext. Qed.
Lemma words_at_ext m m' a vs :
  (forall x, range a (8 * zlen vs) x -> m' !! x = m !! x) -> words_at m a vs -> words_at m' a vs.
Proof.
  revert a. induction vs as [|v vs IH]; intros a; cbn [words_at]; [done|]. rewrite zlen_cons.
  pose proof (zlen_nonneg vs). unfold range. intros Hm [H1 H2]. split.
  - eapply word_at_ext; [|done]. unfold range. intros x Hx. apply Hm. lia.
  - apply IH; [|done]. unfold range. intros x Hx. apply Hm. lia.
Qed.
Lemma words_at_snoc m a vs v : words_at m a (vs ++ [v]) <-> words_at m a vs /\ word_at m (a + 8 * zlen vs) v.
Proof.
  revert a. induction vs as [|x vs IH]; intros a; cbn [app words_at].
  - replace (a + 8 * zlen (@nil Z)) with a by (rewrite (zlen_nil (A := Z)); lia). tauto.
  - rewrite IH, zlen_cons. replace (a + 8 + 8 * zlen vs) with (a + 8 * (1 + zlen vs)) by lia. tauto.
Qed.

(** ** Pushing and popping *)

Lemma mem_write_bytes m a bs m' : bytes_ok bs -> mem_write m a bs = inl m' ->
  map_Forall (fun _ b => is_u8 b) m -> map_Forall (fun _ b => is_u8 b) m'.
Proof.
  intros Hb Hw Hm x b Hx. pose proof (mem_write_spec m a bs) as Hs. rewrite Hw in Hs. destruct Hs as [_ Hs].
  rewrite Hs in Hx. destruct (in_window a bs x); [|by apply Hm in Hx].
  unfold bytes_ok in Hb. rewrite Forall_lookup in Hb. eauto.
Qed.
(** The state after memory was written on the stack: everything but the stack
    pointer and the bytes from [lo] up to [hi] is as before. *)
Record stacked (lo hi : Z) (s s' : asm) : Prop := mkStacked {
  st_regs : forall q, q <> RSP -> gpr s' q = gpr s q;
  st_sys : sys s' = with_memory (memory s') (sys s);
  st_mem : forall x, ~ lo <= x < hi -> memory s' !! x = memory s !! x;
  st_bytes : map_Forall (fun _ b => is_u8 b) (memory s) -> map_Forall (fun _ b => is_u8 b) (memory s');
  st_dom : forall x, is_Some (memory s !! x) -> is_Some (memory s' !! x);
  st_ip : ip s' = ip s; st_rsp : return_rsp s' = return_rsp s; st_rip : return_rip s' = return_rip s }.
Lemma stacked_trans l1 h1 l2 h2 lo hi s1 s2 s3 :
  lo <= l1 -> h1 <= hi -> lo <= l2 -> h2 <= hi -> stacked l1 h1 s1 s2 -> stacked l2 h2 s2 s3 -> stacked lo hi s1 s3.
Proof.
  intros ? ? ? ? [R1 S1 M1 Y1 D1 I1 A1 B1] [R2 S2 M2 Y2 D2 I2 A2 B2]. split; [| | |auto|auto|congruence..].
  - intros q Hq. by rewrite R2, R1.
  - rewrite S2 at 1. unfold with_memory at 1. rewrite S1. unfold memory, with_memory. by destruct (sys s1) as [[] ? ?].
  - intros x Hx. rewrite M2, M1 by lia. done.
Qed.

Lemma push_val_ok v s : 8 <= gpr s RSP <= u64_max -> mapped (memory s) (gpr s RSP - 8) 8 ->
  exists s', push_val v s = Done tt s' /\ gpr s' RSP = gpr s RSP - 8 /\
    stacked (gpr s RSP - 8) (gpr s RSP) s s' /\ word_at (memory s') (gpr s RSP - 8) v.
Proof.
  intros Hsp Hm. unfold push_val, reg. run_prog. rewrite wrapping_sub_small by ilia.
  destruct (mem_write_mapped (memory s) (gpr s RSP - 8) (to_le 8 v)) as [m' Hw]; [by rewrite zlen_to_le|].
  unfold on_sys, ncall, store. fold (memory s). rewrite Hw. eexists. split; [reflexivity|].
  match goal with |- gpr ?t RSP = _ /\ _ => set (s' := t); assert (memory s' = m') as Hm' by done end.
  pose proof (mem_write_spec (memory s) (gpr s RSP - 8) (to_le 8 v)) as Hs. rewrite Hw in Hs. destruct Hs as [_ Hs].
  split; [done|]. split; [split; try done|].
  - intros q Hq. cbn. unfold upd. by rewrite decide_False.
  - intros x Hx. rewrite Hm'. rewrite Hs. unfold in_window. rewrite zlen_to_le.
    branch as Hin; [|done]. rewrite andb_true_iff, Z.leb_le, Z.ltb_lt in Hin. lia.
  - rewrite Hm'. eapply mem_write_bytes; [apply to_le_ok|done].
  - intros x Hx. rewrite Hm'. by eapply mem_write_domain.
  - unfold word_at. rewrite Hm'. rewrite <-(to_le_length 8 v) at 1. by eapply mem_read_write_same.
Qed.
Lemma pop_val_ok s v : is_u64 v -> 0 <= gpr s RSP -> gpr s RSP + 8 <= u64_max -> word_at (memory s) (gpr s RSP) v ->
  pop_val s = Done v (set_gpr RSP (gpr s RSP + 8) s).
Proof.
  intros Hv H0 H1 Hw. unfold pop_val, reg. run_prog. unfold on_sys, ncall, load. fold (memory s).
  change (Z.to_nat 8) with 8%nat. rewrite Hw, from_le_to_le, wrapping_add_small by ilia.
  change (256 ^ Z.of_nat 8) with (2 ^ 64). rewrite Z.mod_small by ilia. by destruct s as [g i [[] ? ?] ? ?].
Qed.

Fixpoint push_all (rs : list areg) : A unit := match rs with [] => ret tt | r :: rs => push r;; push_all rs end.
Fixpoint pop_all (rs : list areg) : A unit := match rs with [] => ret tt | r :: rs => pop r;; pop_all rs end.
Lemma push_all_ok rs s : RSP ∉ rs -> 8 * zlen rs <= gpr s RSP <= u64_max ->
  mapped (memory s) (gpr s RSP - 8 * zlen rs) (8 * zlen rs) ->
  exists s', push_all rs s = Done tt s' /\ gpr s' RSP = gpr s RSP - 8 * zlen rs /\
    stacked (gpr s RSP - 8 * zlen rs) (gpr s RSP) s s' /\
    words_at (memory s') (gpr s RSP - 8 * zlen rs) (rev (map (gpr s) rs)).
Proof.
  revert s. induction rs as [|r rs IH]; intros s; cbn [push_all map rev words_at].
  { rewrite (zlen_nil (A := areg)). intros _ _ _. exists s. split_and!; [done|lia| |done]. split; try done. by destruct s as [g i [[] ? ?] ? ?]. }
  rewrite not_elem_of_cons, zlen_cons. pose proof (zlen_nonneg rs). intros [Hr Hn] Hsp Hm.
  destruct (push_val_ok (gpr s r) s) as (s1 & H1 & Hsp1 & Hst1 & Hw1); [lia|intros x Hx; apply Hm; lia|].
  destruct (IH s1) as (s2 & H2 & Hsp2 & Hst2 & Hw2); [done|lia| |].
  { intros x Hx. apply (st_dom _ _ _ _ Hst1), Hm. lia. }
  exists s2. split; [unfold push, reg; unfold mbind, prog_bind, gets; by rewrite H1|]. split; [lia|].
  split; [eapply stacked_trans; [..|exact Hst1|exact Hst2]; lia|].
  replace (gpr s RSP - 8 * (1 + zlen rs)) with (gpr s1 RSP - 8 * zlen rs) by lia.
  assert (map (gpr s1) rs = map (gpr s) rs) as Hmap.
  { apply map_ext_in. intros q Hq%list_elem_of_In. apply (st_regs _ _ _ _ Hst1). by intros ->. }
  rewrite Hmap in Hw2. apply words_at_snoc. split; [done|].
  assert (zlen (rev (map (gpr s) rs)) = zlen rs) as -> by (unfold zlen; by rewrite length_rev, length_map).
  replace (gpr s1 RSP - 8 * zlen rs + 8 * zlen rs) with (gpr s RSP - 8) by lia.
  eapply word_at_ext; [|exact Hw1]. unfold range. intros x Hx. apply (st_mem _ _ _ _ Hst2). lia.
Qed.
Lemma pop_all_ok rs vs s : RSP ∉ rs -> NoDup rs -> length vs = length rs -> Forall is_u64 vs ->
  0 <= gpr s RSP -> gpr s RSP + 8 * zlen rs <= u64_max -> words_at (memory s) (gpr s RSP) vs ->
  exists s', pop_all rs s = Done tt s' /\ gpr s' RSP = gpr s RSP + 8 * zlen rs /\ map (gpr s') rs = vs /\
    (forall q, q <> RSP -> q ∉ rs -> gpr s' q = gpr s q) /\ sys s' = sys s /\
    ip s' = ip s /\ return_rsp s' = return_rsp s /\ return_rip s' = return_rip s.
Proof.
  revert vs s. induction rs as [|r rs IH]; intros [|v vs] s; cbn [pop_all map words_at length]; try done.
  { rewrite (zlen_nil (A := areg)). intros. exists s. split_and!; try done. lia. }
  rewrite zlen_cons. pose proof (zlen_nonneg rs).
  intros [Hr Hn]%not_elem_of_cons [Hnd Hnd']%list.NoDup_cons Hlen [Hv Hvs]%Forall_cons_iff H0 Hsp [Hw Hws]. injection Hlen as Hlen.
  pose proof (pop_val_ok s v Hv H0 ltac:(lia) Hw) as Hp.
  set (s1 := set_gpr r v (set_gpr RSP (gpr s RSP + 8) s)).
  assert (gpr s1 RSP = gpr s RSP + 8) as Hsp1.
  { unfold s1. cbn. unfold upd. rewrite decide_False by done. by rewrite decide_True. }
  destruct (IH vs s1) as (s2 & H2 & Hsp2 & Hm2 & Hq2 & Hs2); [done..|lia|lia|by rewrite Hsp1|].
  exists s2. split; [unfold pop; unfold mbind, prog_bind; by rewrite Hp|]. split; [lia|].
  assert (forall q, q <> RSP -> gpr s1 q = if decide (q = r) then v else gpr s q) as Hs1.
  { intros q Hq. unfold s1. cbn. unfold upd. repeat case_decide; congruence. }
  split; [f_equal; [|done]; rewrite Hq2, Hs1 by done; by rewrite decide_True|].
  split; [|done]. intros q Hq1 [Hq Hq']%not_elem_of_cons. rewrite Hq2, Hs1 by done. by rewrite decide_False.
Qed.

(** ** Calls *)
Lemma sys_of_memory s : with_memory (memory s) (sys s) = sys s.
Proof. unfold with_memory, memory. by destruct (sys s) as [[] ? ?]. Qed.
Definition with_sys (n : native) (s : asm) : asm := mkAsm (gpr s) (ip s) n (return_rsp s) (return_rip s).
(** Room for [n] bytes below the stack pointer. *)
Definition room (n : Z) (s : asm) : Prop :=
  n <= gpr s RSP <= u64_max /\ mapped (memory s) (gpr s RSP - n) n.
Lemma room_stacked lo hi n m s s' : stacked lo hi s s' -> gpr s' RSP = gpr s RSP - m -> 0 <= m ->
  room (m + n) s -> room n s'.
Proof.
  intros Hst Hsp Hm [H1 H2]. unfold room. rewrite Hsp. split; [lia|]. intros x Hx.
  apply (st_dom _ _ _ _ Hst), H2. lia.
Qed.

(** A call writes its return address and the frame, runs the function, and
    returns when the function left the return address alone. *)
Lemma call_ok back body s : is_u64 back -> bytes_ok frame -> room (8 + zlen frame) s ->
  exists s1, gpr s1 RSP = gpr s RSP - 8 /\ stacked (gpr s RSP - 8 - zlen frame) (gpr s RSP) s s1 /\
    match body (sys s1) with
    | Done v n => (forall x, range (gpr s RSP - 8) 8 x -> mem (nk n) !! x = memory s1 !! x) ->
        exists s', call back body s = Done tt s' /\ ip s' = back /\ gpr s' RAX = v /\
          (forall q, q ∈ callee_saved -> gpr s' q = gpr s q) /\ sys s' = n /\
          return_rsp s' = return_rsp s /\ return_rip s' = return_rip s
    | Fail _ _ => False
    | Halt h => call back body s = Halt h
    end.
Proof.
  intros Hback Hframe [Hsp Hm]. pose proof (zlen_nonneg frame).
  destruct (push_val_ok back s) as (t & Ht & Htsp & Hst & Hw); [lia|intros x Hx; apply Hm; lia|].
  destruct (mem_write_mapped (memory t) (gpr t RSP - zlen frame) frame) as [m Hmw].
  { intros x Hx. apply (st_dom _ _ _ _ Hst), Hm. lia. }
  pose proof (mem_write_spec (memory t) (gpr t RSP - zlen frame) frame) as Hs. rewrite Hmw in Hs. destruct Hs as [_ Hs].
  set (s1 := with_sys (with_memory m (sys t)) t). assert (memory s1 = m) as Hms by done.
  assert (forall x, ~ gpr s RSP - 8 - zlen frame <= x < gpr s RSP - 8 -> m !! x = memory t !! x) as Hout.
  { intros x Hx. rewrite Hs. unfold in_window. branch as Hin; [|done].
    rewrite andb_true_iff, Z.leb_le, Z.ltb_lt in Hin. lia. }
  assert (stacked (gpr s RSP - 8 - zlen frame) (gpr s RSP) t s1) as Hst1.
  { split; try done.
    - intros x Hx. rewrite Hms. apply Hout. lia.
    - rewrite Hms. by eapply mem_write_bytes.
    - intros x Hx. rewrite Hms. by eapply mem_write_domain. }
  exists s1. split; [done|]. split; [eapply stacked_trans; [..|exact Hst|exact Hst1]; lia|].
  assert (call back body s = match body (sys s1) with
    | Done v n => ret_insn (clobber v (with_sys n s1)) | Fail e _ => match e with end | Halt h => Halt h end) as ->.
  { unfold call. unfold mbind at 1, prog_bind at 1. rewrite Ht. unfold reg. run_prog.
    rewrite wrapping_sub_small by ilia. unfold on_sys at 1, ncall, store. fold (memory t). rewrite Hmw.
    unfold on_sys. match goal with |- context [body ?x] => change x with (sys s1) end.
    by destruct (body (sys s1)) as [v n|[]|h]. }
  destruct (body (sys s1)) as [v n|[]|h]; [|done]. intros Hkeep.
  assert (gpr (clobber v (with_sys n s1)) RSP = gpr s RSP - 8) as Hcsp by done.
  unfold ret_insn, mbind, prog_bind. rewrite (pop_val_ok _ back); [|done|rewrite Hcsp; lia..|].
  2: { rewrite Hcsp. change (memory _) with (mem (nk n)). eapply word_at_ext; [|exact Hw]. unfold range in *.
       intros x Hx. rewrite Hkeep by lia. rewrite Hms. apply Hout. lia. }
  eexists. split; [reflexivity|]. split; [done|]. split; [done|]. rewrite Hcsp.
  destruct Hst as [Hq _ _ _ _ _ Ha Hb]. split_and!; try done.
  intros q Hin. cbn. unfold upd. case_decide as Hq1; [rewrite Hq1; lia|]. rewrite decide_True by done. by apply Hq.
Qed.

(** ** Properties *)
Definition saved_regs : list areg := [RCX; R11; RBX; RBP; R12; R13; R14; R15].
Lemma place_args_eq s : exists s1, place_args s = Done tt s1 /\
  gpr s1 RDI = gpr s RAX /\ gpr s1 RSI = gpr s RDI /\ gpr s1 RDX = gpr s RSI /\ gpr s1 RCX = gpr s RDX /\
  gpr s1 R8 = gpr s R10 /\ gpr s1 R9 = gpr s R8 /\ gpr s1 RSP = gpr s RSP /\ sys s1 = sys s /\
  return_rsp s1 = return_rsp s /\ return_rip s1 = return_rip s.
Proof. eexists. split; [reflexivity|]. by split_and!. Qed.

(** Up to the call: the registers are on the stack, the arguments in place. *)
Lemma stub_saves s : gpr s RAX <> 60 -> gpr s RAX <> 231 -> room (72 + zlen frame) s ->
  exists t, leonos3_native_syscall_entry s = match call_dispatch t with
      | Done _ u => (restore_regs;; jmp RCX) u | Fail e u => Fail e u | Halt h => Halt h end /\
    map (gpr t) [RDI; RSI; RDX; RCX; R8; R9] = map (gpr s) [RAX; RDI; RSI; RDX; R10; R8] /\
    gpr t RSP = gpr s RSP - 64 /\ room (8 + zlen frame) t /\
    sys t = with_memory (memory t) (sys s) /\
    (forall x, ~ gpr s RSP - 64 <= x < gpr s RSP -> memory t !! x = memory s !! x) /\
    (map_Forall (fun _ b => is_u8 b) (memory s) -> map_Forall (fun _ b => is_u8 b) (memory t)) /\
    (forall x, is_Some (memory s !! x) -> is_Some (memory t !! x)) /\
    words_at (memory t) (gpr s RSP - 64) (rev (map (gpr s) saved_regs)) /\
    return_rsp t = return_rsp s /\ return_rip t = return_rip s.
Proof.
  intros H60 H231 [Hsp Hm]. pose proof (zlen_nonneg frame).
  destruct (push_all_ok saved_regs s) as (t1 & E1 & Hsp1 & Hst1 & Hw1); change (8 * zlen saved_regs) with 64 in *;
    [set_solver|lia|intros x Hx; apply Hm; lia|].
  destruct (place_args_eq t1) as (t2 & E2 & A1 & A2 & A3 & A4 & A5 & A6 & Hsp2 & Hsys2 & Hr2 & Hr2').
  destruct Hst1 as [Hq1 Hsys1 Hmem1 Hb1 Hd1 _ Hr1 Hr1'].
  assert (memory t2 = memory t1) as Hmem2 by (unfold memory; by rewrite Hsys2).
  exists t2. rewrite !Hmem2. split_and!; try congruence; try done.
  - unfold leonos3_native_syscall_entry, reg at 1. unfold mbind at 1, prog_bind at 1, gets.
    rewrite (proj2 (Z.eqb_neq _ 60)), (proj2 (Z.eqb_neq _ 231)) by done. cbn [orb].
    change save_regs with (push_all saved_regs). unfold mbind at 1, prog_bind at 1. rewrite E1.
    unfold mbind at 1, prog_bind at 1. rewrite E2. reflexivity.
  - cbn [map]. by rewrite A1, A2, A3, A4, A5, A6, !Hq1.
  - split; [lia|]. rewrite Hmem2, Hsp2, Hsp1. intros x Hx. apply Hd1, Hm. lia.
Qed.
(** After the call: the registers come back and the program goes on. *)
Lemma stub_restores s t : (forall q, is_u64 (gpr s q)) -> 64 <= gpr s RSP <= u64_max -> gpr t RSP = gpr s RSP - 64 ->
  words_at (memory t) (gpr s RSP - 64) (rev (map (gpr s) saved_regs)) ->
  exists u, (restore_regs;; jmp RCX) t = Done tt u /\ ip u = gpr s RCX /\ gpr u RAX = gpr t RAX /\
    (forall q, q ∈ RSP :: saved_regs -> gpr u q = gpr s q) /\ sys u = sys t /\
    return_rsp u = return_rsp t /\ return_rip u = return_rip t.
Proof.
  intros Hreg Hsp Hspt Hw.
  destruct (pop_all_ok (rev saved_regs) (rev (map (gpr s) saved_regs)) t) as (u & E & Hspu & Hmap & Hq & Hsys & _ & Hr & Hr').
  { cbn. set_solver. }
  { by apply (bool_decide_unpack _). }
  { done. }
  { cbn. repeat (constructor; [apply Hreg|]). constructor. }
  { lia. }
  { change (8 * zlen (rev saved_regs)) with 64. lia. }
  { by rewrite Hspt. }
  change (8 * zlen (rev saved_regs)) with 64 in Hspu.
  assert (forall q, q ∈ saved_regs -> gpr u q = gpr s q) as Hsaved.
  { cbn [map rev saved_regs app] in Hmap. injection Hmap as F1 F2 F3 F4 F5 F6 F7 F8. unfold saved_regs. intros q Hin.
    repeat (apply elem_of_cons in Hin as [->|Hin]; [assumption|]). by apply elem_of_nil in Hin. }
  exists (set_ip (gpr u RCX) u). split.
  { change restore_regs with (pop_all (rev saved_regs)). unfold mbind, prog_bind. by rewrite E. }
  split; [apply Hsaved; set_solver|]. split; [apply (Hq RAX); [done|cbn; set_solver]|]. split; [|done].
  intros q [->|Hin]%elem_of_cons; [change (gpr u RSP = gpr s RSP); lia|by apply Hsaved].
Qed.

(** C24: the system call stub.  A [syscall] instruction of a native program
    with any number but 60 and 231 runs the kernel's dispatcher with exactly
    the number and the first five arguments of the call, on memory that
    differs from the program's only in the stack area below the stack pointer
    (the saved registers, the return address and the frame of the compiled
    function).  If the dispatcher stops the machine, so does the call.
    Otherwise the program goes on at the address in RCX with the dispatcher's
    result in RAX, in the state the dispatcher left; the stack pointer, RCX,
    R11, RBX, RBP and R12 to R15 are unchanged, and so is every byte of memory
    outside the stack area and the buffer the call may write.  It takes a
    stack area that is mapped, and a buffer outside of it. *)
Theorem syscall_stub_round_trip r s :
  let sp := gpr s RSP in
  let buffer := in_window_of (gpr s RAX) (gpr s RDI) (gpr s RSI) (gpr s RDX) (gpr s R10) in
  gpr s RAX <> 60 -> gpr s RAX <> 231 -> is_u64 after_dispatch -> bytes_ok frame ->
  wf r (nk (sys s)) -> (forall q, is_u64 (gpr s q)) -> room (72 + zlen frame) s ->
  (forall x, buffer x -> ~ sp - 72 - zlen frame <= x < sp) ->
  exists m, (forall x, ~ sp - 72 - zlen frame <= x < sp -> m !! x = memory s !! x) /\
    match native_syscall_dispatch (gpr s RAX) (gpr s RDI) (gpr s RSI) (gpr s RDX) (gpr s R10) (gpr s R8)
            (with_memory m (sys s)) with
    | Done v n => exists s', leonos3_native_syscall_entry s = Done tt s' /\ ip s' = gpr s RCX /\
        gpr s' RAX = v /\ sys s' = n /\ (forall q, q ∈ RSP :: saved_regs -> gpr s' q = gpr s q) /\
        (forall x, ~ sp - 72 - zlen frame <= x < sp -> memory s' !! x = memory s !! x \/ buffer x) /\
        return_rsp s' = return_rsp s /\ return_rip s' = return_rip s
    | Fail _ _ => False
    | Halt h => leonos3_native_syscall_entry s = Halt h
    end.
Proof.
  intros sp buffer H60 H231 Hback Hframe Hwf Hreg Hroom Hbuf. pose proof (zlen_nonneg frame).
  destruct (stub_saves s H60 H231 Hroom) as (t & Hentry & Hargs & Hspt & Hroomt & Hsyst & Hmemt & Hbt & Hdt & Hwt & Hrt & Hrt').
  destruct Hroom as [Hsp _]. fold sp in Hspt, Hmemt, Hwt, Hsp. injection Hargs as A1 A2 A3 A4 A5 A6.
  set (body := native_syscall_dispatch (gpr s RAX) (gpr s RDI) (gpr s RSI) (gpr s RDX) (gpr s R10) (gpr s R8)).
  assert (call_dispatch t = call after_dispatch body t) as Hcd
    by (unfold body; rewrite <-A1, <-A2, <-A3, <-A4, <-A5, <-A6; reflexivity).
  destruct (call_ok after_dispatch body t Hback Hframe Hroomt) as (u & Hspu & Hstu & Hcall). rewrite Hspt in *.
  assert (sys u = with_memory (memory u) (sys s)) as Hsysu.
  { rewrite (st_sys _ _ _ _ Hstu) at 1. rewrite Hsyst. by destruct (sys s) as [[] ? ?]. }
  assert (forall x, ~ sp - 72 - zlen frame <= x < sp -> memory u !! x = memory s !! x) as Hout.
  { intros x Hx. rewrite (st_mem _ _ _ _ Hstu), Hmemt by lia. done. }
  exists (memory u). split; [done|]. rewrite <-Hsysu.
  assert (wf r (nk (sys u))) as Hwfu.
  { rewrite Hsysu. destruct Hwf. split; try done; cbn.
    - destruct r as [[addr n]|]; [|done]. cbn in *. intuition. intros x Hx. apply (st_dom _ _ _ _ Hstu), Hdt. auto.
    - by apply (st_bytes _ _ _ _ Hstu), Hbt. }
  pose proof (native_inv.native_within r (gpr s RAX) (gpr s RDI) (gpr s RSI) (gpr s RDX) (gpr s R10) (gpr s R8) (sys u)
    Hwfu (Hreg _) (Hreg _) (Hreg _)) as Hwin. fold buffer in Hwin. fold body in Hwin |- *.
  rewrite Hentry, Hcd. destruct (body (sys u)) as [v n|[]|h]; [|by rewrite Hcall].
  destruct Hcall as (t' & E' & _ & Hax & Hq & Hsys' & Hr & Hr').
  { unfold range. intros x Hx. destruct (Hwin x) as [_ [Hk|Hk]]; [exact Hk|]. destruct (Hbuf x Hk). lia. }
  rewrite E'.
  destruct (stub_restores s t' Hreg ltac:(fold sp; lia)) as (s' & Es & Hip & Hax' & Hsaved & Hsys & Hr2 & Hr2').
  { fold sp. rewrite Hq by set_solver. done. }
  { fold sp. eapply words_at_ext; [|exact Hwt]. unfold range. change (8 * zlen _) with 64. intros x Hx.
    unfold memory at 1. rewrite Hsys'. destruct (Hwin x) as [_ [Hk|Hk]]; [|destruct (Hbuf x Hk); lia].
    rewrite Hk. change (mem (nk (sys u))) with (memory u). by rewrite (st_mem _ _ _ _ Hstu) by lia. }
  exists s'. split_and!; try congruence; try done.
  intros x Hx. unfold memory at 1. rewrite Hsys, Hsys'.
  destruct (Hwin x) as [_ [Hk|Hk]]; [left|by right]. rewrite Hk. by apply Hout.
Qed.

Lemma enter_eq s0 : 8 <= gpr s0 RSI <= u64_max -> mapped (memory s0) (gpr s0 RSI - 8) 8 ->
  exists s1, leonos3_native_enter s0 = Done tt s1 /\ ip s1 = gpr s0 RDI /\ gpr s1 RSP = gpr s0 RSI - 8 /\
    word_at (memory s1) (gpr s0 RSI - 8) native_return /\
    (forall x, ~ range (gpr s0 RSI - 8) 8 x -> memory s1 !! x = memory s0 !! x) /\
    return_rsp s1 = gpr s0 RSP /\ return_rip s1 = native_return.
Proof.
  intros Hsi Hm. set (t := set_gpr RSP (gpr s0 RSI) (set_gpr RAX native_return
    (mkAsm (gpr s0) (ip s0) (sys s0) (gpr s0 RSP) native_return))).
  destruct (push_val_ok native_return t Hsi Hm) as (s1 & H1 & Hsp & Hst & Hw).
  exists (set_ip (gpr s0 RDI) s1). split.
  { change (leonos3_native_enter s0) with ((push_val native_return;; modify (set_ip (gpr s0 RDI))) t).
    unfold mbind, prog_bind. by rewrite H1. }
  split; [done|]. split; [exact Hsp|]. split; [exact Hw|].
  split; [|by destruct Hst]. intros x Hx. apply (st_mem _ _ _ _ Hst). unfold range in Hx.
  change (gpr t RSP) with (gpr s0 RSI). lia.
Qed.

(** C25: leaving a native program.  The stub enters the program at its entry
    point with its stack, a return address pushed; and when the program, from
    whatever state it reached with the stubs' statics and the kernel's return
    address intact, makes the system call [exit] or [exit_group], its exit
    code is recorded and control comes back behind the call of
    [leonos3_native_enter] with the kernel's stack pointer.  The other
    registers a C function must preserve hold the program's values, not the
    kernel's. *)
Theorem exit_returns_to_kernel s0 caller u :
  8 <= gpr s0 RSI <= u64_max -> mapped (memory s0) (gpr s0 RSI - 8) 8 ->
  is_u64 caller -> is_u64 after_mark -> bytes_ok frame -> 0 <= gpr s0 RSP -> gpr s0 RSP + 8 <= u64_max ->
  gpr u RAX = 60 \/ gpr u RAX = 231 -> room (8 + zlen frame) u ->
  gpr u RSP <= gpr s0 RSP \/ gpr s0 RSP + 8 <= gpr u RSP - 8 - zlen frame ->
  return_rsp u = gpr s0 RSP -> return_rip u = native_return -> word_at (memory u) (gpr s0 RSP) caller ->
  exists s1 s2 s', leonos3_native_enter s0 = Done tt s1 /\ ip s1 = gpr s0 RDI /\ gpr s1 RSP = gpr s0 RSI - 8 /\
    return_rsp s1 = return_rsp u /\ return_rip s1 = return_rip u /\
    leonos3_native_syscall_entry u = Done tt s2 /\ ip s2 = native_return /\
    ret_insn s2 = Done tt s' /\ ip s' = caller /\ gpr s' RSP = gpr s0 RSP + 8 /\
    LAST_EXIT (nk (sys s')) = to_i32 (gpr u RDI) /\ EXIT_WAITABLE (nk (sys s')) = true /\
    forall q, q ∈ [RBX; RBP; R12; R13; R14; R15] -> gpr s' q = gpr u q.
Proof.
  intros Hsi Hm Hcaller Hback Hframe Hk0 Hk1 Hax Hroom Hapart Hrsp Hrip Hword.
  destruct (enter_eq s0 Hsi Hm) as (s1 & He & Hip & Hsp1 & _ & _ & Hr1 & Hr1').
  set (body := native_mark_exit (gpr u RDI);; ret (scratch RAX) : N Z).
  destruct (call_ok after_mark body u Hback Hframe Hroom) as (t & Htsp & Hst & Hcall).
  destruct (body (sys t)) as [v n|[]|h] eqn:Hb; [|discriminate Hb]. injection Hb as <- Hn.
  destruct Hcall as (v & Ev & _ & _ & Hqv & Hsysv & Hv1 & Hv2); [by rewrite <-Hn|].
  set (s2 := set_ip (return_rip v) (set_gpr RSP (return_rsp v) v)).
  assert (leonos3_native_syscall_entry u = Done tt s2) as Hs2.
  { unfold leonos3_native_syscall_entry, reg at 1. unfold mbind at 1, prog_bind at 1, gets.
    replace ((gpr u RAX =? 60) || (gpr u RAX =? 231)) with true by (destruct Hax as [-> | ->]; done).
    change (native_exit u) with ((call after_mark body;; sp ← gets return_rsp; modify (set_gpr RSP sp);;
      back ← gets return_rip; modify (set_ip back)) u). unfold mbind at 1, prog_bind at 1. by rewrite Ev. }
  assert (gpr s2 RSP = gpr s0 RSP) as Hs2sp by (change (return_rsp v = gpr s0 RSP); congruence).
  assert (memory s2 = memory t) as Hs2m by (change (memory v = memory t); unfold memory; by rewrite Hsysv, <-Hn).
  assert (word_at (memory s2) (gpr s0 RSP) caller) as Hw2.
  { rewrite Hs2m. eapply word_at_ext; [|exact Hword]. unfold range. intros x Hx. apply (st_mem _ _ _ _ Hst). lia. }
  set (s' := set_ip caller (set_gpr RSP (gpr s0 RSP + 8) s2)). exists s1, s2, s'.
  split; [done|]. split; [done|]. split; [done|]. split; [congruence|]. split; [congruence|]. split; [done|].
  split; [change (return_rip v = native_return); congruence|]. split.
  { unfold ret_insn, mbind, prog_bind. rewrite (pop_val_ok _ caller); rewrite ?Hs2sp; done. }
  split; [done|]. split; [done|]. change (sys s') with (sys v). rewrite Hsysv, <-Hn. split; [done|]. split; [done|].
  intros q Hin. assert (q <> RSP /\ q ∈ callee_saved) as [Hne Hcs].
  { rewrite !elem_of_cons, elem_of_nil in Hin. unfold callee_saved. destruct_or!; subst; (split; [done|set_solver]). }
  change (gpr s' q) with (upd RSP (gpr s0 RSP + 8) (upd RSP (return_rsp v) (gpr v)) q). unfold upd.
  rewrite !decide_False by done. by apply Hqv.
Qed.
(** A program that returns from its entry point instead of calling [exit]: the
    [ret] at [.Lnative_return] runs on the program's stack and jumps to the
    word there, the argument count. *)
Lemma return_jumps_to_argc s0 argc :
  8 <= gpr s0 RSI -> gpr s0 RSI + 8 <= u64_max -> mapped (memory s0) (gpr s0 RSI - 8) 8 -> is_u64 native_return ->
  is_u64 argc -> word_at (memory s0) (gpr s0 RSI) argc ->
  exists s1 u s', leonos3_native_enter s0 = Done tt s1 /\ ret_insn s1 = Done tt u /\ ip u = native_return /\
    ret_insn u = Done tt s' /\ ip s' = argc.
Proof.
  intros Hsi Hsi' Hm Hn Hargc Ha. destruct (enter_eq s0) as (s1 & He & _ & Hsp & Hw & Hout & _); [lia|done|].
  exists s1. unfold ret_insn, mbind, prog_bind.
  rewrite (pop_val_ok s1 native_return); [|done|lia|lia|by rewrite Hsp].
  set (u := set_gpr RSP (gpr s1 RSP + 8) s1).
  assert (gpr u RSP = gpr s0 RSI) as Hu by (change (gpr s1 RSP + 8 = gpr s0 RSI); lia).
  exists (set_ip native_return u). eexists. split; [done|]. split; [done|]. split; [done|].
  rewrite (pop_val_ok _ argc); [|done|change (0 <= gpr u RSP); lia|change (gpr u RSP + 8 <= u64_max); lia|].
  - split; [reflexivity|done].
  - change (word_at (memory s1) (gpr u RSP) argc). rewrite Hu. eapply word_at_ext; [|exact Ha].
    unfold range. intros x Hx. apply Hout. unfold range. lia.
Qed.
End Stubs.

(** The words the stub pushes lie in the 128 bytes below the stack pointer
    that the System V ABI reserves for the running function: a native program
    compiled with a red zone finds RCX where its local was. *)
Lemma syscall_overwrites_red_zone v s : 8 <= gpr s RSP <= u64_max -> mapped (memory s) (gpr s RSP - 8) 8 ->
  gpr s RCX = v -> exists s', push RCX s = Done tt s' /\ word_at (memory s') (gpr s RSP - 8) v.
Proof.
  intros Hsp Hm <-. destruct (push_val_ok (gpr s RCX) s Hsp Hm) as (s' & H & _ & _ & Hw). by exists s'.
Qed.

(** *** Examples *)

(** A program with its stack in the 160 bytes from 0x2000. *)
Definition sample_asm (nr : Z) : asm :=
  mkAsm (fun q => match q with RAX => nr | RDI => 0x2000 | RSI => 8 | RDX => 0 | RCX => 0x400123 | RSP => 0x20A0 | _ => 7 end)
    0 (mkNative sample_kernel true []) 0x2050 0x9000.
Lemma sample_stack a n : 0x2000 <= a -> a + n <= 0x20A0 -> mapped (mem sample_kernel) a n.
Proof.
  intros Ha Hn x Hx. assert (mapped (mem sample_kernel) 0x2000 160) as H.
  { apply (mem_read_is_mapped _ _ _ (zreplicate 160 0)). by vm_compute. }
  apply H. lia.
Qed.
(** getrandom into the lower part of the stack. *)
Lemma syscall_stub_round_trip_witness :
  exists s', leonos3_native_syscall_entry (fun _ => 0) [1; 2; 3; 4; 5; 6; 7; 8] 0x9100 0x9200 (sample_asm SYS_GETRANDOM) = Done tt s' /\
    ip s' = 0x400123 /\ gpr s' RAX = 8 /\ gpr s' RSP = 0x20A0 /\ gpr s' R15 = 7.
Proof.
  destruct (syscall_stub_round_trip (fun _ => 0) [1; 2; 3; 4; 5; 6; 7; 8] 0x9100 0x9200 sample_root (sample_asm SYS_GETRANDOM))
    as (m & Hm & H).
  - done.
  - done.
  - unfold is_u64. lia.
  - by apply (bool_decide_unpack _).
  - exact sample_wf.
  - intros []; cbn; unfold is_u64; by split.
  - split; [by split|]. by apply sample_stack.
  - intros x Hx. change (range 0x2000 8 x) in Hx. unfold range in Hx. change (gpr _ RSP) with 0x20A0. change (zlen _) with 8. lia.
  - clear Hm. assert (match leonos3_native_syscall_entry (fun _ => 0) [1; 2; 3; 4; 5; 6; 7; 8] 0x9100 0x9200 (sample_asm SYS_GETRANDOM) with
      Done _ s' => gpr s' RAX = 8 | _ => False end) as Hd by (vm_compute; reflexivity).
    destruct (native_syscall_dispatch _ _ _ _ _ _ _) as [v n|[]|h]; [|rewrite H in Hd; destruct Hd].
    destruct H as (s' & Hs' & Hip & _ & _ & Hq & _). exists s'. rewrite Hs' in Hd |- *.
    split; [reflexivity|]. split; [exact Hip|]. split; [exact Hd|].
    split; [exact (Hq RSP ltac:(by apply (bool_decide_unpack _)))|exact (Hq R15 ltac:(by apply (bool_decide_unpack _)))].
Defined.

(** The kernel at RSP 0x2080 enters the program at 0x400000 with its stack at
    0x2040; the program calls exit(5). *)
Lemma exit_returns_to_kernel_witness :
  let s0 := mkAsm (fun q => match q with RDI => 0x400000 | RSI => 0x2040 | RSP => 0x2080 | _ => 1 end)
              0 (mkNative sample_kernel true []) 0 0 in
  let u := mkAsm (fun q => match q with RAX => 60 | RDI => 5 | RSP => 0x2030 | _ => 9 end)
              0x400123 (mkNative sample_kernel true []) 0x2080 0x9000 in
  exists s1 s2 s', leonos3_native_enter 0x9000 s0 = Done tt s1 /\ ip s1 = 0x400000 /\
    leonos3_native_syscall_entry (fun _ => 0) [1; 2] 0x9100 0x9200 u = Done tt s2 /\ ip s2 = 0x9000 /\
    ret_insn s2 = Done tt s' /\ ip s' = 0 /\ gpr s' RSP = 0x2088 /\ LAST_EXIT (nk (sys s')) = 5 /\ gpr s' RBX = 9.
Proof.
  intros s0 u.
  destruct (exit_returns_to_kernel (fun _ => 0) [1; 2] 0x9000 0x9100 0x9200 s0 0 u)
    as (s1 & s2 & s' & H1 & Hip & _ & _ & _ & H2 & Hip2 & H3 & Hip3 & Hsp & Hexit & _ & Hq).
  - by split.
  - by apply sample_stack.
  - by split.
  - by split.
  - by apply (bool_decide_unpack _).
  - done.
  - done.
  - by left.
  - split; [by split|]. by apply sample_stack.
  - by left.
  - done.
  - done.
  - vm_compute. reflexivity.
  - exists s1, s2, s'. split_and!; try assumption. exact (Hq RBX ltac:(by apply (bool_decide_unpack _))).
Defined.
End stub.
