(* ===== verification/Machine.v ===== *)
(** * The interpreter's machine (kernel/src/elf_runner.rs)

    The registers, the memory of the program, and the effects of the
    interpreter: it changes the registers and the memory, calls the kernel's
    system calls, and writes to the terminal.  The terminal is the os_terminal
    crate's; what the interpreter does to it is the sequence of byte strings
    it hands to [Terminal::process]. *)
From stdpp Require Import gmap.
From S2P Require Import Prelude Utf8 Fs Elf Kernel Posix Syscall UserMem.

Module elf_runner.

(** ** Data *)

Inductive RunError :=
| Parse (e : elf.ElfError)
| NoLoadSegment
| AddressOutOfRange
| UnsupportedComplexElf (entry segments memory_size : Z)
| UnsupportedInstruction (rip : Z) (bs : bytes)
| StepLimit (steps last_rip : Z).

Record Cpu := mkCpu {
  rax : Z; rbp : Z; rbx : Z; rsp : Z; rdi : Z; rsi : Z; rdx : Z;
  rcx : Z; r8 : Z; r9 : Z; r10 : Z; r12 : Z; r13 : Z; rip : Z;
  zf : bool; sf : bool }.

Definition set_rax (v : Z) (c : Cpu) : Cpu :=
  mkCpu v (rbp c) (rbx c) (rsp c) (rdi c) (rsi c) (rdx c) (rcx c) (r8 c)
    (r9 c) (r10 c) (r12 c) (r13 c) (rip c) (zf c) (sf c).
Definition set_rbp (v : Z) (c : Cpu) : Cpu :=
  mkCpu (rax c) v (rbx c) (rsp c) (rdi c) (rsi c) (rdx c) (rcx c) (r8 c)
    (r9 c) (r10 c) (r12 c) (r13 c) (rip c) (zf c) (sf c).
Definition set_rbx (v : Z) (c : Cpu) : Cpu :=
  mkCpu (rax c) (rbp c) v (rsp c) (rdi c) (rsi c) (rdx c) (rcx c) (r8 c)
    (r9 c) (r10 c) (r12 c) (r13 c) (rip c) (zf c) (sf c).
Definition set_rsp (v : Z) (c : Cpu) : Cpu :=
  mkCpu (rax c) (rbp c) (rbx c) v (rdi c) (rsi c) (rdx c) (rcx c) (r8 c)
    (r9 c) (r10 c) (r12 c) (r13 c) (rip c) (zf c) (sf c).
Definition set_rdi (v : Z) (c : Cpu) : Cpu :=
  mkCpu (rax c) (rbp c) (rbx c) (rsp c) v (rsi c) (rdx c) (rcx c) (r8 c)
    (r9 c) (r10 c) (r12 c) (r13 c) (rip c) (zf c) (sf c).
Definition set_rsi (v : Z) (c : Cpu) : Cpu :=
  mkCpu (rax c) (rbp c) (rbx c) (rsp c) (rdi c) v (rdx c) (rcx c) (r8 c)
    (r9 c) (r10 c) (r12 c) (r13 c) (rip c) (zf c) (sf c).
Definition set_rdx (v : Z) (c : Cpu) : Cpu :=
  mkCpu (rax c) (rbp c) (rbx c) (rsp c) (rdi c) (rsi c) v (rcx c) (r8 c)
    (r9 c) (r10 c) (r12 c) (r13 c) (rip c) (zf c) (sf c).
Definition set_rcx (v : Z) (c : Cpu) : Cpu :=
  mkCpu (rax c) (rbp c) (rbx c) (rsp c) (rdi c) (rsi c) (rdx c) v (r8 c)
    (r9 c) (r10 c) (r12 c) (r13 c) (rip c) (zf c) (sf c).
Definition set_r8 (v : Z) (c : Cpu) : Cpu :=
  mkCpu (rax c) (rbp c) (rbx c) (rsp c) (rdi c) (rsi c) (rdx c) (rcx c) v
    (r9 c) (r10 c) (r12 c) (r13 c) (rip c) (zf c) (sf c).
Definition set_r9 (v : Z) (c : Cpu) : Cpu :=
  mkCpu (rax c) (rbp c) (rbx c) (rsp c) (rdi c) (rsi c) (rdx c) (rcx c) (r8 c)
    v (r10 c) (r12 c) (r13 c) (rip c) (zf c) (sf c).
Definition set_r10 (v : Z) (c : Cpu) : Cpu :=
  mkCpu (rax c) (rbp c) (rbx c) (rsp c) (rdi c) (rsi c) (rdx c) (rcx c) (r8 c)
    (r9 c) v (r12 c) (r13 c) (rip c) (zf c) (sf c).
Definition set_r12 (v : Z) (c : Cpu) : Cpu :=
  mkCpu (rax c) (rbp c) (rbx c) (rsp c) (rdi c) (rsi c) (rdx c) (rcx c) (r8 c)
    (r9 c) (r10 c) v (r13 c) (rip c) (zf c) (sf c).
Definition set_r13 (v : Z) (c : Cpu) : Cpu :=
  mkCpu (rax c) (rbp c) (rbx c) (rsp c) (rdi c) (rsi c) (rdx c) (rcx c) (r8 c)
    (r9 c) (r10 c) (r12 c) v (rip c) (zf c) (sf c).
Definition set_rip (v : Z) (c : Cpu) : Cpu :=
  mkCpu (rax c) (rbp c) (rbx c) (rsp c) (rdi c) (rsi c) (rdx c) (rcx c) (r8 c)
    (r9 c) (r10 c) (r12 c) (r13 c) v (zf c) (sf c).
Definition set_zf (v : bool) (c : Cpu) : Cpu :=
  mkCpu (rax c) (rbp c) (rbx c) (rsp c) (rdi c) (rsi c) (rdx c) (rcx c) (r8 c)
    (r9 c) (r10 c) (r12 c) (r13 c) (rip c) v (sf c).
Definition set_sf (v : bool) (c : Cpu) : Cpu :=
  mkCpu (rax c) (rbp c) (rbx c) (rsp c) (rdi c) (rsi c) (rdx c) (rcx c) (r8 c)
    (r9 c) (r10 c) (r12 c) (r13 c) (rip c) (zf c) v.

Definition MAX_STEPS : Z := 128 * 1024.
Definition MAX_INTERP_MEM : Z := 16 * 1024 * 1024.
Definition STACK_SIZE : Z := 128 * 1024.
Definition ENOEXEC : Z := 8.

(** What outlives a program: the kernel and the terminal. *)
Record world := mkWorld { kern : kernel; term : list bytes }.
Record mach := mkMach { cpu : Cpu; umem : bytes; wld : world }.

Definition W (A : Type) : Type := prog world RunError A.
Definition X (A : Type) : Type := prog mach RunError A.

(** ** Effects *)

Definition kcall {A} (m : K A) : W A := fun w =>
  match m (kern w) with
  | Done a k => Done a (mkWorld k (term w))
  | Fail e k => match e with end
  | Halt h => Halt h
  end.
(** [terminal.process(bs)]. *)
Definition process (bs : bytes) : W unit := modify (fun w => mkWorld (kern w) (term w ++ [bs])).
(** The [Result] of a computation as a value. *)
Definition catch {A} (m : W A) : W (RunError + A) := fun w =>
  match m w with
  | Done a w => Done (inr a) w
  | Fail e w => Done (inl e) w
  | Halt h => Halt h
  end.
Definition in_world {A} (m : W A) : X A := fun s =>
  match m (wld s) with
  | Done a w => Done a (mkMach (cpu s) (umem s) w)
  | Fail e w => Fail e (mkMach (cpu s) (umem s) w)
  | Halt h => Halt h
  end.
Definition reg (f : Cpu -> Z) : X Z := gets (fun s => f (cpu s)).
Definition upd (f : Cpu -> Cpu) : X unit := modify (fun s => mkMach (f (cpu s)) (umem s) (wld s)).
Definition get_mem : X bytes := gets umem.
Definition set_mem (m : bytes) : X unit := modify (fun s => mkMach (cpu s) m (wld s)).

(** ** Registers *)

Definition get_al (c : Cpu) : Z := Z.land (rax c) 0xff.
Definition set_al (v : Z) (c : Cpu) : Cpu := set_rax (Z.lor (Z.land (rax c) (not64 0xff)) v) c.
Definition get_reg64 (c : Cpu) (r : Z) : Z :=
  if r =? 0 then rax c else if r =? 1 then rcx c else if r =? 2 then rdx c else
  if r =? 3 then rbx c else if r =? 4 then rsp c else if r =? 5 then rbp c else
  if r =? 6 then rsi c else if r =? 7 then rdi c else 0.
Definition set_reg64 (r v : Z) (c : Cpu) : Cpu :=
  if r =? 0 then set_rax v c else if r =? 1 then set_rcx v c else if r =? 2 then set_rdx v c else
  if r =? 3 then set_rbx v c else if r =? 4 then set_rsp v c else if r =? 5 then set_rbp v c else
  if r =? 6 then set_rsi v c else if r =? 7 then set_rdi v c else c.

(** ** Memory accesses at the virtual addresses of the program *)
Section Access.
Context (base : Z).

Definition rd_bytes (va : Z) : X bytes := m ← get_mem; lift (read_bytes AddressOutOfRange base m va).
Definition rd8 (va : Z) : X Z := m ← get_mem; lift (read_u8 AddressOutOfRange base m va).
Definition rd32 (va : Z) : X Z := m ← get_mem; lift (read_u32 AddressOutOfRange base m va).
Definition rd64 (va : Z) : X Z := m ← get_mem; lift (read_u64 AddressOutOfRange base m va).
Definition rdi32 (va : Z) : X Z := m ← get_mem; lift (read_i32 AddressOutOfRange base m va).
Definition wr32 (va v : Z) : X unit :=
  m ← get_mem; m ← lift (write_u32 AddressOutOfRange base m va v); set_mem m.
Definition wr64 (va v : Z) : X unit :=
  m ← get_mem; m ← lift (write_u64 AddressOutOfRange base m va v); set_mem m.

Definition push_u64 (v : Z) : X unit :=
  sp ← reg rsp;
  new_rsp ← lift (ok_or (checked_sub sp 8) AddressOutOfRange);
  wr64 new_rsp v;;
  upd (set_rsp new_rsp).
Definition pop_u64 : X Z :=
  sp ← reg rsp;
  v ← rd64 sp;
  sp' ← lift (ok_or (checked_add sp 8) AddressOutOfRange);
  upd (set_rsp sp');;
  ret v.
End Access.
End elf_runner.
