(* ===== verification/Shell.v ===== *)
(** * The shell (kernel/src/shell.rs)

    A line editor over the keyboard and the commands it runs.  The terminal is
    the sequence of byte strings handed to [Terminal::process]; the keyboard is
    the same one the system calls poll.  The commands of main.rs come in as
    [handle_custom]; like the source, which is generic in the handler, the
    shell runs on any state that has a kernel and a terminal. *)
From stdpp Require Import gmap.
From S2P Require Import Prelude Utf8 Kernel Posix Syscall Machine.

Module shell.

(** What the shell needs of the state it runs on. *)
Class Screen (S : Type) := {
  kern : S -> kernel;
  term : S -> list bytes;
  put : kernel -> list bytes -> S -> S;
  kern_put k t s : kern (put k t s) = k;
  term_put k t s : term (put k t s) = t;
  put_put k t k' t' s : put k t (put k' t' s) = put k t s;
  put_same s : put (kern s) (term s) s = s }.
#[export, refine] Instance world_screen : Screen elf_runner.world := {|
  kern := elf_runner.kern; term := elf_runner.term; put k t _ := elf_runner.mkWorld k t |}.
Proof. all: try done. by intros []. Defined.

Definition process `{Screen St} (bs : bytes) : prog St Empty_set unit :=
  modify (fun s => put (kern s) (term s ++ [bs]) s).

(** [let mut line = [0u8; 256]; let mut len = 0usize]. *)
Record editor := mkEditor { line : bytes; len : Z }.
Definition new_editor : editor := mkEditor (zreplicate 256 0) 0.

Definition prompt : bytes := str "leon> ".
Definition help_text : bytes := str "commands: help, echo, clear, about, ramdisk, ls, stat <f>, cat <f>, posix, syscall, syscap, busybox, elf [f], run <f> [args], runelf, halt" ++ [10].
Definition about_text : bytes := str "LeonOS 3 - Rust toy OS with os-terminal" ++ [10].
(** ESC [2J ESC [H. *)
Definition clear_text : bytes := [27] ++ str "[2J" ++ [27] ++ str "[H".

Section Shell.
Context `{Screen St}.
Local Abbreviation T A := (prog St Empty_set A).
Context (handle_custom : bytes -> T bool).

Definition exec_command (input : bytes) : T unit :=
  let cmd := trim input in
  if bool_decide (cmd = []) then ret tt else
  if bool_decide (cmd = str "help") then process help_text else
  if bool_decide (cmd = str "about") then process about_text else
  if bool_decide (cmd = str "clear") then process clear_text else
  if bool_decide (cmd = str "halt") then process (str "System halted." ++ [10]);; stop Spinning else
  match strip_prefix (str "echo ") cmd with
  | Some rest => process rest;; process [10]
  | None =>
    if bool_decide (cmd = str "echo") then process [10] else
    handled ← handle_custom cmd;
    if handled : bool then ret tt else
    process (str "unknown command: ");; process cmd;; process [10]
  end.

(** [match byte { ... }]. *)
Definition on_key (ed : editor) (byte : Z) : T editor :=
  if (byte =? 13) || (byte =? 10) then
    process [10];;
    input ← lift (sub_slice (line ed) 0 (len ed));
    (match from_utf8 input with
     | Some input => exec_command input
     | None => process (str "invalid utf-8 input" ++ [10])
     end);;
    process prompt;;
    ret (mkEditor (line ed) 0)
  else if (byte =? 8) || (byte =? 127) then
    if 0 <? len ed then
      process ([8] ++ str " " ++ [8]);; ret (mkEditor (line ed) (len ed - 1))
    else ret ed
  else if in_range 0x20 0x7e byte then
    if len ed <? zlen (line ed) then
      l ← lift (copy_from_slice (line ed) (len ed) (len ed + 1) [byte]);
      process [byte];;
      ret (mkEditor l (len ed + 1))
    else ret ed
  else ret ed.

(** One turn of the [loop]; with no poll left it keeps spinning. *)
Definition turn (ed : editor) : T editor :=
  ks ← gets (fun s => polls (kern s));
  match ks with
  | [] => stop Spinning
  | k :: ks =>
    modify (fun s => put (with_polls ks (kern s)) (term s) s);;
    match k with Some byte => on_key ed byte | None => ret ed end
  end.
(** The first [n] turns. *)
Fixpoint turns (n : nat) (ed : editor) : T editor :=
  match n with O => ret ed | S n => ed ← turn ed; turns n ed end.
Definition run_shell (n : nat) : T editor := process prompt;; turns n new_editor.

(** A kernel at its start with the keys to come. *)
Definition boot_with (keys : list (option Z)) : kernel := boot_kernel ∅ keys.

(** ** What the editor does *)

(** The text under edit after a key that is not Enter, and its echo. *)
Definition edit (text : bytes) (key : option Z) : bytes :=
  match key with
  | None => text
  | Some b =>
    if (b =? 8) || (b =? 127) then take (length text - 1) text
    else if in_range 0x20 0x7e b && (zlen text <? 256) then text ++ [b] else text
  end.
Definition echo (text : bytes) (key : option Z) : list bytes :=
  match key with
  | None => []
  | Some b =>
    if (b =? 8) || (b =? 127) then if bool_decide (text = []) then [] else [[8; 32; 8]]
    else if in_range 0x20 0x7e b && (zlen text <? 256) then [[b]] else []
  end.
Fixpoint edits (text : bytes) (keys : list (option Z)) : bytes :=
  match keys with [] => text | k :: keys => edits (edit text k) keys end.
Fixpoint echoes (text : bytes) (keys : list (option Z)) : list bytes :=
  match keys with [] => [] | k :: keys => echo text k ++ echoes (edit text k) keys end.
Definition is_enter (k : option Z) : bool := match k with Some b => (b =? 13) || (b =? 10) | None => false end.

(** The editor holds [text]. *)
Definition holds (ed : editor) (text : bytes) : Prop :=
  zlen (line ed) = 256 /\ len ed = zlen text /\ zlen text <= 256 /\ zslice (line ed) 0 (len ed) = text /\
  Forall (fun b => 0x20 <= b <= 0x7e) text.

Lemma holds_new : holds new_editor [].
Proof. by split_and!. Qed.
(** Printable ASCII is UTF-8. *)
Lemma printable_utf8 text : Forall (fun b => 0x20 <= b <= 0x7e) text -> from_utf8 text = Some text.
Proof.
  intros Ht. apply from_utf8_Some. split; [done|]. apply is_str_chars. exists (map (fun b => [b]) text). split.
  - induction Ht as [|b text Hb _ IH]; constructor; [|done]. unfold valid_char. cbn [utf8_chars].
    unfold in_range. by replace ((0 <=? b) && (b <=? 0x7F)) with true by lia.
  - clear Ht. induction text as [|b text IH]; cbn; [done|]. by rewrite <-IH.
Qed.

Lemma on_key_edit ed text b w : holds ed text -> is_enter (Some b) = false ->
  exists ed', on_key ed b w = Done ed' (put (kern w) (term w ++ echo text (Some b)) w) /\
    holds ed' (edit text (Some b)).
Proof.
  intros (Hl & Hlen & Hmax & Htext & Hp) He. unfold on_key, is_enter, edit, echo in *. rewrite He.
  pose proof (zlen_nonneg text). branch as Hb.
  - branch as Hpos.
    + rewrite bool_decide_false by (intros ->; rewrite zlen_nil in Hlen; lia).
      eexists. split; [reflexivity|]. cbn. assert (zlen (take (length text - 1) text) = zlen text - 1) as Ht.
      { unfold zlen in *. rewrite length_take. lia. }
      split_and!; cbn; try lia.
      * rewrite <-Htext at 2. unfold zslice. rewrite take_take. f_equal. unfold zlen in *. lia.
      * by apply Forall_take.
    + assert (text = []) as -> by (apply length_zero_iff_nil; unfold zlen in *; lia).
      rewrite bool_decide_true by done. exists ed. rewrite app_nil_r, put_same. by split_and!.
  - branch as Hr; cbn [andb].
    2: { exists ed. rewrite app_nil_r, put_same. by split_and!. }
    rewrite Hl, Hlen. branch as Hfull.
    2: { exists ed. rewrite app_nil_r, put_same. by split_and!. }
    run_prog. rewrite copy_from_slice_in by (rewrite ?zlen_cons, ?zlen_nil; lia).
    eexists. split; [reflexivity|]. unfold in_range in Hr.
    assert (zlen (splice (line ed) (zlen text) [b]) = 256) as Hs.
    { rewrite zlen_splice; [done|lia|rewrite zlen_cons, zlen_nil; lia]. }
    split_and!; cbn [line len]; try lia.
    + rewrite zlen_app, zlen_cons, zlen_nil. lia.
    + rewrite zlen_app, zlen_cons, zlen_nil. lia.
    + rewrite <-Htext at 3. rewrite Hlen. apply (splice_snoc (line ed)); lia.
    + apply Forall_app. split; [done|]. constructor; [lia|done].
Qed.

Lemma turn_poll ed w k ks : polls (kern w) = k :: ks ->
  turn ed w = match k with
    | Some byte => on_key ed byte (put (with_polls ks (kern w)) (term w) w)
    | None => Done ed (put (with_polls ks (kern w)) (term w) w) end.
Proof. intros Hp. unfold turn. run_prog. rewrite Hp. by destruct k. Qed.
Lemma turns_edit keys rest ed text w : holds ed text -> polls (kern w) = keys ++ rest ->
  forallb (fun k => negb (is_enter k)) keys = true ->
  exists ed', turns (length keys) ed w =
      Done ed' (put (with_polls rest (kern w)) (term w ++ echoes text keys) w) /\
    holds ed' (edits text keys).
Proof.
  intros Hh. revert ed text w Hh. induction keys as [|k keys IH]; intros ed text w Hh Hp He; cbn [turns length echoes edits].
  - exists ed. rewrite app_nil_r. split; [|done].
    cbn [app] in Hp. assert (with_polls rest (kern w) = kern w) as -> by (rewrite <-Hp; by destruct (kern w)).
    by rewrite put_same.
  - cbn [forallb] in He. apply andb_true_iff in He as [Hk%negb_true_iff He].
    change ((k :: keys) ++ rest) with (k :: (keys ++ rest)) in Hp.
    unfold mbind, prog_bind. rewrite (turn_poll _ _ _ _ Hp).
    assert (exists ed1, match k with
      | Some byte => on_key ed byte (put (with_polls (keys ++ rest) (kern w)) (term w) w)
      | None => Done ed (put (with_polls (keys ++ rest) (kern w)) (term w) w) end =
      Done ed1 (put (with_polls (keys ++ rest) (kern w)) (term w ++ echo text k) w) /\ holds ed1 (edit text k))
      as (ed1 & -> & Hh1).
    { destruct k as [b|].
      - destruct (on_key_edit ed text b (put (with_polls (keys ++ rest) (kern w)) (term w) w) Hh Hk) as (e1 & He1 & ?).
        rewrite kern_put, term_put, put_put in He1. eauto.
      - exists ed. cbn [echo]. by rewrite app_nil_r. }
    destruct (IH ed1 (edit text k) (put (with_polls (keys ++ rest) (kern w)) (term w ++ echo text k) w) Hh1)
      as (ed2 & Ht & Hh2); [by rewrite kern_put|done|].
    exists ed2. rewrite Ht, kern_put, term_put, put_put, app_assoc. by split.
Qed.

(** C27: the shell runs the line that was typed.  From an editor that holds
    [text], any keys without Enter leave the text edited by them, at most 256
    printable characters with backspace removing the last one, and echo them;
    Enter then prints a newline, runs the command on exactly that text,
    prints the prompt and starts an empty line.  The text is always valid
    UTF-8, so the "invalid utf-8 input" branch is never taken. *)
Theorem shell_runs_typed_line ed text keys enter rest w :
  holds ed text -> forallb (fun k => negb (is_enter k)) keys = true -> is_enter (Some enter) = true ->
  polls (kern w) = keys ++ Some enter :: rest ->
  exists ed', holds ed' [] /\
    turns (length keys + 1) ed w =
    (exec_command (edits text keys);; process prompt;; ret ed')
      (put (with_polls rest (kern w)) (term w ++ echoes text keys ++ [[10]]) w).
Proof.
  intros Hh Hk He Hp. destruct (turns_edit keys (Some enter :: rest) ed text w Hh Hp Hk) as (ed1 & Ht & Hh1).
  destruct Hh1 as (Hl & Hlen & Hmax & Htext & Hpr). exists (mkEditor (line ed1) 0). split; [by split_and!|].
  assert (forall n m e v, turns (n + m) e v = (e' ← turns n e; turns m e') v) as Hadd.
  { induction n as [|n IH]; intros m e v; cbn [turns Nat.add]; [done|]. unfold mbind, prog_bind.
    destruct (turn e v) as [e1 v1|[]|h]; [|done]. apply IH. }
  rewrite Hadd. unfold mbind at 1, prog_bind at 1. rewrite Ht. cbn [turns]. unfold mbind at 1, prog_bind at 1.
  rewrite (turn_poll _ _ (Some enter) rest) by (by rewrite kern_put). unfold on_key. unfold is_enter in He. rewrite He.
  pose proof (zlen_nonneg (edits text keys)).
  run_prog. rewrite sub_slice_in by lia. rewrite Htext, printable_utf8 by done. unfold process. run_prog.
  rewrite !kern_put, !term_put, !put_put, <-app_assoc. destruct (exec_command _ _) as [[] v|[]|h]; done.
Qed.
End Shell.

(** The handler of a shell without other commands; "hlp", a backspace
    twice, "elp" and Enter. *)
Lemma shell_runs_typed_line_witness :
  let keys := map Some (str "hlp" ++ [8; 8] ++ str "elp") in
  let w := elf_runner.mkWorld (boot_with (keys ++ [Some 10])) [] in
  exists ed', turns (fun _ => ret false) (length keys + 1) new_editor w =
    (process help_text;; process prompt;; ret ed')
      (elf_runner.mkWorld (boot_with []) (echoes [] keys ++ [[10]])).
Proof.
  intros keys w.
  destruct (shell_runs_typed_line (fun _ => ret false) new_editor [] keys 10 [] w holds_new
    ltac:(reflexivity) ltac:(reflexivity) ltac:(reflexivity)) as (ed' & _ & H).
  exists ed'. exact H.
Defined.
End shell.
