(* ===== verification/Console.v ===== *)
(** * Keyboard, frame buffer and text console (kernel/src/main.rs)

    The PS/2 scancodes as characters, the pixels of the boot frame buffer, and
    the text written straight to VGA memory when there is no frame buffer. *)
From S2P Require Import Prelude.

Module console.

(** ** Scancodes *)

(** [scancode_to_ascii]; characters are given by their codes. *)
Definition scancode_to_ascii (sc : Z) (shift : bool) : option Z :=
  match sc with
  | 0x1C => Some 10
  | 0x0E => Some 8
  | 0x39 => Some 32
  | 0x02 => Some (if shift then 33 else 49)
  | 0x03 => Some (if shift then 64 else 50)
  | 0x04 => Some (if shift then 35 else 51)
  | 0x05 => Some (if shift then 36 else 52)
  | 0x06 => Some (if shift then 37 else 53)
  | 0x07 => Some (if shift then 94 else 54)
  | 0x08 => Some (if shift then 38 else 55)
  | 0x09 => Some (if shift then 42 else 56)
  | 0x0A => Some (if shift then 40 else 57)
  | 0x0B => Some (if shift then 41 else 48)
  | 0x0C => Some (if shift then 95 else 45)
  | 0x0D => Some (if shift then 43 else 61)
  | 0x10 => Some (if shift then 81 else 113)
  | 0x11 => Some (if shift then 87 else 119)
  | 0x12 => Some (if shift then 69 else 101)
  | 0x13 => Some (if shift then 82 else 114)
  | 0x14 => Some (if shift then 84 else 116)
  | 0x15 => Some (if shift then 89 else 121)
  | 0x16 => Some (if shift then 85 else 117)
  | 0x17 => Some (if shift then 73 else 105)
  | 0x18 => Some (if shift then 79 else 111)
  | 0x19 => Some (if shift then 80 else 112)
  | 0x1E => Some (if shift then 65 else 97)
  | 0x1F => Some (if shift then 83 else 115)
  | 0x20 => Some (if shift then 68 else 100)
  | 0x21 => Some (if shift then 70 else 102)
  | 0x22 => Some (if shift then 71 else 103)
  | 0x23 => Some (if shift then 72 else 104)
  | 0x24 => Some (if shift then 74 else 106)
  | 0x25 => Some (if shift then 75 else 107)
  | 0x26 => Some (if shift then 76 else 108)
  | 0x2C => Some (if shift then 90 else 122)
  | 0x2D => Some (if shift then 88 else 120)
  | 0x2E => Some (if shift then 67 else 99)
  | 0x2F => Some (if shift then 86 else 118)
  | 0x30 => Some (if shift then 66 else 98)
  | 0x31 => Some (if shift then 78 else 110)
  | 0x32 => Some (if shift then 77 else 109)
  | _ => None
  end.

(** One poll: the value of the status port, the value the data port would give,
    and [SHIFT_DOWN]; the key and the new [SHIFT_DOWN]. *)
Definition keyboard_read_ascii_nonblocking (status sc : Z) (shift : bool) : option Z * bool :=
  if Z.land status 0x01 =? 0 then (None, shift) else
  if (sc =? 0x2A) || (sc =? 0x36) then (None, true) else
  if (sc =? 0xAA) || (sc =? 0xB6) then (None, false) else
  if negb (Z.land sc 0x80 =? 0) then (None, shift) else
  (scancode_to_ascii sc shift, shift).
(** Successive polls of a full data port. *)
Fixpoint typing (shift : bool) (scs : list Z) : list (option Z) :=
  match scs with
  | [] => []
  | sc :: scs =>
    let '(k, shift) := keyboard_read_ascii_nonblocking 1 sc shift in k :: typing shift scs
  end.

(** ** The frame buffer *)

(** The bootloader crate's [PixelFormat]; [Unknown] stands for its other cases. *)
Inductive PixelFormat := Rgb | Bgr | U8 | Unknown.
Record FrameBufferInfo := mkInfo {
  width : Z; height : Z; stride : Z; bytes_per_pixel : Z; pixel_format : PixelFormat }.
Definition color : Type := Z * Z * Z.

(** [pixel[i] = v]. *)
Definition set_byte {E} (pixel : bytes) (i v : Z) : outcome E bytes := copy_from_slice pixel i (i + 1) [v].
Definition paint {E} (info : FrameBufferInfo) (pixel : bytes) (c : color) : outcome E bytes :=
  let '(c0, c1, c2) := c in
  match pixel_format info with
  | Rgb => p ← set_byte pixel 0 c0; p ← set_byte p 1 c1; set_byte p 2 c2
  | Bgr => p ← set_byte pixel 0 c2; p ← set_byte p 1 c1; set_byte p 2 c0
  | U8 => set_byte pixel 0 ((c0 + c1 + c2) / 3)
  | Unknown =>
    p ← set_byte pixel 0 c0;
    p ← (if 1 <? bytes_per_pixel info then set_byte p 1 c1 else Ok p);
    if 2 <? bytes_per_pixel info then set_byte p 2 c2 else Ok p
  end.
Definition draw_pixel {E} (info : FrameBufferInfo) (buffer : bytes) (x y : Z) (c : color) : outcome E bytes :=
  if (width info <=? x) || (height info <=? y) then Ok buffer else
  row ← mul64 y (stride info);
  pixel_index ← add64 row x;
  byte_index ← mul64 pixel_index (bytes_per_pixel info);
  stop ← add64 byte_index (bytes_per_pixel info);
  pixel ← sub_slice buffer byte_index stop;
  pixel ← paint info pixel c;
  copy_from_slice buffer byte_index stop pixel.

(** ** VGA text memory *)

Definition VGA : Z := 0xb8000.
(** The volatile writes of [vga_fallback_print], in order: address and byte. *)
Fixpoint vga_loop (s : bytes) (offset : Z) : list (Z * Z) :=
  match s with
  | [] => []
  | b :: s =>
    if b =? 10 then vga_loop s ((offset / 80 + 1) * 80) else
    if 80 * 25 <=? offset then [] else
    (VGA + offset * 2, b) :: (VGA + (offset * 2 + 1), 0x0f) :: vga_loop s (offset + 1)
  end.
Definition vga_fallback_print (s : bytes) : list (Z * Z) := vga_loop s 0.

(** ** Facts *)

(** The characters of the two layouts. *)
Definition alphabet : list Z := [10; 8; 32] ++
  map Z.of_nat (seq 48 10) ++ map Z.of_nat (seq 65 26) ++ map Z.of_nat (seq 97 26) ++
  [33; 64; 35; 36; 37; 94; 38; 42; 40; 41; 95; 45; 43; 61].
Lemma scancode_known sc shift ch :
  scancode_to_ascii sc shift = Some ch -> 0 <= sc < 128.
Proof.
  unfold scancode_to_ascii. destruct sc as [|p|p]; [done| |done].
  do 7 (destruct p as [p|p|]; try done); intros H; try lia; destruct p; done.
Qed.
(** The table is finite: a test that every entry passes holds of all. *)
Lemma scancode_all (P : option Z -> bool) :
  forallb (fun n => P (scancode_to_ascii (Z.of_nat n) true) && P (scancode_to_ascii (Z.of_nat n) false))
    (seq 0 128) = true ->
  forall sc shift, 0 <= sc < 128 -> P (scancode_to_ascii sc shift) = true.
Proof.
  intros Hall sc shift Hsc. rewrite forallb_forall in Hall. specialize (Hall (Z.to_nat sc)).
  rewrite Z2Nat.id in Hall by lia. destruct (andb_prop _ _ (Hall ltac:(apply in_seq; lia))), shift; done.
Qed.
Lemma scancode_sound sc shift ch : scancode_to_ascii sc shift = Some ch -> ch ∈ alphabet.
Proof.
  intros H. pose proof (scancode_known _ _ _ H) as Hsc.
  pose proof (scancode_all (fun o => match o with Some c => existsb (Z.eqb c) alphabet | None => true end)
    eq_refl sc shift Hsc) as Hp.
  rewrite H in Hp. apply existsb_exists in Hp as (c & Hin & ->%Z.eqb_eq). by apply list_elem_of_In.
Qed.
Lemma scancode_complete ch : ch ∈ alphabet -> exists sc shift, 0 <= sc < 128 /\ scancode_to_ascii sc shift = Some ch.
Proof.
  intros Hin%list_elem_of_In.
  assert (forallb (fun c => existsb (fun n => existsb (fun b => bool_decide (scancode_to_ascii (Z.of_nat n) b = Some c))
    [true; false]) (seq 0 128)) alphabet = true) as Hall by (vm_compute; reflexivity).
  rewrite forallb_forall in Hall. specialize (Hall ch Hin).
  apply existsb_exists in Hall as (n & Hn & Hb). apply existsb_exists in Hb as (b & _ & Hb%bool_decide_eq_true).
  apply in_seq in Hn. exists (Z.of_nat n), b. split; [lia|done].
Qed.

(** The shift state after a sequence of codes: the last shift code decides. *)
Definition shift_after (shift : bool) (sc : Z) : bool :=
  if (sc =? 0x2A) || (sc =? 0x36) then true else if (sc =? 0xAA) || (sc =? 0xB6) then false else shift.
Lemma keyboard_eq sc shift : 0 <= sc < 256 ->
  keyboard_read_ascii_nonblocking 1 sc shift =
  (if sc <? 128 then if shift_after shift sc then scancode_to_ascii sc true else scancode_to_ascii sc false else None,
   shift_after shift sc).
Proof.
  intros Hsc. unfold keyboard_read_ascii_nonblocking, shift_after. change (Z.land 1 1 =? 0) with false. cbv iota.
  assert (Z.land sc 0x80 = if sc <? 128 then 0 else 128) as Hl.
  { change 0x80 with (Z.shiftl 1 7). rewrite (Z.land_comm sc).
    assert (forallb (fun n => Z.land (Z.shiftl 1 7) (Z.of_nat n) =? (if Z.of_nat n <? 128 then 0 else 128)) (seq 0 256) = true)
      as Hall by (vm_compute; reflexivity).
    rewrite forallb_forall in Hall. specialize (Hall (Z.to_nat sc) ltac:(apply in_seq; lia)).
    rewrite Z2Nat.id in Hall by lia. by apply Z.eqb_eq in Hall. }
  destruct ((sc =? 0x2A) || (sc =? 0x36)) eqn:H1.
  { apply orb_true_iff in H1 as [E%Z.eqb_eq | E%Z.eqb_eq]; subst sc; done. }
  destruct ((sc =? 0xAA) || (sc =? 0xB6)) eqn:H2.
  { apply orb_true_iff in H2 as [E%Z.eqb_eq | E%Z.eqb_eq]; subst sc; done. }
  rewrite Hl. destruct (Z.ltb_spec sc 128); cbn [negb Z.eqb]; [by destruct shift|done].
Qed.

(** ** Pixels *)

Definition needs (f : PixelFormat) : Z := match f with Rgb | Bgr => 3 | _ => 1 end.
(** A frame buffer the boot loader describes consistently. *)
Definition info_ok (info : FrameBufferInfo) (buffer : bytes) : Prop :=
  0 <= width info <= stride info /\ 0 <= height info /\ needs (pixel_format info) <= bytes_per_pixel info <= 64 /\
  stride info * height info * bytes_per_pixel info <= zlen buffer /\ zlen buffer <= i64_max.
(** The bytes of one pixel after a colour was put there: what the format
    stores, then the bytes it leaves alone. *)
Definition painted (info : FrameBufferInfo) (old : bytes) (c : color) : bytes :=
  let '(c0, c1, c2) := c in
  let new := match pixel_format info with
    | Rgb => [c0; c1; c2] | Bgr => [c2; c1; c0] | U8 => [(c0 + c1 + c2) / 3]
    | Unknown => take (Z.to_nat (bytes_per_pixel info)) [c0; c1; c2] end in
  new ++ drop (length new) old.
Definition pixel_at (info : FrameBufferInfo) (x y : Z) : Z := (y * stride info + x) * bytes_per_pixel info.

Lemma set_byte_eq {E} pixel i v : 0 <= i < zlen pixel -> set_byte (E := E) pixel i v = Ok (splice pixel i [v]).
Proof. intros. unfold set_byte. by rewrite copy_from_slice_in by (rewrite ?zlen_cons, ?zlen_nil; lia). Qed.
Lemma splice_0 (x v : Z) r : splice (x :: r) 0 [v] = v :: r.
Proof. done. Qed.
Lemma splice_1 (a x v : Z) r : splice (a :: x :: r) 1 [v] = a :: v :: r.
Proof. done. Qed.
Lemma splice_2 (a b x v : Z) r : splice (a :: b :: x :: r) 2 [v] = a :: b :: v :: r.
Proof. done. Qed.
Ltac painting :=
  rewrite set_byte_eq by (unfold zlen; cbn [length]; lia); cbn [mbind outcome_bind];
  rewrite ?splice_0, ?splice_1, ?splice_2.
Lemma paint_eq {E} info pixel c :
  zlen pixel = bytes_per_pixel info -> needs (pixel_format info) <= bytes_per_pixel info ->
  paint (E := E) info pixel c = Ok (painted info pixel c).
Proof.
  intros Hl Hn. destruct c as [[c0 c1] c2]. unfold paint, painted, needs in *.
  destruct (pixel_format info).
  - destruct pixel as [|p0 [|p1 [|p2 r]]]; unfold zlen in Hl; cbn [length] in Hl; try lia.
    by do 3 painting.
  - destruct pixel as [|p0 [|p1 [|p2 r]]]; unfold zlen in Hl; cbn [length] in Hl; try lia.
    by do 3 painting.
  - destruct pixel as [|p0 r]; unfold zlen in Hl; cbn [length] in Hl; try lia.
    by painting.
  - destruct pixel as [|p0 r]; unfold zlen in Hl; cbn [length] in Hl; try lia.
    painting.
    destruct (Z.ltb_spec 1 (bytes_per_pixel info)); cbn [mbind outcome_bind].
    + destruct r as [|p1 r]; cbn [length] in Hl; [lia|].
      painting.
      destruct (Z.ltb_spec 2 (bytes_per_pixel info)).
      * destruct r as [|p2 r]; cbn [length] in Hl; [lia|].
        painting. by rewrite take_ge by (cbn; lia).
      * replace (bytes_per_pixel info) with 2 by lia. done.
    + destruct (Z.ltb_spec 2 (bytes_per_pixel info)); [lia|].
      replace (bytes_per_pixel info) with 1 by lia. done.
Qed.
Lemma pixel_bounds info buffer x y :
  info_ok info buffer -> 0 <= x < width info -> 0 <= y < height info ->
  0 <= y * stride info /\ y * stride info + x <= u64_max /\ 0 <= pixel_at info x y /\
  pixel_at info x y + bytes_per_pixel info <= zlen buffer /\ 1 <= bytes_per_pixel info.
Proof.
  intros (Hw & Hh & Hb & Hs & Hz) Hx Hy.
  assert (1 <= bytes_per_pixel info) by (unfold needs in Hb; destruct (pixel_format info); lia).
  assert ((y + 1) * stride info <= height info * stride info) by (apply Z.mul_le_mono_nonneg_r; lia).
  assert (y * stride info + x + 1 <= stride info * height info) by lia.
  assert (0 <= y * stride info) by (apply Z.mul_nonneg_nonneg; lia).
  assert ((y * stride info + x + 1) * bytes_per_pixel info <= stride info * height info * bytes_per_pixel info)
    by (apply Z.mul_le_mono_nonneg_r; lia).
  assert ((y * stride info + x + 1) * 1 <= (y * stride info + x + 1) * bytes_per_pixel info)
    by (apply Z.mul_le_mono_nonneg_l; lia).
  unfold pixel_at. int_unfold. split_and!; try lia.
Qed.
Lemma zlen_painted info old c :
  zlen old = bytes_per_pixel info -> needs (pixel_format info) <= bytes_per_pixel info -> 0 <= bytes_per_pixel info ->
  zlen (painted info old c) = bytes_per_pixel info.
Proof.
  intros Hl Hn Hb. unfold painted. destruct c as [[c0 c1] c2]. rewrite zlen_app.
  match goal with |- zlen ?n + zlen (drop (length ?n) ?o) = _ =>
    assert (zlen n <= zlen o); [|unfold zlen in *; rewrite length_drop; lia] end.
  rewrite Hl. unfold needs in Hn. unfold zlen.
  destruct (pixel_format info); cbn [length]; try lia. rewrite length_take. lia.
Qed.
Lemma draw_pixel_inside {E} info buffer x y c :
  info_ok info buffer -> 0 <= x < width info -> 0 <= y < height info ->
  let at_ := pixel_at info x y in
  draw_pixel (E := E) info buffer x y c =
  Ok (splice buffer at_ (painted info (zslice buffer at_ (at_ + bytes_per_pixel info)) c)).
Proof.
  intros Hi Hx Hy at_. destruct (pixel_bounds info buffer x y Hi Hx Hy) as (H1 & H2 & H3 & H4 & H5).
  destruct Hi as (Hw & Hh & Hb & Hs & Hz). unfold draw_pixel.
  destruct (Z.leb_spec (width info) x); [lia|]. destruct (Z.leb_spec (height info) y); [lia|]. cbn [orb].
  rewrite mul64_small by lia. cbn [mbind outcome_bind].
  rewrite add64_small by lia. cbn [mbind outcome_bind].
  assert (bytes_per_pixel info <= u64_max) by ilia.
  unfold at_, pixel_at in *. clear at_.
  set (k := (y * stride info + x) * bytes_per_pixel info) in *.
  rewrite mul64_small by (fold k; ilia). cbn [mbind outcome_bind]. fold k.
  rewrite add64_small by ilia. cbn [mbind outcome_bind].
  rewrite sub_slice_in by lia. cbn [mbind outcome_bind].
  assert (zlen (zslice buffer k (k + bytes_per_pixel info)) = bytes_per_pixel info) as Hl by (rewrite zlen_zslice; lia).
  rewrite paint_eq by lia. cbn [mbind outcome_bind].
  by rewrite copy_from_slice_in by (rewrite ?zlen_painted; lia).
Qed.
(** ** The text of the fallback console *)
Lemma vga_loop_inside s : forall offset, 0 <= offset ->
  Forall (fun w => VGA <= w.1 < VGA + 2 * 80 * 25 /\ (w.2 ∈ s \/ w.2 = 0x0f) /\ w.2 <> 10) (vga_loop s offset).
Proof.
  induction s as [|b s IH]; intros offset Ho; cbn [vga_loop]; [constructor|].
  assert (forall ws, Forall (fun w : Z * Z => VGA <= w.1 < VGA + 2 * 80 * 25 /\ (w.2 ∈ s \/ w.2 = 0x0f) /\ w.2 <> 10) ws ->
    Forall (fun w => VGA <= w.1 < VGA + 2 * 80 * 25 /\ (w.2 ∈ b :: s \/ w.2 = 0x0f) /\ w.2 <> 10) ws) as Hm.
  { intros ws. apply Forall_impl. intros w (? & [?|?] & ?); split_and!; [lia|lia|left; apply elem_of_cons; by right|done|lia|lia|by right|done]. }
  destruct (Z.eqb_spec b 10).
  - apply Hm, IH. pose proof (Z.div_pos offset 80). lia.
  - destruct (Z.leb_spec (80 * 25) offset); [constructor|].
    repeat apply Forall_cons_2; cbn [fst snd]; [split_and!; [lia|lia|left; apply elem_of_cons; by left|done]|split_and!; [lia|lia|by right|done]|].
    apply Hm, IH. lia.
Qed.
(** Every byte of a line that fits the screen is written to its cell. *)
Lemma vga_loop_line s : forall offset, 0 <= offset -> offset + zlen s <= 80 * 25 -> 10 ∉ s ->
  vga_loop s offset = concat (imap (fun i b => let at_ := VGA + (offset + Z.of_nat i) * 2 in [(at_, b); (at_ + 1, 0x0f)]) s).
Proof.
  induction s as [|b s IH]; intros offset Ho Hl Hn; [done|]. rewrite zlen_cons in Hl. pose proof (zlen_nonneg s).
  apply not_elem_of_cons in Hn as [Hb Hs]. cbn [vga_loop].
  destruct (Z.eqb_spec b 10); [done|]. destruct (Z.leb_spec (80 * 25) offset); [lia|].
  rewrite (IH (offset + 1)) by (first [lia|done]). rewrite imap_cons. cbn [concat app].
  replace (offset + Z.of_nat 0) with offset by lia. cbn zeta.
  replace (VGA + offset * 2 + 1) with (VGA + (offset * 2 + 1)) by lia. do 3 f_equal. apply imap_ext. intros i x _. cbn. by replace (offset + 1 + Z.of_nat i) with (offset + Z.of_nat (S i)) by lia.
Qed.

(** ** Properties *)

Lemma typing_lookup scs : forall shift i sc, Forall is_u8 scs -> scs !! i = Some sc ->
  typing shift scs !! i =
  Some (if sc <? 128 then scancode_to_ascii sc (foldl shift_after shift (take (S i) scs)) else None).
Proof.
  induction scs as [|sc0 scs IH]; intros shift i sc Hu Hi; [done|].
  inversion Hu as [|? ? H0 Hr]; subst. cbn [typing]. rewrite keyboard_eq by apply H0.
  destruct i as [|i]; cbn in Hi |- *.
  - injection Hi as ->. rewrite take_0. cbn. do 2 f_equal. by destruct (shift_after shift sc).
  - by apply IH.
Qed.
(** C28: the keyboard types exactly the alphabet of its two layouts.  The
    [i]-th code of any sequence gives the character of its layout that the last
    shift code before it selects; every key read is in [alphabet]; every
    character of the alphabet is typed by some codes, whatever the shift state;
    so no code ever types a dot, a comma or a slash. *)
Theorem keyboard_types_alphabet shift scs :
  Forall is_u8 scs ->
  (forall i sc, scs !! i = Some sc -> typing shift scs !! i =
    Some (if sc <? 128 then scancode_to_ascii sc (foldl shift_after shift (take (S i) scs)) else None)) /\
  (forall ch, Some ch ∈ typing shift scs -> ch ∈ alphabet) /\
  (forall ch, ch ∈ alphabet -> exists code press, Forall is_u8 [press; code] /\ typing shift [press; code] = [None; Some ch]) /\
  Forall (fun ch => Some ch ∉ typing shift scs) [46; 44; 47].
Proof.
  intros Hu.
  assert (forall ch, Some ch ∈ typing shift scs -> ch ∈ alphabet) as Hin.
  { intros ch (i & Hi)%list_elem_of_lookup.
    destruct (lookup_lt_is_Some_2 scs i) as [sc Hsc].
    { assert (length (typing shift scs) = length scs) as <-; [|by apply lookup_lt_Some in Hi].
      clear. revert shift. induction scs as [|sc scs IH]; intros shift; [done|]. cbn.
      destruct (keyboard_read_ascii_nonblocking 1 sc shift) as [k s']. cbn. by rewrite IH. }
    rewrite (typing_lookup scs shift i sc Hu Hsc) in Hi. destruct (sc <? 128); [|done].
    injection Hi as Hi. by eapply scancode_sound. }
  split_and!; [by intros; apply typing_lookup|done| |].
  - intros ch (sc & s & Hsc & Hch)%scancode_complete.
    exists sc, (if s then 0x2A else 0xAA).
    split; [destruct s; repeat apply Forall_cons_2; unfold is_u8; try lia; constructor|].
    cbn [typing]. rewrite !keyboard_eq by (destruct s; lia).
    destruct s; cbn [Z.ltb Z.compare]; unfold shift_after; cbn;
      destruct (Z.ltb_spec sc 128); try lia.
    + destruct ((sc =? 42) || (sc =? 54)) eqn:H1; [by rewrite Hch|].
      destruct ((sc =? 170) || (sc =? 182)) eqn:H2; [lia|]. by rewrite Hch.
    + destruct ((sc =? 42) || (sc =? 54)) eqn:H1; [|destruct ((sc =? 170) || (sc =? 182)); by rewrite Hch].
      apply orb_true_iff in H1 as [->%Z.eqb_eq| ->%Z.eqb_eq]; done.
  - repeat apply Forall_cons_2; try constructor; intros Hx%Hin; revert Hx; apply (bool_decide_unpack _); reflexivity.
Qed.
Lemma keyboard_types_alphabet_witness :
  typing false [0x2A; 0x23; 0xAA; 0x17] = [None; Some 72; None; Some 105].
Proof.
  destruct (keyboard_types_alphabet false [0x2A; 0x23; 0xAA; 0x17]) as (Hl & _).
  { by repeat apply Forall_cons_2; try constructor. }
  apply list_eq. intros [|[|[|[|i]]]]; [by rewrite (Hl 0%nat _ eq_refl)|by rewrite (Hl 1%nat _ eq_refl)
    |by rewrite (Hl 2%nat _ eq_refl)|by rewrite (Hl 3%nat _ eq_refl)|done].
Defined.

(** C29: a frame buffer that is as large as its description is safe to draw
    on.  A pixel outside the visible area changes nothing; a pixel inside never
    panics, keeps the buffer's length, stores the colour as the format wants
    it in the pixel's own bytes and leaves every other visible pixel alone. *)
Theorem draw_pixel_confined {E} info buffer x y c :
  info_ok info buffer -> 0 <= x -> 0 <= y ->
  (~ (x < width info /\ y < height info) -> draw_pixel (E := E) info buffer x y c = Ok buffer) /\
  (x < width info -> y < height info -> exists buffer', draw_pixel (E := E) info buffer x y c = Ok buffer' /\
    zlen buffer' = zlen buffer /\
    let read (b : bytes) x y := zslice b (pixel_at info x y) (pixel_at info x y + bytes_per_pixel info) in
    read buffer' x y = painted info (read buffer x y) c /\
    forall x' y', 0 <= x' < width info -> 0 <= y' < height info -> (x', y') <> (x, y) ->
      read buffer' x' y' = read buffer x' y').
Proof.
  intros Hi Hx Hy. split.
  - intros Hout. unfold draw_pixel. destruct (Z.leb_spec (width info) x), (Z.leb_spec (height info) y); try done; lia.
  - intros Hx' Hy'. rewrite draw_pixel_inside by (done || lia).
    destruct (pixel_bounds info buffer x y) as (_ & _ & H3 & H4 & H5); [done|lia..|].
    set (p := pixel_at info x y) in *.
    assert (zlen (zslice buffer p (p + bytes_per_pixel info)) = bytes_per_pixel info) as Hl by (rewrite zlen_zslice; lia).
    assert (zlen (painted info (zslice buffer p (p + bytes_per_pixel info)) c) = bytes_per_pixel info) as Hp
      by (apply zlen_painted; [done|apply Hi|lia]).
    eexists. split; [done|]. split; [by rewrite zlen_splice by lia|]. cbn zeta. cbv beta. fold p.
    split; [apply zslice_splice_same; lia|].
    intros x2 y2 Hx2 Hy2 Hne.
    destruct (pixel_bounds info buffer x2 y2) as (_ & _ & G3 & G4 & G5); [done|lia..|].
    apply zslice_splice_other; [lia|lia|lia|]. rewrite Hp.
    destruct Hi as (Hw & _).
    assert (y2 * stride info + x2 <> y * stride info + x) as Hd.
    { intros Heq. apply Hne. assert (y2 = y) as ->; [|f_equal; lia].
      destruct (Z.lt_trichotomy y2 y) as [Hlt|[->|Hlt]]; [|done|].
      - assert ((y2 + 1) * stride info <= y * stride info) by (apply Z.mul_le_mono_nonneg_r; lia). lia.
      - assert ((y + 1) * stride info <= y2 * stride info) by (apply Z.mul_le_mono_nonneg_r; lia). lia. }
    unfold p, pixel_at.
    destruct (Z.lt_trichotomy (y2 * stride info + x2) (y * stride info + x)) as [Hlt|[?|Hlt]]; [left|done|right].
    + replace (_ + bytes_per_pixel info) with ((y2 * stride info + x2 + 1) * bytes_per_pixel info) by lia.
      apply Z.mul_le_mono_nonneg_r; lia.
    + replace (_ + bytes_per_pixel info) with ((y * stride info + x + 1) * bytes_per_pixel info) by lia.
      apply Z.mul_le_mono_nonneg_r; lia.
Qed.
Lemma draw_pixel_confined_witness :
  let info := mkInfo 2 1 2 4 Bgr in
  info_ok info [0; 0; 0; 0; 0; 0; 0; 9] /\
  draw_pixel (E := unit) info [0; 0; 0; 0; 0; 0; 0; 9] 1 0 (1, 2, 3) = Ok [0; 0; 0; 0; 3; 2; 1; 9] /\
  draw_pixel (E := unit) info [0; 0; 0; 0; 0; 0; 0; 9] 2 0 (1, 2, 3) = Ok [0; 0; 0; 0; 0; 0; 0; 9].
Proof.
  assert (info_ok (mkInfo 2 1 2 4 Bgr) [0; 0; 0; 0; 0; 0; 0; 9]) as Hi by (repeat split; vm_compute; congruence).
  split; [done|]. split.
  - destruct (draw_pixel_confined (E := unit) _ _ 1 0 (1, 2, 3) Hi) as [_ Hd]; [lia..|].
    destruct Hd as (b & Hb & _); [cbn; lia..|]. rewrite Hb. vm_compute in Hb. by rewrite Hb.
  - apply (draw_pixel_confined (E := unit) _ _ 2 0 (1, 2, 3) Hi); cbn; lia.
Defined.

(** C30: the fallback console writes only to the 4000 bytes of text memory,
    whatever it prints, and only bytes of the text, none of them a line feed,
    and the attribute; a text of one line that fits is shown whole, cell by
    cell from the top left corner. *)
Theorem vga_fallback_confined s :
  Forall (fun w => VGA <= w.1 < VGA + 4000 /\ (w.2 ∈ s \/ w.2 = 0x0f) /\ w.2 <> 10) (vga_fallback_print s) /\
  (zlen s <= 2000 -> 10 ∉ s -> vga_fallback_print s =
    concat (imap (fun i b => [(VGA + 2 * Z.of_nat i, b); (VGA + 2 * Z.of_nat i + 1, 0x0f)]) s)).
Proof.
  split; [by apply vga_loop_inside|]. intros Hl Hn. unfold vga_fallback_print. rewrite vga_loop_line by (done || lia).
  f_equal. apply imap_ext. intros i b _. cbn. repeat (f_equal; try lia).
Qed.
Lemma vga_fallback_confined_witness :
  vga_fallback_print [72; 105] = [(0xb8000, 72); (0xb8001, 15); (0xb8002, 105); (0xb8003, 15)].
Proof.
  destruct (vga_fallback_confined [72; 105]) as [_ Hw].
  rewrite Hw; [reflexivity|vm_compute; congruence|]. apply (bool_decide_unpack _). reflexivity.
Defined.
End console.
