(* ===== verification/Decode.v ===== *)
(** * One instruction (kernel/src/elf_runner.rs, [exec_one])

    [exec_one] compares the bytes at [rip] with a sequence of patterns.  Each
    definition below is a stretch of that sequence; its last argument is what
    the code does when none of its patterns applies. *)
From stdpp Require Import gmap.
From S2P Require Import Prelude Utf8 Kernel UserMem Machine.

Module decode.
Import elf_runner.

(** [b[0] == ps[0] && b[1] == ps[1] && ...]. *)
Fixpoint op (b ps : bytes) {struct ps} : bool :=
  match ps, b with
  | [], _ => true
  | p :: ps, x :: b => (x =? p) && op b ps
  | _, [] => false
  end.
(** [cpu.rip + n], and [cpu.rip += n; return Ok(false)]. *)
Definition ip_plus (n : Z) : X Z := ip ← reg rip; lift (add64 ip n).
Definition next (n : Z) : X bool := ip ← ip_plus n; upd (set_rip ip);; ret false.
(** [cpu.rip = v; return Ok(false)]. *)
Definition goto (v : Z) : X bool := upd (set_rip v);; ret false.
(** [((a as i64) + d) as u64]. *)
Definition sadd (a d : Z) : X Z := v ← lift (add_i64 (to_i64 a) d); ret (of_i64 v).
Definition i8 (x : Z) : Z := sext 8 x.

Section Decode.
Context (base : Z) (handle_syscall : X bool).

Definition exec_stack (b : bytes) (k : X bool) : X bool :=
  if op b [0xF3; 0x0F; 0x1E; 0xFA] then next 4 else
  if op b [0x90] then next 1 else
  if op b [0xC3] || op b [0xF4] then ret true else
  if op b [0x41; 0x55] then v ← reg r13; push_u64 base v;; next 2 else
  if op b [0x41; 0x5D] then v ← pop_u64 base; upd (set_r13 v);; next 2 else
  if op b [0x41; 0x54] then v ← reg r12; push_u64 base v;; next 2 else
  if op b [0x41; 0x5C] then v ← pop_u64 base; upd (set_r12 v);; next 2 else
  if op b [0x53] then v ← reg rbx; push_u64 base v;; next 1 else
  if op b [0x5B] then v ← pop_u64 base; upd (set_rbx v);; next 1 else
  if op b [0x48; 0x63; 0xC6] then
    v ← reg rsi; upd (set_rax (of_i64 (sext 32 v)));; next 3 else
  if op b [0x49; 0x89; 0xFD] then v ← reg rdi; upd (set_r13 v);; next 3 else
  if op b [0x55] then v ← reg rbp; push_u64 base v;; next 1 else
  if op b [0x5D] then v ← pop_u64 base; upd (set_rbp v);; next 1 else
  k.

(** [cpu.rdx.wrapping_add(cpu.rax.wrapping_mul(8)).wrapping_add(8)]. *)
Definition arg_addr (c : Cpu) : Z := wrapping_add (wrapping_add (rdx c) (wrapping_mul (rax c) 8)) 8.
Definition exec_arg (b : bytes) (k : X bool) : X bool :=
  if op b [0x48; 0x8D; 0x7C; 0xC2; 0x08] then a ← reg arg_addr; upd (set_rdi a);; next 5 else
  if op b [0x48; 0x89; 0x7C; 0xC2; 0x08] then
    a ← reg arg_addr; v ← reg rdi; wr64 base a v;; next 5 else
  if op b [0x48; 0x8B; 0x7C; 0xC2; 0x08] then
    a ← reg arg_addr; v ← rd64 base a; upd (set_rdi v);; next 5 else
  if op b [0x48; 0x89; 0xC5] then v ← reg rax; upd (set_rbp v);; next 3 else
  if op b [0x48; 0x89; 0xE5] then v ← reg rsp; upd (set_rbp v);; next 3 else
  if op b [0x48; 0x89; 0xEC] then v ← reg rbp; upd (set_rsp v);; next 3 else
  k.

(** add, or, sub with an immediate, by the opcode extension [o]. *)
Definition alu (o cur imm : Z) : Z :=
  if o =? 0 then of_i64 (to_i64 cur + imm) else
  if o =? 1 then Z.lor cur (of_i64 imm) else
  if o =? 5 then of_i64 (to_i64 cur - imm) else cur.
Definition is_alu (o : Z) : bool := (o =? 0) || (o =? 1) || (o =? 5).
Definition exec_alu8 (b : bytes) (k : X bool) : X bool :=
  if op b [0x48; 0x83] && (Z.land (b !!! 2%nat) 0xC0 =? 0xC0) then
    let o := Z.land (Z.shiftr (b !!! 2%nat) 3) 0x07 in
    let r := Z.land (b !!! 2%nat) 0x07 in
    let imm := i8 (b !!! 3%nat) in
    cur ← reg (fun c => get_reg64 c r);
    if is_alu o then upd (set_reg64 r (alu o cur imm));; next 4 else k
  else k.
Definition exec_alu32 (b : bytes) (k : X bool) : X bool :=
  if op b [0x48; 0x81] && (Z.land (b !!! 2%nat) 0xC0 =? 0xC0) then
    let o := Z.land (Z.shiftr (b !!! 2%nat) 3) 0x07 in
    let r := Z.land (b !!! 2%nat) 0x07 in
    a ← ip_plus 3;
    imm ← rd32 base a;
    let imm := sext 32 imm in
    cur ← reg (fun c => get_reg64 c r);
    if is_alu o then upd (set_reg64 r (alu o cur imm));; next 7 else k
  else k.

Definition exec_mov (b : bytes) (k : X bool) : X bool :=
  if op b [0x48; 0x89; 0xC7] then v ← reg rax; upd (set_rdi v);; next 3 else
  if op b [0x48; 0x89; 0xF8] then v ← reg rdi; upd (set_rax v);; next 3 else
  if op b [0x4C; 0x89; 0xC2] then v ← reg r8; upd (set_rdx v);; next 3 else
  if op b [0x4C; 0x89; 0xCE] then v ← reg r9; upd (set_rsi v);; next 3 else
  if op b [0x48; 0x89; 0xD7] then v ← reg rdx; upd (set_rdi v);; next 3 else
  if op b [0x48; 0x89; 0xD6] then v ← reg rdx; upd (set_rsi v);; next 3 else
  if op b [0x48; 0x31; 0xED] then upd (set_rbp 0);; next 3 else
  if op b [0x48; 0x89; 0xE7] then v ← reg rsp; upd (set_rdi v);; next 3 else
  k.

(** The three fields of a ModRM byte. *)
Definition mod_of (m : Z) : Z := Z.land (Z.shiftr m 6) 0x03.
Definition reg_of (m : Z) : Z := Z.land (Z.shiftr m 3) 0x07.
Definition rm_of (m : Z) : Z := Z.land m 0x07.

Definition set_loaded (r v : Z) (c : Cpu) : Cpu :=
  if r =? 0 then set_rax v c else if r =? 1 then set_rcx v c else if r =? 2 then set_rdx v c else
  if r =? 6 then set_rsi v c else if r =? 7 then set_rdi v c else c.
Definition exec_load32 (b : bytes) (k : X bool) : X bool :=
  if op b [0x8B] then
    let modrm := b !!! 1%nat in
    let mode := mod_of modrm in let rm := rm_of modrm in
    if negb (rm =? 0x04) then
      addr ← (if mode =? 0x00 then
                if rm =? 0x05 then ret None else a ← reg (fun c => get_reg64 c rm); ret (Some a)
              else if mode =? 0x01 then
                a ← reg (fun c => get_reg64 c rm); a ← sadd a (i8 (b !!! 2%nat)); ret (Some a)
              else ret None);
      match addr with
      | Some addr =>
        v ← rd32 base addr;
        upd (set_loaded (reg_of modrm) v);;
        next (if mode =? 0x01 then 3 else 2)
      | None => k
      end
    else k
  else k.

Definition set_lea (r v : Z) (c : Cpu) : Cpu :=
  if r =? 0 then set_rax v c else if r =? 2 then set_rdx v c else if r =? 5 then set_rbp v c else
  if r =? 6 then set_rsi v c else if r =? 7 then set_rdi v c else c.
Definition set_lea_ext (r v : Z) (c : Cpu) : Cpu :=
  if r =? 0 then set_r8 v c else if r =? 1 then set_r9 v c else c.
Definition exec_lea (b : bytes) (k : X bool) : X bool :=
  if op b [0x48; 0x8D] then
    let modrm := b !!! 2%nat in
    if (mod_of modrm =? 0x01) && negb (rm_of modrm =? 0x04) then
      a ← reg (fun c => get_reg64 c (rm_of modrm));
      addr ← sadd a (i8 (b !!! 3%nat));
      upd (set_lea (reg_of modrm) addr);; next 4
    else k
  else k.
Definition exec_lea_ext (b : bytes) (k : X bool) : X bool :=
  if op b [0x4C; 0x8D] then
    let modrm := b !!! 2%nat in
    if (mod_of modrm =? 0x01) && negb (rm_of modrm =? 0x04) then
      a ← reg (fun c => get_reg64 c (rm_of modrm));
      addr ← sadd a (i8 (b !!! 3%nat));
      upd (set_lea_ext (reg_of modrm) addr);; next 4
    else k
  else k.

Definition exec_misc (b : bytes) (k : X bool) : X bool :=
  if op b [0x48; 0x8B; 0x37] then
    a ← reg rdi; v ← rd64 base a; upd (set_rsi v);; next 3 else
  if op b [0x48; 0x8D; 0x57; 0x08] then
    v ← reg rdi; upd (set_rdx (wrapping_add v 8));; next 4 else
  if op b [0x48; 0x89; 0xE2] then v ← reg rsp; upd (set_rdx v);; next 3 else
  if op b [0x48; 0x89; 0xE6] then v ← reg rsp; upd (set_rsi v);; next 3 else
  if op b [0x49; 0x89; 0xD1] then v ← reg rdx; upd (set_r9 v);; next 3 else
  if op b [0x49; 0x89; 0xD0] then v ← reg rdx; upd (set_r8 v);; next 3 else
  if op b [0x48; 0x83; 0xE4] then
    let mask := of_i64 (i8 (b !!! 3%nat)) in
    v ← reg rsp; upd (set_rsp (Z.land v mask));; next 4 else
  if op b [0x4C; 0x8D; 0x4C; 0x24] then
    a ← reg rsp; v ← sadd a (i8 (b !!! 4%nat)); upd (set_r9 v);; next 5 else
  if op b [0x50] then v ← reg rax; push_u64 base v;; next 1 else
  if op b [0x54] then v ← reg rsp; push_u64 base v;; next 1 else
  if op b [0x5E] then v ← pop_u64 base; upd (set_rsi v);; next 1 else
  k.

Definition exec_zero (b : bytes) (k : X bool) : X bool :=
  if op b [0x45; 0x31; 0xC0] then upd (set_r8 0);; next 3 else
  if op b [0x45; 0x31; 0xC9] then upd (set_r9 0);; next 3 else
  if op b [0x45; 0x31; 0xD2] then upd (set_r10 0);; next 3 else
  if op b [0x31; 0xED] then upd (set_rbp 0);; next 2 else
  if op b [0x31; 0xC9] then upd (set_rcx 0);; next 2 else
  if op b [0x31; 0xD2] then upd (set_rdx 0);; next 2 else
  if op b [0x31; 0xC0] then upd (set_rax 0);; next 2 else
  if op b [0x31; 0xFF] then upd (set_rdi 0);; next 2 else
  k.

(** [zf] and [sf] of a 64-bit value; of [lhs - rhs] on bytes. *)
Definition test_flags (v : Z) (c : Cpu) : Cpu :=
  set_sf (negb (Z.shiftr v 63 =? 0)) (set_zf (v =? 0) c).
Definition cmp_flags (lhs rhs : Z) (c : Cpu) : Cpu :=
  set_sf (sext 8 (sext 8 lhs - sext 8 rhs) <? 0) (set_zf (lhs =? rhs) c).
Definition exec_test (b : bytes) (k : X bool) : X bool :=
  if op b [0x48; 0x85; 0xC0] then v ← reg rax; upd (test_flags v);; next 3 else
  if op b [0x48; 0x85; 0xD2] then v ← reg rdx; upd (test_flags v);; next 3 else
  if op b [0x48; 0x0F; 0x49; 0xD0] then
    upd (fun c => if negb (sf c) then set_rdx (rax c) c else c);; next 4 else
  if op b [0x43; 0x8A; 0x44; 0x01; 0xFF] then
    a ← reg (fun c => wrapping_sub (wrapping_add (r9 c) (r8 c)) 1);
    v ← rd8 base a; upd (set_al v);; next 5 else
  if op b [0x48; 0x8D; 0x52; 0xFF] then
    v ← reg rdx; upd (set_rdx (wrapping_sub v 1));; next 4 else
  if op b [0x3C] then
    lhs ← reg get_al; upd (cmp_flags lhs (b !!! 1%nat));; next 2 else
  k.

(** [mov r32, imm32] by the low bits of the opcode; rbx is not written. *)
Definition set_imm (r v : Z) (c : Cpu) : Cpu :=
  if r =? 0 then set_rax v c else if r =? 1 then set_rcx v c else if r =? 2 then set_rdx v c else
  if r =? 3 then c else if r =? 4 then set_rsp v c else if r =? 5 then set_rbp v c else
  if r =? 6 then set_rsi v c else if r =? 7 then set_rdi v c else c.
Definition exec_imm (b : bytes) (k : X bool) : X bool :=
  if op b [0x48; 0xC7; 0xC0] then a ← ip_plus 3; v ← rd32 base a; upd (set_rax v);; next 7 else
  if op b [0x48; 0xC7; 0xC7] then a ← ip_plus 3; v ← rd32 base a; upd (set_rdi v);; next 7 else
  if op b [0x48; 0xC7; 0xC6] then a ← ip_plus 3; v ← rd32 base a; upd (set_rsi v);; next 7 else
  if op b [0x48; 0xC7; 0xC2] then a ← ip_plus 3; v ← rd32 base a; upd (set_rdx v);; next 7 else
  if op b [0x41] && ((0xB8 <=? b !!! 1%nat) && (b !!! 1%nat <=? 0xBF)) then
    a ← ip_plus 2; v ← rd32 base a;
    upd (set_lea_ext (b !!! 1%nat - 0xB8) v);; next 6 else
  if (0xB8 <=? b !!! 0%nat) && (b !!! 0%nat <=? 0xBF) then
    a ← ip_plus 1; v ← rd32 base a;
    upd (set_imm (b !!! 0%nat - 0xB8) v);; next 5 else
  k.

(** [lea r, [rip + disp32]]. *)
Definition lea_rip (set_r : Z -> Cpu -> Cpu) : X bool :=
  a ← ip_plus 3; disp ← rdi32 base a;
  nxt ← ip_plus 7;
  v ← sadd nxt disp; upd (set_r v);; goto nxt.
Definition exec_lea_rip (b : bytes) (k : X bool) : X bool :=
  if op b [0x48; 0x8D; 0x3D] then lea_rip set_rdi else
  if op b [0x4C; 0x8D; 0x05] then lea_rip set_r8 else
  if op b [0x4C; 0x8D; 0x0D] then lea_rip set_r9 else
  if op b [0x48; 0x8D; 0x35] then lea_rip set_rsi else
  k.

Definition exec_store32 (b : bytes) (k : X bool) : X bool :=
  if op b [0xC7] then
    let modrm := b !!! 1%nat in
    if reg_of modrm =? 0 then
      if (mod_of modrm =? 0x01) && negb (rm_of modrm =? 0x04) then
        a ← reg (fun c => get_reg64 c (rm_of modrm));
        addr ← sadd a (i8 (b !!! 2%nat));
        p ← ip_plus 3; imm ← rd32 base p;
        wr32 base addr imm;; next 7
      else if (mod_of modrm =? 0x01) && (rm_of modrm =? 0x04) && (b !!! 2%nat =? 0x24) then
        a ← reg rsp;
        addr ← sadd a (i8 (b !!! 3%nat));
        p ← ip_plus 4; imm ← rd32 base p;
        wr32 base addr imm;; next 8
      else k
    else k
  else k.

(** [target < base || target >= base + mem.len()], the sum being checked and
    evaluated only when [target >= base]. *)
Definition outside (target : Z) : X bool :=
  if target <? base then ret true else
  m ← get_mem; e ← lift (add64 base (zlen m)); ret (e <=? target).
Definition exec_control (b : bytes) (k : X bool) : X bool :=
  if op b [0x0F; 0x05] then
    exit ← handle_syscall;
    ip ← ip_plus 2; upd (set_rip ip);; ret exit else
  if op b [0xE8] then
    a ← ip_plus 1; rel ← rdi32 base a;
    nxt ← ip_plus 5;
    push_u64 base nxt;;
    v ← sadd nxt rel; goto v else
  if op b [0xE9] then
    a ← ip_plus 1; rel ← rdi32 base a;
    nxt ← ip_plus 5;
    v ← sadd nxt rel; goto v else
  if op b [0xEB] then nxt ← ip_plus 2; v ← sadd nxt (i8 (b !!! 1%nat)); goto v else
  if op b [0x74] then
    nxt ← ip_plus 2;
    z ← gets (fun s => zf (cpu s));
    if z : bool then v ← sadd nxt (i8 (b !!! 1%nat)); goto v else goto nxt else
  if op b [0xFF; 0x15] then
    a ← ip_plus 2; disp ← rdi32 base a;
    nxt ← ip_plus 6;
    ptr_va ← sadd nxt disp;
    target ← rd64 base ptr_va;
    out ← outside target;
    d ← reg rdi;
    dout ← (if out : bool then outside d else ret true);
    if out && negb dout then goto d else
    push_u64 base nxt;;
    goto target else
  k.

Definition unsupported (b : bytes) : X bool := ip ← reg rip; fail (UnsupportedInstruction ip b).

Definition exec_one : X bool :=
  ip ← reg rip;
  b ← rd_bytes base ip;
  exec_stack b (exec_arg b (exec_alu8 b (exec_alu32 b (exec_mov b (exec_load32 b (exec_lea b
    (exec_lea_ext b (exec_misc b (exec_zero b (exec_test b (exec_imm b (exec_lea_rip b
      (exec_store32 b (exec_control b (unsupported b))))))))))))))).
End Decode.
End decode.
