(* ===== verification/Elfrun.v ===== *)
(** * Running a program (kernel/src/elf_runner.rs)

    The system calls of an interpreted program, loading, and the run loop.
    [execve] runs the new program inside the call, on the kernel's own stack:
    [depth] is the number of nested programs that stack has room for.  Each of
    them has its 256-byte read buffer in its own stack frame, at [tmp_ptr]. *)
From stdpp Require Import gmap.
From S2P Require Import Prelude Utf8 Fs Elf Kernel Posix Syscall UserMem Loader Machine Decode.

Module elf_run.
Import elf elf_runner decode.

Definition normalize_exec_path (path : bytes) : option bytes :=
  let trimmed := trim path in
  if bool_decide (trimmed = []) then None else
  let p := match strip_prefix (str "./") trimmed with Some s => s | None => trimmed end in
  let p := trim_start_matches 47 p in
  if bool_decide (p = []) || contains 47 p then None else Some p.

(** ** System calls *)
Section Syscalls.
Context (base tmp_ptr : Z) (run_program : bytes -> list bytes -> list bytes -> W unit).

Definition return_rax (v : Z) : X bool := upd (set_rax v);; ret false.

(** [while got < cap]: [n] iterations may remain. *)
Fixpoint read_line (n : nat) (start got : Z) : X Z :=
  match n with
  | O => ret got
  | S n =>
    o ← in_world (kcall posix.read_stdin_byte_blocking);
    match o with
    | None => ret got
    | Some ch =>
      let mapped := if ch =? 13 then 10 else ch in
      m ← get_mem;
      m ← lift (copy_from_slice m (start + got) (start + got + 1) [mapped]);
      set_mem m;;
      in_world (process [mapped]);;
      if mapped =? 10 then ret (got + 1) else read_line n start (got + 1)
    end
  end.

Definition syscall_read : X bool :=
  fd ← reg rdi; len ← reg rdx; va ← reg rsi;
  m ← get_mem;
  start ← lift (va_to_index AddressOutOfRange base m va);
  let cap := Z.min len (zlen m - start) in
  if cap =? 0 then return_rax 0 else
  if fd =? 0 then
    got ← read_line (Z.to_nat cap) start 0;
    return_rax got
  else
    in_world (kcall (store tmp_ptr (zreplicate 256 0)));;
    let want := Z.min cap 256 in
    n ← in_world (kcall (dispatch SYS_READ fd tmp_ptr want 0 0 0));
    (if 0 <=? n then
       tmp ← in_world (kcall (load tmp_ptr 256));
       src ← lift (sub_slice tmp 0 n);
       m ← lift (copy_from_slice m start (start + n) src);
       set_mem m
     else ret tt);;
    return_rax (of_i64 n).

Definition syscall_write : X bool :=
  fd ← reg rdi; len ← reg rdx; va ← reg rsi;
  m ← get_mem;
  start ← lift (va_to_index AddressOutOfRange base m va);
  end_ ← lift (ok_or (checked_add start len) AddressOutOfRange);
  if zlen m <? end_ then fail AddressOutOfRange else
  (if (fd =? 1) || (fd =? 2) then in_world (process (zslice m start end_)) else ret tt);;
  v ← in_world (kcall (dispatch SYS_WRITE fd va len 0 0 0));
  return_rax (of_i64 v).

Definition syscall_execve : X bool :=
  m ← get_mem;
  path_va ← reg rdi; argv_va ← reg rsi; envp_va ← reg rdx;
  path ← lift (read_user_cstr AddressOutOfRange base m path_va);
  match path with
  | None => return_rax (of_i64 (- EFAULT))
  | Some path =>
    argv ← lift (read_user_str_array AddressOutOfRange base m argv_va 64);
    envp ← lift (read_user_str_array AddressOutOfRange base m envp_va 64);
    match normalize_exec_path path with
    | None => return_rax (of_i64 (- ENOENT))
    | Some name =>
      fs_image ← in_world (kcall rootfs);
      match fs_image with
      | None => return_rax (of_i64 (- ENOENT))
      | Some (_, image) =>
        o ← in_world (kcall (fs_call (fs.open image name)));
        match o with
        | inl _ => return_rax (of_i64 (- ENOENT))
        | inr rec =>
          let arg_refs := if bool_decide (argv = []) then [name] else argv in
          in_world (kcall (mark_exit_code 0));;
          r ← in_world (catch (run_program (fs.data rec) arg_refs envp));
          match r with
          | inr _ => upd (set_rax 0);; ret true
          | inl _ => return_rax (of_i64 (- ENOEXEC))
          end
        end
      end
    end
  end.

Definition handle_syscall : X bool :=
  nr ← reg rax;
  if nr =? SYS_READ then syscall_read
  else if nr =? SYS_WRITE then syscall_write
  else if nr =? SYS_GETPID then
    v ← in_world (kcall (dispatch SYS_GETPID 0 0 0 0 0 0)); return_rax (of_i64 v)
  else if nr =? SYS_BRK then
    a ← reg rdi; v ← in_world (kcall (dispatch SYS_BRK a 0 0 0 0 0)); return_rax (of_i64 v)
  else if nr =? SYS_EXECVE then syscall_execve
  else if (nr =? SYS_EXIT) || (nr =? SYS_EXIT_GROUP) then
    a ← reg rdi; v ← in_world (kcall (dispatch SYS_EXIT a 0 0 0 0 0));
    upd (set_rax (of_i64 v));; ret true
  else
    c ← gets cpu;
    v ← in_world (kcall (dispatch nr (rdi c) (rsi c) (rdx c) (r10 c) (r8 c) (r9 c)));
    return_rax (of_i64 v).

(** ** The run loop *)

(** [for _ in 0..MAX_STEPS]: [n] iterations remain. *)
Fixpoint run_loop (n : nat) : X unit :=
  match n with
  | O => ip ← reg rip; fail (StepLimit MAX_STEPS ip)
  | S n =>
    done ← exec_one base handle_syscall;
    if done : bool then ret tt else run_loop n
  end.
End Syscalls.

(** ** Loading *)

Definition init_cpu (initial_rsp entry : Z) : Cpu :=
  mkCpu 0 0 0 initial_rsp 0 0 0 0 0 0 0 0 0 entry false false.

(** Up to the construction of [cpu]: [min_vaddr], the memory and the registers. *)
Definition load_program (image : bytes) (argv envp : list bytes) : outcome RunError (Z * bytes * Cpu) :=
  img ← map_err Parse (parse_elf64 image);
  if bool_decide (segments img = []) then Err NoLoadSegment else
  let '(min_vaddr, max_vaddr) := vaddr_range (segments img) in
  if max_vaddr <=? min_vaddr then Err AddressOutOfRange else
  let mem_len := max_vaddr - min_vaddr in
  if (MAX_INTERP_MEM <? mem_len) || (16 <? zlen (segments img))
  then Err (UnsupportedComplexElf (img_entry img) (zlen (segments img)) mem_len) else
  total_len ← ok_or (checked_add mem_len STACK_SIZE) AddressOutOfRange;
  mem ← copy_segments AddressOutOfRange min_vaddr image (zreplicate total_len 0) (segments img);
  top ← add64 min_vaddr (zlen mem);
  stack_top ← sub64 top 0x10;
  '(initial_rsp, mem) ← build_initial_stack AddressOutOfRange min_vaddr mem stack_top argv envp;
  Ok (min_vaddr, mem, init_cpu initial_rsp (img_entry img)).

Section Run.
Context (tmp_ptr : nat -> Z).

Fixpoint run_linux_elf_with_args (depth : nat) (image : bytes) (argv envp : list bytes) : W unit :=
  match depth with
  | O => stop StackOverflow
  | S depth => fun w =>
    match load_program image argv envp with
    | Err e => Fail e w
    | Panic => Halt Panicked
    | Ok (min_vaddr, mem, c) =>
      match run_loop min_vaddr (tmp_ptr depth) (run_linux_elf_with_args depth) (Z.to_nat MAX_STEPS)
              (mkMach c mem w) with
      | Done _ s => Done tt (wld s)
      | Fail e s => Fail e (wld s)
      | Halt h => Halt h
      end
    end
  end.

Definition run_linux_elf (depth : nat) (image : bytes) : W unit :=
  run_linux_elf_with_args depth image [] [].
End Run.
End elf_run.
