(* ===== verification/ElfrunFrame.v ===== *)
(** * What an interpreted program reaches

    The instructions of an interpreted program work on its registers and its
    own memory; the kernel and the terminal are reached through the system
    call instruction alone.  The lemmas are stated for any relation on the
    world that is reflexive and transitive, so that the same walk through the
    interpreter serves for equality and for memory that stays mapped. *)
From stdpp Require Import gmap.
From S2P Require Import Prelude Utf8 Fs Elf Kernel Posix Syscall SyscallInv SyscallFrame SyscallMem.
From S2P Require Import UserMem Loader Machine Decode Elfrun.

Module elf_frame.
Import elf_runner decode elf_run.

Definition on_wld (R : world -> world -> Prop) : mach -> mach -> Prop := fun s s' => R (wld s) (wld s').
#[export] Instance on_wld_preorder R `{!PreOrder R} : PreOrder (on_wld R).
Proof. split; [by intros s; unfold on_wld|intros s1 s2 s3; unfold on_wld; by etrans]. Qed.

Section Frame.
Context (R : world -> world -> Prop) `{!PreOrder R}.
#[local] Abbreviation framed := (evolves (on_wld R)).

Lemma framed_bind {A B} (m : X A) (f : A -> X B) : framed m -> (forall a, framed (f a)) -> framed (m ≫= f).
Proof. apply evolves_bind, _. Qed.
Lemma framed_ret {A} (a : A) : framed (ret a : X A).
Proof. by apply evolves_ret, _. Qed.
Lemma framed_fail {A} e : framed (fail e : X A).
Proof. by apply evolves_fail, _. Qed.
Lemma framed_gets {A} (f : mach -> A) : framed (gets f : X A).
Proof. by apply evolves_gets, _. Qed.
Lemma framed_lift {A} (m : outcome RunError A) : framed (lift m).
Proof. by apply evolves_lift, _. Qed.
Lemma framed_upd f : framed (upd f).
Proof. apply evolves_modify. intros s. unfold on_wld. cbn. reflexivity. Qed.
Lemma framed_set_mem m : framed (set_mem m).
Proof. apply evolves_modify. intros s. unfold on_wld. cbn. reflexivity. Qed.
Lemma framed_in_world {A} (m : W A) : evolves R m -> framed (in_world m).
Proof. intros H s. specialize (H (wld s)). unfold in_world. by destruct (m (wld s)). Qed.
Lemma framed_reg f : framed (reg f).
Proof. apply framed_gets. Qed.
Lemma framed_get_mem : framed get_mem.
Proof. apply framed_gets. Qed.
Hint Resolve framed_ret framed_fail framed_gets framed_lift framed_upd framed_set_mem framed_reg
  framed_get_mem : evolve.
Ltac ev := repeat (cbv beta zeta; first
  [ match goal with |- evolves _ (if ?b then _ else _) => destruct b end
  | match goal with |- evolves _ (match ?x with _ => _ end) => destruct x end
  | solve [auto with evolve]
  | match goal with |- evolves _ (_ ≫= _) => apply framed_bind; [|intros] end ]).

Section Accesses.
Context (base : Z).
Lemma framed_rd8 a : framed (rd8 base a).
Proof. unfold rd8. ev. Qed.
Lemma framed_rd32 a : framed (rd32 base a).
Proof. unfold rd32. ev. Qed.
Lemma framed_rd64 a : framed (rd64 base a).
Proof. unfold rd64. ev. Qed.
Lemma framed_rdi32 a : framed (rdi32 base a).
Proof. unfold rdi32. ev. Qed.
Lemma framed_rd_bytes a : framed (rd_bytes base a).
Proof. unfold rd_bytes. ev. Qed.
Lemma framed_wr32 a v : framed (wr32 base a v).
Proof. unfold wr32. ev. Qed.
Lemma framed_wr64 a v : framed (wr64 base a v).
Proof. unfold wr64. ev. Qed.
Hint Resolve framed_rd8 framed_rd32 framed_rd64 framed_rdi32 framed_wr32 framed_wr64 : evolve.
Lemma framed_push v : framed (push_u64 base v).
Proof. unfold push_u64. ev. Qed.
Lemma framed_pop : framed (pop_u64 base).
Proof. unfold pop_u64. ev. Qed.
Lemma framed_ip_plus n : framed (ip_plus n).
Proof. unfold ip_plus. ev. Qed.
Lemma framed_sadd a d : framed (sadd a d).
Proof. unfold sadd. ev. Qed.
Hint Resolve framed_push framed_pop framed_ip_plus framed_sadd : evolve.
Lemma framed_next n : framed (next n).
Proof. unfold next. ev. Qed.
Lemma framed_goto v : framed (goto v).
Proof. unfold goto. ev. Qed.
Lemma framed_outside v : framed (outside base v).
Proof. unfold outside. ev. Qed.
Hint Resolve framed_next framed_goto framed_outside : evolve.
Lemma framed_lea_rip f : framed (lea_rip base f).
Proof. unfold lea_rip. ev. Qed.
Hint Resolve framed_lea_rip : evolve.

(** The stretches of [exec_one]. *)
Context (b : bytes).
Lemma framed_stack k : framed k -> framed (exec_stack base b k).
Proof. intros. unfold exec_stack. ev. Qed.
Lemma framed_arg k : framed k -> framed (exec_arg base b k).
Proof. intros. unfold exec_arg. ev. Qed.
Lemma framed_alu8 k : framed k -> framed (exec_alu8 b k).
Proof. intros. unfold exec_alu8. ev. Qed.
Lemma framed_alu32 k : framed k -> framed (exec_alu32 base b k).
Proof. intros. unfold exec_alu32. ev. Qed.
Lemma framed_mov k : framed k -> framed (exec_mov b k).
Proof. intros. unfold exec_mov. ev. Qed.
Lemma framed_load32 k : framed k -> framed (exec_load32 base b k).
Proof. intros. unfold exec_load32. ev. Qed.
Lemma framed_lea k : framed k -> framed (exec_lea b k).
Proof. intros. unfold exec_lea. ev. Qed.
Lemma framed_lea_ext k : framed k -> framed (exec_lea_ext b k).
Proof. intros. unfold exec_lea_ext. ev. Qed.
Lemma framed_misc k : framed k -> framed (exec_misc base b k).
Proof. intros. unfold exec_misc. ev. Qed.
Lemma framed_zero k : framed k -> framed (exec_zero b k).
Proof. intros. unfold exec_zero. ev. Qed.
Lemma framed_test k : framed k -> framed (exec_test base b k).
Proof. intros. unfold exec_test. ev. Qed.
Lemma framed_imm k : framed k -> framed (exec_imm base b k).
Proof. intros. unfold exec_imm. ev. Qed.
Lemma framed_exec_lea_rip k : framed k -> framed (exec_lea_rip base b k).
Proof. intros. unfold exec_lea_rip. ev. Qed.
Lemma framed_store32 k : framed k -> framed (exec_store32 base b k).
Proof. intros. unfold exec_store32. ev. Qed.
Lemma framed_control hs k : op b [0x0F; 0x05] = false \/ framed hs -> framed k -> framed (exec_control base hs b k).
Proof. unfold exec_control. intros [->|Hh] Hk; ev. Qed.
Lemma framed_unsupported : framed (unsupported b).
Proof. unfold unsupported. ev. Qed.
End Accesses.

(** One instruction: all but the system call stay off the world. *)
Lemma framed_exec_bytes base hs b : op b [0x0F; 0x05] = false \/ framed hs ->
  framed (exec_stack base b (exec_arg base b (exec_alu8 b (exec_alu32 base b (exec_mov b (exec_load32 base b
    (exec_lea b (exec_lea_ext b (exec_misc base b (exec_zero b (exec_test base b (exec_imm base b
      (exec_lea_rip base b (exec_store32 base b (exec_control base hs b (unsupported b)))))))))))))))).
Proof.
  intros H. apply framed_stack, framed_arg, framed_alu8, framed_alu32, framed_mov, framed_load32, framed_lea,
    framed_lea_ext, framed_misc, framed_zero, framed_test, framed_imm, framed_exec_lea_rip, framed_store32,
    framed_control; [done|apply framed_unsupported].
Qed.
Lemma framed_exec_one base hs : framed hs -> framed (exec_one base hs).
Proof.
  intros H. apply framed_bind; [auto with evolve|]. intros ip. apply framed_bind; [apply framed_rd_bytes|].
  intros b. apply framed_exec_bytes. by right.
Qed.

(** *** System calls, given what the kernel's calls do *)
Lemma framed_process bs : (forall w, R w (mkWorld (kern w) (term w ++ [bs]))) -> evolves R (process bs).
Proof. apply evolves_modify. Qed.
Lemma framed_catch {A} (m : W A) : evolves R m -> evolves R (catch m).
Proof. intros H w. specialize (H w). unfold catch. by destruct (m w). Qed.
Lemma framed_return_rax v : framed (return_rax v).
Proof. unfold return_rax. ev. Qed.
End Frame.
#[export] Hint Resolve framed_ret framed_fail framed_gets framed_lift framed_upd framed_set_mem framed_reg
  framed_get_mem framed_return_rax : evolve.
Ltac ev := repeat (cbv beta zeta; first
  [ match goal with |- evolves _ (if ?b then _ else _) => destruct b end
  | match goal with |- evolves _ (match ?x with _ => _ end) => destruct x end
  | solve [auto with evolve]
  | match goal with |- evolves _ (_ ≫= _) => apply framed_bind; [apply _| |intros] end ]).

(** ** Kernel memory

    What a computation of the interpreter does to the kernel's memory is what
    the calls it makes do to it. *)
Definition within (P : Z -> Prop) : world -> world -> Prop := fun w w' => mem_within P (kern w) (kern w').
#[export] Instance within_preorder P : PreOrder (within P).
Proof. split; [by intros w; unfold within|intros w1 w2 w3; unfold within; by etrans]. Qed.

Section Memory.
Context (P : Z -> Prop).
Lemma within_kcall {A} (m : K A) : writes P m -> evolves (within P) (kcall m).
Proof. intros H w. specialize (H (kern w)). unfold kcall. by destruct (m (kern w)) as [a k|[]|h]. Qed.
Lemma within_kernel {A} (m : K A) : writes P m -> evolves (on_wld (within P)) (in_world (kcall m)).
Proof. intros. by apply framed_in_world, within_kcall. Qed.
Lemma within_process bs : evolves (on_wld (within P)) (in_world (process bs)).
Proof. apply framed_in_world, framed_process. intros w. unfold within. cbn. reflexivity. Qed.
Lemma within_read_line n start got : evolves (on_wld (within P)) (read_line n start got).
Proof.
  revert got. induction n as [|n IH]; intros got; cbn [read_line]; [auto with evolve|].
  apply framed_bind; [apply _|apply within_kernel, writes_stdin|]. intros [ch|]; [|auto with evolve]. cbv zeta.
  repeat (apply framed_bind; [apply _|first [solve [auto with evolve]|apply within_process]|intros]).
  destruct (_ =? 10); auto with evolve.
Qed.
End Memory.
#[export] Hint Resolve within_kernel within_process within_read_line writes_stdin : evolve.
#[export] Hint Extern 3 (writes _ _) => (apply writes_quiet; solve [auto with frame]) : evolve.

Section Syscalls.
Context (base tmp_ptr : Z) (run_program : bytes -> list bytes -> list bytes -> W unit).
#[local] Abbreviation handle := (handle_syscall base tmp_ptr run_program).

(** A system call keeps kernel memory mapped when nested programs do. *)
Lemma syscall_mapped : (forall i a e, evolves (within anywhere) (run_program i a e)) ->
  evolves (on_wld (within anywhere)) handle.
Proof.
  intros Hrun. pose proof writes_dispatch_anywhere as Hd.
  assert (forall a bs, writes anywhere (store a bs)) as Hst by (intros; by apply writes_store).
  unfold handle_syscall, syscall_read, syscall_write, syscall_execve. ev.
  all: try (apply within_kernel; auto with evolve).
  all: apply framed_in_world, framed_catch, Hrun.
Qed.
Lemma run_loop_mapped n : (forall i a e, evolves (within anywhere) (run_program i a e)) ->
  evolves (on_wld (within anywhere)) (run_loop base tmp_ptr run_program n).
Proof.
  intros Hrun. induction n as [|n IH]; cbn [run_loop]; [ev|].
  apply framed_bind; [apply _| |intros []; auto with evolve].
  apply framed_exec_one; [apply _|by apply syscall_mapped].
Qed.
End Syscalls.
Lemma run_mapped tmp_ptr depth image argv envp :
  evolves (within anywhere) (run_linux_elf_with_args tmp_ptr depth image argv envp).
Proof.
  revert image argv envp. induction depth as [|depth IH]; intros image argv envp w; cbn [run_linux_elf_with_args]; [done|].
  destruct (load_program image argv envp) as [[[base m] c]|e|]; [|reflexivity|done].
  pose proof (run_loop_mapped base (tmp_ptr depth) _ (Z.to_nat MAX_STEPS) IH (mkMach c m w)) as H.
  by destruct (run_loop _ _ _ _ _).
Qed.
End elf_frame.
