(* ===== verification/Keyboard.v ===== *)
(** * Reading a line from the keyboard

    Three pieces of code read standard input: [read] of kernel/src/posix.rs,
    and the two runners, which read the keys themselves and turn a carriage
    return into a newline.  This file specifies the line that a reader
    delivers as a function of the keys to come, and proves the three readers
    against it. *)
From stdpp Require Import gmap.
From S2P Require Import Prelude Utf8 Fs Kernel Posix Syscall SyscallInv SyscallFiles SyscallDents.
From S2P Require Import UserMem Machine Elfrun Native.

Module keyboard.

(** ** The specification *)

(** The next key, past the polls that found none; [None] when there is none to come. *)
Fixpoint next_key (ks : list (option Z)) : option (Z * list (option Z)) :=
  match ks with
  | [] => None
  | Some ch :: ks => Some (ch, ks)
  | None :: ks => next_key ks
  end.
Definition eol (c : Z) : bool := (c =? 10) || (c =? 13).
Definition raw (c : Z) : Z := c.
Definition cr_to_lf (c : Z) : Z := if c =? 13 then 10 else c.

(** The keys up to the end of the line, at most [n], and the polls that are
    left; [None] when the reader waits for a key that does not come. *)
Fixpoint typed (conv : Z -> Z) (n : nat) (ks : list (option Z)) : option (bytes * list (option Z)) :=
  match n with
  | O => Some ([], ks)
  | S n =>
    match next_key ks with
    | None => None
    | Some (ch, rest) =>
      if eol (conv ch) then Some ([conv ch], rest) else
      match typed conv n rest with Some (l, r) => Some (conv ch :: l, r) | None => None end
    end
  end.

Lemma typed_len conv n ks :
  match typed conv n ks with Some (l, _) => zlen l <= Z.of_nat n | None => True end.
Proof.
  revert ks. induction n as [|n IH]; intros ks; cbn [typed]; [done|].
  destruct (next_key ks) as [[ch rest]|]; [|done].
  destruct (eol _); [rewrite zlen_cons, zlen_nil; lia|]. specialize (IH rest).
  destruct (typed conv n rest) as [[l r]|]; [|done]. rewrite zlen_cons. lia.
Qed.

(** ** The readers *)
Lemma poll_byte_eq ks k :
  posix.poll_byte ks k =
  match next_key ks with Some (ch, rest) => Done (Some ch) (with_polls rest k) | None => Halt Spinning end.
Proof.
  revert k. induction ks as [|o ks IH]; intros k; cbn [posix.poll_byte next_key]; [done|].
  run_prog. destruct o as [ch|]; [done|]. rewrite IH. by destruct (next_key ks) as [[ch rest]|].
Qed.
Lemma read_byte_eq k : STDIN_READER k = true ->
  posix.read_stdin_byte_blocking k =
  match next_key (polls k) with Some (ch, rest) => Done (Some ch) (with_polls rest k) | None => Halt Spinning end.
Proof. intros Hr. unfold posix.read_stdin_byte_blocking. run_prog. rewrite Hr. cbn. apply poll_byte_eq. Qed.

(** The state after a reader delivered [l] at [buf]. *)
Definition line_read (m : gmap Z Z) (rest : list (option Z)) (k : kernel) : kernel :=
  with_mem m (with_polls rest k).
Lemma store_one k a c : mapped (mem k) a 1 ->
  store a [c] k = Done tt (with_mem (<[a := c]> (mem k)) k) /\ delivered (mem k) (<[a := c]> (mem k)) a [c].
Proof.
  intros Hm. destruct (Hm a ltac:(lia)) as [v Hv]. unfold store. cbn [mem_write]. rewrite Hv.
  split; [done|]. split; [cbn; by rewrite lookup_insert_eq|]. intros x Hx.
  apply lookup_insert_ne. unfold zlen in Hx. cbn in Hx. lia.
Qed.
Lemma mapped_rest m a c n : mapped m a n -> mapped (<[a := c]> m) (a + 1) (n - 1).
Proof.
  intros Hm x Hx. rewrite lookup_insert_ne by lia. apply Hm. lia.
Qed.

Lemma posix_read_loop_typed n buf len i ks k :
  n = Z.to_nat (len - i) -> 0 <= i -> mapped (mem k) (buf + i) (len - i) -> polls k = ks ->
  match typed raw n ks with
  | Some (l, rest) => exists m, posix.read_loop ks buf len i k = Done (i + zlen l) (line_read m rest k) /\
      delivered (mem k) m (buf + i) l
  | None => posix.read_loop ks buf len i k = Halt Spinning
  end.
Proof.
  revert n i k. induction ks as [|o ks IH]; intros n i k Hn Hi Hm Hp; cbn [posix.read_loop].
  - branch as Hl.
    + assert (n = 0%nat) as -> by lia. cbn. exists (mem k). rewrite zlen_nil, Z.add_0_r. split; [|apply delivered_nil].
      unfold ret. f_equal. unfold line_read. destruct k. cbn in Hp. by subst.
    + destruct n as [|n]; [lia|]. done.
  - branch as Hl.
    + assert (n = 0%nat) as -> by lia. cbn. exists (mem k). rewrite zlen_nil, Z.add_0_r. split; [|apply delivered_nil].
      unfold ret. f_equal. unfold line_read. destruct k. cbn in Hp. by subst.
    + run_prog. destruct o as [ch|].
      * destruct n as [|n]; [lia|]. cbn [typed next_key raw].
        destruct (store_one (with_polls ks k) (buf + i) ch) as [Hs Hd].
        { intros x Hx. apply Hm. lia. }
        rewrite Hs. change (mem (with_polls ks k)) with (mem k) in *. fold (eol ch). change (raw ch) with ch. destruct (eol ch) eqn:He.
        -- eexists. split; [|exact Hd]. done.
        -- specialize (IH n (i + 1) (with_mem (<[buf + i := ch]> (mem k)) (with_polls ks k))).
           specialize (IH ltac:(lia) ltac:(lia)).
           rewrite Z.add_assoc in IH. replace (len - (i + 1)) with (len - i - 1) in IH by lia.
           specialize (IH ltac:(cbn; by apply mapped_rest) eq_refl). cbn [mem with_mem] in IH.
           destruct (typed raw n ks) as [[l rest]|]; [|exact IH].
           destruct IH as (m & Hr & Hd2). exists m. rewrite Hr, zlen_cons. split.
           ++ f_equal. lia.
           ++ change (ch :: l) with ([ch] ++ l). by eapply delivered_app.
      * specialize (IH n i (with_polls ks k) Hn Hi Hm eq_refl). destruct n as [|n]; [lia|].
        cbn [typed next_key] in *. exact IH.
Qed.

Import native.
(** The native reader on its state; its loop and the interpreter's ask for one
    key at a time. *)
Lemma native_read_line_typed n ptr i s :
  STDIN_READER (nk s) = true -> 0 <= i -> mapped (mem (nk s)) (ptr + i) (Z.of_nat n) ->
  match typed cr_to_lf n (polls (nk s)) with
  | Some (l, rest) => exists m,
      native_read_line n ptr i s = Done (i + zlen l) (mkNative (line_read m rest (nk s)) (OUT s) (shown s)) /\
      delivered (mem (nk s)) m (ptr + i) l
  | None => native_read_line n ptr i s = Halt Spinning
  end.
Proof.
  revert i s. induction n as [|n IH]; intros i s Hr Hi Hm; cbn [native_read_line typed].
  - exists (mem (nk s)). rewrite zlen_nil, Z.add_0_r. split; [|apply delivered_nil]. by destruct s as [[]].
  - run_prog. unfold ncall. rewrite read_byte_eq by done.
    destruct (next_key (polls (nk s))) as [[ch rest]|]; [|done]. cbn [nk OUT shown].
    fold (cr_to_lf ch). set (c := cr_to_lf ch).
    destruct (store_one (with_polls rest (nk s)) (ptr + i) c) as [Hs Hd].
    { intros x Hx. apply Hm. lia. }
    rewrite Hs. cbn [nk OUT shown mem with_polls] in *.
    assert ((c =? 10) = eol c) as ->.
    { unfold eol, c, cr_to_lf. destruct (Z.eqb_spec ch 13); [done|]. rewrite (proj2 (Z.eqb_neq ch 13)) by done.
      by rewrite orb_false_r. }
    destruct (eol c).
    + eexists. split; [|exact Hd]. done.
    + set (k1 := with_mem (<[ptr + i := c]> (mem (nk s))) (with_polls rest (nk s))).
      specialize (IH (i + 1) (mkNative k1 (OUT s) (shown s)) Hr ltac:(lia)). rewrite Z.add_assoc in IH.
      replace (Z.of_nat n) with (Z.of_nat (S n) - 1) in IH by lia.
      specialize (IH ltac:(cbn; by apply mapped_rest)). cbn [nk OUT shown] in IH.
      change (polls k1) with rest in IH. change (mem k1) with (<[ptr + i := c]> (mem (nk s))) in IH.
      destruct (typed cr_to_lf n rest) as [[l r]|]; [|exact IH].
      destruct IH as (m & Hl & Hd2). exists m. rewrite zlen_cons. split.
      * fold k1. rewrite Hl. f_equal. lia.
      * change (c :: l) with ([c] ++ l). by eapply delivered_app.
Qed.

Import elf_runner elf_run.
(** The interpreter's: into the program's memory, and echoed. *)
Lemma read_line_typed n start i s :
  STDIN_READER (kern (wld s)) = true -> 0 <= start + i -> start + i + Z.of_nat n <= zlen (umem s) ->
  match typed cr_to_lf n (polls (kern (wld s))) with
  | Some (l, rest) => zlen l <= Z.of_nat n /\
      read_line n start i s = Done (i + zlen l) (mkMach (cpu s) (splice (umem s) (start + i) l)
        (mkWorld (with_polls rest (kern (wld s))) (term (wld s) ++ map (fun c => [c]) l)))
  | None => read_line n start i s = Halt Spinning
  end.
Proof.
  revert i s. induction n as [|n IH]; intros i s Hr Hi Hm; cbn [read_line typed].
  - rewrite zlen_nil, Z.add_0_r, app_nil_r. split; [lia|]. unfold ret. f_equal.
    destruct s as [c um [k t]]. cbn. f_equal; [|by destruct k].
    unfold splice. cbn. by rewrite Nat.add_0_r, take_drop.
  - run_prog. unfold in_world, kcall. cbn [wld kern]. rewrite read_byte_eq by done.
    destruct (next_key (polls (kern (wld s)))) as [[ch rest]|]; [|done].
    fold (cr_to_lf ch). set (c := cr_to_lf ch). unfold get_mem, set_mem, process. run_prog.
    cbn [umem wld kern cpu term]. rewrite copy_from_slice_in; [|lia|rewrite zlen_cons, zlen_nil; lia|lia].
    cbn [umem wld kern cpu term].
    assert ((c =? 10) = eol c) as ->.
    { unfold eol, c, cr_to_lf. destruct (Z.eqb_spec ch 13); [done|]. rewrite (proj2 (Z.eqb_neq ch 13)) by done.
      by rewrite orb_false_r. }
    destruct (eol c); [split; [rewrite zlen_cons, zlen_nil; lia|done]|].
    set (s1 := mkMach _ _ _). assert (zlen (umem s1) = zlen (umem s)) as Hl1.
    { subst s1. cbn [umem]. rewrite zlen_splice; [done|lia|rewrite zlen_cons, zlen_nil; lia]. }
    specialize (IH (i + 1) s1 Hr ltac:(lia) ltac:(lia)). cbn [s1 wld kern polls with_polls umem term cpu] in IH.
    destruct (typed cr_to_lf n rest) as [[l r]|]; [|exact IH]. destruct IH as [Hle IH].
    rewrite zlen_cons. split; [lia|]. rewrite IH. f_equal; [lia|]. f_equal.
    + rewrite Z.add_assoc. apply splice_cons; lia.
    + f_equal. by rewrite <-app_assoc.
Qed.

(** ** The theorem *)

(** C22: the three readers of standard input deliver the typed line.  With a
    reader installed and a mapped buffer, [read] of the kernel, [read] of a
    native program and [read] of an interpreted program (into its memory)
    each deliver the keys up to and including the end of the line, at most the
    length asked for, answer their number and leave the later keys for the
    next call; the runners turn a carriage return into a newline, and the
    interpreter also echoes each character to the terminal.  Where no key is
    to come, each of them waits forever. *)
Theorem stdin_delivers_line k buf len a3 a4 a5 :
  STDIN_READER k = true -> buf <> 0 -> 0 < len <= i64_max -> mapped (mem k) buf len ->
  match typed raw (Z.to_nat len) (polls k) with
  | Some (l, rest) => exists m, dispatch SYS_READ 0 buf len a3 a4 a5 k = Done (zlen l) (line_read m rest k) /\
      delivered (mem k) m buf l
  | None => dispatch SYS_READ 0 buf len a3 a4 a5 k = Halt Spinning
  end /\
  (forall out shown_,
    match typed cr_to_lf (Z.to_nat len) (polls k) with
    | Some (l, rest) => exists m,
        native_syscall_dispatch SYS_READ 0 buf len a3 a4 (mkNative k out shown_) =
          Done (zlen l) (mkNative (line_read m rest k) out shown_) /\ delivered (mem k) m buf l
    | None => native_syscall_dispatch SYS_READ 0 buf len a3 a4 (mkNative k out shown_) = Halt Spinning
    end) /\
  (forall base tmp run c um t, let start := rsi c - base in
    let cap := Z.min (rdx c) (zlen um - start) in
    rax c = SYS_READ -> rdi c = 0 -> 0 <= start < zlen um -> 0 < rdx c ->
    match typed cr_to_lf (Z.to_nat cap) (polls k) with
    | Some (l, rest) => handle_syscall base tmp run (mkMach c um (mkWorld k t)) =
        Done false (mkMach (set_rax (zlen l) c) (splice um start l)
          (mkWorld (with_polls rest k) (t ++ map (fun ch => [ch]) l)))
    | None => handle_syscall base tmp run (mkMach c um (mkWorld k t)) = Halt Spinning
    end).
Proof.
  intros Hr Hb Hlen Hm. split; [|split].
  - change (dispatch SYS_READ 0 buf len a3 a4 a5) with (posix.read 0 buf len). unfold posix.read.
    change (0 =? posix.STDIN_FILENO) with true. cbv iota. replace (_ || _) with false by lia. run_prog. rewrite Hr.
    cbn [negb].
    pose proof (posix_read_loop_typed (Z.to_nat len) buf len 0 (polls k) k ltac:(lia) ltac:(lia)) as H.
    rewrite Z.add_0_r, Z.sub_0_r in H. specialize (H Hm eq_refl). cbv beta.
    pose proof (typed_len raw (Z.to_nat len) (polls k)) as Hl.
    destruct (typed raw (Z.to_nat len) (polls k)) as [[l rest]|]; [|by rewrite H].
    destruct H as (m & Hloop & Hd). exists m. split; [|exact Hd]. rewrite Hloop, Z.add_0_l.
    rewrite to_i64_small by (pose proof (zlen_nonneg l); lia). done.
  - intros out sh. unfold native_syscall_dispatch. change (SYS_READ =? SYS_WRITE) with false.
    change (SYS_READ =? SYS_READ) with true. change (0 =? 0) with true. cbv iota.
    replace (_ || _) with false by lia.
    pose proof (native_read_line_typed (Z.to_nat len) buf 0 (mkNative k out sh) Hr ltac:(lia)) as H.
    rewrite Z.add_0_r, Z2Nat.id in H by lia. exact (H Hm).
  - intros base tmp run c um t start cap Hrax Hrdi Hst Hdx. unfold handle_syscall, reg. run_prog.
    cbn [cpu]. rewrite Hrax. change (SYS_READ =? SYS_READ) with true. cbv iota.
    unfold syscall_read, reg, get_mem. run_prog. cbn [cpu umem wld]. rewrite Hrdi.
    rewrite (proj2 (va_to_index_Ok _ _ _ _ start)) by (subst start; lia). cbn [cpu umem wld].
    fold cap. rewrite (proj2 (Z.eqb_neq cap 0)) by (subst cap; lia). change (0 =? 0) with true. cbv iota.
    pose proof (read_line_typed (Z.to_nat cap) start 0 (mkMach c um (mkWorld k t)) Hr ltac:(lia)) as H.
    specialize (H ltac:(cbn; subst cap; lia)). cbn [wld kern umem cpu term] in H. rewrite Z.add_0_r in H.
    destruct (typed cr_to_lf (Z.to_nat cap) (polls k)) as [[l rest]|]; [|by rewrite H].
    destruct H as [_ ->]. rewrite Z.add_0_l. unfold return_rax, upd. run_prog. done.
Qed.

(** "hi" and Enter in the sample machine; the key after them stays. *)
Lemma stdin_delivers_line_witness :
  exists m, dispatch SYS_READ 0 0x2000 100 0 0 0 (with_reader true sample_kernel) =
      Done 3 (line_read m [Some 104] (with_reader true sample_kernel)) /\
    delivered (mem sample_kernel) m 0x2000 (str "hi" ++ [10]).
Proof.
  pose proof (proj1 (stdin_delivers_line (with_reader true sample_kernel) 0x2000 100 0 0 0 eq_refl
    ltac:(done) ltac:(by vm_compute) ltac:(intros x Hx; apply (proj2 sample_buffer); lia))) as H.
  exact H.
Defined.
End keyboard.
