(* ===== verification/ElfrunInv.v ===== *)
(** * Safety of the interpreter

    What holds of an interpreted program whatever its instructions are: the
    registers stay 64-bit words, the memory keeps its length and holds bytes,
    and the kernel stays well formed. *)
From stdpp Require Import gmap.
From S2P Require Import Prelude Utf8 Fs Elf Kernel Posix Syscall SyscallInv SyscallFrame SyscallMem.
From S2P Require Import UserMem Loader Machine Decode Elfrun ElfrunFrame.

Module elf_inv.
Import elf elf_runner decode elf_run elf_frame.

(** ** The invariant *)

Definition regs (c : Cpu) : list Z :=
  [rax c; rbp c; rbx c; rsp c; rdi c; rsi c; rdx c; rcx c; r8 c; r9 c; r10 c; r12 c; r13 c; rip c].
Definition cpu_ok (c : Cpu) : Prop := Forall is_u64 (regs c).
(** [r] is the mounted image, [n] the size of the program's memory. *)
Record mach_ok (r : option (Z * Z)) (n : Z) (s : mach) : Prop := mkMachOk {
  mo_cpu : cpu_ok (cpu s);
  mo_mem : bytes_ok (umem s);
  mo_len : zlen (umem s) = n;
  mo_kern : wf r (kern (wld s)) }.

(** ** A logic for the three kinds of computations

    Each rule says what a computation that starts in the invariant may return;
    whether it returns, fails or stops the machine, the invariant holds of the
    state it leaves. *)
Definition safeK (r : option (Z * Z)) {A} (m : K A) (phi : A -> Prop) : Prop :=
  forall k, wf r k ->
    match m k with Done a k' => phi a /\ wf r k' | Fail e _ => False | Halt _ => True end.
Definition safeW (r : option (Z * Z)) {A} (m : W A) (phi : A -> Prop) : Prop :=
  forall w, wf r (kern w) ->
    match m w with
    | Done a w' => phi a /\ wf r (kern w') | Fail _ w' => wf r (kern w') | Halt _ => True
    end.
Definition safe (r : option (Z * Z)) (n : Z) {A} (m : X A) (phi : A -> Prop) : Prop :=
  forall s, mach_ok r n s ->
    match m s with
    | Done a s' => phi a /\ mach_ok r n s' | Fail _ s' => mach_ok r n s' | Halt _ => True
    end.

Section Rules.
Context (r : option (Z * Z)) (n : Z).

Lemma safeK_keeps {A} (m : K A) phi : keeps r m phi -> safeK r m phi.
Proof. intros H k Hk. specialize (H k Hk). by destruct (m k). Qed.
Lemma safeW_kcall {A} (m : K A) phi : safeK r m phi -> safeW r (kcall m) phi.
Proof. intros H w Hw. specialize (H _ Hw). unfold kcall. by destruct (m (kern w)) as [a k|[]|h]. Qed.
Lemma safeW_process bs : safeW r (process bs) (fun _ => True).
Proof. by intros w Hw. Qed.
Lemma safeW_catch {A} (m : W A) phi :
  safeW r m phi -> safeW r (catch m) (fun o => match o with inr a => phi a | inl _ => True end).
Proof. intros H w Hw. specialize (H _ Hw). unfold catch. by destruct (m w). Qed.

Lemma safe_ret {A} (a : A) (phi : A -> Prop) : phi a -> safe r n (ret a) phi.
Proof. by intros ? s Hs. Qed.
Lemma safe_fail {A} e (phi : A -> Prop) : safe r n (fail e) phi.
Proof. by intros s Hs. Qed.
Lemma safe_bind {A B} (m : X A) (f : A -> X B) (phi : A -> Prop) (psi : B -> Prop) :
  safe r n m phi -> (forall a, phi a -> safe r n (f a) psi) -> safe r n (m ≫= f) psi.
Proof.
  intros Hm Hf s Hs. specialize (Hm s Hs). unfold mbind, prog_bind.
  destruct (m s) as [a s'|e s'|h]; [|done..]. destruct Hm. by apply Hf.
Qed.
Lemma safe_weaken {A} (m : X A) (phi psi : A -> Prop) :
  safe r n m phi -> (forall a, phi a -> psi a) -> safe r n m psi.
Proof. intros Hm Hi s Hs. specialize (Hm s Hs). destruct (m s); naive_solver. Qed.
Lemma safe_in_world {A} (m : W A) phi : safeW r m phi -> safe r n (in_world m) phi.
Proof.
  intros H s []. specialize (H _ mo_kern0). unfold in_world.
  destruct (m (wld s)); [|by constructor|done]. destruct H. by split; [|constructor].
Qed.
Lemma safe_kernel {A} (m : K A) phi : safeK r m phi -> safe r n (in_world (kcall m)) phi.
Proof. intros H. by apply safe_in_world, safeW_kcall. Qed.
Lemma safe_gets {A} (f : Cpu -> A) (phi : A -> Prop) :
  (forall c, cpu_ok c -> phi (f c)) -> safe r n (gets (fun s => f (cpu s))) phi.
Proof. intros H s Hs. run_prog. split; [|done]. apply H, Hs. Qed.
Lemma safe_reg (f : Cpu -> Z) (phi : Z -> Prop) :
  (forall c, cpu_ok c -> phi (f c)) -> safe r n (reg f) phi.
Proof. apply safe_gets. Qed.
Lemma safe_upd f : (forall c, cpu_ok c -> cpu_ok (f c)) -> safe r n (upd f) (fun _ => True).
Proof. intros H s []. unfold upd. run_prog. split; [done|]. constructor; try done. by apply H. Qed.
Lemma safe_get_mem : safe r n get_mem (fun m => bytes_ok m /\ zlen m = n).
Proof. intros s Hs. unfold get_mem. run_prog. by destruct Hs. Qed.
Lemma safe_set_mem m : bytes_ok m -> zlen m = n -> safe r n (set_mem m) (fun _ => True).
Proof. intros ?? s []. unfold set_mem. run_prog. by split. Qed.
Lemma safe_lift {A} (m : outcome RunError A) (phi : A -> Prop) :
  (forall a, m = Ok a -> phi a) -> safe r n (lift m) phi.
Proof. intros H s Hs. unfold lift. destruct m; [|done..]. split; [auto|done]. Qed.
End Rules.

(** ** Registers *)

Definition setters : list (Z -> Cpu -> Cpu) :=
  [set_rax; set_rbp; set_rbx; set_rsp; set_rdi; set_rsi; set_rdx; set_rcx; set_r8; set_r9;
   set_r10; set_r12; set_r13; set_rip].
Definition readers : list (Cpu -> Z) :=
  [rax; rbp; rbx; rsp; rdi; rsi; rdx; rcx; r8; r9; r10; r12; r13; rip].
Lemma set_ok set v c : In set setters -> is_u64 v -> cpu_ok c -> cpu_ok (set v c).
Proof.
  intros Hin Hv Hc. unfold cpu_ok, regs in *. rewrite !Forall_cons_iff in *. destruct c.
  cbn in *. repeat destruct Hin as [<-|Hin]; cbn; tauto.
Qed.
Lemma reader_ok f c : In f readers -> cpu_ok c -> is_u64 (f c).
Proof.
  intros Hin Hc. unfold cpu_ok, regs in *. rewrite !Forall_cons_iff in *.
  cbn in Hin. repeat destruct Hin as [<-|Hin]; tauto.
Qed.
Ltac pick := solve [cbn [In setters readers]; repeat first [left; reflexivity|right]].
Create HintDb mach.
#[export] Hint Extern 1 (cpu_ok (_ _ _)) => (apply set_ok; [pick|..]) : mach.
#[export] Hint Extern 1 (is_u64 (_ _)) => (apply reader_ok; [pick|]) : mach.

(** *** Words *)
Lemma mod_u64 z : is_u64 (z mod 2 ^ 64).
Proof. apply Z.mod_pos_bound. lia. Qed.
Lemma of_i64_u64 z : is_u64 (of_i64 z).
Proof. apply mod_u64. Qed.
Lemma log2_lt_64 z : 0 <= z -> is_u64 z <-> forall i, 64 <= i -> Z.testbit z i = false.
Proof.
  intros Hz. split.
  - intros Hu i Hi. destruct (decide (z = 0)) as [->|]; [apply Z.bits_0|].
    apply Z.bits_above_log2; [done|]. assert (Z.log2 z < 64); [|lia]. apply Z.log2_lt_pow2; ilia.
  - intros Hb. unfold is_u64. destruct (decide (z = 0)) as [->|]; [lia|].
    assert (Z.log2 z < 64) as Hl; [|apply Z.log2_lt_pow2 in Hl; lia].
    destruct (decide (64 <= Z.log2 z)) as [Hge|]; [|lia].
    specialize (Hb _ Hge). rewrite Z.bit_log2 in Hb; [done|lia].
Qed.
Lemma land_u64 a b : is_u64 a -> 0 <= b -> is_u64 (Z.land a b).
Proof.
  intros Ha Hb. assert (0 <= a) by ilia. apply log2_lt_64; [by apply Z.land_nonneg; left|].
  intros i Hi. rewrite Z.land_spec. rewrite log2_lt_64 in Ha by done. by rewrite Ha.
Qed.
Lemma lor_u64 a b : is_u64 a -> is_u64 b -> is_u64 (Z.lor a b).
Proof.
  intros Ha Hb. assert (0 <= a) by ilia. assert (0 <= b) by ilia.
  apply log2_lt_64; [by apply Z.lor_nonneg|].
  intros i Hi. rewrite Z.lor_spec. rewrite log2_lt_64 in Ha, Hb by done. by rewrite Ha, Hb.
Qed.
Lemma land_of_i64_u64 a z : is_u64 a -> is_u64 (Z.land a (of_i64 z)).
Proof. intros. apply land_u64; [done|apply of_i64_u64]. Qed.
Lemma wrapping_u64 a b : is_u64 (wrapping_add a b) /\ is_u64 (wrapping_sub a b).
Proof. split; apply mod_u64. Qed.
Lemma u8_u64 z : is_u8 z -> is_u64 z.
Proof. ilia. Qed.
Lemma u32_u64 z : is_u32 z -> is_u64 z.
Proof. ilia. Qed.
#[local] Hint Resolve mod_u64 of_i64_u64 lor_u64 : mach.
#[local] Hint Extern 0 (is_u64 0) => (unfold is_u64; lia) : mach.

Lemma get_reg64_ok c i : cpu_ok c -> is_u64 (get_reg64 c i).
Proof. intros. unfold get_reg64. repeat case_match; auto with mach. Qed.
Lemma set_reg64_ok i v c : is_u64 v -> cpu_ok c -> cpu_ok (set_reg64 i v c).
Proof. intros. unfold set_reg64. repeat case_match; auto with mach. Qed.
Lemma set_loaded_ok i v c : is_u64 v -> cpu_ok c -> cpu_ok (set_loaded i v c).
Proof. intros. unfold set_loaded. repeat case_match; auto with mach. Qed.
Lemma set_lea_ok i v c : is_u64 v -> cpu_ok c -> cpu_ok (set_lea i v c).
Proof. intros. unfold set_lea. repeat case_match; auto with mach. Qed.
Lemma set_lea_ext_ok i v c : is_u64 v -> cpu_ok c -> cpu_ok (set_lea_ext i v c).
Proof. intros. unfold set_lea_ext. repeat case_match; auto with mach. Qed.
Lemma set_imm_ok i v c : is_u64 v -> cpu_ok c -> cpu_ok (set_imm i v c).
Proof. intros. unfold set_imm. repeat case_match; auto with mach. Qed.
Lemma set_flags_ok (z f : bool) c : cpu_ok c -> cpu_ok (set_sf f (set_zf z c)).
Proof. done. Qed.
Lemma set_al_ok v c : is_u8 v -> cpu_ok c -> cpu_ok (set_al v c).
Proof.
  intros Hv Hc. unfold set_al. apply set_ok; [pick| |done]. apply lor_u64; [|by apply u8_u64].
  apply land_u64; [auto with mach|done].
Qed.
Lemma alu_ok o cur imm : is_u64 cur -> is_u64 (alu o cur imm).
Proof. intros. unfold alu. repeat case_match; auto with mach. Qed.
Lemma get_al_ok c : cpu_ok c -> is_u64 (get_al c).
Proof. intros. apply land_u64; [auto with mach|lia]. Qed.
#[export] Hint Resolve get_reg64_ok set_reg64_ok set_loaded_ok set_lea_ok set_lea_ext_ok set_imm_ok
  set_flags_ok set_al_ok alu_ok get_al_ok u8_u64 u32_u64 : mach.
#[export] Hint Resolve mod_u64 of_i64_u64 lor_u64 land_of_i64_u64 : mach.
#[export] Hint Extern 1 (is_u64 (wrapping_add _ _)) => apply wrapping_u64 : mach.
#[export] Hint Extern 1 (is_u64 (wrapping_sub _ _)) => apply wrapping_u64 : mach.
#[export] Hint Extern 0 (is_u64 0) => (unfold is_u64; lia) : mach.

(** ** Memory accesses *)
Section Safe.
Context (r : option (Z * Z)) (n base : Z).

Lemma safe_mem_read {A} (f : bytes -> outcome RunError A) (phi : A -> Prop) :
  (forall m a, bytes_ok m -> f m = Ok a -> phi a) -> safe r n (m ← get_mem; lift (f m)) phi.
Proof. intros H. eapply safe_bind; [apply safe_get_mem|]. intros m [Hm _]. apply safe_lift. eauto. Qed.
Lemma safe_rd32 va : safe r n (rd32 base va) is_u32.
Proof. apply safe_mem_read. intros m a Hm Ha. by apply read_uN_range in Ha. Qed.
Lemma safe_rd64 va : safe r n (rd64 base va) is_u64.
Proof. apply safe_mem_read. intros m a Hm Ha. by apply read_uN_range in Ha. Qed.
Lemma read_u8_range m va v : bytes_ok m -> read_u8 AddressOutOfRange base m va = Ok v -> is_u8 v.
Proof.
  intros Hm (i & _ & H)%bind_Ok. unfold index in H. repeat case_match; simplify_eq.
  unfold bytes_ok in Hm. rewrite Forall_lookup in Hm. eauto.
Qed.
Lemma safe_rd8 va : safe r n (rd8 base va) is_u8.
Proof. apply safe_mem_read. intros m a. apply read_u8_range. Qed.
Lemma safe_rdi32 va : safe r n (rdi32 base va) (fun _ => True).
Proof. by apply safe_mem_read. Qed.
Lemma safe_rd_bytes va : safe r n (rd_bytes base va) (fun b => length b = 8%nat).
Proof.
  apply safe_mem_read. intros m a _ (i & _ & (src & Hs & Hc)%bind_Ok)%bind_Ok.
  apply copy_from_slice_Ok in Hc as (? & ? & ? & ->).
  change 8%nat with (length (zreplicate 8 0)). apply Nat2Z.inj. apply zlen_splice; lia.
Qed.
Lemma safe_wr k va v :
  safe r n (m ← get_mem; m ← lift (write_uN AddressOutOfRange k base m va v); set_mem m) (fun _ => True).
Proof.
  eapply safe_bind; [apply safe_get_mem|]. intros m [Hm Hn].
  eapply safe_bind; [apply safe_lift; intros a Ha; exact Ha|].
  intros m' (? & ? & ->)%write_uN_Ok. apply safe_set_mem.
  - apply bytes_ok_splice; [done|apply to_le_ok].
  - rewrite zlen_splice; [done|lia|rewrite zlen_to_le; lia].
Qed.
Lemma safe_wr32 va v : safe r n (wr32 base va v) (fun _ => True).
Proof. apply safe_wr. Qed.
Lemma safe_wr64 va v : safe r n (wr64 base va v) (fun _ => True).
Proof. apply safe_wr. Qed.

Lemma safe_push v : safe r n (push_u64 base v) (fun _ => True).
Proof.
  unfold push_u64. eapply safe_bind; [apply (safe_reg _ _ _ is_u64); auto with mach|]. intros sp Hsp.
  eapply safe_bind; [apply (safe_lift _ _ _ is_u64)|].
  { intros a (-> & ?)%ok_or_Ok%checked_sub_Some. ilia. }
  intros sp' Hsp'. eapply safe_bind; [apply safe_wr64|]. intros _ _.
  apply safe_upd. auto with mach.
Qed.
Lemma safe_pop : safe r n (pop_u64 base) is_u64.
Proof.
  unfold pop_u64. eapply safe_bind; [apply (safe_reg _ _ _ is_u64); auto with mach|]. intros sp Hsp.
  eapply safe_bind; [apply safe_rd64|]. intros v Hv.
  eapply safe_bind; [apply (safe_lift _ _ _ is_u64)|].
  { intros a (-> & ?)%ok_or_Ok%checked_add_Some. ilia. }
  intros sp' Hsp'. eapply safe_bind; [apply safe_upd; auto with mach|]. intros _ _.
  by apply safe_ret.
Qed.
Lemma safe_ip_plus k : 0 <= k -> safe r n (ip_plus k) is_u64.
Proof.
  intros Hk. unfold ip_plus. eapply safe_bind; [apply (safe_reg _ _ _ is_u64); auto with mach|].
  intros ip Hip. apply safe_lift. intros a (-> & ?)%add64_Ok. ilia.
Qed.
Lemma safe_goto v : is_u64 v -> safe r n (goto v) (fun _ => True).
Proof.
  intros Hv. unfold goto. eapply safe_bind; [apply safe_upd; auto with mach|]. intros _ _.
  by apply safe_ret.
Qed.
Lemma safe_next k : 0 <= k -> safe r n (next k) (fun _ => True).
Proof.
  intros Hk. unfold next. eapply safe_bind; [by apply safe_ip_plus|]. intros ip Hip.
  by apply safe_goto.
Qed.
Lemma safe_sadd a d : safe r n (sadd a d) is_u64.
Proof.
  unfold sadd. eapply safe_bind; [by apply (safe_lift _ _ _ (fun _ => True))|]. intros v _.
  apply safe_ret. auto with mach.
Qed.
Lemma safe_rd f : (forall c, cpu_ok c -> is_u64 (f c)) -> safe r n (reg f) is_u64.
Proof. apply safe_reg. Qed.
Lemma safe_arg : safe r n (reg arg_addr) is_u64.
Proof. apply safe_reg. intros. apply mod_u64. Qed.
End Safe.

(** ** Every instruction *)

Ltac sf_rule := lazymatch goal with
  | |- safe _ _ (rd32 _ _) _ => apply safe_rd32
  | |- safe _ _ (rd64 _ _) _ => apply safe_rd64
  | |- safe _ _ (rd8 _ _) _ => apply safe_rd8
  | |- safe _ _ (rdi32 _ _) _ => apply safe_rdi32
  | |- safe _ _ (wr32 _ _ _) _ => apply safe_wr32
  | |- safe _ _ (wr64 _ _ _) _ => apply safe_wr64
  | |- safe _ _ (push_u64 _ _) _ => apply safe_push
  | |- safe _ _ (pop_u64 _) _ => apply safe_pop
  | |- safe _ _ (ip_plus _) _ => apply safe_ip_plus; lia
  | |- safe _ _ (sadd _ _) _ => apply safe_sadd
  | |- safe _ _ (reg arg_addr) _ => apply safe_arg
  | |- safe _ _ (reg _) _ => apply safe_rd; solve [auto with mach]
  | |- safe _ _ (upd _) _ => apply safe_upd; intros; try case_match; solve [auto with mach]
  end.
Ltac sf := repeat (cbv beta zeta; first
  [ match goal with H : safe _ _ ?k _ |- safe _ _ ?k _ => exact H end
  | match goal with |- safe _ _ (if ?c then _ else _) _ => destruct c end
  | apply safe_next; first [lia | case_match; lia]
  | by apply safe_goto
  | apply safe_fail
  | by apply safe_ret
  | eapply safe_bind; [sf_rule|intros ? ?] ]).

Section Exec.
Context (r : option (Z * Z)) (n base : Z) (b : bytes).
Abbreviation ok m := (safe r n m (fun _ => True)).

Lemma safe_exec_stack k : ok k -> ok (exec_stack base b k).
Proof. intros. unfold exec_stack. sf. Qed.
Lemma safe_exec_arg k : ok k -> ok (exec_arg base b k).
Proof. intros. unfold exec_arg. sf. Qed.
Lemma safe_exec_alu8 k : ok k -> ok (exec_alu8 b k).
Proof. intros. unfold exec_alu8. sf. Qed.
Lemma safe_exec_alu32 k : ok k -> ok (exec_alu32 base b k).
Proof. intros. unfold exec_alu32. sf. Qed.
Lemma safe_exec_mov k : ok k -> ok (exec_mov b k).
Proof. intros. unfold exec_mov. sf. Qed.
Lemma safe_exec_load32 k : ok k -> ok (exec_load32 base b k).
Proof.
  intros. unfold exec_load32. sf. eapply (safe_bind _ _ _ _ (fun _ => True)); [sf|].
  intros [addr|] _; sf.
Qed.
Lemma safe_exec_lea k : ok k -> ok (exec_lea b k).
Proof. intros. unfold exec_lea. sf. Qed.
Lemma safe_exec_lea_ext k : ok k -> ok (exec_lea_ext b k).
Proof. intros. unfold exec_lea_ext. sf. Qed.
Lemma safe_exec_misc k : ok k -> ok (exec_misc base b k).
Proof. intros. unfold exec_misc. sf. Qed.
Lemma safe_exec_zero k : ok k -> ok (exec_zero b k).
Proof. intros. unfold exec_zero. sf. Qed.
Lemma safe_exec_test k : ok k -> ok (exec_test base b k).
Proof. intros. unfold exec_test. sf. Qed.
Lemma safe_exec_imm k : ok k -> ok (exec_imm base b k).
Proof. intros. unfold exec_imm. sf. Qed.
Lemma safe_lea_rip set : In set setters -> ok (lea_rip base set).
Proof.
  intros Hin. unfold lea_rip. sf. eapply safe_bind; [apply safe_upd; intros; by apply set_ok|]. intros ? ?. sf.
Qed.
Lemma safe_exec_lea_rip k : ok k -> ok (exec_lea_rip base b k).
Proof. intros. unfold exec_lea_rip. sf; apply safe_lea_rip; pick. Qed.
Lemma safe_exec_store32 k : ok k -> ok (exec_store32 base b k).
Proof. intros. unfold exec_store32. sf. Qed.
Lemma safe_outside t : ok (outside base t).
Proof.
  unfold outside. sf. eapply safe_bind; [apply safe_get_mem|]. intros m _.
  eapply safe_bind; [by apply (safe_lift _ _ _ (fun _ => True))|]. intros e _. sf.
Qed.
Lemma safe_exec_control hs k : ok hs -> ok k -> ok (exec_control base hs b k).
Proof.
  intros Hs Hk. unfold exec_control. sf.
  - eapply safe_bind; [exact Hs|]. intros e _. sf.
  - eapply safe_bind; [by apply (safe_gets _ _ zf (fun _ => True))|]. intros z _. sf.
  - eapply safe_bind; [apply safe_outside|]. intros o _. sf.
    eapply safe_bind with (phi := fun _ => True); [destruct o; [apply safe_outside|sf]|]. intros d _. sf.
Qed.
End Exec.

Lemma safe_exec_one r n base hs : safe r n hs (fun _ => True) -> safe r n (exec_one base hs) (fun _ => True).
Proof.
  intros Hs. unfold exec_one. sf. eapply safe_bind; [apply safe_rd_bytes|]. intros b _.
  apply safe_exec_stack, safe_exec_arg, safe_exec_alu8, safe_exec_alu32, safe_exec_mov,
    safe_exec_load32, safe_exec_lea, safe_exec_lea_ext, safe_exec_misc, safe_exec_zero,
    safe_exec_test, safe_exec_imm, safe_exec_lea_rip, safe_exec_store32, safe_exec_control; [done|].
  unfold unsupported. sf.
Qed.

(** ** What the kernel's services return *)
Section Services.
Context (r : option (Z * Z)).

Lemma safeK_dispatch nr a0 a1 a2 a3 a4 a5 :
  is_u64 a0 -> is_u64 a1 -> is_u64 a2 -> is_u64 a3 ->
  safeK r (dispatch nr a0 a1 a2 a3 a4 a5) is_i64.
Proof.
  intros H0 H1 H2 H3 k Hk. pose proof (dispatch_wf r k nr a0 a1 a2 a3 a4 a5 Hk H0 H1 H2 H3) as H.
  by destruct (dispatch _ _ _ _ _ _ _ k).
Qed.
Lemma safeK_stdin :
  safeK r posix.read_stdin_byte_blocking (fun o => match o with Some ch => is_u8 ch | None => True end).
Proof.
  apply safeK_keeps. unfold posix.read_stdin_byte_blocking.
  eapply keeps_bind; [by apply (keeps_gets _ _ (fun _ => True))|]. intros i _.
  destruct (negb i); [by apply keeps_ret|].
  eapply keeps_bind; [apply (keeps_gets _ _ (Forall (fun o => match o with Some ch => is_u8 ch | None => True end)));
    intros k []; done|].
  intros ks Hks. by apply keeps_poll_byte.
Qed.
Lemma safeK_mark_exit code : safeK r (mark_exit_code code) (fun _ => True).
Proof.
  apply safeK_keeps, keeps_modify; [done|]. intros k []. split; try done; cbn.
  apply (sext_range 32). lia.
Qed.
End Services.

(** Strings read from memory are bytes. *)
Lemma user_cstr_loop_bytes k base m va i acc o :
  bytes_ok m -> bytes_ok acc -> user_cstr_loop AddressOutOfRange k base m va i acc = Ok (Some o) -> bytes_ok o.
Proof.
  intros Hm. revert i acc. induction k as [|k IH]; intros i acc Ha; cbn [user_cstr_loop]; [done|].
  intros (b & Hb%read_u8_range & H)%bind_Ok; [|done]. branch as Hz in H.
  - injection H as H. apply from_utf8_Some in H as [-> _]. done.
  - eapply IH; [|exact H]. apply Forall_app. split; [done|]. by constructor.
Qed.
Lemma read_user_cstr_bytes base m va s :
  bytes_ok m -> read_user_cstr AddressOutOfRange base m va = Ok (Some s) -> bytes_ok s.
Proof. intros Hm. unfold read_user_cstr. branch as Hb; [done|]. apply user_cstr_loop_bytes; [done|constructor]. Qed.
Lemma read_user_strs_bytes base m ptrs ss :
  bytes_ok m -> read_user_strs AddressOutOfRange base m ptrs = Ok ss -> Forall bytes_ok ss.
Proof.
  intros Hm. revert ss. induction ptrs as [|p ptrs IH]; intros ss; cbn [read_user_strs].
  - by intros [= <-].
  - intros (o & Ho & (s & ->%ok_or_Ok & (rest & Hr & [= <-])%bind_Ok)%bind_Ok)%bind_Ok.
    constructor; [|auto]. by eapply read_user_cstr_bytes.
Qed.
Lemma read_user_str_array_bytes base m va k ss :
  bytes_ok m -> read_user_str_array AddressOutOfRange base m va k = Ok ss -> Forall bytes_ok ss.
Proof. intros Hm (ptrs & _ & H)%bind_Ok. by eapply read_user_strs_bytes. Qed.
Lemma normalize_exec_path_bytes path name :
  bytes_ok path -> normalize_exec_path path = Some name -> bytes_ok name.
Proof.
  intros Hp. unfold normalize_exec_path. branch as H1; [done|]. cbv zeta. branch as H2; [done|].
  intros [= <-]. apply drop_while_Forall.
  exact (strip_prefix_or_Forall is_u8 (str "./") (trim path) (trim_Forall _ _ Hp)).
Qed.

(** ** The system calls of a program *)
Section Program.
Context (r : option (Z * Z)) (n base tmp_ptr : Z) (run_program : bytes -> list bytes -> list bytes -> W unit).
Context (run_ok : forall image argv envp, bytes_ok image -> zlen image <= i64_max -> Forall bytes_ok argv -> Forall bytes_ok envp ->
  safeW r (run_program image argv envp) (fun _ => True)) (tmp_ok : is_u64 tmp_ptr).
Abbreviation ok m := (safe r n m (fun _ => True)).

Lemma safe_return_rax v : is_u64 v -> ok (return_rax v).
Proof. intros. unfold return_rax. sf. Qed.

Lemma safe_copy m a b src :
  bytes_ok m -> zlen m = n -> bytes_ok src ->
  safe r n (lift (copy_from_slice m a b src)) (fun m' => bytes_ok m' /\ zlen m' = n).
Proof.
  intros Hm Hn Hs. apply safe_lift. intros m' (? & ? & ? & ->)%copy_from_slice_Ok.
  split; [by apply bytes_ok_splice|]. rewrite zlen_splice; [done|lia..].
Qed.
Lemma safe_read_line k start got :
  0 <= got -> safe r n (read_line k start got) (fun g => got <= g <= got + Z.of_nat k).
Proof.
  revert got. induction k as [|k IH]; intros got Hg; cbn [read_line]; [apply safe_ret; lia|].
  eapply safe_bind; [apply safe_kernel, safeK_stdin|]. intros [ch|] Hch; [|apply safe_ret; lia].
  eapply safe_bind; [apply safe_get_mem|]. intros m [Hm Hn].
  eapply safe_bind; [apply safe_copy; [done..|]; constructor; [destruct (ch =? 13); [ilia|exact Hch]|done]|].
  intros m' [Hm' Hn']. eapply safe_bind; [by apply safe_set_mem|]. intros _ _.
  eapply safe_bind; [apply safe_in_world, safeW_process|]. intros _ _.
  destruct (_ =? 10); [apply safe_ret; lia|]. eapply safe_weaken; [apply IH; lia|]. cbv beta. lia.
Qed.
Lemma safe_start m va :
  bytes_ok m -> zlen m = n ->
  safe r n (lift (va_to_index AddressOutOfRange base m va)) (fun start => 0 <= start < n).
Proof. intros Hm Hn. apply safe_lift. intros i (? & -> & ?)%va_to_index_Ok. lia. Qed.
Lemma safe_syscall_read : n <= u64_max -> ok (syscall_read base tmp_ptr).
Proof.
  intros Hn64. unfold syscall_read. sf. eapply safe_bind; [apply safe_get_mem|]. intros m [Hm Hn].
  eapply safe_bind; [by apply safe_start|]. intros start Hst. cbv beta zeta in *.
  branch as Hc; [by apply safe_return_rax; auto with mach|]. rewrite Hn in *.
  match goal with H2 : is_u64 ?y |- context [Z.min ?y (n - start)] =>
    assert (is_u64 (Z.min y (n - start))) as Hcap by ilia end.
  sf.
  - eapply safe_bind; [apply safe_read_line; lia|]. intros got Hg. apply safe_return_rax.
    cbv beta in Hg. ilia.
  - eapply safe_bind; [apply safe_kernel, safeK_keeps, keeps_store, bytes_ok_zreplicate; ilia|].
    intros _ _. eapply safe_bind; [apply safe_kernel, safeK_dispatch; ilia|]. intros v Hv.
    eapply safe_bind with (phi := fun _ => True); [|intros _ _; apply safe_return_rax; auto with mach].
    destruct (0 <=? v); [|by apply safe_ret].
    eapply safe_bind; [apply safe_kernel, safeK_keeps, keeps_load; lia|]. intros tmp [_ Htmp].
    eapply safe_bind; [apply (safe_lift _ _ _ bytes_ok)|].
    { intros src (_ & _ & ->)%sub_slice_Ok. by apply bytes_ok_zslice. }
    intros src Hsrc. eapply safe_bind; [by apply safe_copy|]. intros m' [Hm' Hn']. by apply safe_set_mem.
Qed.
Lemma safe_syscall_write : n <= u64_max -> ok (syscall_write base).
Proof.
  intros Hn64. unfold syscall_write. sf. eapply safe_bind; [apply safe_get_mem|]. intros m [Hm Hn].
  eapply safe_bind; [by apply safe_start|]. intros start Hst. cbv beta zeta in *.
  eapply safe_bind; [by apply (safe_lift _ _ _ (fun _ => True))|]. intros e _. sf.
  eapply safe_bind with (phi := fun _ => True); [sf; apply safe_in_world, safeW_process|]. intros _ _.
  eapply safe_bind; [apply safe_kernel, safeK_dispatch; auto with mach; ilia|]. intros v Hv.
  apply safe_return_rax; auto with mach.
Qed.
Lemma safe_syscall_execve : ok (syscall_execve base run_program).
Proof.
  unfold syscall_execve. eapply safe_bind; [apply safe_get_mem|]. intros m [Hm Hn]. sf.
  eapply safe_bind; [by apply safe_lift; intros y Hy; exact Hy|]. intros [path|] Hpath;
    [|apply safe_return_rax; auto with mach].
  apply read_user_cstr_bytes in Hpath; [|done].
  eapply safe_bind; [by apply safe_lift; intros y Hy; exact Hy|]. intros argv Hargv%read_user_str_array_bytes; [|done].
  eapply safe_bind; [by apply safe_lift; intros y Hy; exact Hy|]. intros envp Henvp%read_user_str_array_bytes; [|done].
  destruct (normalize_exec_path path) as [name|] eqn:Hname; [|apply safe_return_rax; auto with mach].
  apply normalize_exec_path_bytes in Hname; [|done].
  eapply safe_bind; [apply safe_kernel, safeK_keeps, keeps_rootfs_len|].
  intros [[addr image]|] Himg; [|apply safe_return_rax; auto with mach]. destruct Himg as (Himg & _ & Hilen).
  eapply safe_bind; [by apply safe_kernel, safeK_keeps, keeps_open|].
  intros [e|rec] Hrec; [apply safe_return_rax; auto with mach|].
  eapply safe_bind; [apply safe_kernel, safeK_mark_exit|]. intros _ _.
  eapply safe_bind; [apply safe_in_world, safeW_catch, run_ok; [..|case_bool_decide|]; auto|].
  { destruct Hrec as (_ & _ & -> & _). by apply bytes_ok_zslice. }
  { destruct Hrec as (? & ? & _). lia. }
  intros [e|[]] _; [apply safe_return_rax; auto with mach|]. sf.
Qed.
Lemma safe_handle_syscall : n <= u64_max -> ok (handle_syscall base tmp_ptr run_program).
Proof.
  intros Hn64. unfold handle_syscall.
  eapply safe_bind; [apply safe_rd; auto with mach|]. intros nr Hnr.
  repeat match goal with |- safe _ _ (if ?c then _ else _) _ => destruct c end.
  - by apply safe_syscall_read.
  - by apply safe_syscall_write.
  - eapply safe_bind; [apply safe_kernel, safeK_dispatch; ilia|]. intros v _. apply safe_return_rax; auto with mach.
  - sf. eapply safe_bind; [apply safe_kernel, safeK_dispatch; ilia|]. intros v _. apply safe_return_rax; auto with mach.
  - apply safe_syscall_execve.
  - sf. eapply safe_bind; [apply safe_kernel, safeK_dispatch; ilia|]. intros v _. sf.
  - eapply safe_bind; [by apply (safe_gets _ _ (fun c => c) cpu_ok)|]. intros c Hc.
    eapply safe_bind; [apply safe_kernel, safeK_dispatch; auto with mach|]. intros v _.
    apply safe_return_rax; auto with mach.
Qed.
Lemma safe_run_loop k : n <= u64_max -> ok (run_loop base tmp_ptr run_program k).
Proof.
  intros Hn64. induction k as [|k IH]; cbn [run_loop]; [sf|].
  eapply safe_bind; [by apply safe_exec_one, safe_handle_syscall|]. intros d _. sf.
Qed.
End Program.

(** ** Loading and running *)

Lemma load_program_ok image argv envp base mem c :
  bytes_ok image -> zlen image <= i64_max -> Forall bytes_ok argv -> Forall bytes_ok envp ->
  load_program image argv envp = Ok (base, mem, c) ->
  bytes_ok mem /\ zlen mem <= MAX_INTERP_MEM + STACK_SIZE /\ base + zlen mem <= u64_max /\
  0 <= base /\ cpu_ok c.
Proof.
  intros Hi Hlen Ha He. unfold load_program.
  intros (img & Hp%map_err_Ok & H)%bind_Ok. destruct (parse_elf64_ok _ _ Hi Hp) as [Hent Hsegs].
  case_bool_decide; [done|]. pose proof (vaddr_range_spec _ Hsegs) as Hr.
  destruct (vaddr_range (segments img)) as [lo hi]. destruct Hr as (Hlo & Hhi & Hall).
  branch as H1 in H; [done|]. cbv zeta in H. branch as H2 in H; [done|].
  apply bind_Ok in H as (total & [-> Ht]%ok_or_Ok%checked_add_Some & H).
  apply bind_Ok in H as (m1 & Hc & H).
  apply orb_false_iff in H2 as [H2 _]. unfold MAX_INTERP_MEM, STACK_SIZE in *.
  assert (zlen (zreplicate (hi - lo + 128 * 1024) 0) = hi - lo + 128 * 1024) as Hz
    by (apply zlen_zreplicate; lia).
  apply copy_segments_Ok in Hc as (Hl1 & Hb1 & _); [|done|rewrite Hz; ilia|done|].
  2: { revert Hall. apply Forall_impl. tauto. }
  apply bind_Ok in H as (tp & [-> Htp]%add64_Ok & H).
  rewrite sub64_small in H by lia. cbn [mbind outcome_bind] in H.
  apply bind_Ok in H as ([sp m2] & Hst & [= <- <- <-]).
  assert (bytes_ok m1) as Hm1 by (apply Hb1; [done|]; apply bytes_ok_zreplicate; ilia).
  pose proof (build_initial_stack_bytes _ _ _ _ _ _ _ _ Ha He Hm1 Hst) as Hm2.
  destruct (build_initial_stack_Ok _ lo m1 (lo + zlen m1 - 0x10) argv envp sp m2 ltac:(lia) ltac:(lia) ltac:(lia) Hst)
    as (aps & eps & Hsp & Htop & _ & [Hl2 _] & _).
  pose proof (zlen_nonneg (stack_words aps eps)).
  split_and!; [done|lia|lia|lia|]. unfold init_cpu, cpu_ok, regs. cbn.
  assert (is_u64 sp) by ilia. repeat (constructor; [first [done|unfold is_u64; lia]|]). constructor.
Qed.

Section Run.
Context (r : option (Z * Z)) (tmp_ptr : nat -> Z) (tmp_ok : forall d, is_u64 (tmp_ptr d)).

Lemma safe_run depth image argv envp :
  bytes_ok image -> zlen image <= i64_max -> Forall bytes_ok argv -> Forall bytes_ok envp ->
  safeW r (run_linux_elf_with_args tmp_ptr depth image argv envp) (fun _ => True).
Proof.
  revert image argv envp. induction depth as [|depth IH]; intros image argv envp Hi Hl Ha He w Hw;
    cbn [run_linux_elf_with_args]; [done|].
  destruct (load_program image argv envp) as [[[base mem] c]|e|] eqn:Hload; [|done..].
  destruct (load_program_ok _ _ _ _ _ _ Hi Hl Ha He Hload) as (Hm & Hlen & _ & _ & Hc).
  pose proof (safe_run_loop r (zlen mem) base (tmp_ptr depth) _ IH (tmp_ok depth) (Z.to_nat MAX_STEPS)) as Hs.
  specialize (Hs ltac:(unfold MAX_INTERP_MEM, STACK_SIZE in *; ilia) (mkMach c mem w) ltac:(by constructor)).
  destruct (run_loop _ _ _ _ _) as [[] s|e s|h]; [|by destruct Hs|done]. by destruct Hs as [_ []].
Qed.
End Run.

(** ** Confinement *)

(** The bytes at [rip] are the system call instruction. *)
Definition is_syscall (base : Z) (s : mach) : bool :=
  match read_bytes AddressOutOfRange base (umem s) (rip (cpu s)) with
  | Ok b => op b [0x0F; 0x05]
  | _ => false
  end.
(** The addresses of kernel memory that a system call with these registers may
    write: the read buffer of the interpreter, or what the program passes. *)
Definition reach (tmp_ptr : Z) (c : Cpu) (x : Z) : Prop :=
  if rax c =? SYS_READ then range tmp_ptr 256 x
  else in_window_of (rax c) (rdi c) (rsi c) (rdx c) (r10 c) x.

Lemma op_syscall b : op b [0x0F; 0x05] = true -> exists rest, b = 0x0F :: 0x05 :: rest.
Proof.
  destruct b as [|x [|y rest]]; cbn [op]; rewrite ?andb_false_r; [done..|].
  intros H. rewrite !andb_true_iff, !Z.eqb_eq in H. destruct H as (-> & -> & _). by eexists.
Qed.
Lemma exec_one_syscall base hs s : is_syscall base s = true ->
  exec_one base hs s = (exit ← hs; ip ← ip_plus 2; upd (set_rip ip);; ret exit) s.
Proof.
  unfold is_syscall, exec_one, reg, rd_bytes, get_mem. run_prog.
  destruct (read_bytes _ _ _ _) as [b|e|]; [|done..]. intros (rest & ->)%op_syscall. reflexivity.
Qed.
Lemma exec_one_plain base hs s : is_syscall base s = false ->
  match exec_one base hs s with Done _ s' | Fail _ s' => wld s' = wld s | Halt _ => True end.
Proof.
  unfold is_syscall, exec_one, reg, rd_bytes, get_mem. run_prog.
  destruct (read_bytes _ _ _ _) as [b|e|]; [|done..]. intros Hb.
  assert (PreOrder (fun w w' : world => w' = w)) as Hpre by (split; [done|intros ???; congruence]).
  exact (framed_exec_bytes (fun w w' => w' = w) base hs b (or_introl Hb) s).
Qed.

Section Reach.
Context (r : option (Z * Z)) (n base tmp_ptr : Z) (run_program : bytes -> list bytes -> list bytes -> W unit).
Lemma reach_read P : (forall x, range tmp_ptr 256 x -> P x) ->
  evolves (on_wld (within P)) (syscall_read base tmp_ptr).
Proof.
  intros HP. unfold syscall_read. ev.
  - apply within_kernel, writes_store. intros x Hx. rewrite zlen_zreplicate in Hx by lia. by apply HP.
  - apply within_kernel. change (dispatch _ _ _ _ _ _ _) with (if a <=? 2 then posix.read a tmp_ptr (Z.min (Z.min a0 (zlen a2 - a3)) 256)
      else sys_read a tmp_ptr (Z.min (Z.min a0 (zlen a2 - a3)) 256)).
    destruct (a <=? 2); [apply writes_posix_read|apply writes_sys_read]; intros x Hx; apply HP; unfold range in *; lia.
Qed.
Lemma syscall_reach s : mach_ok r n s -> rax (cpu s) <> SYS_EXECVE ->
  match handle_syscall base tmp_ptr run_program s with
  | Done _ s' | Fail _ s' => within (reach tmp_ptr (cpu s)) (wld s) (wld s')
  | Halt _ => True
  end.
Proof.
  intros Hs He. pose proof (mo_cpu _ _ _ Hs) as Hc. pose proof (mo_kern _ _ _ Hs) as Hw.
  unfold reach, handle_syscall.
  match goal with |- context [(reg rax ≫= ?f) s] => change ((reg rax ≫= f) s) with (f (rax (cpu s)) s) end. cbv beta.
  destruct (Z.eqb_spec (rax (cpu s)) SYS_READ) as [Hr|Hr]; [by apply reach_read|].
  assert (forall P (m : X bool), evolves (on_wld (within P)) m -> match m s with Done _ s' | Fail _ s' =>
    within P (wld s) (wld s') | Halt _ => True end : Prop) as Hev by (intros P m H; apply H).
  assert (forall P nr a0 a1 a2 a3 a4 a5, touched nr PMem = false -> writes P (dispatch nr a0 a1 a2 a3 a4 a5)) as Hd.
  { intros. by eapply writes_frames; [|apply frames_dispatch]. }
  destruct (Z.eqb_spec (rax (cpu s)) SYS_WRITE).
  { apply Hev. unfold syscall_write. ev. }
  destruct (Z.eqb_spec (rax (cpu s)) SYS_GETPID); [apply Hev; ev|].
  destruct (Z.eqb_spec (rax (cpu s)) SYS_BRK); [apply Hev; ev|].
  rewrite (proj2 (Z.eqb_neq _ _) He).
  destruct ((rax (cpu s) =? SYS_EXIT) || _); [apply Hev; ev|].
  unfold mbind, prog_bind, gets, in_world, kcall.
  pose proof (writes_dispatch r (rax (cpu s)) (rdi (cpu s)) (rsi (cpu s)) (rdx (cpu s)) (r10 (cpu s)) (r8 (cpu s)) (r9 (cpu s))
    ltac:(auto with mach) ltac:(auto with mach) _ Hw) as H.
  destruct (dispatch _ _ _ _ _ _ _ _) as [v k|[]|h]; [exact H|done].
Qed.
End Reach.

(** C12: what an interpreted program reaches.  Whatever the bytes of its
    instructions, every step of the interpreter keeps the registers 64-bit
    words, the memory of the program at its length and made of bytes, and the
    kernel well formed.  An instruction other than the system call instruction
    leaves the kernel and the terminal exactly as they are.  A system call
    other than [execve], which runs another program, changes kernel memory at
    most in the buffer that its registers name (the interpreter's own buffer
    for [read]); where that buffer lies is up to the program, because the code
    passes the pointers of these calls on untranslated.  A whole run of any
    file with any arguments, nested programs included, leaves the kernel well
    formed and unmaps no memory, whether it ends normally or in an error. *)
Theorem interpreter_reach r tmp_ptr depth w image argv envp :
  (forall d, is_u64 (tmp_ptr d)) -> wf r (kern w) ->
  bytes_ok image -> zlen image <= i64_max -> Forall bytes_ok argv -> Forall bytes_ok envp ->
  (forall base n s, n <= u64_max -> mach_ok r n s ->
    match exec_one base (handle_syscall base (tmp_ptr depth)
            (run_linux_elf_with_args tmp_ptr depth)) s with
    | Done _ s' | Fail _ s' => mach_ok r n s' /\
        if is_syscall base s then
          rax (cpu s) = SYS_EXECVE \/
          mem_within (reach (tmp_ptr depth) (cpu s)) (kern (wld s)) (kern (wld s'))
        else wld s' = wld s
    | Halt _ => True
    end) /\
  match run_linux_elf_with_args tmp_ptr depth image argv envp w with
  | Done _ w' | Fail _ w' => wf r (kern w') /\ mem_within anywhere (kern w) (kern w')
  | Halt _ => True
  end.
Proof.
  intros Htmp Hw Hi Hl Ha He. split.
  - intros base n s Hn Hs. set (hs := handle_syscall _ _ _).
    pose proof (safe_exec_one r n base hs (safe_handle_syscall r n base (tmp_ptr depth) _
      (safe_run r tmp_ptr Htmp depth) (Htmp depth) Hn) s Hs) as H.
    assert (match exec_one base hs s with Done _ s' | Fail _ s' => mach_ok r n s' | Halt _ => True end) as Hok
      by (destruct (exec_one _ _ s); [apply H|exact H|done]).
    clear H. destruct (is_syscall base s) eqn:Hsys.
    + destruct (decide (rax (cpu s) = SYS_EXECVE)) as [Hx|Hx]; [destruct (exec_one _ _ s); auto|].
      pose proof (syscall_reach r n base (tmp_ptr depth) (run_linux_elf_with_args tmp_ptr depth) s Hs Hx) as Hr.
      rewrite exec_one_syscall in * by done. fold hs in Hr. unfold ip_plus, reg, upd in *. revert Hok. run_prog.
      destruct (hs s) as [x s1|e s1|h]; [destruct (add64 _ _)| |]; auto.
    + pose proof (exec_one_plain base hs s Hsys) as Hp. destruct (exec_one _ _ s); auto.
  - pose proof (safe_run r tmp_ptr Htmp depth image argv envp Hi Hl Ha He w Hw) as H.
    pose proof (run_mapped tmp_ptr depth image argv envp w) as Hm.
    destruct (run_linux_elf_with_args _ _ _ _ _ _); [split; [apply H|exact Hm]|by split|done].
Qed.

Lemma interpreter_reach_witness :
  exists w', run_linux_elf_with_args (fun _ => 0x2000) 1 sample_elf [] [] (mkWorld sample_kernel [])
      = Done tt w' /\ wf sample_root (kern w').
Proof.
  assert (bytes_ok sample_elf) as Hok by by apply (bool_decide_unpack _).
  pose proof (interpreter_reach sample_root (fun _ => 0x2000) 1 (mkWorld sample_kernel []) sample_elf [] []
    ltac:(intros; unfold is_u64; lia) sample_wf Hok ltac:(by vm_compute) ltac:(constructor) ltac:(constructor)) as [_ H].
  assert (match run_linux_elf_with_args (fun _ => 0x2000) 1 sample_elf [] [] (mkWorld sample_kernel []) with
    Done _ _ => True | _ => False end) as Hd by (vm_compute; exact I).
  destruct (run_linux_elf_with_args _ _ _ _ _ _) as [[] w'|e w'|h]; [|destruct Hd..].
  exists w'. split; [reflexivity|apply H].
Defined.
End elf_inv.
