(* ===== verification/Isa.v ===== *)
(** * The instruction set the interpreter implements

    An assembly language for the x86-64 instructions that [exec_one] decodes,
    over the registers it keeps (there is no R11, R14 or R15), and their
    encodings.  Each instruction has two meanings: [sem], what the interpreter
    does, panics and lost writes included, and [manual], what the processor
    manual says, with wrapping addresses and the flags.  The theorem of this
    file says that fetching and decoding by byte patterns is [sem], and where
    [sem] is [manual]: everywhere but in the cases that [deviates] lists, and
    up to the flags of arithmetic and the RCX of [syscall]. *)
From stdpp Require Import gmap.
From S2P Require Import Prelude Utf8 Fs Kernel Syscall UserMem Machine Decode Elfrun.

Module isa.
Import elf_runner decode.

Inductive r64 := RAX | RCX | RDX | RBX | RSP | RBP | RSI | RDI | R8 | R9 | R10 | R12 | R13.
Definition get (r : r64) : Cpu -> Z :=
  match r with
  | RAX => rax | RCX => rcx | RDX => rdx | RBX => rbx | RSP => rsp | RBP => rbp | RSI => rsi
  | RDI => rdi | R8 => r8 | R9 => r9 | R10 => r10 | R12 => r12 | R13 => r13
  end.
Definition set (r : r64) : Z -> Cpu -> Cpu :=
  match r with
  | RAX => set_rax | RCX => set_rcx | RDX => set_rdx | RBX => set_rbx | RSP => set_rsp
  | RBP => set_rbp | RSI => set_rsi | RDI => set_rdi | R8 => set_r8 | R9 => set_r9
  | R10 => set_r10 | R12 => set_r12 | R13 => set_r13
  end.
(** The register number of the encoding, without the bit of the REX prefix. *)
Definition num (r : r64) : Z :=
  match r with
  | RAX => 0 | RCX => 1 | RDX => 2 | RBX => 3 | RSP => 4 | RBP => 5 | RSI => 6 | RDI => 7
  | R8 => 0 | R9 => 1 | R10 => 2 | R12 => 4 | R13 => 5
  end.
Definition index (r : r64) : Z :=
  match r with
  | RAX => 0 | RCX => 1 | RDX => 2 | RBX => 3 | RSP => 4 | RBP => 5 | RSI => 6 | RDI => 7
  | R8 => 8 | R9 => 9 | R10 => 10 | R12 => 12 | R13 => 13
  end.
Definition is_in (r : r64) (l : list r64) : bool := existsb (fun x => index r =? index x) l.

Inductive alu_op := Add | Or | Sub.
Definition alu_num (o : alu_op) : Z := match o with Add => 0 | Or => 1 | Sub => 5 end.
(** The result on 64-bit words; [imm] is sign-extended. *)
Definition alu_sem (o : alu_op) (a imm : Z) : Z :=
  match o with
  | Add => of_i64 (to_i64 a + imm)
  | Or => Z.lor a (of_i64 imm)
  | Sub => of_i64 (to_i64 a - imm)
  end.

(** Immediates and displacements are the raw byte, or the raw 32-bit word. *)
Inductive insn :=
| Nop | Endbr64 | Hlt | Ret | Syscall
| Push (r : r64) | Pop (r : r64)
| Mov (dst src : r64)
| Zero (r : r64)                      (* xor r32, r32 *)
| ZeroRbp                             (* xor rbp, rbp *)
| Movsxd                              (* movsxd rax, esi *)
| AndRsp (imm : Z)                    (* and rsp, imm8 *)
| LeaArg | StoreArg | LoadArg         (* rdi and [rdx + rax*8 + 8] *)
| LoadRsi                             (* mov rsi, [rdi] *)
| LoadAl                              (* mov al, [r9 + r8 - 1] *)
| LeaSp (disp : Z)                    (* lea r9, [rsp + disp8] *)
| Cmovns                              (* cmovns rdx, rax *)
| AluI8 (o : alu_op) (r : r64) (imm : Z)
| AluI32 (o : alu_op) (r : r64) (imm : Z)
| MovI32 (r : r64) (imm : Z)          (* mov r32, imm32 *)
| MovS32 (r : r64) (imm : Z)          (* mov r64, imm32, sign-extended *)
| Load32 (dst src : r64)              (* mov r32, [src] *)
| Load32D (dst src : r64) (disp : Z)  (* mov r32, [src + disp8] *)
| Lea (dst src : r64) (disp : Z)
| LeaRip (dst : r64) (disp : Z)
| Store32 (dst : r64) (disp imm : Z)  (* mov dword [dst + disp8], imm32 *)
| Test (r : r64)                      (* test r, r *)
| CmpAl (imm : Z)
| Jmp8 (rel : Z) | Jz8 (rel : Z) | Jmp32 (rel : Z) | Call32 (rel : Z)
| CallRip (disp : Z).                 (* call [rip + disp32] *)

(** ** Encodings *)

Definition modrm (md r m : Z) : Z := md * 64 + r * 8 + m.
(** The operand pairs of [mov r64, r64] that the interpreter knows. *)
Definition mov_bytes (dst src : r64) : option bytes :=
  match dst, src with
  | RBP, RAX => Some [0x48; 0x89; 0xC5] | RBP, RSP => Some [0x48; 0x89; 0xE5]
  | RSP, RBP => Some [0x48; 0x89; 0xEC] | RDI, RAX => Some [0x48; 0x89; 0xC7]
  | RAX, RDI => Some [0x48; 0x89; 0xF8] | RDX, R8 => Some [0x4C; 0x89; 0xC2]
  | RSI, R9 => Some [0x4C; 0x89; 0xCE] | RDI, RDX => Some [0x48; 0x89; 0xD7]
  | RSI, RDX => Some [0x48; 0x89; 0xD6] | RDI, RSP => Some [0x48; 0x89; 0xE7]
  | RDX, RSP => Some [0x48; 0x89; 0xE2] | RSI, RSP => Some [0x48; 0x89; 0xE6]
  | R9, RDX => Some [0x49; 0x89; 0xD1] | R8, RDX => Some [0x49; 0x89; 0xD0]
  | R13, RDI => Some [0x49; 0x89; 0xFD]
  | _, _ => None
  end.
Definition low8 : list r64 := [RAX; RCX; RDX; RBX; RSP; RBP; RSI; RDI].
Definition high5 : list r64 := [R8; R9; R10; R12; R13].
(** [among l r bs]: the encoding exists when [r] is one of [l]. *)
Definition among (l : list r64) (r : r64) (bs : bytes) : option bytes :=
  if is_in r l then Some bs else None.
Definition encode (i : insn) : option bytes :=
  match i with
  | Nop => Some [0x90]
  | Endbr64 => Some [0xF3; 0x0F; 0x1E; 0xFA]
  | Hlt => Some [0xF4]
  | Ret => Some [0xC3]
  | Syscall => Some [0x0F; 0x05]
  | Push r =>
      match r with
      | R12 | R13 => Some [0x41; 0x50 + num r]
      | _ => among [RAX; RBX; RSP; RBP] r [0x50 + num r]
      end
  | Pop r =>
      match r with
      | R12 | R13 => Some [0x41; 0x58 + num r]
      | _ => among [RBX; RBP; RSI] r [0x58 + num r]
      end
  | Mov dst src => mov_bytes dst src
  | Zero r =>
      match r with
      | R8 | R9 | R10 => Some [0x45; 0x31; modrm 3 (num r) (num r)]
      | _ => among [RAX; RCX; RDX; RBP; RDI] r [0x31; modrm 3 (num r) (num r)]
      end
  | ZeroRbp => Some [0x48; 0x31; 0xED]
  | Movsxd => Some [0x48; 0x63; 0xC6]
  | AndRsp imm => Some [0x48; 0x83; 0xE4; imm]
  | LeaArg => Some [0x48; 0x8D; 0x7C; 0xC2; 0x08]
  | StoreArg => Some [0x48; 0x89; 0x7C; 0xC2; 0x08]
  | LoadArg => Some [0x48; 0x8B; 0x7C; 0xC2; 0x08]
  | LoadRsi => Some [0x48; 0x8B; 0x37]
  | LoadAl => Some [0x43; 0x8A; 0x44; 0x01; 0xFF]
  | LeaSp disp => Some [0x4C; 0x8D; 0x4C; 0x24; disp]
  | Cmovns => Some [0x48; 0x0F; 0x49; 0xD0]
  | AluI8 o r imm => among low8 r [0x48; 0x83; modrm 3 (alu_num o) (num r); imm]
  | AluI32 o r imm => among low8 r ([0x48; 0x81; modrm 3 (alu_num o) (num r)] ++ to_le 4 imm)
  | MovI32 r imm =>
      if is_in r high5 then Some ([0x41; 0xB8 + num r] ++ to_le 4 imm)
      else Some ([0xB8 + num r] ++ to_le 4 imm)
  | MovS32 r imm => among [RAX; RDX; RSI; RDI] r ([0x48; 0xC7; 0xC0 + num r] ++ to_le 4 imm)
  | Load32 dst src =>
      if is_in src [RAX; RCX; RDX; RBX; RSI; RDI]
      then among low8 dst [0x8B; modrm 0 (num dst) (num src)] else None
  | Load32D dst src disp =>
      if is_in src [RAX; RCX; RDX; RBX; RBP; RSI; RDI]
      then among low8 dst [0x8B; modrm 1 (num dst) (num src); disp] else None
  | Lea dst src disp =>
      if is_in src [RAX; RCX; RDX; RBX; RBP; RSI; RDI] then
        Some [if is_in dst high5 then 0x4C else 0x48; 0x8D; modrm 1 (num dst) (num src); disp]
      else None
  | LeaRip dst disp =>
      match dst with
      | R8 | R9 => Some ([0x4C; 0x8D; modrm 0 (num dst) 5] ++ to_le 4 disp)
      | _ => among [RSI; RDI] dst ([0x48; 0x8D; modrm 0 (num dst) 5] ++ to_le 4 disp)
      end
  | Store32 dst disp imm =>
      match dst with
      | RSP => Some ([0xC7; 0x44; 0x24; disp] ++ to_le 4 imm)
      | _ => among low8 dst ([0xC7; modrm 1 0 (num dst); disp] ++ to_le 4 imm)
      end
  | Test r => among [RAX; RDX] r [0x48; 0x85; modrm 3 (num r) (num r)]
  | CmpAl imm => Some [0x3C; imm]
  | Jmp8 rel => Some [0xEB; rel]
  | Jz8 rel => Some [0x74; rel]
  | Jmp32 rel => Some ([0xE9] ++ to_le 4 rel)
  | Call32 rel => Some ([0xE8] ++ to_le 4 rel)
  | CallRip disp => Some ([0xFF; 0x15] ++ to_le 4 disp)
  end.
Definition size (i : insn) : Z := match encode i with Some bs => zlen bs | None => 0 end.

(** ** What the interpreter does *)
Section Sem.
Context (base : Z) (handle_syscall : X bool).

(** Destinations that are decoded but never written. *)
Definition lost_load (r : r64) : bool := is_in r [RBX; RSP; RBP].
Definition lost_lea (r : r64) : bool := is_in r [RCX; RBX; RSP; R10; R12; R13].
Definition lost_imm (r : r64) : bool := is_in r [RBX; R10; R12; R13].
Definition set_unless (lost : bool) (r : r64) (v : Z) : Cpu -> Cpu := if lost then id else set r v.

Definition sem (i : insn) : X bool :=
  match i with
  | Nop | Endbr64 => next (size i)
  | Hlt | Ret => ret true
  | Syscall => exit ← handle_syscall; ip ← ip_plus 2; upd (set_rip ip);; ret exit
  | Push r => v ← reg (get r); push_u64 base v;; next (size i)
  | Pop r => v ← pop_u64 base; upd (set r v);; next (size i)
  | Mov dst src => v ← reg (get src); upd (set dst v);; next (size i)
  | Zero r => upd (set r 0);; next (size i)
  | ZeroRbp => upd (set RBP 0);; next (size i)
  | Movsxd => v ← reg rsi; upd (set_rax (of_i64 (sext 32 v)));; next (size i)
  | AndRsp imm => v ← reg rsp; upd (set_rsp (Z.land v (of_i64 (sext 8 imm))));; next (size i)
  | LeaArg => a ← reg arg_addr; upd (set_rdi a);; next (size i)
  | StoreArg => a ← reg arg_addr; v ← reg rdi; wr64 base a v;; next (size i)
  | LoadArg => a ← reg arg_addr; v ← rd64 base a; upd (set_rdi v);; next (size i)
  | LoadRsi => a ← reg rdi; v ← rd64 base a; upd (set_rsi v);; next (size i)
  | LoadAl =>
      a ← reg (fun c => wrapping_sub (wrapping_add (r9 c) (r8 c)) 1);
      v ← rd8 base a; upd (set_al v);; next (size i)
  | LeaSp disp => a ← reg rsp; a ← sadd a (sext 8 disp); upd (set_r9 a);; next (size i)
  | Cmovns => upd (fun c => if negb (sf c) then set_rdx (rax c) c else c);; next (size i)
  | AluI8 o r imm => v ← reg (get r); upd (set r (alu_sem o v (sext 8 imm)));; next (size i)
  | AluI32 o r imm => v ← reg (get r); upd (set r (alu_sem o v (sext 32 imm)));; next (size i)
  | MovI32 r imm => upd (set_unless (lost_imm r) r imm);; next (size i)
  | MovS32 r imm => upd (set r imm);; next (size i)
  | Load32 dst src =>
      a ← reg (get src); v ← rd32 base a; upd (set_unless (lost_load dst) dst v);; next (size i)
  | Load32D dst src disp =>
      a ← reg (get src); a ← sadd a (sext 8 disp); v ← rd32 base a;
      upd (set_unless (lost_load dst) dst v);; next (size i)
  | Lea dst src disp =>
      a ← reg (get src); a ← sadd a (sext 8 disp); upd (set_unless (lost_lea dst) dst a);; next (size i)
  | LeaRip dst disp =>
      ip ← ip_plus (size i); a ← sadd ip (sext 32 disp); upd (set dst a);; goto ip
  | Store32 dst disp imm =>
      a ← reg (get dst); a ← sadd a (sext 8 disp); wr32 base a imm;; next (size i)
  | Test r => v ← reg (get r); upd (test_flags v);; next (size i)
  | CmpAl imm => v ← reg get_al; upd (cmp_flags v imm);; next (size i)
  | Jmp8 rel => ip ← ip_plus (size i); v ← sadd ip (sext 8 rel); goto v
  | Jz8 rel =>
      ip ← ip_plus (size i); z ← gets (fun s => zf (cpu s));
      if z : bool then v ← sadd ip (sext 8 rel); goto v else goto ip
  | Jmp32 rel => ip ← ip_plus (size i); v ← sadd ip (sext 32 rel); goto v
  | Call32 rel =>
      ip ← ip_plus (size i); push_u64 base ip;; v ← sadd ip (sext 32 rel); goto v
  | CallRip disp =>
      ip ← ip_plus (size i); a ← sadd ip (sext 32 disp); target ← rd64 base a;
      out ← outside base target;
      d ← reg rdi;
      dout ← (if out : bool then outside base d else ret true);
      if out && negb dout then goto d else push_u64 base ip;; goto target
  end.
End Sem.

(** ** Fetching *)

(** The patterns of [exec_one], in order. *)
Definition exec_bytes (base : Z) (hs : X bool) (b : bytes) : X bool :=
  exec_stack base b (exec_arg base b (exec_alu8 b (exec_alu32 base b (exec_mov b (exec_load32 base b
    (exec_lea b (exec_lea_ext b (exec_misc base b (exec_zero b (exec_test base b (exec_imm base b
      (exec_lea_rip base b (exec_store32 base b (exec_control base hs b (unsupported b))))))))))))))).

(** The code of a machine starts at its [rip]. *)
Definition code_at (base : Z) (s : mach) (bs : bytes) : Prop :=
  at_va base (umem s) (rip (cpu s)) bs /\ 0 <= base /\ base + zlen (umem s) <= u64_max.

Lemma read_bytes_at base mem va bs :
  at_va base mem va bs -> 0 < zlen bs <= 8 ->
  exists rest, read_bytes AddressOutOfRange base mem va = Ok (bs ++ rest) /\ zlen (bs ++ rest) = 8.
Proof.
  intros (Hb & Hl & Hs) Hn. unfold read_bytes.
  rewrite (proj2 (va_to_index_Ok _ _ _ _ (va - base))) by lia. cbn [mbind outcome_bind].
  set (n := Z.min 8 (zlen mem - (va - base))). rewrite sub_slice_in by lia. cbn [mbind outcome_bind].
  assert (zlen (zslice mem (va - base) (va - base + n)) = n) as Hz by (rewrite zlen_zslice; lia).
  assert (zlen (zreplicate 8 0) = 8) as H8 by done.
  rewrite copy_from_slice_in by lia.
  exists (zslice (splice (zreplicate 8 0) 0 (zslice mem (va - base) (va - base + n))) (zlen bs) 8).
  assert (splice (zreplicate 8 0) 0 (zslice mem (va - base) (va - base + n)) =
    bs ++ zslice (splice (zreplicate 8 0) 0 (zslice mem (va - base) (va - base + n))) (zlen bs) 8) as E.
  { apply list_eq. intros i. destruct (decide (i < length bs)%nat) as [Hi|Hi].
    - rewrite lookup_app_l by done. rewrite splice_lookup_in by (unfold zlen in *; lia).
      rewrite zslice_lookup by (unfold zlen in *; lia). rewrite <-Hs.
      rewrite zslice_lookup by (unfold zlen in *; lia). f_equal. lia.
    - rewrite lookup_app_r by lia. destruct (decide (i < 8)%nat).
      + rewrite (zslice_lookup (splice _ _ _)) by (unfold zlen in *; lia). f_equal. unfold zlen. lia.
      + rewrite (zslice_lookup_ge (splice _ _ _)) by (unfold zlen in *; lia).
        apply lookup_ge_None. apply Nat2Z.inj_le.
        change (Z.of_nat (length ?l)) with (zlen l). rewrite zlen_splice by lia. lia. }
  split; [by rewrite <-E|]. rewrite <-E. rewrite zlen_splice by lia. done.
Qed.
Lemma exec_one_fetch base hs s bs :
  code_at base s bs -> 0 < zlen bs <= 8 ->
  exists rest, exec_one base hs s = exec_bytes base hs (bs ++ rest) s /\ zlen (bs ++ rest) = 8.
Proof.
  intros [Ha _] Hn. destruct (read_bytes_at _ _ _ _ Ha Hn) as (rest & Hr & Hl).
  exists rest. split; [|done]. unfold exec_one, reg, rd_bytes, get_mem. run_prog. by rewrite Hr.
Qed.

(** An immediate that follows [pre] in the code. *)
Lemma imm_at base s pre v {A} (f : Z -> X A) :
  code_at base s (pre ++ to_le 4 v) -> is_u32 v ->
  (a ← ip_plus (zlen pre); imm ← rd32 base a; f imm) s = f v s.
Proof.
  intros [Ha [H0 Hu]] Hv. pose proof Ha as (Hb & Hl & _). apply at_va_skip in Ha. unfold ip_plus, reg. run_prog.
  rewrite zlen_app, zlen_to_le in Hl. pose proof (zlen_nonneg pre).
  rewrite add64_small by lia. unfold rd32, get_mem. run_prog.
  unfold read_u32. rewrite (read_uN_at _ 4 _ _ _ _ ltac:(lia) Ha (to_le_length _ _) ltac:(lia)).
  rewrite from_le_to_le. change (256 ^ Z.of_nat 4) with (2 ^ 32). by rewrite Z.mod_small by ilia.
Qed.
Lemma imm_at_signed base s pre v {A} (f : Z -> X A) :
  code_at base s (pre ++ to_le 4 v) -> is_u32 v ->
  (a ← ip_plus (zlen pre); imm ← rdi32 base a; f imm) s = f (sext 32 v) s.
Proof.
  intros Hc Hv. rewrite <-(imm_at base s pre v (fun v => f (sext 32 v)) Hc Hv).
  unfold ip_plus, reg, rdi32, rd32, read_i32, get_mem. run_prog.
  destruct (add64 _ _) as [a|e|]; [|done..]. by destruct (read_u32 _ _ _ _).
Qed.

(** ** The theorem *)

Ltac decode := lazy beta iota zeta delta
  [exec_bytes exec_stack exec_arg exec_alu8 exec_alu32 exec_mov exec_load32 exec_lea exec_lea_ext
   exec_misc exec_zero exec_test exec_imm exec_lea_rip exec_store32 exec_control
   op app Z.eqb Pos.eqb Z.leb Z.compare Pos.compare Pos.compare_cont andb orb negb
   lookup_total list_lookup_total mod_of reg_of rm_of Z.land Pos.land Z.of_N
   Pos.Nsucc_double Pos.Ndouble Z.shiftr Z.shiftl Z.opp Z.div2 Pos.iter is_alu modrm num alu_num
   Z.add Z.mul Pos.add Pos.mul Pos.succ Pos.add_carry Z.sub].
Definition imm_ok (i : insn) : Prop :=
  match i with
  | AluI32 _ _ v | MovI32 _ v | MovS32 _ v | LeaRip _ v | Store32 _ _ v | Jmp32 v | Call32 v | CallRip v => is_u32 v
  | CmpAl v => is_u8 v
  | _ => True
  end.

Section Implements.
Context (base : Z) (hs : X bool) (s : mach).
Definition implements (i : insn) (bs : bytes) : Prop :=
  imm_ok i -> code_at base s bs -> exec_one base hs s = sem base hs i s.

Lemma implements_by i bs :
  0 < zlen bs <= 8 ->
  (imm_ok i -> code_at base s bs -> forall rest, exec_bytes base hs (bs ++ rest) s = sem base hs i s) ->
  implements i bs.
Proof.
  intros Hn H Hi Hc. destruct (exec_one_fetch base hs s bs Hc Hn) as (rest & -> & _). auto.
Qed.
(** A store computes its address before it reads its immediate. *)
Lemma store_ext (f : Cpu -> Z) d (g h : Z -> X bool) :
  (forall addr, g addr s = h addr s) ->
  (a ← reg f; addr ← sadd a d; g addr) s = (a ← reg f; addr ← sadd a d; h addr) s.
Proof. intros H. unfold reg, sadd. run_prog. destruct (add_i64 _ _); [apply H|done..]. Qed.

(** The address of a load is computed as an option. *)
Lemma load_ext (f : Cpu -> Z) d (g : Z -> X bool) (k : X bool) :
  ((a ← reg f; a ← sadd a d; ret (Some a)) ≫= fun o => match o with Some a => g a | None => k end) s
  = (a ← reg f; a ← sadd a d; g a) s.
Proof. unfold reg, sadd. run_prog. by destruct (add_i64 _ _). Qed.

(** Read the encoding of a concrete instruction off its hypothesis. *)
Ltac encoded H bs :=
  lazy beta iota zeta delta [encode among is_in existsb index mov_bytes low8 high5 orb Z.eqb Pos.eqb] in H;
  first [discriminate H | apply (inj Some) in H; subst bs].
Ltac direct := apply implements_by; [vm_compute; split; congruence|intros _ _ rest; decode; reflexivity].
(** The immediate follows the bytes [pre]. *)
Ltac with_imm pre := apply implements_by; [vm_compute; split; congruence|];
  intros Hv Hc rest; decode;
  etrans; [first [apply (imm_at base s pre _ _ Hc Hv) | apply (imm_at_signed base s pre _ _ Hc Hv)]|];
  reflexivity.

(** How an instruction is decoded: all of its operands in the bytes of the
    opcode (0), an address computed as an option (1), an immediate word read
    after the opcode (2), or after the address (3). *)
Definition shape (i : insn) : Z :=
  match i with
  | Load32 _ _ | Load32D _ _ _ | Lea _ _ _ => 1
  | AluI32 _ _ _ | MovI32 _ _ | MovS32 _ _ | LeaRip _ _ | Jmp32 _ | Call32 _ | CallRip _ => 2
  | Store32 _ _ _ => 3
  | _ => 0
  end.
Lemma implements_plain i bs : shape i = 0 -> encode i = Some bs -> implements i bs.
Proof.
  intros Hi He. destruct i; try discriminate Hi.
  all: try match goal with r : r64 |- _ => destruct r end.
  all: try match goal with r : r64 |- _ => destruct r end.
  all: try match goal with o : alu_op |- _ => destruct o end.
  all: encoded He bs; direct.
Qed.
Lemma implements_address i bs : shape i = 1 -> encode i = Some bs -> implements i bs.
Proof.
  intros Hi He. destruct i as [ | | | | | | | | | | | | | | | | | | | | | | |dst src|dst src disp|dst src disp| | | | | | | | | ]; try discriminate Hi.
  - destruct dst, src; encoded He bs; direct.
  - destruct dst, src; encoded He bs; (apply implements_by; [vm_compute; split; congruence|]);
      intros _ _ rest; decode; (etrans; [apply load_ext|]); reflexivity.
  - destruct dst, src; encoded He bs; direct.
Qed.
Lemma implements_immediate i bs : shape i = 2 -> encode i = Some bs -> implements i bs.
Proof.
  intros Hi He. destruct i; try discriminate Hi.
  all: try match goal with r : r64 |- _ => destruct r end.
  all: try match goal with o : alu_op |- _ => destruct o end.
  all: encoded He bs; match goal with |- implements _ (?p ++ _) => with_imm p end.
Qed.
Lemma implements_store r d v bs : encode (Store32 r d v) = Some bs -> implements (Store32 r d v) bs.
Proof.
  intros He. destruct r; encoded He bs; match goal with |- implements _ (?p ++ _) =>
    apply implements_by; [vm_compute; split; congruence|]; intros Hv Hc rest; decode;
    match goal with |- _ = sem _ _ ?i _ =>
      etrans; [apply (store_ext _ _ _ (fun addr => wr32 base addr v;; next (size i))); intros addr;
        apply (imm_at base s p _ (fun imm => wr32 base addr imm;; next (size i)) Hc Hv)|reflexivity] end end.
Qed.
Lemma implements_sem i bs : encode i = Some bs -> implements i bs.
Proof.
  intros He. destruct (shape i) as [|p|p] eqn:Hs; [by apply implements_plain| |by destruct i].
  destruct i; first [discriminate Hs | by apply implements_address | by apply implements_immediate | by apply implements_store].
Qed.
End Implements.

(** ** What the processor manual says

    An access outside of the program's memory faults, as in the interpreter;
    addresses and results wrap around; arithmetic sets the flags. *)
Definition advance (n : Z) : X bool := upd (fun c => set_rip (wrapping_add (rip c) n) c);; ret false.
Definition jump (a : Z) : X bool := upd (set_rip a);; ret false.
Definition flags_of (v : Z) (c : Cpu) : Cpu := set_sf (Z.testbit v 63) (set_zf (v =? 0) c).
Definition write (r : r64) (v : Z) : X unit := upd (set r v).
(** A result and its flags. *)
Definition result (r : r64) (v : Z) : X unit := write r v;; upd (flags_of v).
Definition alu_manual (o : alu_op) (a imm : Z) : Z :=
  match o with
  | Add => (a + imm) mod 2 ^ 64
  | Or => Z.lor a (imm mod 2 ^ 64)
  | Sub => (a - imm) mod 2 ^ 64
  end.

Section Manual.
Context (base : Z) (handle_syscall : X bool).
Definition mpush (v : Z) : X unit :=
  sp ← reg rsp; let sp := wrapping_sub sp 8 in wr64 base sp v;; upd (set_rsp sp).
Definition mpop : X Z :=
  sp ← reg rsp; v ← rd64 base sp; upd (set_rsp (wrapping_add sp 8));; ret v.

Definition manual (i : insn) : X bool :=
  let n := size i in
  ip ← reg (fun c => wrapping_add (rip c) n);        (* the next instruction *)
  match i with
  | Nop | Endbr64 => advance n
  | Hlt => ret true
  | Ret => a ← mpop; jump a
  | Syscall => exit ← handle_syscall; write RCX ip;; upd (set_rip ip);; ret exit
  | Push r => v ← reg (get r); mpush v;; advance n
  | Pop r => v ← mpop; write r v;; advance n
  | Mov dst src => v ← reg (get src); write dst v;; advance n
  | Zero r => result r 0;; advance n
  | ZeroRbp => result RBP 0;; advance n
  | Movsxd => v ← reg rsi; write RAX (sext 32 v mod 2 ^ 64);; advance n
  | AndRsp imm => v ← reg rsp; result RSP (Z.land v (sext 8 imm mod 2 ^ 64));; advance n
  | LeaArg => c ← gets cpu; write RDI ((rdx c + rax c * 8 + 8) mod 2 ^ 64);; advance n
  | StoreArg => c ← gets cpu; wr64 base ((rdx c + rax c * 8 + 8) mod 2 ^ 64) (rdi c);; advance n
  | LoadArg => c ← gets cpu; v ← rd64 base ((rdx c + rax c * 8 + 8) mod 2 ^ 64); write RDI v;; advance n
  | LoadRsi => a ← reg rdi; v ← rd64 base a; write RSI v;; advance n
  | LoadAl =>
      c ← gets cpu; v ← rd8 base ((r9 c + r8 c - 1) mod 2 ^ 64);
      write RAX (rax c / 256 * 256 + v);; advance n
  | LeaSp disp => a ← reg rsp; write R9 (wrapping_add a (sext 8 disp));; advance n
  | Cmovns => c ← gets cpu; write RDX (if sf c then rdx c else rax c);; advance n
  | AluI8 o r imm => v ← reg (get r); result r (alu_manual o v (sext 8 imm));; advance n
  | AluI32 o r imm => v ← reg (get r); result r (alu_manual o v (sext 32 imm));; advance n
  | MovI32 r imm => write r imm;; advance n
  | MovS32 r imm => write r (sext 32 imm mod 2 ^ 64);; advance n
  | Load32 dst src => a ← reg (get src); v ← rd32 base a; write dst v;; advance n
  | Load32D dst src disp =>
      a ← reg (get src); v ← rd32 base (wrapping_add a (sext 8 disp)); write dst v;; advance n
  | Lea dst src disp => a ← reg (get src); write dst (wrapping_add a (sext 8 disp));; advance n
  | LeaRip dst disp => write dst (wrapping_add ip (sext 32 disp));; advance n
  | Store32 dst disp imm => a ← reg (get dst); wr32 base (wrapping_add a (sext 8 disp)) imm;; advance n
  | Test r => v ← reg (get r); upd (flags_of v);; advance n
  | CmpAl imm =>
      a ← reg rax; let d := (a - imm) mod 256 in
      upd (fun c => set_sf (Z.testbit d 7) (set_zf (d =? 0) c));; advance n
  | Jmp8 rel => jump (wrapping_add ip (sext 8 rel))
  | Jz8 rel => z ← gets (fun s => zf (cpu s)); if z : bool then jump (wrapping_add ip (sext 8 rel)) else jump ip
  | Jmp32 rel => jump (wrapping_add ip (sext 32 rel))
  | Call32 rel => mpush ip;; jump (wrapping_add ip (sext 32 rel))
  | CallRip disp => target ← rd64 base (wrapping_add ip (sext 32 disp)); mpush ip;; jump target
  end.

(** *** Where the interpreter departs from it

    [overflows a d]: [a + d] as signed numbers, which the code computes with
    an addition that panics on overflow. *)
Definition overflows (a d : Z) : bool := negb ((i64_min <=? to_i64 a + d) && (to_i64 a + d <=? i64_max)).
Definition inside (m : bytes) (a : Z) : bool := (base <=? a) && (a <? base + zlen m).
(** A [ret] ends the program; a sign bit is not extended; some destinations are
    not written; an address that crosses the middle of the address space is a
    panic; an indirect call of an address outside of the program goes to RDI
    when that is inside, without a return address. *)
Definition deviates (i : insn) (s : mach) : bool :=
  let c := cpu s in
  let ip := rip c + size i in
  match i with
  | Ret => true
  | MovS32 _ imm => 2 ^ 31 <=? imm
  | MovI32 r _ => lost_imm r
  | Load32 dst _ => lost_load dst
  | Load32D dst src d => lost_load dst || overflows (get src c) (sext 8 d)
  | Lea dst src d => lost_lea dst || overflows (get src c) (sext 8 d)
  | LeaRip _ d => overflows ip (sext 32 d)
  | LeaSp d => overflows (rsp c) (sext 8 d)
  | Store32 dst d _ => overflows (get dst c) (sext 8 d)
  | Jmp8 d => overflows ip (sext 8 d)
  | Jz8 d => zf c && overflows ip (sext 8 d)
  | Jmp32 d | Call32 d => overflows ip (sext 32 d)
  | CallRip d => overflows ip (sext 32 d) ||
      match read_u64 AddressOutOfRange base (umem s) (wrapping_add ip (sext 32 d)) with
      | Ok target => negb (inside (umem s) target) && inside (umem s) (rdi c)
      | _ => false
      end
  | _ => false
  end.

(** What the comparison leaves out: the flags after arithmetic, which the
    interpreter does not set, and RCX after [syscall], which it keeps. *)
Definition forget (i : insn) (s : mach) : mach :=
  match i with
  | Zero _ | ZeroRbp | AndRsp _ | AluI8 _ _ _ | AluI32 _ _ _ =>
      mkMach (set_sf false (set_zf false (cpu s))) (umem s) (wld s)
  | Syscall => mkMach (set_rcx 0 (cpu s)) (umem s) (wld s)
  | _ => s
  end.
Definition seen (i : insn) (r : res mach RunError bool) : res mach RunError bool :=
  match r with Done b s => Done b (forget i s) | Fail e s => Fail e (forget i s) | Halt h => Halt h end.
End Manual.

(** *** Words *)
Lemma sext_add a d : (to_i64 a + d) mod 2 ^ 64 = (a + d) mod 2 ^ 64.
Proof.
  unfold to_i64, sext. cbv zeta. destruct (_ <? _).
  - apply Zplus_mod_idemp_l.
  - rewrite <-(Z_mod_plus_full _ 1). replace (a mod 2 ^ 64 - 2 ^ 64 + d + 1 * 2 ^ 64) with (a mod 2 ^ 64 + d) by lia.
    apply Zplus_mod_idemp_l.
Qed.
Lemma sadd_wrap a d s : overflows a d = false -> sadd a d s = Done (wrapping_add a d) s.
Proof.
  unfold overflows, sadd, add_i64. intros ->%negb_false_iff. run_prog. unfold of_i64, wrapping_add. by rewrite sext_add.
Qed.
Lemma alu_sem_manual o a imm : alu_sem o a imm = alu_manual o a imm.
Proof.
  destruct o; cbn [alu_sem alu_manual]; unfold of_i64; [apply sext_add|done|].
  unfold Z.sub at 1. rewrite sext_add. done.
Qed.
Lemma arg_addr_wrap c : arg_addr c = (rdx c + rax c * 8 + 8) mod 2 ^ 64.
Proof.
  unfold arg_addr, wrapping_add, wrapping_mul. rewrite Zplus_mod_idemp_l.
  rewrite <-!Z.add_assoc, !(Z.add_comm (rdx c)), <-!Z.add_assoc. by rewrite Zplus_mod_idemp_l.
Qed.
Lemma high_bit w v : 0 < w -> 0 <= v < 2 ^ w -> Z.testbit v (w - 1) = (2 ^ (w - 1) <=? v).
Proof.
  intros Hw Hv. assert (2 ^ w = 2 * 2 ^ (w - 1)) as E by (rewrite <-Z.pow_succ_r by lia; f_equal; lia).
  assert (0 < 2 ^ (w - 1)) by (apply Z.pow_pos_nonneg; lia).
  rewrite Z.testbit_odd, Z.shiftr_div_pow2 by lia. destruct (Z.leb_spec (2 ^ (w - 1)) v).
  - replace (v / 2 ^ (w - 1)) with 1; [done|]. apply (Z.div_unique _ _ _ (v - 2 ^ (w - 1))); lia.
  - rewrite Z.div_small by lia. done.
Qed.
Lemma test_flags_of v c : is_u64 v -> test_flags v c = flags_of v c.
Proof.
  intros Hv. unfold test_flags, flags_of. f_equal. rewrite (high_bit 64) by ilia.
  change (64 - 1) with 63. rewrite Z.shiftr_div_pow2 by lia. destruct (Z.leb_spec (2 ^ 63) v).
  - apply negb_true_iff, Z.eqb_neq. intros H0. apply Z.div_small_iff in H0; ilia.
  - rewrite Z.div_small by ilia. done.
Qed.
Lemma cmp_flags_manual c imm : is_u8 imm ->
  cmp_flags (get_al c) imm c =
  set_sf (Z.testbit ((rax c - imm) mod 256) 7) (set_zf ((rax c - imm) mod 256 =? 0) c).
Proof.
  intros Hi. unfold cmp_flags, get_al. change 0xff with (Z.ones 8). rewrite Z.land_ones by lia. change (2 ^ 8) with 256.
  pose proof (Z.mod_pos_bound (rax c) 256 eq_refl). rewrite <-(Zminus_mod_idemp_l (rax c)).
  set (l := rax c mod 256) in *. clearbody l. unfold is_u8 in Hi.
  assert (forall b b' z z', b = b' -> z = z' -> set_sf b (set_zf z c) = set_sf b' (set_zf z' c)) as Hf by congruence.
  apply Hf.
  - rewrite (high_bit 8) by (try apply Z.mod_pos_bound; lia). change (2 ^ (8 - 1)) with 128.
    assert (forall x, sext 8 x mod 256 = x mod 256 /\ (sext 8 x <? 0) = (128 <=? x mod 256)) as Hs.
    { intros x. unfold sext. change (2 ^ (8 - 1)) with 128. change (2 ^ 8) with 256. cbv zeta.
      pose proof (Z.mod_pos_bound x 256 eq_refl). destruct (Z.ltb_spec (x mod 256) 128).
      - rewrite Z.mod_mod by lia. split; [done|]. lia.
      - rewrite <-(Z_mod_plus_full _ 1). replace (x mod 256 - 256 + 1 * 256) with (x mod 256) by lia.
        rewrite Z.mod_mod by lia. split; [done|]. lia. }
    rewrite (proj2 (Hs _)). f_equal. rewrite Zminus_mod, (proj1 (Hs l)), (proj1 (Hs imm)). by rewrite <-Zminus_mod.
  - apply Bool.eq_iff_eq_true. rewrite !Z.eqb_eq. split; [intros ->; by rewrite Z.sub_diag|].
    intros H0. apply Z.mod_divide in H0 as [q Hq]; lia.
Qed.
Lemma set_al_manual v c : is_u64 (rax c) -> is_u8 v -> set_al v c = set_rax (rax c / 256 * 256 + v) c.
Proof.
  intros Hr Hv. unfold set_al. f_equal. unfold is_u64, u64_max, is_u8 in *.
  assert (Z.land (rax c) (not64 0xff) = Z.shiftl (Z.shiftr (rax c) 8) 8) as ->.
  { apply Z.bits_inj'. intros n Hn. rewrite Z.land_spec, Z.shiftl_spec by lia.
    destruct (Z.ltb_spec n 8).
    - rewrite (Z.testbit_neg_r _ (n - 8)) by lia. apply andb_false_iff. right.
      assert (n = 0 \/ n = 1 \/ n = 2 \/ n = 3 \/ n = 4 \/ n = 5 \/ n = 6 \/ n = 7) as Hc by lia.
      by repeat destruct Hc as [->|Hc]; subst.
    - rewrite Z.shiftr_spec by lia. replace (n - 8 + 8) with n by lia. destruct (Z.ltb_spec n 64).
      + replace (not64 0xff) with (Z.shiftl (Z.ones 56) 8) by done. rewrite Z.shiftl_spec, Z.ones_spec_low by lia. apply andb_true_r.
      + rewrite (Z.bits_above_log2 (rax c)); [done|lia|].
        destruct (Z.eq_dec (rax c) 0) as [->|]; [cbn; lia|]. apply Z.log2_lt_pow2; [lia|].
        apply Z.lt_le_trans with (2 ^ 64); [lia|]. apply Z.pow_le_mono_r; lia. }
  rewrite Z.shiftl_mul_pow2, Z.shiftr_div_pow2 by lia. change (2 ^ 8) with 256.
  rewrite <-Z.add_lor_land. assert (Z.land (rax c / 256 * 256) v = 0) as ->; [|lia].
  apply Z.bits_inj'. intros n Hn. rewrite Z.bits_0, Z.land_spec. destruct (Z.ltb_spec n 8).
  - change 256 with (2 ^ 8). by rewrite Z.mul_pow2_bits_low.
  - rewrite (Z.bits_above_log2 v); [apply andb_false_r|lia|].
    destruct (Z.eq_dec v 0) as [->|]; [cbn; lia|]. apply Z.log2_lt_pow2; [lia|].
    apply Z.lt_le_trans with (2 ^ 8); [lia|]. apply Z.pow_le_mono_r; lia.
Qed.

(** *** Agreement *)

(** A system call leaves the instruction pointer alone. *)
Definition keeps_rip {A} (m : X A) : Prop := evolves (fun s s' => rip (cpu s') = rip (cpu s)) m.
#[export] Instance same_rip_preorder : PreOrder (fun s s' : mach => rip (cpu s') = rip (cpu s)).
Proof. split; [done|]. intros s1 s2 s3 H1 H2. by rewrite H2. Qed.
Lemma rip_bind {A B} (m : X A) (f : A -> X B) : keeps_rip m -> (forall a, keeps_rip (f a)) -> keeps_rip (m ≫= f).
Proof. apply evolves_bind, _. Qed.
Lemma rip_in_world {A} (m : W A) : keeps_rip (in_world m).
Proof. intros s. unfold in_world. by destruct (m (wld s)). Qed.
Lemma rip_lift {A} (m : outcome RunError A) : keeps_rip (lift m).
Proof. by apply evolves_lift, _. Qed.
Lemma rip_gets {A} (f : mach -> A) : keeps_rip (gets f).
Proof. by apply evolves_gets, _. Qed.
Lemma rip_ret {A} (a : A) : keeps_rip (ret a).
Proof. by apply evolves_ret, _. Qed.
Lemma rip_fail {A} e : keeps_rip (A := A) (fail e).
Proof. by apply evolves_fail, _. Qed.
Lemma rip_set_mem m : keeps_rip (set_mem m).
Proof. by apply evolves_modify. Qed.
Lemma rip_set_rax v : keeps_rip (upd (set_rax v)).
Proof. by apply evolves_modify. Qed.
Lemma rip_get_mem : keeps_rip get_mem.
Proof. apply rip_gets. Qed.
Lemma rip_reg f : keeps_rip (reg f).
Proof. apply rip_gets. Qed.
Create HintDb rip.
#[local] Hint Resolve rip_get_mem rip_reg rip_in_world rip_lift rip_gets rip_ret rip_fail rip_set_mem rip_set_rax : rip.
Ltac rip := repeat (cbv beta zeta; first
  [ solve [auto with rip]
  | match goal with |- keeps_rip (if ?b then _ else _) => destruct b end
  | match goal with |- keeps_rip (match ?x with _ => _ end) => destruct x end
  | match goal with |- keeps_rip (_ ≫= _) => apply rip_bind; [|intros] end ]).
Lemma rip_read_line n start got : keeps_rip (elf_run.read_line n start got).
Proof. revert got. induction n as [|n IH]; intros got; cbn [elf_run.read_line]; rip. Qed.
#[local] Hint Resolve rip_read_line : rip.
Lemma handle_syscall_keeps_rip base tmp_ptr run : keeps_rip (elf_run.handle_syscall base tmp_ptr run).
Proof.
  unfold elf_run.handle_syscall, elf_run.syscall_read, elf_run.syscall_write, elf_run.syscall_execve, elf_run.return_rax. rip.
Qed.
Section Agree.
Context (base : Z) (hs : X bool).
Context (hs_rip : keeps_rip hs).
(** Registers are 64-bit words and memory is bytes. *)
Definition machine_ok (s : mach) : Prop := (forall r, is_u64 (get r (cpu s))) /\ bytes_ok (umem s).
(** The next instruction is in the address space. *)
Definition room (n : Z) (s : mach) : Prop := 0 <= rip (cpu s) + n <= u64_max.

Lemma rip_set r v c : rip (set r v c) = rip c.
Proof. by destruct r. Qed.
Lemma advance_ok n s : room n s -> advance n s = Done false (mkMach (set_rip (rip (cpu s) + n) (cpu s)) (umem s) (wld s)).
Proof. intros. unfold advance, upd. run_prog. by rewrite wrapping_add_small. Qed.
Lemma next_ok n s : room n s -> next n s = Done false (mkMach (set_rip (rip (cpu s) + n) (cpu s)) (umem s) (wld s)).
Proof. intros [_ H]. unfold next, ip_plus, reg, upd. run_prog. by rewrite add64_small. Qed.
Lemma next_advance n s : room n s -> next n s = advance n s.
Proof. intros. by rewrite next_ok, advance_ok. Qed.
Lemma ip_ok n s : room n s -> ip_plus n s = Done (wrapping_add (rip (cpu s)) n) s.
Proof. intros H. unfold ip_plus, reg. run_prog. rewrite wrapping_add_small by exact H. by rewrite add64_small by apply H. Qed.
(** The first steps agree and keep the instruction pointer. *)
Lemma bind_agree {A B} (m m' : X A) (f f' : A -> X B) s :
  m s = m' s -> (match m s with Done _ s' => rip (cpu s') = rip (cpu s) | _ => True end) ->
  (forall a s', rip (cpu s') = rip (cpu s) -> f a s' = f' a s') -> (m ≫= f) s = (m' ≫= f') s.
Proof. intros Hm Hr Hf. unfold mbind, prog_bind. rewrite <-Hm. destruct (m s); auto. Qed.

Definition fits (s : mach) : Prop := 0 <= base /\ base + zlen (umem s) <= u64_max.
Lemma push_agree v s : fits s -> is_u64 (rsp (cpu s)) -> push_u64 base v s = mpush base v s.
Proof.
  intros [Hb Hl] Hsp. unfold push_u64, mpush, reg, wr64, get_mem, set_mem, upd. run_prog. destruct (decide (8 <= rsp (cpu s))).
  - rewrite (proj2 (checked_sub_Some _ _ _)) by (split; [reflexivity|done]). cbn [ok_or].
    by rewrite wrapping_sub_small by ilia.
  - unfold checked_sub. rewrite (proj2 (Z.leb_gt _ _)) by lia. cbn [ok_or].
    assert (wrapping_sub (rsp (cpu s)) 8 = rsp (cpu s) - 8 + 2 ^ 64) as ->.
    { unfold wrapping_sub. rewrite <-(Z_mod_plus_full _ 1). apply Z.mod_small. ilia. }
    destruct (write_u64 _ _ _ _ _) as [m|e|] eqn:Hw.
    + apply write_uN_Ok in Hw as (_ & Hw & _). ilia.
    + unfold write_u64, write_uN, va_to_index in Hw.
      revert Hw. branch as E1; [by intros [= <-]|]. branch as Hi; [by intros [= <-]|]. cbn. unfold checked_add. branch as H1; cbn; [|by intros [= <-]].
      branch as H2; [by intros [= <-]|]. change (Z.of_nat 8) with 8 in *. rewrite Z.ltb_ge in *. ilia.
    + by apply write_uN_no_panic in Hw.
Qed.
Lemma push_rip v s : match push_u64 base v s with Done _ s' => rip (cpu s') = rip (cpu s) | _ => True end.
Proof.
  unfold push_u64, reg, wr64, get_mem, set_mem, upd. run_prog. destruct (checked_sub _ _); cbn; [|done].
  by destruct (write_u64 _ _ _ _ _).
Qed.
Lemma pop_agree s : fits s -> pop_u64 base s = mpop base s.
Proof.
  intros [Hb Hl]. unfold pop_u64, mpop, reg, rd64, get_mem, upd. run_prog.
  destruct (read_u64 _ _ _ _) as [v|e|] eqn:Hr; [|done..].
  unfold read_u64, read_uN in Hr. apply bind_Ok in Hr as (i & (H1 & -> & _)%va_to_index_Ok & (e & [-> _]%ok_or_Ok%checked_add_Some & Hr)%bind_Ok).
  revert Hr. branch as Hlen; [done|]. intros _. change (Z.of_nat 8) with 8 in *.
  rewrite (proj2 (checked_add_Some _ _ _)) by (split; [reflexivity|lia]). cbn [ok_or].
  by rewrite wrapping_add_small by lia.
Qed.
Lemma pop_rip s : match pop_u64 base s with Done _ s' => rip (cpu s') = rip (cpu s) | _ => True end.
Proof.
  unfold pop_u64, reg, rd64, get_mem, upd. run_prog. destruct (read_u64 _ _ _ _); cbn; [|done..].
  by destruct (ok_or _ _).
Qed.
Lemma outside_inside a s : fits s -> outside base a s = Done (negb (inside base (umem s) a)) s.
Proof.
  intros [Hb Hl]. unfold outside, inside, get_mem. destruct (Z.ltb_spec a base).
  - rewrite (proj2 (Z.leb_gt _ _)) by lia. done.
  - run_prog. rewrite add64_small by lia. rewrite (proj2 (Z.leb_le base a)) by lia. cbn [andb].
    do 2 f_equal. destruct (Z.ltb_spec a (base + zlen (umem s))); lia.
Qed.

(** An instruction that has been decoded, at its address in memory. *)
Context (s : mach) (i : insn) (Hroom : room (size i) s) (Hfits : fits s) (Hok : machine_ok s) (Himm : imm_ok i).
Definition agrees : Prop := deviates base i s = false -> seen i (sem base hs i s) = seen i (manual base hs i s).

#[local] Ltac steps := unfold sem, manual; cbv zeta; unfold result, write, reg, upd, rd8, rd32, rd64, wr32, wr64, get_mem, set_mem; run_prog.
#[local] Ltac room := unfold room in *; cbn [cpu]; unfold flags_of; cbn [rip set_sf set_zf]; rewrite ?rip_set; assumption.
#[local] Ltac ends := rewrite ?next_ok, ?advance_ok by room; cbn [seen forget cpu umem wld].

Lemma agree_plain : match i with
  | Nop | Endbr64 | Hlt | Mov _ _ | Zero _ | ZeroRbp | Movsxd | AndRsp _ | LeaArg | Cmovns | AluI8 _ _ _ | AluI32 _ _ _
  | MovI32 _ _ | MovS32 _ _ | Test _ | CmpAl _ => True | _ => False end -> agrees.
Proof.
  destruct Hok as [Hreg Hmem]. intros Hi Hd.
  destruct i as [| | | | | | |dst src|r| | |imm| | | | | | | |o r imm|o r imm|r imm|r imm| | | | | |r|imm| | | | | ];
    try destruct Hi; cbn [deviates imm_ok] in Hd, Himm; steps; try (ends; reflexivity).
  - rewrite arg_addr_wrap. by ends.
  - destruct (sf (cpu s)) eqn:Hsf; cbn [negb]; ends; [|done]. by destruct (cpu s).
  - rewrite alu_sem_manual. by ends.
  - rewrite alu_sem_manual. by ends.
  - rewrite Hd. unfold set_unless. by ends.
  - assert (sext 32 imm mod 2 ^ 64 = imm) as ->; [|by ends]. unfold sext. cbv zeta. rewrite (Z.mod_small imm) by ilia.
    rewrite Z.leb_gt in Hd. rewrite (proj2 (Z.ltb_lt imm _)) by exact Hd. apply Z.mod_small. ilia.
  - rewrite test_flags_of by apply Hreg. by ends.
  - rewrite cmp_flags_manual by done. by ends.
Qed.
Lemma agree_memory : match i with
  | StoreArg | LoadArg | LoadRsi | LoadAl | Load32 _ _ | Load32D _ _ _ | Store32 _ _ _ | Lea _ _ _ | LeaSp _ => True
  | _ => False end -> agrees.
Proof.
  destruct Hok as [Hreg Hmem]. intros Hi Hd.
  destruct i as [| | | | | | | | | | | | | | | | |d| | | | | |dst src|dst src d|dst src d| |dst d v| | | | | | | ];
    try destruct Hi; cbn [deviates] in Hd; try match type of Hd with (_ || _) = _ => apply orb_false_iff in Hd as [Hl Hd] end; steps.
  - rewrite arg_addr_wrap. destruct (write_u64 _ _ _ _ _); [by ends|done..].
  - rewrite arg_addr_wrap. destruct (read_u64 _ _ _ _); [by ends|done..].
  - destruct (read_u64 _ _ _ _); [by ends|done..].
  - assert (wrapping_sub (wrapping_add (r9 (cpu s)) (r8 (cpu s))) 1 = (r9 (cpu s) + r8 (cpu s) - 1) mod 2 ^ 64) as ->
      by apply Zminus_mod_idemp_l.
    destruct (read_u8 _ _ _ _) as [v|e|] eqn:Hr; [|done..].
    apply bind_Ok in Hr as (j & _ & Hv). unfold Prelude.index in Hv. revert Hv. destruct (0 <=? j); [|done].
    destruct (umem s !! Z.to_nat j) as [b|] eqn:Hb; [|done]. intros [= ->]. rewrite set_al_manual; [by ends|apply (Hreg RAX)|].
    unfold bytes_ok in Hmem. rewrite Forall_lookup in Hmem. eauto.
  - rewrite sadd_wrap by done. by ends.
  - rewrite Hd. unfold set_unless. destruct (read_u32 _ _ _ _); [by ends|done..].
  - rewrite sadd_wrap, Hl by done. unfold set_unless. destruct (read_u32 _ _ _ _); [by ends|done..].
  - rewrite sadd_wrap, Hl by done. unfold set_unless. by ends.
  - rewrite sadd_wrap by done. destruct (write_u32 _ _ _ _ _); [by ends|done..].
Qed.
Lemma agree_control : match i with
  | Syscall | Push _ | Pop _ | LeaRip _ _ | Jmp8 _ | Jz8 _ | Jmp32 _ | Call32 _ | CallRip _ => True
  | _ => False end -> agrees.
Proof.
  destruct Hok as [Hreg Hmem]. intros Hi Hd.
  destruct i as [| | | | |r|r| | | | | | | | | | | | | | | | | | | |dst d| | | |d|d|d|d|d];
    try destruct Hi; cbn [deviates] in Hd.
  - (* syscall *) steps. pose proof (hs_rip s) as Hr. unfold keeps_rip, evolves in Hr. destruct (hs s) as [b s'|e s'|h]; [|done..].
    change (size Syscall) with 2 in Hroom. rewrite (ip_ok 2 s') by (unfold room; by rewrite Hr). by rewrite Hr.
  - (* push *) f_equal. unfold sem, manual, reg. run_prog.
    apply bind_agree; [apply push_agree; [done|exact (Hreg RSP)]|apply push_rip|]. intros [] s' Hr. apply next_advance. unfold room. by rewrite Hr.
  - (* pop *) f_equal. unfold sem, manual, reg, write, upd. run_prog.
    apply (bind_agree _ _ _ _ s (pop_agree s Hfits) (pop_rip s)). intros v s' Hr. run_prog. apply next_advance.
    unfold room in *. cbn [cpu]. by rewrite rip_set, Hr.
  - (* lea *) unfold sem, manual, reg, write, upd, goto, upd. run_prog. rewrite ip_ok by done.
    rewrite wrapping_add_small by done. rewrite sadd_wrap by done. rewrite advance_ok by room. cbn [seen forget cpu umem wld].
    by rewrite rip_set.
  - (* jmp *) unfold sem, manual, reg, jump, goto. run_prog. rewrite ip_ok by done.
    rewrite wrapping_add_small by done. by rewrite sadd_wrap.
  - (* jz *) unfold sem, manual, reg, jump, goto. run_prog. rewrite ip_ok by done.
    rewrite wrapping_add_small by done. destruct (zf (cpu s)); [|done]. by rewrite sadd_wrap.
  - (* jmp *) unfold sem, manual, reg, jump, goto. run_prog. rewrite ip_ok by done.
    rewrite wrapping_add_small by done. by rewrite sadd_wrap.
  - (* call *) f_equal. unfold sem, manual, reg. run_prog. rewrite ip_ok by done. rewrite wrapping_add_small by done.
    apply bind_agree; [apply push_agree; [done|exact (Hreg RSP)]|apply push_rip|]. intros [] s' _. run_prog. by rewrite sadd_wrap.
  - (* call *) f_equal. apply orb_false_iff in Hd as [Hd Hq]. unfold sem, manual, reg, rd64, get_mem. run_prog.
    rewrite ip_ok by done. rewrite wrapping_add_small by done. rewrite sadd_wrap by done.
    destruct (read_u64 _ _ _ _) as [target|e|]; [|done..]. rewrite outside_inside by done.
    destruct (inside base (umem s) target); cbn [negb andb] in *.
    + apply bind_agree; [apply push_agree; [done|exact (Hreg RSP)]|apply push_rip|done].
    + rewrite outside_inside, Hq by done. cbn [negb andb]. apply bind_agree; [apply push_agree; [done|exact (Hreg RSP)]|apply push_rip|done].
Qed.
Lemma sem_agrees : agrees.
Proof.
  pose proof agree_plain as H1. pose proof agree_memory as H2. pose proof agree_control as H3. unfold agrees in *.
  destruct i; first [exact (H1 I) | exact (H2 I) | exact (H3 I) | (* ret *) intros Hd; discriminate Hd].
Qed.
End Agree.

(** C14: the instructions of the interpreter.  When the bytes at [rip] are the
    encoding of an instruction of the assembly language above (every opcode
    and addressing form the interpreter decodes, over the registers it keeps,
    with any immediate), no earlier pattern of the decoder captures the bytes,
    and one step of the interpreter is exactly [sem] of the instruction:
    registers, memory, flags, control, errors and panics.  That is what the
    processor manual says of the instruction ([manual]), except in the cases
    that [deviates] lists (a [ret], a negative immediate of a 64-bit [mov],
    the destinations that are not written, an address that crosses the middle
    of the address space, an indirect call that leaves the program) and
    except, always, for the flags of arithmetic, which the interpreter does
    not set, and RCX after a [syscall]. *)
Theorem exec_one_implements base hs s i bs :
  encode i = Some bs -> imm_ok i -> code_at base s bs ->
  exec_one base hs s = sem base hs i s /\
  (machine_ok s -> keeps_rip hs -> deviates base i s = false ->
    seen i (exec_one base hs s) = seen i (manual base hs i s)).
Proof.
  intros He Hi Hc. assert (exec_one base hs s = sem base hs i s) as Hsem by by apply (implements_sem base hs s i bs).
  split; [exact Hsem|]. intros Hok Hrip. rewrite Hsem. destruct Hc as [(Hb & Hl & _) [H0 H1]].
  apply sem_agrees; [done| |done|done|done]. unfold room, size. rewrite He. pose proof (zlen_nonneg bs). lia.
Qed.

(** [add rbx, -1]: then the machine has rbx = 4 and rip = base + 4. *)
Definition sample_mach : mach :=
  mkMach (set_rip 0x1000 (set_rbx 5 (mkCpu 0 0 0 0 0 0 0 0 0 0 0 0 0 0 false false)))
    ([0x48; 0x83; 0xC3; 0xFF] ++ zreplicate 12 0) (mkWorld (boot_kernel ∅ []) []).
Lemma exec_one_implements_witness :
  let i := AluI8 Add RBX 0xFF in
  let after := Done false (mkMach (set_rip 0x1004 (set_rbx 4 (cpu sample_mach))) (umem sample_mach) (wld sample_mach)) in
  exec_one 0x1000 (ret true) sample_mach = after /\ seen i (manual 0x1000 (ret true) i sample_mach) = after.
Proof.
  intros i after. destruct (exec_one_implements 0x1000 (ret true) sample_mach i [0x48; 0x83; 0xC3; 0xFF]) as [Hsem Hman].
  - reflexivity.
  - exact I.
  - split; [split; [|split]|split]; vm_compute; (reflexivity || discriminate).
  - assert (sem 0x1000 (ret true) i sample_mach = after) as Ha by (vm_compute; reflexivity). rewrite Hsem, Ha in Hman |- *.
    split; [reflexivity|]. rewrite <-Hman; [reflexivity| |apply rip_ret|vm_compute; reflexivity].
    split; [intros []; cbn; unfold is_u64, u64_max; lia|by apply (bool_decide_unpack _)].
Defined.
End isa.
