(* ===== verification/Programs.v ===== *)
(** * Programs, run by the interpreter from end to end

    First a family of programs: an executable is assembled from any list of
    messages and any exit code, and running it prints the messages and exits
    with the code.  This takes the parser, the loader, the initial stack, the
    decoder and the system calls together.  Then the files userspace/exit7 and
    userspace/hello_world as the repository ships them, byte for byte. *)
From stdpp Require Import gmap.
From S2P Require Import Prelude Utf8 Fs Elf Kernel Posix Syscall SyscallInv UserMem Loader Machine.
From S2P Require Import Decode Elfrun Isa.

Module programs.
Import elf elf_runner elf_run decode isa.

(** ** A program for a list of messages *)

Definition print (addr : Z) (msg : bytes) : list insn :=
  [MovI32 RAX SYS_WRITE; MovI32 RDI 1; MovI32 RSI addr; MovI32 RDX (zlen msg); Syscall].
Fixpoint prints (addr : Z) (msgs : list bytes) : list insn :=
  match msgs with [] => [] | msg :: msgs => print addr msg ++ prints (addr + zlen msg) msgs end.
Definition exits (code : Z) : list insn := [MovI32 RAX SYS_EXIT; MovI32 RDI code; Syscall].
Fixpoint assemble (il : list insn) : bytes :=
  match il with [] => [] | i :: il => default [] (encode i) ++ assemble il end.

(** One segment holds the file: the headers, the code and the messages. *)
Definition BASE : Z := 0x10000.
Definition HEADERS : Z := 64 + 56.
Definition code_size (msgs : list bytes) : Z := 22 * zlen msgs + 12.
Definition script (msgs : list bytes) (code : Z) : bytes :=
  assemble (prints (BASE + HEADERS + code_size msgs) msgs ++ exits code).
Definition script_size (msgs : list bytes) : Z := HEADERS + code_size msgs + zlen (concat msgs).
Definition script_elf (msgs : list bytes) (code : Z) : bytes :=
  (sample_ehdr 2 (BASE + HEADERS) 1 ++ sample_phdr PT_LOAD 7 0 BASE (script_size msgs) (script_size msgs)) ++
  script msgs code ++ concat msgs.

Lemma assemble_app il jl : assemble (il ++ jl) = assemble il ++ assemble jl.
Proof. induction il as [|i il IH]; cbn [app assemble]; [done|]. by rewrite IH, app_assoc. Qed.
Lemma zlen_prints addr msgs : zlen (assemble (prints addr msgs)) = 22 * zlen msgs.
Proof.
  revert addr. induction msgs as [|msg msgs IH]; intros addr; [done|]. cbn [prints].
  rewrite assemble_app, zlen_app, IH, zlen_cons. change (zlen (assemble (print addr msg))) with 22. lia.
Qed.
Lemma zlen_script msgs code : zlen (script msgs code) = code_size msgs.
Proof. unfold script. rewrite assemble_app, zlen_app, zlen_prints. done. Qed.

(** *** Running it *)
Section Run.
Context (base tmp_ptr : Z) (run : bytes -> list bytes -> list bytes -> W unit).
#[local] Abbreviation loop := (run_loop base tmp_ptr run).
Definition step (s : mach) (c : Cpu) (w : world) : mach := mkMach c (umem s) w.

Lemma code_next s s' bs rest : code_at base s (bs ++ rest) -> rip (cpu s') = rip (cpu s) + zlen bs -> umem s' = umem s ->
  code_at base s' rest.
Proof. intros [Ha Hb] Hr Hm. unfold code_at. rewrite Hr, Hm. split; [by apply at_va_skip|done]. Qed.
(** One instruction of the code. *)
Lemma exec_head hs s i bs rest : code_at base s (bs ++ rest) -> encode i = Some bs -> imm_ok i ->
  exec_one base hs s = sem base hs i s.
Proof. intros [Ha Hb] He Hi. apply (implements_sem base hs s i bs He Hi). split; [|done]. by eapply at_va_prefix. Qed.
Lemma code_room s bs rest n : code_at base s (bs ++ rest) -> zlen bs = n -> room n s.
Proof.
  intros [(H1 & H2 & _) [H3 H4]] <-. rewrite zlen_app in H2. pose proof (zlen_nonneg rest). pose proof (zlen_nonneg bs).
  unfold room. lia.
Qed.
Lemma loop_mov r v bs rest n s : encode (MovI32 r v) = Some bs -> zlen bs = 5 -> lost_imm r = false -> is_u32 v ->
  code_at base s (bs ++ rest) ->
  let s' := step s (set_rip (rip (cpu s) + 5) (set r v (cpu s))) (wld s) in
  loop (S n) s = loop n s' /\ code_at base s' rest.
Proof.
  intros He Hz Hl Hv Hc s'. assert (size (MovI32 r v) = 5) as Hsz by (unfold size; by rewrite He).
  split; [|eapply code_next; [exact Hc|by rewrite Hz|done]].
  cbn [run_loop]. unfold mbind at 1, prog_bind at 1. rewrite (exec_head _ s (MovI32 r v) bs rest) by done.
  unfold sem, upd. run_prog. rewrite Hl. unfold set_unless.
  rewrite next_ok by (rewrite Hsz; unfold room; cbn [cpu]; rewrite rip_set; by eapply (code_room s)).
  cbn [cpu umem wld]. by rewrite rip_set, Hsz.
Qed.
Definition mov (r : r64) (v : Z) : bytes := [0xB8 + num r] ++ to_le 4 v.
Lemma loop_print addr msg rest n s : is_u32 addr -> is_u32 (zlen msg) -> at_va base (umem s) addr msg ->
  base <= addr < base + zlen (umem s) -> code_at base s (assemble (print addr msg) ++ rest) ->
  exists c, let s' := step s c (mkWorld (kern (wld s)) (term (wld s) ++ [msg])) in
    loop (5 + n) s = loop n s' /\ code_at base s' rest.
Proof.
  intros Ha Hl Hat Hin Hc. change (code_at base s (mov RAX SYS_WRITE ++ mov RDI 1 ++ mov RSI addr ++
    mov RDX (zlen msg) ++ [0x0F; 0x05] ++ rest)) in Hc.
  destruct (loop_mov RAX SYS_WRITE _ _ (4 + n) s eq_refl eq_refl eq_refl ltac:(by split) Hc) as [E1 C1].
  destruct (loop_mov RDI 1 _ _ (3 + n) _ eq_refl eq_refl eq_refl ltac:(by split) C1) as [E2 C2].
  destruct (loop_mov RSI addr _ _ (2 + n) _ eq_refl eq_refl eq_refl Ha C2) as [E3 C3].
  destruct (loop_mov RDX (zlen msg) _ _ (1 + n) _ eq_refl eq_refl eq_refl Hl C3) as [E4 C4].
  match type of C4 with code_at _ ?t _ => set (s4 := t) in * end.
  assert (room 2 s4) as Hroom by by eapply code_room.
  eexists. cbv zeta. split.
  - etrans; [exact E1|]. etrans; [exact E2|]. etrans; [exact E3|]. etrans; [exact E4|].
    cbn [Nat.add run_loop]. unfold mbind at 1, prog_bind at 1.
    rewrite (exec_head _ s4 Syscall [0x0F; 0x05] rest) by done. unfold sem. unfold mbind at 1, prog_bind at 1.
    assert (handle_syscall base tmp_ptr run s4 =
      Done false (mkMach (set_rax (of_i64 (to_i64 (zlen msg))) (cpu s4)) (umem s4)
        (mkWorld (kern (wld s)) (term (wld s) ++ [msg])))) as ->.
    { unfold handle_syscall, reg. run_prog. change (rax (cpu s4)) with SYS_WRITE.
      change (SYS_WRITE =? SYS_READ) with false. change (SYS_WRITE =? SYS_WRITE) with true. cbv iota.
      unfold syscall_write, reg, get_mem. run_prog. change (rdi (cpu s4)) with 1. change (rdx (cpu s4)) with (zlen msg).
      change (rsi (cpu s4)) with addr. change (umem s4) with (umem s).
      destruct Hat as (Hb & Hlen & Hsl). destruct Hc as [_ [H0 H1]]. pose proof (zlen_nonneg msg).
      rewrite (proj2 (va_to_index_Ok _ _ _ _ (addr - base))) by lia.
      rewrite (proj2 (checked_add_Some _ _ _)) by (split; [reflexivity|lia]). cbn [ok_or].
      rewrite (proj2 (Z.ltb_ge _ _)) by lia. change ((1 =? 1) || (1 =? 2)) with true. cbv iota.
      unfold in_world, process. run_prog. rewrite Hsl. reflexivity. }
    unfold ip_plus, reg, upd. run_prog. cbn [cpu]. change (rip (set_rax _ (cpu s4))) with (rip (cpu s4)).
    rewrite add64_small by apply Hroom. reflexivity.
  - eapply code_next; [exact C4|reflexivity|done].
Qed.
Lemma loop_prints msgs addr rest n s : 0 <= addr -> addr + zlen (concat msgs) < 2 ^ 32 ->
  at_va base (umem s) addr (concat msgs) -> addr + zlen (concat msgs) < base + zlen (umem s) ->
  code_at base s (assemble (prints addr msgs) ++ rest) ->
  exists c, let s' := step s c (mkWorld (kern (wld s)) (term (wld s) ++ msgs)) in
    loop (5 * length msgs + n) s = loop n s' /\ code_at base s' rest.
Proof.
  revert addr s. induction msgs as [|msg msgs IH]; intros addr s Ha Hl Hat Hin Hc.
  { exists (cpu s). rewrite app_nil_r. by destruct s as [c m [k t]]. }
  cbn [concat prints] in *. rewrite assemble_app, <-app_assoc in Hc. rewrite zlen_app in Hl, Hin.
  pose proof (zlen_nonneg msg). pose proof (zlen_nonneg (concat msgs)).
  destruct (loop_print addr msg (assemble (prints (addr + zlen msg) msgs) ++ rest) (5 * length msgs + n) s)
    as (c1 & E1 & C1); [ilia|ilia|by eapply at_va_prefix|destruct Hat; lia|exact Hc|].
  match type of C1 with code_at _ ?t _ =>
    destruct (IH (addr + zlen msg) t ltac:(lia) ltac:(lia) (at_va_skip _ _ _ _ _ Hat) ltac:(cbn [umem step]; lia) C1)
      as (c2 & E2 & C2) end.
  exists c2. cbn [step umem wld kern term] in *. rewrite <-app_assoc in *. cbn [app] in *. split; [|exact C2].
  replace (5 * length (msg :: msgs) + n)%nat with (5 + (5 * length msgs + n))%nat by (cbn [length]; lia).
  by rewrite E1, E2.
Qed.
Lemma loop_exits code n s : is_u32 code -> code_at base s (assemble (exits code)) ->
  exists s', loop (3 + n) s = Done tt s' /\ wld s' = mkWorld (with_exit (to_i32 code) true (kern (wld s))) (term (wld s)).
Proof.
  intros Hv Hc. change (code_at base s (mov RAX SYS_EXIT ++ mov RDI code ++ [0x0F; 0x05] ++ [])) in Hc.
  destruct (loop_mov RAX SYS_EXIT _ _ (2 + n) s eq_refl eq_refl eq_refl ltac:(by split) Hc) as [E1 C1].
  destruct (loop_mov RDI code _ _ (1 + n) _ eq_refl eq_refl eq_refl Hv C1) as [E2 C2].
  match type of C2 with code_at _ ?t _ => set (s2 := t) in * end.
  assert (room 2 s2) as Hroom by by eapply code_room.
  eexists. split.
  - etrans; [exact E1|]. etrans; [exact E2|]. cbn [Nat.add run_loop]. unfold mbind at 1, prog_bind at 1.
    rewrite (exec_head _ s2 Syscall [0x0F; 0x05] []) by done. unfold sem. unfold mbind at 1, prog_bind at 1.
    assert (handle_syscall base tmp_ptr run s2 =
      Done true (mkMach (set_rax 0 (cpu s2)) (umem s2)
        (mkWorld (with_exit (to_i32 code) true (kern (wld s))) (term (wld s))))) as -> by reflexivity.
    unfold ip_plus, reg, upd. run_prog. cbn [cpu]. change (rip (set_rax _ (cpu s2))) with (rip (cpu s2)).
    rewrite add64_small by apply Hroom. reflexivity.
  - done.
Qed.
End Run.

(** *** Loading it *)
Section Script.
Context (msgs : list bytes) (code : Z).
Context (Hmsgs : Forall bytes_ok msgs) (Hcode : is_u32 code).
#[local] Abbreviation n := (script_size msgs).
Context (Hsize : n <= MAX_INTERP_MEM).
Definition headers : bytes := sample_ehdr 2 (BASE + HEADERS) 1 ++ sample_phdr PT_LOAD 7 0 BASE n n.
#[local] Abbreviation image := (script_elf msgs code).

Lemma size_bounds : HEADERS + 12 <= n /\ 0 <= zlen msgs /\ 0 <= zlen (concat msgs).
Proof.
  unfold script_size, code_size. pose proof (zlen_nonneg msgs). pose proof (zlen_nonneg (concat msgs)). lia.
Qed.
Lemma zlen_image : zlen image = n.
Proof.
  unfold script_elf. rewrite !zlen_app, zlen_script. unfold script_size.
  change (zlen (sample_ehdr _ _ _)) with 64. change (zlen (sample_phdr _ _ _ _ _ _)) with 56. unfold HEADERS. lia.
Qed.
Lemma assemble_bytes il : Forall (fun i => bytes_ok (default [] (encode i))) il -> bytes_ok (assemble il).
Proof. induction 1; cbn [assemble]; [constructor|]. by apply bytes_ok_app. Qed.
#[local] Ltac concrete := by apply (bool_decide_unpack _).
Lemma mov_ok r v : num r < 8 -> 0 <= num r -> bytes_ok (mov r v).
Proof. intros. apply bytes_ok_app. split; [|apply to_le_ok]. constructor; [ilia|constructor]. Qed.
Lemma prints_bytes addr : bytes_ok (assemble (prints addr msgs)).
Proof.
  clear. revert addr. induction msgs as [|msg ms IH]; intros addr; cbn [prints]; [constructor|]. rewrite assemble_app.
  apply bytes_ok_app. split; [|apply IH].
  change (bytes_ok (mov RAX SYS_WRITE ++ mov RDI 1 ++ mov RSI addr ++ mov RDX (zlen msg) ++ [0x0F; 0x05])).
  rewrite !bytes_ok_app. split_and!; first [by apply mov_ok|concrete].
Qed.
Lemma image_bytes : bytes_ok image.
Proof.
  unfold script_elf, script. rewrite assemble_app.
  change (assemble (exits code)) with (mov RAX SYS_EXIT ++ mov RDI code ++ [0x0F; 0x05]).
  unfold sample_phdr. rewrite !bytes_ok_app.
  split_and!; first [apply to_le_ok|by apply mov_ok|apply prints_bytes|by apply concat_Forall|concrete].
Qed.

Lemma zslice_at {A} (a b c : list A) i j : zlen a = i -> i + zlen b = j -> zslice (a ++ b ++ c) i j = b.
Proof.
  intros <- <-. unfold zslice, zlen. rewrite Nat2Z.id, drop_app_length.
  replace (Z.to_nat _) with (length b) by lia. by rewrite take_app_length.
Qed.
(** The parser finds one segment. *)
Lemma script_parses :
  parse_elf64 image = Ok (mkElfImage (BASE + HEADERS) 2 [mkLoadSegment BASE n 0 n 7]).
Proof.
  pose proof size_bounds as (Hn & _). unfold HEADERS in Hn. unfold MAX_INTERP_MEM in Hsize.
  rewrite parse_elf64_reject by (apply image_bytes || (rewrite zlen_image; ilia)).
  assert (ehdr_of image = ehdr_of_bytes (sample_ehdr 2 (BASE + HEADERS) 1)) as He.
  { unfold ehdr_of, script_elf. rewrite <-app_assoc. f_equal; by apply (zslice_at []). }
  assert (phdr_at image 64 0 = phdr_of_bytes (sample_phdr PT_LOAD 7 0 BASE n n)) as Hp.
  { unfold phdr_at, script_elf. rewrite <-app_assoc. f_equal; by apply zslice_at. }
  assert (phdr_of_bytes (sample_phdr PT_LOAD 7 0 BASE n n) = mkElf64Phdr PT_LOAD 7 0 BASE BASE n n 4096) as Hph.
  { assert (from_le (to_le 8 n) = n) as Hle.
    { rewrite from_le_to_le. apply Z.mod_small. change (256 ^ Z.of_nat 8) with (2 ^ 64). ilia. }
    transitivity (mkElf64Phdr PT_LOAD 7 0 BASE BASE (from_le (to_le 8 n)) (from_le (to_le 8 n)) 4096); [|by rewrite Hle].
    unfold sample_phdr. generalize n. intros m. reflexivity. }
  unfold reject, image_of, phdrs_of. cbv zeta. rewrite He, zlen_image.
  change (e_phoff _) with 64. change (e_phnum _) with 1. change (Z.to_nat 1) with 1%nat. cbn [seq map].
  change (Z.of_nat 0) with 0. rewrite Hp, Hph.
  rewrite (proj2 (Z.ltb_ge n EHDR_SIZE)) by (unfold EHDR_SIZE; lia).
  rewrite (proj2 (Z.ltb_ge n (64 + 1 * PHDR_SIZE))) by (unfold PHDR_SIZE; lia). reflexivity.
Qed.

(** The arguments and the environment fit on the stack. *)
Definition args_fit (argv envp : list bytes) : Prop :=
  need argv + need envp + 8 * (zlen argv + zlen envp + 7) + 46 <= STACK_SIZE.
Lemma script_loads argv envp : args_fit argv envp ->
  exists sp m, load_program image argv envp = Ok (BASE, m, init_cpu sp (BASE + HEADERS)) /\
    at_va BASE m BASE image /\ zlen m = n + STACK_SIZE.
Proof.
  unfold args_fit. intros Hfit. pose proof size_bounds as (Hn & _). unfold HEADERS in Hn. pose proof Hsize as Hmax.
  unfold MAX_INTERP_MEM, STACK_SIZE in *. unfold load_program. rewrite script_parses.
  cbn [map_err mbind outcome_bind segments img_entry]. rewrite bool_decide_false by done.
  assert (vaddr_range [mkLoadSegment BASE n 0 n 7] = (BASE, BASE + n)) as ->.
  { unfold vaddr_range. cbn [foldl vaddr mem_size]. unfold BASE. f_equal; ilia. }
  rewrite (proj2 (Z.leb_gt _ _)) by lia. replace (BASE + n - BASE) with n by lia. cbv zeta.
  change (zlen [_]) with 1. unfold MAX_INTERP_MEM. rewrite (proj2 (Z.ltb_ge _ n)) by lia.
  change (16 <? 1) with false. cbn [orb]. unfold STACK_SIZE.
  rewrite (proj2 (checked_add_Some _ _ _)) by (split; [reflexivity|ilia]). cbn [ok_or mbind outcome_bind].
  set (zeros := zreplicate (n + 128 * 1024) 0). assert (zlen zeros = n + 128 * 1024) as Hz by (apply zlen_zreplicate; lia).
  assert (copy_segments AddressOutOfRange BASE image zeros [mkLoadSegment BASE n 0 n 7] = Ok (splice zeros 0 image)) as ->.
  { cbn [copy_segments]. rewrite copy_segment_eq; cbn [vaddr mem_size file_offset file_size];
      [|rewrite zlen_image; ilia|ilia|unfold seg_ok, BASE; cbn; ilia|lia].
    rewrite zlen_image. rewrite !bool_decide_true by lia. cbn [andb mbind outcome_bind]. replace (BASE - BASE) with 0 by lia.
    do 2 f_equal. rewrite <-zlen_image. unfold zslice, zlen. rewrite drop_0, take_ge; [done|lia]. }
  set (mem := splice zeros 0 image).
  assert (zlen mem = n + 128 * 1024) as Hm by (unfold mem; rewrite zlen_splice; rewrite ?zlen_image; lia).
  assert (at_va BASE mem BASE image) as Hat.
  { split_and!; [lia|rewrite zlen_image; lia|]. replace (BASE - BASE) with 0 by lia. unfold mem, splice.
    apply (zslice_at []); [done|lia]. }
  cbn [mbind outcome_bind]. rewrite Hm. rewrite add64_small by (unfold BASE; ilia). cbn [mbind outcome_bind].
  rewrite sub64_small by (unfold BASE; lia). cbn [mbind outcome_bind].
  destruct (build_initial_stack_fits AddressOutOfRange BASE mem (BASE + (n + 128 * 1024) - 16) argv envp) as (sp & m & Hb & Hsp);
    [unfold BASE; lia|unfold BASE; ilia|rewrite Hm; ilia|lia|].
  rewrite Hb. cbn [mbind outcome_bind]. exists sp, m. split; [done|].
  destruct (build_initial_stack_Ok AddressOutOfRange BASE mem (BASE + (n + 128 * 1024) - 16) argv envp sp m) as (_ & _ & _ & _ & _ & Hf & _);
    [unfold BASE; lia|unfold BASE; ilia|lia|exact Hb|].
  split; [|destruct Hf; lia]. eapply frame_at; [exact Hf| |exact Hat]. rewrite zlen_image. lia.
Qed.
End Script.

(** C13: programs run to their end and do what they say.  For any messages and
    any exit code, as long as the program fits the interpreter's limits on
    memory and steps, and whatever its arguments and environment (as long as
    they fit its stack), the executable that prints the messages and exits
    with the code is parsed, loaded and run: from every state of the kernel
    and the terminal, the terminal shows exactly the messages, in order, each
    in one piece, the program stops normally, its exit code waits to be
    reaped, and nothing else of the kernel changes. *)
Theorem script_runs tmp_ptr depth msgs code argv envp w :
  Forall bytes_ok msgs -> is_u32 code -> script_size msgs <= MAX_INTERP_MEM -> 5 * zlen msgs + 3 <= MAX_STEPS ->
  args_fit argv envp ->
  run_linux_elf_with_args tmp_ptr (S depth) (script_elf msgs code) argv envp w
  = Done tt (mkWorld (with_exit (to_i32 code) true (kern w)) (term w ++ msgs)).
Proof.
  intros Hb Hc Hs Hsteps Ha. destruct (script_loads msgs code Hb Hs argv envp Ha) as (sp & m & Hload & Hat & Hm).
  cbn [run_linux_elf_with_args]. rewrite Hload.
  pose proof (size_bounds msgs) as (_ & Hn & Hl). unfold MAX_INTERP_MEM in Hs.
  set (s := mkMach (init_cpu sp (BASE + HEADERS)) m w).
  assert (Z.to_nat MAX_STEPS = 5 * length msgs + (3 + (Z.to_nat MAX_STEPS - 5 * length msgs - 3)))%nat as ->
    by (unfold zlen in Hsteps; lia).
  apply at_va_skip in Hat. change (zlen (_ ++ _)) with HEADERS in Hat.
  assert (at_va BASE m (BASE + HEADERS + code_size msgs) (concat msgs)) as Hdata
    by (rewrite <-(zlen_script msgs code); by apply at_va_skip).
  assert (BASE + zlen m <= u64_max) as Hu by (rewrite Hm; unfold BASE, STACK_SIZE; ilia).
  destruct (loop_prints BASE (tmp_ptr depth) (run_linux_elf_with_args tmp_ptr depth) msgs
    (BASE + HEADERS + code_size msgs) (assemble (exits code)) (3 + (Z.to_nat MAX_STEPS - 5 * length msgs - 3)) s)
    as (c & E1 & C1).
  - unfold code_size, BASE, HEADERS. lia.
  - unfold script_size, code_size, BASE, HEADERS in *. lia.
  - exact Hdata.
  - change (umem s) with m. rewrite Hm. unfold script_size, STACK_SIZE. lia.
  - split; [|split; [done|exact Hu]]. apply at_va_prefix in Hat. unfold script in Hat. by rewrite assemble_app in Hat.
  - destruct (loop_exits BASE (tmp_ptr depth) (run_linux_elf_with_args tmp_ptr depth) code
      (Z.to_nat MAX_STEPS - 5 * length msgs - 3) _ Hc C1) as (s' & E2 & Hw).
    rewrite E1, E2. by rewrite Hw.
Qed.
Lemma script_runs_witness :
  run_linux_elf_with_args (fun _ => 0) 1 (script_elf [str "Hello, "; str "LeonOS 3!" ++ [10]] 7) [str "hello"] [] (mkWorld sample_kernel [])
  = Done tt (mkWorld (with_exit 7 true sample_kernel) [str "Hello, "; str "LeonOS 3!" ++ [10]]).
Proof.
  apply (script_runs (fun _ => 0) 0 [str "Hello, "; str "LeonOS 3!" ++ [10]] 7 [str "hello"] [] (mkWorld sample_kernel [])).
  - by apply (bool_decide_unpack _).
  - by split.
  - vm_compute. discriminate.
  - vm_compute. discriminate.
  - vm_compute. discriminate.
Defined.

(** ** The programs of the repository *)

(** A file by its length and its runs of bytes; the rest is zeros. *)
Definition sparse (n : Z) (runs : list (Z * bytes)) : bytes :=
  foldl (fun f '(off, bs) => splice f off bs) (zreplicate n 0) runs.
Definition exit7 : bytes := sparse 13440 [
   (0x0, [127; 69; 76; 70; 2; 1; 1; 0; 0; 0; 0; 0; 0; 0; 0; 0; 3; 0; 62; 0; 1; 0; 0; 0; 0; 16; 0; 0; 0; 0; 0;
    0; 64; 0; 0; 0; 0; 0; 0; 0; 64; 49; 0; 0; 0; 0; 0; 0; 0; 0; 0; 0; 64; 0; 56; 0; 7; 0; 64; 0; 13; 0; 12; 0;
    1; 0; 0; 0; 4]);
   (0x60, [64; 2; 0; 0; 0; 0; 0; 0; 64; 2; 0; 0; 0; 0; 0; 0; 0; 16; 0; 0; 0; 0; 0; 0; 1; 0; 0; 0; 5; 0; 0; 0;
    0; 16; 0; 0; 0; 0; 0; 0; 0; 16; 0; 0; 0; 0; 0; 0; 0; 16; 0; 0; 0; 0; 0; 0; 42; 0; 0; 0; 0; 0; 0; 0; 42; 0;
    0; 0; 0; 0; 0; 0; 0; 16; 0; 0; 0; 0; 0; 0; 1; 0; 0; 0; 4; 0; 0; 0; 0; 32; 0; 0; 0; 0; 0; 0; 0; 32; 0; 0;
    0; 0; 0; 0; 0; 32; 0; 0; 0; 0; 0; 0; 76; 0; 0; 0; 0; 0; 0; 0; 76; 0; 0; 0; 0; 0; 0; 0; 0; 16; 0; 0; 0; 0;
    0; 0; 1; 0; 0; 0; 6; 0; 0; 0; 64; 47; 0; 0; 0; 0; 0; 0; 64; 63; 0; 0; 0; 0; 0; 0; 64; 63; 0; 0; 0; 0; 0;
    0; 192; 0; 0; 0; 0; 0; 0; 0; 192; 0; 0; 0; 0; 0; 0; 0; 0; 16; 0; 0; 0; 0; 0; 0; 2; 0; 0; 0; 6; 0; 0; 0;
    64; 47; 0; 0; 0; 0; 0; 0; 64; 63; 0; 0; 0; 0; 0; 0; 64; 63; 0; 0; 0; 0; 0; 0; 192; 0; 0; 0; 0; 0; 0; 0;
    192; 0; 0; 0; 0; 0; 0; 0; 8; 0; 0; 0; 0; 0; 0; 0; 81; 229; 116; 100; 6]);
   (0x188, [16; 0; 0; 0; 0; 0; 0; 0; 82; 229; 116; 100; 4; 0; 0; 0; 64; 47; 0; 0; 0; 0; 0; 0; 64; 63; 0; 0; 0;
    0; 0; 0; 64; 63; 0; 0; 0; 0; 0; 0; 192; 0; 0; 0; 0; 0; 0; 0; 192; 0; 0; 0; 0; 0; 0; 0; 1; 0; 0; 0; 0; 0;
    0; 0; 1; 0; 0; 0; 2; 0; 0; 0; 1]);
   (0x1e0, [2; 0; 0; 0; 1; 0; 0; 0; 1; 0; 0; 0; 6; 0; 0; 0; 0; 1; 0; 0; 0; 0; 4; 0; 1; 0; 0; 0; 0; 0; 0; 0;
    51; 98; 219; 237]);
   (0x220, [1; 0; 0; 0; 18; 0; 5; 0; 0; 16; 0; 0; 0; 0; 0; 0; 42; 0; 0; 0; 0; 0; 0; 0; 0; 95; 115; 116; 97;
    114; 116]);
   (0x1000, [184; 1; 0; 0; 0; 72; 141; 53; 244; 15; 0; 0; 186; 28; 0; 0; 0; 72; 137; 199; 15; 5; 49; 210; 184;
    60; 0; 0; 0; 191; 7; 0; 0; 0; 72; 137; 214; 15; 5; 244; 235; 253]);
   (0x2000, [101; 120; 105; 116; 55; 58; 32; 101; 120; 105; 116; 105; 110; 103; 32; 119; 105; 116; 104; 32;
    99; 111; 100; 101; 32; 55; 92; 110; 0; 0; 0; 0; 20; 0; 0; 0; 0; 0; 0; 0; 1; 122; 82; 0; 1; 120; 16; 1; 27;
    12; 7; 8; 144; 1; 0; 0; 16; 0; 0; 0; 28; 0; 0; 0; 192; 239; 255; 255; 42]);
   (0x2f40, [4; 0; 0; 0; 0; 0; 0; 0; 200; 1; 0; 0; 0; 0; 0; 0; 245; 254; 255; 111; 0; 0; 0; 0; 224; 1; 0; 0;
    0; 0; 0; 0; 5; 0; 0; 0; 0; 0; 0; 0; 56; 2; 0; 0; 0; 0; 0; 0; 6; 0; 0; 0; 0; 0; 0; 0; 8; 2; 0; 0; 0; 0; 0;
    0; 10; 0; 0; 0; 0; 0; 0; 0; 8; 0; 0; 0; 0; 0; 0; 0; 11; 0; 0; 0; 0; 0; 0; 0; 24]);
   (0x3000, [71; 67; 67; 58; 32; 40; 85; 98; 117; 110; 116; 117; 32; 49; 51; 46; 51; 46; 48; 45; 54; 117; 98;
    117; 110; 116; 117; 50; 126; 50; 52; 46; 48; 52; 46; 49; 41; 32; 49; 51; 46; 51; 46; 48]);
   (0x3048, [1; 0; 0; 0; 4; 0; 241; 255]);
   (0x3060, [9; 0; 0; 0; 1; 0; 6; 0; 0; 32; 0; 0; 0; 0; 0; 0; 29; 0; 0; 0; 0; 0; 0; 0; 0; 0; 0; 0; 4; 0; 241;
    255]);
   (0x3090, [15; 0; 0; 0; 1; 0; 8; 0; 64; 63]);
   (0x30a8, [24; 0; 0; 0; 18; 0; 5; 0; 0; 16; 0; 0; 0; 0; 0; 0; 42; 0; 0; 0; 0; 0; 0; 0; 0; 101; 120; 105;
    116; 55; 46; 99; 0; 109; 115; 103; 46; 48; 0; 95; 68; 89; 78; 65; 77; 73; 67; 0; 95; 115; 116; 97; 114;
    116; 0; 0; 46; 115; 121; 109; 116; 97; 98; 0; 46; 115; 116; 114; 116; 97; 98; 0; 46; 115; 104; 115; 116;
    114; 116; 97; 98; 0; 46; 103; 110; 117; 46; 104; 97; 115; 104; 0; 46; 100; 121; 110; 115; 121; 109; 0; 46;
    100; 121; 110; 115; 116; 114; 0; 46; 116; 101; 120; 116; 0; 46; 114; 111; 100; 97; 116; 97; 0; 46; 101;
    104; 95; 102; 114; 97; 109; 101; 0; 46; 100; 121; 110; 97; 109; 105; 99; 0; 46; 99; 111; 109; 109; 101;
    110; 116]);
   (0x3180, [31; 0; 0; 0; 5; 0; 0; 0; 2; 0; 0; 0; 0; 0; 0; 0; 200; 1; 0; 0; 0; 0; 0; 0; 200; 1; 0; 0; 0; 0; 0;
    0; 20; 0; 0; 0; 0; 0; 0; 0; 3; 0; 0; 0; 0; 0; 0; 0; 8; 0; 0; 0; 0; 0; 0; 0; 4; 0; 0; 0; 0; 0; 0; 0; 27; 0;
    0; 0; 246; 255; 255; 111; 2; 0; 0; 0; 0; 0; 0; 0; 224; 1; 0; 0; 0; 0; 0; 0; 224; 1; 0; 0; 0; 0; 0; 0; 36;
    0; 0; 0; 0; 0; 0; 0; 3; 0; 0; 0; 0; 0; 0; 0; 8]);
   (0x3200, [37; 0; 0; 0; 11; 0; 0; 0; 2; 0; 0; 0; 0; 0; 0; 0; 8; 2; 0; 0; 0; 0; 0; 0; 8; 2; 0; 0; 0; 0; 0; 0;
    48; 0; 0; 0; 0; 0; 0; 0; 4; 0; 0; 0; 1; 0; 0; 0; 8; 0; 0; 0; 0; 0; 0; 0; 24; 0; 0; 0; 0; 0; 0; 0; 45; 0;
    0; 0; 3; 0; 0; 0; 2; 0; 0; 0; 0; 0; 0; 0; 56; 2; 0; 0; 0; 0; 0; 0; 56; 2; 0; 0; 0; 0; 0; 0; 8]);
   (0x3270, [1]);
   (0x3280, [53; 0; 0; 0; 1; 0; 0; 0; 6; 0; 0; 0; 0; 0; 0; 0; 0; 16; 0; 0; 0; 0; 0; 0; 0; 16; 0; 0; 0; 0; 0;
    0; 42]);
   (0x32b0, [1]);
   (0x32c0, [59; 0; 0; 0; 1; 0; 0; 0; 2; 0; 0; 0; 0; 0; 0; 0; 0; 32; 0; 0; 0; 0; 0; 0; 0; 32; 0; 0; 0; 0; 0;
    0; 29]);
   (0x32f0, [16]);
   (0x3300, [67; 0; 0; 0; 1; 0; 0; 0; 2; 0; 0; 0; 0; 0; 0; 0; 32; 32; 0; 0; 0; 0; 0; 0; 32; 32; 0; 0; 0; 0; 0;
    0; 44]);
   (0x3330, [8]);
   (0x3340, [77; 0; 0; 0; 6; 0; 0; 0; 3; 0; 0; 0; 0; 0; 0; 0; 64; 63; 0; 0; 0; 0; 0; 0; 64; 47; 0; 0; 0; 0; 0;
    0; 192; 0; 0; 0; 0; 0; 0; 0; 4; 0; 0; 0; 0; 0; 0; 0; 8; 0; 0; 0; 0; 0; 0; 0; 16; 0; 0; 0; 0; 0; 0; 0; 86;
    0; 0; 0; 1; 0; 0; 0; 48]);
   (0x3399, [48; 0; 0; 0; 0; 0; 0; 45]);
   (0x33b0, [1; 0; 0; 0; 0; 0; 0; 0; 1; 0; 0; 0; 0; 0; 0; 0; 1; 0; 0; 0; 2]);
   (0x33d8, [48; 48; 0; 0; 0; 0; 0; 0; 144; 0; 0; 0; 0; 0; 0; 0; 11; 0; 0; 0; 5; 0; 0; 0; 8; 0; 0; 0; 0; 0; 0;
    0; 24; 0; 0; 0; 0; 0; 0; 0; 9; 0; 0; 0; 3]);
   (0x3418, [192; 48; 0; 0; 0; 0; 0; 0; 31]);
   (0x3430, [1]);
   (0x3440, [17; 0; 0; 0; 3]);
   (0x3458, [223; 48; 0; 0; 0; 0; 0; 0; 95]);
   (0x3470, [1])].
Definition hello_world : bytes := sparse 13360 [
   (0x0, [127; 69; 76; 70; 2; 1; 1; 0; 0; 0; 0; 0; 0; 0; 0; 0; 3; 0; 62; 0; 1; 0; 0; 0; 0; 16; 0; 0; 0; 0; 0;
    0; 64; 0; 0; 0; 0; 0; 0; 0; 48; 49; 0; 0; 0; 0; 0; 0; 0; 0; 0; 0; 64; 0; 56; 0; 6; 0; 64; 0; 12; 0; 11; 0;
    1; 0; 0; 0; 4]);
   (0x60, [8; 2; 0; 0; 0; 0; 0; 0; 8; 2; 0; 0; 0; 0; 0; 0; 0; 16; 0; 0; 0; 0; 0; 0; 1; 0; 0; 0; 5; 0; 0; 0; 0;
    16; 0; 0; 0; 0; 0; 0; 0; 16; 0; 0; 0; 0; 0; 0; 0; 16; 0; 0; 0; 0; 0; 0; 42; 0; 0; 0; 0; 0; 0; 0; 42; 0; 0;
    0; 0; 0; 0; 0; 0; 16; 0; 0; 0; 0; 0; 0; 1; 0; 0; 0; 4; 0; 0; 0; 0; 32; 0; 0; 0; 0; 0; 0; 0; 32; 0; 0; 0;
    0; 0; 0; 0; 32; 0; 0; 0; 0; 0; 0; 24; 0; 0; 0; 0; 0; 0; 0; 24; 0; 0; 0; 0; 0; 0; 0; 0; 16; 0; 0; 0; 0; 0;
    0; 1; 0; 0; 0; 6; 0; 0; 0; 64; 47; 0; 0; 0; 0; 0; 0; 64; 63; 0; 0; 0; 0; 0; 0; 64; 63; 0; 0; 0; 0; 0; 0;
    192; 0; 0; 0; 0; 0; 0; 0; 192; 0; 0; 0; 0; 0; 0; 0; 0; 16; 0; 0; 0; 0; 0; 0; 2; 0; 0; 0; 6; 0; 0; 0; 64;
    47; 0; 0; 0; 0; 0; 0; 64; 63; 0; 0; 0; 0; 0; 0; 64; 63; 0; 0; 0; 0; 0; 0; 192; 0; 0; 0; 0; 0; 0; 0; 192;
    0; 0; 0; 0; 0; 0; 0; 8; 0; 0; 0; 0; 0; 0; 0; 82; 229; 116; 100; 4; 0; 0; 0; 64; 47; 0; 0; 0; 0; 0; 0; 64;
    63; 0; 0; 0; 0; 0; 0; 64; 63; 0; 0; 0; 0; 0; 0; 192; 0; 0; 0; 0; 0; 0; 0; 192; 0; 0; 0; 0; 0; 0; 0; 1; 0;
    0; 0; 0; 0; 0; 0; 1; 0; 0; 0; 2; 0; 0; 0; 1]);
   (0x1a8, [2; 0; 0; 0; 1; 0; 0; 0; 1; 0; 0; 0; 6; 0; 0; 0; 0; 1; 0; 0; 0; 0; 4; 0; 1; 0; 0; 0; 0; 0; 0; 0;
    51; 98; 219; 237]);
   (0x1e8, [1; 0; 0; 0; 16; 0; 5; 0; 0; 16]);
   (0x201, [95; 115; 116; 97; 114; 116]);
   (0x1000, [72; 199; 192; 1; 0; 0; 0; 72; 199; 199; 1; 0; 0; 0; 72; 141; 53; 235; 15; 0; 0; 72; 199; 194; 17;
    0; 0; 0; 15; 5; 72; 199; 192; 60; 0; 0; 0; 72; 49; 255; 15; 5]);
   (0x2000, [72; 101; 108; 108; 111; 44; 32; 76; 101; 111; 110; 79; 83; 32; 51; 33; 10]);
   (0x2f40, [4; 0; 0; 0; 0; 0; 0; 0; 144; 1; 0; 0; 0; 0; 0; 0; 245; 254; 255; 111; 0; 0; 0; 0; 168; 1; 0; 0;
    0; 0; 0; 0; 5; 0; 0; 0; 0; 0; 0; 0; 0; 2; 0; 0; 0; 0; 0; 0; 6; 0; 0; 0; 0; 0; 0; 0; 208; 1; 0; 0; 0; 0; 0;
    0; 10; 0; 0; 0; 0; 0; 0; 0; 8; 0; 0; 0; 0; 0; 0; 0; 11; 0; 0; 0; 0; 0; 0; 0; 24]);
   (0x3018, [1; 0; 0; 0; 4; 0; 241; 255]);
   (0x3030, [15; 0; 0; 0; 0; 0; 6; 0; 0; 32]);
   (0x3048, [19; 0; 0; 0; 0; 0; 241; 255; 17]);
   (0x3064, [4; 0; 241; 255]);
   (0x3078, [27; 0; 0; 0; 1; 0; 8; 0; 64; 63]);
   (0x3090, [36; 0; 0; 0; 16; 0; 5; 0; 0; 16]);
   (0x30a9, [104; 101; 108; 108; 111; 95; 119; 111; 114; 108; 100; 46; 111; 0; 109; 115; 103; 0; 109; 115;
    103; 95; 108; 101; 110; 0; 95; 68; 89; 78; 65; 77; 73; 67; 0; 95; 115; 116; 97; 114; 116; 0; 0; 46; 115;
    121; 109; 116; 97; 98; 0; 46; 115; 116; 114; 116; 97; 98; 0; 46; 115; 104; 115; 116; 114; 116; 97; 98; 0;
    46; 103; 110; 117; 46; 104; 97; 115; 104; 0; 46; 100; 121; 110; 115; 121; 109; 0; 46; 100; 121; 110; 115;
    116; 114; 0; 46; 116; 101; 120; 116; 0; 46; 114; 111; 100; 97; 116; 97; 0; 46; 101; 104; 95; 102; 114; 97;
    109; 101; 0; 46; 100; 121; 110; 97; 109; 105; 99]);
   (0x3170, [31; 0; 0; 0; 5; 0; 0; 0; 2; 0; 0; 0; 0; 0; 0; 0; 144; 1; 0; 0; 0; 0; 0; 0; 144; 1; 0; 0; 0; 0; 0;
    0; 20; 0; 0; 0; 0; 0; 0; 0; 3; 0; 0; 0; 0; 0; 0; 0; 8; 0; 0; 0; 0; 0; 0; 0; 4; 0; 0; 0; 0; 0; 0; 0; 27; 0;
    0; 0; 246; 255; 255; 111; 2; 0; 0; 0; 0; 0; 0; 0; 168; 1; 0; 0; 0; 0; 0; 0; 168; 1; 0; 0; 0; 0; 0; 0; 36;
    0; 0; 0; 0; 0; 0; 0; 3; 0; 0; 0; 0; 0; 0; 0; 8]);
   (0x31f0, [37; 0; 0; 0; 11; 0; 0; 0; 2; 0; 0; 0; 0; 0; 0; 0; 208; 1; 0; 0; 0; 0; 0; 0; 208; 1; 0; 0; 0; 0;
    0; 0; 48; 0; 0; 0; 0; 0; 0; 0; 4; 0; 0; 0; 1; 0; 0; 0; 8; 0; 0; 0; 0; 0; 0; 0; 24; 0; 0; 0; 0; 0; 0; 0;
    45; 0; 0; 0; 3; 0; 0; 0; 2; 0; 0; 0; 0; 0; 0; 0; 0; 2; 0; 0; 0; 0; 0; 0; 0; 2; 0; 0; 0; 0; 0; 0; 8]);
   (0x3260, [1]);
   (0x3270, [53; 0; 0; 0; 1; 0; 0; 0; 6; 0; 0; 0; 0; 0; 0; 0; 0; 16; 0; 0; 0; 0; 0; 0; 0; 16; 0; 0; 0; 0; 0;
    0; 42]);
   (0x32a0, [1]);
   (0x32b0, [59; 0; 0; 0; 1; 0; 0; 0; 2; 0; 0; 0; 0; 0; 0; 0; 0; 32; 0; 0; 0; 0; 0; 0; 0; 32; 0; 0; 0; 0; 0;
    0; 17]);
   (0x32e0, [1]);
   (0x32f0, [67; 0; 0; 0; 1; 0; 0; 0; 2; 0; 0; 0; 0; 0; 0; 0; 24; 32; 0; 0; 0; 0; 0; 0; 24; 32]);
   (0x3320, [8]);
   (0x3330, [77; 0; 0; 0; 6; 0; 0; 0; 3; 0; 0; 0; 0; 0; 0; 0; 64; 63; 0; 0; 0; 0; 0; 0; 64; 47; 0; 0; 0; 0; 0;
    0; 192; 0; 0; 0; 0; 0; 0; 0; 4; 0; 0; 0; 0; 0; 0; 0; 8; 0; 0; 0; 0; 0; 0; 0; 16; 0; 0; 0; 0; 0; 0; 0; 1;
    0; 0; 0; 2]);
   (0x3389, [48; 0; 0; 0; 0; 0; 0; 168; 0; 0; 0; 0; 0; 0; 0; 10; 0; 0; 0; 6; 0; 0; 0; 8; 0; 0; 0; 0; 0; 0; 0;
    24; 0; 0; 0; 0; 0; 0; 0; 9; 0; 0; 0; 3]);
   (0x33c8, [168; 48; 0; 0; 0; 0; 0; 0; 43]);
   (0x33e0, [1]);
   (0x33f0, [17; 0; 0; 0; 3]);
   (0x3408, [211; 48; 0; 0; 0; 0; 0; 0; 86]);
   (0x3420, [1])].
Definition exit7_msg : bytes := str "exit7: exiting with code 7" ++ [92; 110].
Definition hello_world_msg : bytes := str "Hello, LeonOS 3!" ++ [10].

(** exit7 prints its message, which ends in a backslash and the letter n
    because the backslash is doubled in its source, and stops normally with
    exit code 7. *)
Lemma exit7_runs tmp_ptr depth w :
  run_linux_elf tmp_ptr (S depth) exit7 w
  = Done tt (mkWorld (with_exit 7 true (kern w)) (term w ++ [exit7_msg])).
Proof. destruct w as [[] t]. vm_compute. reflexivity. Qed.

(** hello_world prints its message and then fails: the interpreter knows
    [xor edi, edi] but not [xor rdi, rdi], which the assembler emits for the
    last line before the exit. *)
Lemma hello_world_stops tmp_ptr depth w :
  run_linux_elf tmp_ptr (S depth) hello_world w
  = Fail (UnsupportedInstruction 0x1025 [0x48; 0x31; 0xFF; 0x0F; 5; 0; 0; 0])
      (mkWorld (kern w) (term w ++ [hello_world_msg])).
Proof. destruct w as [[] t]. vm_compute. reflexivity. Qed.

(** The pointers of most system calls reach the kernel as they are, not
    translated to the program's memory: this program has getrandom write to
    the address 0x300000 of the kernel, which is not an address of its own. *)
Definition poke : bytes :=
  let code := assemble ([MovI32 RAX SYS_GETRANDOM; MovI32 RDI 0x300000; MovI32 RSI 1; MovI32 RDX 0; Syscall] ++ exits 0) in
  sample_ehdr 2 0x401000 1 ++ sample_phdr PT_LOAD 7 120 0x401000 (zlen code) (zlen code) ++ code.
Lemma poke_writes_kernel_memory :
  let k := boot_kernel {[ 0x300000 := 0 ]} [] in
  match run_linux_elf (fun _ => 0) 1 poke (mkWorld k []) with
  | Done tt w => mem (kern w) !! 0x300000 <> mem k !! 0x300000
  | _ => False
  end.
Proof. vm_compute. discriminate. Qed.

(** A file whose segment is larger in the file than in memory makes the copy
    panic instead of being rejected, and so does one near the end of the
    address space. *)
Definition fat_segment : bytes :=
  sample_ehdr 3 0x1000 2 ++ sample_phdr PT_LOAD 5 0 0x1000 64 64 ++
  sample_phdr PT_LOAD 5 0 0x1000 (64 + 128 * 1024 + 1) 1 ++ zreplicate (128 * 1024) 0.
Definition high_segment : bytes :=
  sample_ehdr 3 0x1000 1 ++ sample_phdr PT_LOAD 5 0 (2 ^ 64 - 0x2000) 64 0x1000.
Lemma load_program_panics argv envp :
  load_program fat_segment argv envp = Panic /\ load_program high_segment argv envp = Panic.
Proof. split; vm_compute; reflexivity. Qed.
End programs.
