(* ===== verification/Fmt.v ===== *)
(** * Formatted output ([core::fmt])

    What [write!] makes of the placeholders the kernel uses: [{}], [{:x}] and
    [{:o}] of unsigned and signed integers, widths with [{:>w}], and the
    [{:?}] of the error types, which is derived.  The lemmas say that the text
    of a number determines it. *)
From S2P Require Import Prelude Utf8 Fs Elf Machine Native.

Module fmt.

(** ** Numbers *)

Definition digit (d : Z) : Z := if d <? 10 then 48 + d else 87 + d.
(** The digits of [n] in front of [acc]; a 64-bit word has at most 64. *)
Fixpoint digits_loop (fuel : nat) (b n : Z) (acc : bytes) : bytes :=
  match fuel with
  | O => acc
  | S fuel =>
    let acc := digit (n mod b) :: acc in
    if n <? b then acc else digits_loop fuel b (n / b) acc
  end.
Definition digits (b n : Z) : bytes := digits_loop 64 b n [].

(** [{}], [{:x}], [{:o}] of an unsigned integer, [{}] of a signed one. *)
Definition dec (n : Z) : bytes := digits 10 n.
Definition hex (n : Z) : bytes := digits 16 n.
Definition oct (n : Z) : bytes := digits 8 n.
Definition dec_signed (n : Z) : bytes := if n <? 0 then 45 :: dec (- n) else dec n.
(** [{:>w}]: spaces on the left up to [w] characters; the texts padded here
    are digits, one byte each. *)
Definition right (w : nat) (s : bytes) : bytes := replicate (w - length s) 32 ++ s.

Definition nl : bytes := [10].

(** ** [{:?}] *)

(** [Name { f: v, ... }] and the elements of an array. *)
Definition field (name : bytes) (v : Z) : bytes := name ++ str ": " ++ dec v.
Fixpoint sep_by (sep : bytes) (l : list bytes) : bytes :=
  match l with [] => [] | [x] => x | x :: l => x ++ sep ++ sep_by sep l end.
Definition struct_ (name : bytes) (fields : list bytes) : bytes :=
  name ++ str " { " ++ sep_by (str ", ") fields ++ str " }".
Definition array (l : bytes) : bytes := str "[" ++ sep_by (str ", ") (map dec l) ++ str "]".

Definition debug_fs (e : fs.FsError) : bytes :=
  match e with
  | fs.TooSmall => str "TooSmall"
  | fs.BadMagic => str "BadMagic"
  | fs.BadVersion => str "BadVersion"
  | fs.OutOfBounds => str "OutOfBounds"
  | fs.InvalidName => str "InvalidName"
  | fs.NotFound => str "NotFound"
  end.
Definition debug_elf (e : elf.ElfError) : bytes :=
  match e with
  | elf.TooSmall => str "TooSmall"
  | elf.BadMagic => str "BadMagic"
  | elf.UnsupportedClass => str "UnsupportedClass"
  | elf.UnsupportedEndian => str "UnsupportedEndian"
  | elf.UnsupportedMachine => str "UnsupportedMachine"
  | elf.BadHeader => str "BadHeader"
  end.
Definition debug_run (e : elf_runner.RunError) : bytes :=
  match e with
  | elf_runner.Parse e => str "Parse(" ++ debug_elf e ++ str ")"
  | elf_runner.NoLoadSegment => str "NoLoadSegment"
  | elf_runner.AddressOutOfRange => str "AddressOutOfRange"
  | elf_runner.UnsupportedComplexElf entry segments memory_size =>
    struct_ (str "UnsupportedComplexElf")
      [field (str "entry") entry; field (str "segments") segments; field (str "memory_size") memory_size]
  | elf_runner.UnsupportedInstruction rip bs =>
    struct_ (str "UnsupportedInstruction") [field (str "rip") rip; str "bytes: " ++ array bs]
  | elf_runner.StepLimit steps last_rip =>
    struct_ (str "StepLimit") [field (str "steps") steps; field (str "last_rip") last_rip]
  end.
Definition debug_native (e : native.NativeError) : bytes :=
  match e with
  | native.Parse e => str "Parse(" ++ debug_elf e ++ str ")"
  | native.NoLoadSegment => str "NoLoadSegment"
  | native.AddressOutOfRange => str "AddressOutOfRange"
  | native.FixedVaddrUnsupported min_vaddr e_type =>
    struct_ (str "FixedVaddrUnsupported") [field (str "min_vaddr") min_vaddr; field (str "e_type") e_type]
  | native.PagingUnavailable => str "PagingUnavailable"
  | native.PageNotMapped addr => struct_ (str "PageNotMapped") [field (str "addr") addr]
  | native.PageFlagUpdate addr => struct_ (str "PageFlagUpdate") [field (str "addr") addr]
  | native.UnsupportedComplexElf entry segments memory_size =>
    struct_ (str "UnsupportedComplexElf")
      [field (str "entry") entry; field (str "segments") segments; field (str "memory_size") memory_size]
  end.

(** ** Facts *)

(** The value of a text of digits. *)
Definition undigit (c : Z) : Z := if c <? 58 then c - 48 else c - 87.
Definition number (b : Z) (s : bytes) : Z := fold_left (fun a c => a * b + undigit c) s 0.
Definition is_digit (b c : Z) : Prop := exists d, 0 <= d < b /\ c = digit d.

Lemma undigit_digit d : 0 <= d < 16 -> undigit (digit d) = d.
Proof. intros. unfold undigit, digit. destruct (Z.ltb_spec d 10), (Z.ltb_spec (48 + d) 58), (Z.ltb_spec (87 + d) 58); lia. Qed.
Lemma is_digit_range b c : b <= 16 -> is_digit b c -> 48 <= c <= 57 \/ 97 <= c <= 102.
Proof. intros Hb (d & Hd & ->). unfold digit. destruct (Z.ltb_spec d 10); lia. Qed.
Lemma digits_loop_app fuel b n acc : digits_loop fuel b n acc = digits_loop fuel b n [] ++ acc.
Proof.
  revert n acc. induction fuel as [|fuel IH]; intros n acc; [done|]. cbn [digits_loop].
  destruct (n <? b); [done|]. by rewrite IH, (IH _ [_]), <-app_assoc.
Qed.
Lemma digits_loop_number fuel b n : 2 <= b <= 16 -> 0 <= n < b ^ Z.of_nat fuel -> fuel <> O ->
  number b (digits_loop fuel b n []) = n /\ Forall (is_digit b) (digits_loop fuel b n []) /\ digits_loop fuel b n [] <> [].
Proof.
  intros Hb. revert n. induction fuel as [|fuel IH]; intros n Hn Hf; [done|]. cbn [digits_loop].
  pose proof (Z.mod_pos_bound n b ltac:(lia)) as Hm.
  assert (is_digit b (digit (n mod b))) as Hd by (by exists (n mod b)).
  destruct (Z.ltb_spec n b).
  - split_and!; [|by repeat constructor|done]. unfold number. cbn [fold_left]. rewrite undigit_digit, Z.mod_small by lia. lia.
  - rewrite digits_loop_app. rewrite Nat2Z.inj_succ, Z.pow_succ_r in Hn by lia.
    assert (fuel <> O) as Hf' by (intros ->; cbn in Hn; lia).
    destruct (IH (n / b)) as (H1 & H2 & H3); [|done|].
    { split; [apply Z.div_pos; lia|]. apply Z.div_lt_upper_bound; lia. }
    split_and!; [|apply Forall_app; by repeat constructor|by destruct (digits_loop fuel b (n / b) [])].
    unfold number in *. rewrite fold_left_app, H1. cbn [fold_left]. rewrite undigit_digit by lia.
    pose proof (Z.div_mod n b ltac:(lia)). lia.
Qed.
Lemma digits_number b n : 2 <= b <= 16 -> is_u64 n ->
  number b (digits b n) = n /\ Forall (is_digit b) (digits b n) /\ digits b n <> [].
Proof.
  intros Hb Hn. apply digits_loop_number; [done| |done]. split; [apply Hn|].
  eapply Z.lt_le_trans; [apply Hn|]. apply Z.pow_le_mono_l. lia.
Qed.
Lemma right_lookup w s : exists k, right w s = replicate k 32 ++ s.
Proof. by eexists. Qed.
End fmt.
