(* ===== verification/Logger.v ===== *)
(** * The serial log (kernel/src/logger.rs)

    Messages go to the first serial port, byte by byte: the sender polls the
    line status until the transmitter is empty, then writes the byte.  The
    hardware is the list of the values that the next polls will read; what is
    written to the ports is kept in order. *)
From S2P Require Import Prelude Utf8 Kernel Shell.

Module logger.

Definition COM1 : Z := 0x3F8.
Record uart := mkUart { SERIAL_INIT : bool; ports : list (Z * Z); line_status : list Z }.
Definition U (A : Type) : Type := prog uart Empty_set A.

Definition outb (port value : Z) : U unit :=
  modify (fun u => mkUart (SERIAL_INIT u) (ports u ++ [(port, value)]) (line_status u)).
Definition serial_init : U unit :=
  outb (COM1 + 1) 0x00;;
  outb (COM1 + 3) 0x80;;
  outb (COM1 + 0) 0x03;;
  outb (COM1 + 1) 0x00;;
  outb (COM1 + 3) 0x03;;
  outb (COM1 + 2) 0xC7;;
  outb (COM1 + 4) 0x0B.
(** [while (inb(COM1 + 5) & 0x20) == 0 {}]; with no poll left it keeps spinning. *)
Fixpoint wait_empty (polls : list Z) : U unit :=
  match polls with
  | [] => stop Spinning
  | lsr :: polls =>
    modify (fun u => mkUart (SERIAL_INIT u) (ports u) polls);;
    if Z.land lsr 0x20 =? 0 then wait_empty polls else ret tt
  end.
Definition serial_write_byte (byte : Z) : U unit :=
  ls ← gets line_status; wait_empty ls;; outb COM1 byte.
Fixpoint write_bytes (s : bytes) : U unit :=
  match s with
  | [] => ret tt
  | b :: s =>
    (if b =? 10 then serial_write_byte 13 else ret tt);;
    serial_write_byte b;;
    write_bytes s
  end.
Definition serial_write (s : bytes) : U unit :=
  ready ← gets SERIAL_INIT;
  (if ready : bool then ret tt
   else serial_init;; modify (fun u => mkUart true (ports u) (line_status u)));;
  write_bytes s.

Inductive BootLevel := Ok_ | Warn | Fail_ | Info.
Definition boot_line `{shell.Screen St} (level : BootLevel) (msg : bytes) : prog St Empty_set unit :=
  shell.process (match level with
    | Ok_ => str "[  OK  ] " | Warn => str "[ WARN ] " | Fail_ => str "[ FAIL ] " | Info => str "[ .... ] " end);;
  shell.process msg;;
  shell.process [10].

(** ** Facts *)

Definition ready (lsr : Z) : bool := negb (Z.land lsr 0x20 =? 0).
(** The polls left once the transmitter was found empty [n] times. *)
Fixpoint consume (n : nat) (ls : list Z) : option (list Z) :=
  match n with
  | O => Some ls
  | S n =>
    (fix next ls := match ls with
      | [] => None
      | l :: ls => if ready l then consume n ls else next ls end) ls
  end.
Lemma consume_S n l ls : consume (S n) (l :: ls) = if ready l then consume n ls else consume (S n) ls.
Proof. done. Qed.
(** It comes to that when the polls are ready often enough. *)
Lemma consume_enough n ls : is_Some (consume n ls) <-> (n <= length (List.filter ready ls))%nat.
Proof.
  revert n. induction ls as [|l ls IH]; intros [|n].
  - split; [cbn; lia|by eexists].
  - split; [by intros []|cbn; lia].
  - split; [lia|by eexists].
  - rewrite consume_S. cbn [List.filter]. destruct (ready l); [|apply IH]. cbn [length]. rewrite IH. lia.
Qed.
Lemma consume_app n m ls : consume (n + m) ls = match consume n ls with Some ls => consume m ls | None => None end.
Proof.
  revert n. induction ls as [|l ls IH]; intros [|n]; try done. change (S n + m)%nat with (S (n + m)).
  rewrite !consume_S. destruct (ready l); [done|]. apply (IH (S n)).
Qed.

Definition init_sequence : list (Z * Z) :=
  [(0x3F9, 0); (0x3FB, 0x80); (0x3F8, 3); (0x3F9, 0); (0x3FB, 3); (0x3FA, 0xC7); (0x3FC, 0x0B)].
(** Line ends as the terminal at the other end wants them, and back. *)
Fixpoint crlf (s : bytes) : bytes :=
  match s with [] => [] | b :: s => (if b =? 10 then [13] else []) ++ b :: crlf s end.
Definition uncrlf (s : bytes) : bytes := List.filter (fun b => negb (b =? 13)) s.
Lemma uncrlf_crlf s : 13 ∉ s -> uncrlf (crlf s) = s.
Proof.
  induction s as [|b s IH]; [done|]. intros [Hb Hs]%not_elem_of_cons. cbn [crlf]. unfold uncrlf in *.
  rewrite List.filter_app. cbn [List.filter]. rewrite IH by done. replace (b =? 13) with false by lia. by destruct (b =? 10).
Qed.

Lemma wait_empty_eq ls b p ls0 : wait_empty ls (mkUart b p ls0) =
  match ls with [] => Halt Spinning | _ =>
  match consume 1 ls with Some rest => Done tt (mkUart b p rest) | None => Halt Spinning end end.
Proof.
  revert ls0. induction ls as [|l ls IH]; intros ls0; cbn [wait_empty]; [done|].
  rewrite consume_S. unfold ready. unfold modify, mbind, prog_bind. cbn [SERIAL_INIT ports].
  destruct (Z.land l 0x20 =? 0); cbn [negb]; [rewrite IH; by destruct ls|done].
Qed.
Lemma write_byte_eq c b p ls : serial_write_byte c (mkUart b p ls) =
  match consume 1 ls with Some rest => Done tt (mkUart b (p ++ [(COM1, c)]) rest) | None => Halt Spinning end.
Proof.
  unfold serial_write_byte, gets, mbind, prog_bind. cbn [line_status]. rewrite wait_empty_eq.
  destruct ls as [|l ls]; [done|]. by destruct (consume 1 (l :: ls)).
Qed.
Lemma write_bytes_eq s b p ls : write_bytes s (mkUart b p ls) =
  match consume (length (crlf s)) ls with
  | Some rest => Done tt (mkUart b (p ++ map (pair COM1) (crlf s)) rest)
  | None => Halt Spinning end.
Proof.
  revert p ls. induction s as [|c s IH]; intros p ls; cbn [write_bytes crlf length map]; [by rewrite app_nil_r|].
  rewrite length_app. cbn [length]. rewrite consume_app, map_app.
  destruct (c =? 10).
  - unfold mbind, prog_bind. rewrite write_byte_eq. cbn [length].
    destruct (consume 1 ls) as [ls1|]; [|done].
    change (S (length (crlf s))) with (1 + length (crlf s))%nat. rewrite consume_app, write_byte_eq.
    destruct (consume 1 ls1) as [ls2|]; [|done]. rewrite IH. by rewrite <-!app_assoc.
  - unfold mbind, prog_bind, ret. change (consume (length []) ls) with (Some ls). cbn iota.
    change (S (length (crlf s))) with (1 + length (crlf s))%nat. rewrite consume_app, write_byte_eq.
    destruct (consume 1 ls) as [ls2|]; [|done]. rewrite IH. by rewrite <-!app_assoc.
Qed.

(** C35: a message gets through.  If the transmitter becomes empty as often as
    the message has bytes, line feeds counted twice, [serial_write] ends, and
    it never ends otherwise; it has then sent the seven bytes that set up the
    port if no message was sent before, never again after that, and the text
    with a carriage return before each line feed, in order; the receiver gets
    the text back by dropping the carriage returns. *)
Theorem serial_write_completes s u :
  (if bool_decide (length (crlf s) <= length (List.filter ready (line_status u)))%nat then
    exists rest, consume (length (crlf s)) (line_status u) = Some rest /\
      serial_write s u = Done tt (mkUart true
        (ports u ++ (if SERIAL_INIT u then [] else init_sequence) ++ map (pair COM1) (crlf s)) rest)
   else serial_write s u = Halt Spinning) /\
  (13 ∉ s -> uncrlf (crlf s) = s).
Proof.
  split; [|apply uncrlf_crlf]. destruct u as [b p ls]. cbn [SERIAL_INIT ports line_status].
  assert (serial_write s (mkUart b p ls) = write_bytes s (mkUart true (p ++ if b then [] else init_sequence) ls)) as ->.
  { unfold serial_write, gets, mbind, prog_bind. cbn [SERIAL_INIT]. destruct b; [by rewrite app_nil_r|].
    unfold serial_init, outb, modify, mbind, prog_bind. cbn [SERIAL_INIT ports line_status]. by rewrite <-!app_assoc. }
  rewrite write_bytes_eq. pose proof (consume_enough (length (crlf s)) ls) as He.
  case_bool_decide as Hc.
  - apply He in Hc as [rest ->]. exists rest. by rewrite <-app_assoc.
  - destruct (consume (length (crlf s)) ls); [|done]. exfalso. apply Hc, He. by eexists.
Qed.
Lemma serial_write_completes_witness :
  serial_write [72; 10] (mkUart true [] [0; 0x60; 0x20; 0; 0x20; 1]) =
    Done tt (mkUart true [(0x3F8, 72); (0x3F8, 13); (0x3F8, 10)] [1]) /\ uncrlf [72; 13; 10] = [72; 10].
Proof.
  destruct (serial_write_completes [72; 10] (mkUart true [] [0; 0x60; 0x20; 0; 0x20; 1])) as [H1 H2].
  split; [|apply H2; by apply (bool_decide_unpack _)]. cbn in H1. destruct H1 as (rest & [= <-] & H1). exact H1.
Defined.
End logger.
