(* ===== verification/Traps.v ===== *)
(** * Exceptions (kernel/src/traps.rs)

    The interrupt descriptor table, which [init] fills and loads once, and the
    five handlers: each reports on the serial line, and all but the breakpoint
    halt the machine.  The table type is the x86_64 crate's; what the source
    sets of it are the five entries.  The state of a machine that has halted
    is kept here, because the report of a halting handler is its effect. *)
From S2P Require Import Prelude Utf8 Fs Kernel Fmt.

Module traps.
Import fmt.

Inductive Handler :=
| breakpoint_handler | invalid_opcode_handler | general_protection_fault_handler
| page_fault_handler | double_fault_handler.
Record InterruptDescriptorTable := mkIdt {
  breakpoint : option Handler; invalid_opcode : option Handler;
  general_protection_fault : option Handler; page_fault : option Handler; double_fault : option Handler }.
(** [idtr] is the table the processor uses. *)
Record traps := mkTraps {
  IDT : option InterruptDescriptorTable; IDT_READY : bool;
  idtr : option InterruptDescriptorTable; reports : list bytes }.
Definition boot_traps : traps := mkTraps None false None [].

(** A handler returns or halts the machine, in a state either way. *)
Inductive ending (A : Type) := Returned (a : A) (t : traps) | Halted (h : halt) (t : traps).
Arguments Returned {A} a t.
Arguments Halted {A} h t.
Definition T (A : Type) : Type := traps -> ending A.
#[export] Instance T_ret : MRet T := fun _ a t => Returned a t.
#[export] Instance T_bind : MBind T := fun _ _ f m t =>
  match m t with Returned a t => f a t | Halted h t => Halted h t end.
Definition ask {A} (f : traps -> A) : T A := fun t => Returned (f t) t.
Definition change (f : traps -> traps) : T unit := fun t => Returned tt (f t).

Definition with_report (msg : bytes) (t : traps) : traps := mkTraps (IDT t) (IDT_READY t) (idtr t) (reports t ++ [msg]).
Definition report (msg : bytes) : T unit := change (with_report msg).

Definition init : T unit :=
  ready ← ask IDT_READY;
  if ready : bool then mret tt else
  let idt := mkIdt None None None None None in
  let idt := mkIdt (Some breakpoint_handler) (invalid_opcode idt) (general_protection_fault idt) (page_fault idt) (double_fault idt) in
  let idt := mkIdt (breakpoint idt) (Some invalid_opcode_handler) (general_protection_fault idt) (page_fault idt) (double_fault idt) in
  let idt := mkIdt (breakpoint idt) (invalid_opcode idt) (Some general_protection_fault_handler) (page_fault idt) (double_fault idt) in
  let idt := mkIdt (breakpoint idt) (invalid_opcode idt) (general_protection_fault idt) (Some page_fault_handler) (double_fault idt) in
  let idt := mkIdt (breakpoint idt) (invalid_opcode idt) (general_protection_fault idt) (page_fault idt) (Some double_fault_handler) in
  change (fun t => mkTraps (Some idt) (IDT_READY t) (idtr t) (reports t));;
  idt_ref ← ask IDT;
  (match idt_ref with
   | Some idt => change (fun t => mkTraps (IDT t) (IDT_READY t) (Some idt) (reports t))
   | None => mret tt
   end);;
  change (fun t => mkTraps (IDT t) true (idtr t) (reports t));;
  report (str "[LeonOS3] traps: idt loaded" ++ nl).

Section Handlers.
(** The [{:?}] of the crate's [PageFaultErrorCode]. *)
Context (debug_code : Z -> bytes).

(** [halt_forever]. *)
Definition halt_forever : T unit := fun t => Halted Spinning t.
Definition message (h : Handler) (rip code cr2 : Z) : bytes :=
  str "[LeonOS3] trap: " ++
  match h with
  | breakpoint_handler => str "breakpoint rip=0x" ++ hex rip
  | invalid_opcode_handler => str "invalid opcode rip=0x" ++ hex rip
  | general_protection_fault_handler => str "gpf rip=0x" ++ hex rip ++ str " code=0x" ++ hex code
  | page_fault_handler => str "page fault rip=0x" ++ hex rip ++ str " cr2=0x" ++ hex cr2 ++ str " err=" ++ debug_code code
  | double_fault_handler => str "double fault rip=0x" ++ hex rip ++ str " code=0x" ++ hex code
  end ++ nl.
Definition handle (h : Handler) (rip code cr2 : Z) : T unit :=
  report (message h rip code cr2);;
  match h with breakpoint_handler => mret tt | _ => halt_forever end.

(** The processor raises exception [vec]: the entry of the loaded table. *)
Definition entry (t : InterruptDescriptorTable) (vec : Z) : option Handler :=
  if vec =? 3 then breakpoint t else if vec =? 6 then invalid_opcode t else
  if vec =? 8 then double_fault t else if vec =? 13 then general_protection_fault t else
  if vec =? 14 then page_fault t else None.

(** ** Facts *)

(** A value in a report: the digits after the first " key=0x". *)
Fixpoint after (p s : bytes) : bytes :=
  match strip_prefix p s with
  | Some rest => rest
  | None => match s with [] => [] | _ :: s => after p s end
  end.
Definition hex_char (c : Z) : bool := in_range 48 57 c || in_range 97 102 c.
Fixpoint hex_prefix (s : bytes) : bytes :=
  match s with [] => [] | c :: s => if hex_char c then c :: hex_prefix s else [] end.
Definition field (key msg : bytes) : Z := number 16 (hex_prefix (after (str " " ++ key ++ str "=0x") msg)).
(** What the report of a handler begins with. *)
Definition name_of (h : Handler) : bytes :=
  str "[LeonOS3] trap: " ++
  match h with
  | breakpoint_handler => str "breakpoint "
  | invalid_opcode_handler => str "invalid opcode "
  | general_protection_fault_handler => str "gpf "
  | page_fault_handler => str "page fault "
  | double_fault_handler => str "double fault "
  end.
(** [msg] tells everything the handler [h] knows. *)
Definition tells (h : Handler) (rip code cr2 : Z) (msg : bytes) : Prop :=
  (exists rest, msg = name_of h ++ rest) /\ field (str "rip") msg = rip /\
  match h return Prop with
  | breakpoint_handler | invalid_opcode_handler => True
  | general_protection_fault_handler | double_fault_handler => field (str "code") msg = code
  | page_fault_handler => field (str "cr2") msg = cr2 /\ after (str " err=") msg = debug_code code ++ nl
  end.

Lemma hex_prefix_digits ds rest c : Forall (is_digit 16) ds -> hex_char c = false -> hex_prefix (ds ++ c :: rest) = ds.
Proof.
  intros Hds Hc. induction Hds as [|d ds Hd _ IH]; cbn; [by rewrite Hc|].
  apply is_digit_range in Hd; [|lia]. unfold hex_char, in_range at 1 2.
  replace (_ || _) with true by lia. by rewrite IH.
Qed.
Lemma hex_value v rest c : is_u64 v -> hex_char c = false -> number 16 (hex_prefix (hex v ++ c :: rest)) = v.
Proof.
  intros Hv Hc. destruct (digits_number 16 v) as (Hn & Hd & _); [lia|done|]. unfold hex. by rewrite hex_prefix_digits.
Qed.
(** A marker is not found among the digits of a number. *)
Lemma after_digits c p ds rest : hex_char c = false -> Forall (is_digit 16) ds -> after (c :: p) (ds ++ rest) = after (c :: p) rest.
Proof.
  intros Hc Hds. induction Hds as [|d ds Hd _ IH]; [done|]. cbn [app after strip_prefix].
  assert (c <> d) as Hcd.
  { intros ->. apply is_digit_range in Hd; [|lia]. unfold hex_char, in_range in Hc. lia. }
  rewrite (proj2 (Z.eqb_neq c d)) by done. exact IH.
Qed.
Lemma after_hex c p v rest : hex_char c = false -> is_u64 v -> after (c :: p) (hex v ++ rest) = after (c :: p) rest.
Proof. intros Hc Hv. destruct (digits_number 16 v) as (_ & Hd & _); [lia|done|]. by apply after_digits. Qed.
(** ** Facts *)

Lemma message_tells h rip code cr2 : is_u64 rip -> is_u64 code -> is_u64 cr2 -> tells h rip code cr2 (message h rip code cr2).
Proof.
  intros Hr Hc H2.
  assert (forall p rest, after (32 :: p) (hex rip ++ rest) = after (32 :: p) rest) as Hrip by (intros; by apply after_hex).
  assert (forall p rest, after (32 :: p) (hex cr2 ++ rest) = after (32 :: p) rest) as Hcr2 by (intros; by apply after_hex).
  assert (forall rest c, hex_char c = false -> number 16 (hex_prefix (hex rip ++ c :: rest)) = rip) as Vr by (intros; by apply hex_value).
  assert (forall rest c, hex_char c = false -> number 16 (hex_prefix (hex code ++ c :: rest)) = code) as Vc by (intros; by apply hex_value).
  assert (forall rest c, hex_char c = false -> number 16 (hex_prefix (hex cr2 ++ c :: rest)) = cr2) as V2 by (intros; by apply hex_value).
  unfold tells, message, field, name_of. revert Hrip Hcr2 Vr Vc V2.
  generalize (hex rip) (hex code) (hex cr2) (debug_code code). intros dr dc d2 de Hrip Hcr2 Vr Vc V2.
  repeat match goal with |- context [str ?s] => let v := eval vm_compute in (str s) in change (str s) with v end.
  unfold nl. destruct h; (split; [by eexists|]);
    rewrite <-?app_assoc; cbn [app]; rewrite <-?app_assoc; cbn [app]; repeat (cbn [after strip_prefix Z.eqb Pos.eqb]; rewrite ?Hrip, ?Hcr2);
    (split; [by apply Vr|]); first [done | by apply Vc | by split; [apply V2|]].
Qed.

(** [init] called [n] times. *)
Fixpoint inits (n : nat) : T unit := match n with O => mret tt | S n => init;; inits n end.
Lemma inits_ready n t : IDT_READY t = true -> inits n t = Returned tt t.
Proof.
  intros Ht. induction n as [|n IH]; [done|]. cbn [inits]. unfold init, ask, mbind, T_bind. by rewrite Ht.
Qed.

(** C36: exceptions are reported.  However often [init] is called after boot,
    the table is built, loaded and announced once.  After that each of the
    five exceptions the kernel expects finds its own handler.  Every handler,
    the halting ones too, adds exactly one report to the serial line and
    changes nothing else; the report names the exception, and the faulting
    instruction, the error code of a general protection or double fault, and
    the address and error code of a page fault can be read back from it.  A
    breakpoint returns to the program, and every other exception halts the
    machine. *)
Theorem traps_report n :
  exists t, inits (S n) boot_traps = Returned tt t /\ reports t = [str "[LeonOS3] traps: idt loaded" ++ nl] /\
  IDT_READY t = true /\ idtr t = IDT t /\
  exists table, idtr t = Some table /\
    map (entry table) [3; 6; 8; 13; 14] = map Some [breakpoint_handler; invalid_opcode_handler; double_fault_handler;
      general_protection_fault_handler; page_fault_handler] /\
    forall vec h rip code cr2 u, entry table vec = Some h -> is_u64 rip -> is_u64 code -> is_u64 cr2 ->
      exists msg, tells h rip code cr2 msg /\
        let u' := mkTraps (IDT u) (IDT_READY u) (idtr u) (reports u ++ [msg]) in
        handle h rip code cr2 u = if vec =? 3 then Returned tt u' else Halted Spinning u'.
Proof.
  eexists. split; [cbn [inits]; unfold mbind at 1, T_bind at 1; change (init boot_traps) with
    (Returned tt (mkTraps (Some (mkIdt (Some breakpoint_handler) (Some invalid_opcode_handler)
      (Some general_protection_fault_handler) (Some page_fault_handler) (Some double_fault_handler))) true
      (Some (mkIdt (Some breakpoint_handler) (Some invalid_opcode_handler)
      (Some general_protection_fault_handler) (Some page_fault_handler) (Some double_fault_handler)))
      [str "[LeonOS3] traps: idt loaded" ++ nl])); by apply inits_ready|].
  split_and!; try done. eexists. split_and!; try done. intros vec h rip code cr2 u He Hr Hc H2.
  exists (message h rip code cr2). split; [by apply message_tells|]. cbv zeta. unfold entry in He.
  destruct (Z.eqb_spec vec 3); [by injection He as <-|]. revert He.
  repeat (case_match; [by intros [= <-]|]). done.
Qed.
End Handlers.

Lemma traps_report_witness :
  exists t msg, inits 2 boot_traps = Returned tt t /\ tells (fun _ => []) page_fault_handler 0xdead 2 0x10 msg /\
  handle (fun _ => []) page_fault_handler 0xdead 2 0x10 t =
      Halted Spinning (mkTraps (IDT t) (IDT_READY t) (idtr t) [str "[LeonOS3] traps: idt loaded" ++ nl; msg]).
Proof.
  destruct (traps_report (fun _ => []) 1) as (t & Hi & Hrep & _ & _ & table & _ & He & Hh).
  assert (entry table 14 = Some page_fault_handler) as Hp by (by injection He).
  destruct (Hh 14 page_fault_handler 0xdead 2 0x10 t Hp) as (msg & Hm & Hd); [unfold is_u64; lia..|].
  exists t, msg. rewrite Hrep in Hd. by split.
Defined.
End traps.
