(* ===== verification/System.v ===== *)
(** * The running system (kernel/src/main.rs, kernel/src/native_runner.rs)

    The statics that outlive a command, and the native runner from end to end:
    the model-specific registers of the [syscall] instruction, the loader of
    Native.v, the page tables, and the program itself.  The instructions of a
    native program are executed by the processor; the kernel sees its loads,
    its stores and its system calls. *)
From stdpp Require Import gmap.
From S2P Require Import Prelude Utf8 Alloc Kernel Syscall Machine Native Shell Traps Console.

Module system.
Import shell.

(** ** The machine underneath *)

(** What a program does: accesses to memory and system calls, each with what
    follows it; or it faults or never ends.  A system call has the stack
    pointer and the bytes that the stub and the compiled functions it calls
    leave below it (NativeStub.v: saved registers, return address, frame), and
    tells if the callee-saved registers hold what they held when the program
    was entered, which matters when it is the last. *)
Inductive behaviour :=
| Load (a n : Z) (next : bytes -> behaviour)
| Store (a : Z) (bs : bytes) (next : behaviour)
| Syscall (kept : bool) (rsp : Z) (pushed : bytes) (nr a0 a1 a2 a3 a4 : Z) (next : Z -> behaviour)
| Hang (h : halt).

(** The x86_64 crate's page tables, as in Native.v, the address at which the
    allocator places the vector of an image, the address of the system
    call stub, and the behaviour of a loaded program: the memory the loader
    filled, the entry point and the stack pointer. *)
Class Hardware := {
  PT : Type;
  translate : PT -> Z -> option Z;
  update_flags : PT -> Z -> Z -> option PT;
  defined_flags : Z;
  pages_of : Z -> Z -> list Z;
  virt_ok : Z -> bool;
  place : elf_runner.world -> bytes -> Z;
  syscall_entry : Z;
  program : bytes -> Z -> Z -> behaviour }.

(** The registers that [init_syscall_path] writes: EFER, the two selectors of
    STAR, LSTAR and SFMASK. *)
Record Msrs := mkMsrs { efer : Z; star : Z * Z; lstar : Z; sfmask : Z }.

Section System.
Context `{Hardware}.

Record sys := mkSys {
  wld : elf_runner.world;
  RAMDISK_INFO : option (Z * Z);          (* addr and len *)
  PHYSICAL_MEMORY_OFFSET : option Z;
  SYSCALL_READY : bool;
  msrs : Msrs;
  tables : PT;
  idt : traps.traps;                      (* with the messages of serial_write *)
  heap : allocator.BumpAllocator;
  display : option (console.FrameBufferInfo * bytes) }.
Definition with_wld (w : elf_runner.world) (s : sys) : sys :=
  mkSys w (RAMDISK_INFO s) (PHYSICAL_MEMORY_OFFSET s) (SYSCALL_READY s) (msrs s) (tables s) (idt s) (heap s) (display s).
Definition with_ready (m : Msrs) (s : sys) : sys :=
  mkSys (wld s) (RAMDISK_INFO s) (PHYSICAL_MEMORY_OFFSET s) true m (tables s) (idt s) (heap s) (display s).
Definition with_tables (pt : PT) (s : sys) : sys :=
  mkSys (wld s) (RAMDISK_INFO s) (PHYSICAL_MEMORY_OFFSET s) (SYSCALL_READY s) (msrs s) pt (idt s) (heap s) (display s).
Definition with_ramdisk (i : option (Z * Z)) (s : sys) : sys :=
  mkSys (wld s) i (PHYSICAL_MEMORY_OFFSET s) (SYSCALL_READY s) (msrs s) (tables s) (idt s) (heap s) (display s).
Definition with_offset (o : option Z) (s : sys) : sys :=
  mkSys (wld s) (RAMDISK_INFO s) o (SYSCALL_READY s) (msrs s) (tables s) (idt s) (heap s) (display s).
Definition with_heap (h : allocator.BumpAllocator) (s : sys) : sys :=
  mkSys (wld s) (RAMDISK_INFO s) (PHYSICAL_MEMORY_OFFSET s) (SYSCALL_READY s) (msrs s) (tables s) (idt s) h (display s).
Definition with_idt (t : traps.traps) (s : sys) : sys :=
  mkSys (wld s) (RAMDISK_INFO s) (PHYSICAL_MEMORY_OFFSET s) (SYSCALL_READY s) (msrs s) (tables s) t (heap s) (display s).
Definition with_display (d : option (console.FrameBufferInfo * bytes)) (s : sys) : sys :=
  mkSys (wld s) (RAMDISK_INFO s) (PHYSICAL_MEMORY_OFFSET s) (SYSCALL_READY s) (msrs s) (tables s) (idt s) (heap s) d.

#[export, refine] Instance sys_screen : Screen sys := {|
  kern s := elf_runner.kern (wld s); term s := elf_runner.term (wld s);
  put k t s := with_wld (elf_runner.mkWorld k t) s |}.
Proof. all: try done. by intros [[] ? ? ? ? ? ? ? ?]. Defined.

Definition M (A : Type) : Type := prog sys Empty_set A.
(** A computation on the kernel, and the [Result] of one of the interpreter. *)
Definition kernel_call {A} (m : K A) : M A := fun s =>
  match m (kern s) with
  | Done a k => Done a (put k (term s) s)
  | Fail e _ => match e with end
  | Halt h => Halt h
  end.
Definition interpreter_call {A} (m : elf_runner.W A) : M (elf_runner.RunError + A) := fun s =>
  match m (wld s) with
  | Done a w => Done (inr a) (with_wld w s)
  | Fail e w => Done (inl e) (with_wld w s)
  | Halt h => Halt h
  end.
Definition traps_call (m : traps.T unit) : M unit := fun s =>
  match m (idt s) with
  | traps.Returned _ t => Done tt (with_idt t s)
  | traps.Halted h _ => Halt h
  end.
(** [serial_write]; Logger.v has what it does to the port. *)
Definition serial (msg : bytes) : M unit := traps_call (traps.report msg).

(** ** Running a native program *)

(** The step messages on the serial line are left out. *)
Definition KERNEL_CS : Z := 0x08.
Definition init_syscall_path : M unit :=
  ready ← gets SYSCALL_READY;
  if ready : bool then ret tt else
  modify (fun s => with_ready (mkMsrs (Z.lor (efer (msrs s)) 1) (0x13, KERNEL_CS) syscall_entry 0x200) s).

Definition set_physical_memory_offset (offset : Z) : M unit := modify (with_offset (Some offset)).

(** The processor between [leonos3_native_enter] and the return: the stub of
    NativeStub.v sends exit and exit_group to [native_mark_exit], every other
    number to [native_syscall_dispatch].  An exit goes back to Rust code that
    relies on its callee-saved registers, which the stub does not restore:
    when the program has changed one, what that code does is no longer what
    its source says ([Clobbered]). *)
Definition on_stack (rsp : Z) (pushed : bytes) : native.N unit :=
  native.ncall (store (rsp - zlen pushed) pushed).
Fixpoint execute (b : behaviour) : native.N unit :=
  match b with
  | Load a n next => bs ← native.ncall (load a n); execute (next bs)
  | Store a bs next => native.ncall (store a bs);; execute next
  | Syscall kept rsp pushed nr a0 a1 a2 a3 a4 next =>
    on_stack rsp pushed;;
    if (nr =? SYS_EXIT) || (nr =? SYS_EXIT_GROUP) then
      native.native_mark_exit a0;;
      if kept then ret tt else stop Clobbered
    else v ← native.native_syscall_dispatch nr a0 a1 a2 a3 a4; execute (next v)
  | Hang h => stop h
  end.
(** [OUT_FN] and [OUT_CTX] lead to the terminal while the program runs. *)
Definition native_enter (b : behaviour) : M unit := fun s =>
  match execute b (native.mkNative (kern s) true (term s)) with
  | Done _ n => Done tt (put (native.nk n) (native.shown n) s)
  | Fail e _ => match e with end
  | Halt h => Halt h
  end.

Definition run_native_elf_with_args (image : bytes) (argv envp : list bytes)
    : M (native.NativeError + unit) :=
  init_syscall_path;;
  w ← gets wld;
  let runtime_base := place w image in
  match native.load_native runtime_base image argv envp with
  | Panic => stop Panicked
  | Err e => ret (inl e)
  | Ok (mem, entry, user_rsp) =>
    kernel_call (store runtime_base mem);;
    off ← gets PHYSICAL_MEMORY_OFFSET;
    pt ← gets tables;
    let '(pt, r) := native.ensure_region_executable translate update_flags defined_flags
      pages_of virt_ok off pt runtime_base (zlen mem) in
    modify (with_tables pt);;
    match r with
    | Panic => stop Panicked
    | Err e => ret (inl e)
    | Ok _ =>
      kernel_call (mark_exit_code 0);;
      native_enter (program mem entry user_rsp);;
      ret (inr tt)
    end
  end.
End System.
Arguments M {_} A.
End system.
