(* ===== verification/Commands.v ===== *)
(** * The commands of the shell (kernel/src/main.rs)

    [handle_custom_command] and what it prints.  A [write!] is one text handed
    to the terminal; the pieces in which the formatter delivers it are not
    told apart. *)
From stdpp Require Import gmap.
From S2P Require Import Prelude Utf8 Fs Elf Kernel Syscall Machine Elfrun Native Shell System Fmt.

Module commands.
Import shell system fmt.

(** ** Splitting a string at white space *)

Definition chars (s : bytes) : list bytes := default [] (utf8_chars s).
Fixpoint take_while {A} (f : A -> bool) (l : list A) : list A :=
  match l with [] => [] | x :: l => if f x then x :: take_while f l else [] end.
(** [s.splitn(2, char::is_whitespace)]: the first piece, and the second or "". *)
Definition splitn2 (s : bytes) : bytes * bytes :=
  let word c := negb (is_whitespace c) in
  (concat (take_while word (chars s)), concat (tail (drop_while word (chars s)))).
(** [s.split_whitespace()]; [cur] is the word in progress. *)
Fixpoint words_of (cs : list bytes) (cur : bytes) : list bytes :=
  match cs with
  | [] => if bool_decide (cur = []) then [] else [cur]
  | c :: cs =>
    if is_whitespace c then (if bool_decide (cur = []) then [] else [cur]) ++ words_of cs []
    else words_of cs (cur ++ c)
  end.
Definition split_whitespace (s : bytes) : list bytes := words_of (chars s) [].

Definition supported_syscalls_hint : bytes := str
  "read, write, close, dup/dup2, brk, mmap, mprotect, munmap, rt_sigaction, rt_sigprocmask, ioctl, getpid/gettid, exit/exit_group, wait4(min), arch_prctl, futex, clock_gettime/gettimeofday, uname, uid/gid, getcwd/chdir, access/faccessat, readlink/readlinkat, openat, fstat/newfstatat, lseek, getdents64, getrandom, prlimit64, set_robust_list".

Section Commands.
Context `{Hardware}.
(** Kernel stack frames for nested interpreted programs, and the address of
    the buffer each uses to read, as in Elfrun.v. *)
Context (depth : nat) (tmp_ptr : nat -> Z).

(** [ramdisk_bytes]: the slice is read when it is used. *)
Definition ramdisk_bytes : M (option bytes) :=
  rd ← gets RAMDISK_INFO;
  match rd with
  | None => ret None
  | Some (addr, len) => bs ← kernel_call (load addr len); ret (Some bs)
  end.
(** [if let Some(bytes) = ramdisk_bytes() { f } else { missing }]. *)
Definition with_image (f : bytes -> M unit) (missing : M unit) : M unit :=
  o ← ramdisk_bytes;
  match o with Some image => f image | None => missing end.
(** [match m { Ok(a) => f, Err(e) => g }]. *)
Definition on_result {E A} (m : outcome E A) (f : A -> M unit) (g : E -> M unit) : M unit :=
  match m with Ok a => f a | Err e => g e | Panic => stop Panicked end.

Definition cmd_ramdisk : M unit :=
  rd ← gets RAMDISK_INFO;
  match rd with
  | None => process (str "ramdisk: not loaded" ++ nl)
  | Some (addr, len) =>
    process (str "ramdisk: addr=0x" ++ hex addr ++ str ", len=" ++ dec len ++ str " bytes" ++ nl);;
    with_image (fun image =>
      on_result (fs.header image)
        (fun h => kernel_call (set_rootfs (addr, len));;
          process (str "rootfs: files=" ++ dec (fs.file_count h) ++ nl))
        (fun e => process (str "rootfs: invalid (" ++ debug_fs e ++ str ")" ++ nl)))
      (ret tt)
  end.

Definition ls_line (rec : fs.FileRecord) : bytes :=
  right 6 (oct (fs.mode rec)) ++ str " " ++ right 8 (dec (zlen (fs.data rec))) ++ str " " ++ fs.name rec ++ nl.
(** [fs::list] calls the closure, which writes to the terminal, in order. *)
Definition cmd_ls : M unit :=
  with_image (fun image => fun s =>
    match fs.list (fun t rec => t ++ [ls_line rec]) image (term s) with
    | (t, r) =>
      on_result r (fun _ => ret tt)
        (fun e => process (str "ls: fs error: " ++ debug_fs e ++ nl)) (put (kern s) t s)
    end)
    (process (str "ls: ramdisk not loaded" ++ nl)).

Definition cmd_stat (name : bytes) : M unit :=
  with_image (fun image =>
    on_result (fs.open image (trim name))
      (fun rec => process (str "name=" ++ fs.name rec ++ str " size=" ++ dec (zlen (fs.data rec)) ++
        str " mode=" ++ oct (fs.mode rec) ++ nl))
      (fun e => process (str "stat: " ++ debug_fs e ++ nl)))
    (process (str "stat: ramdisk not loaded" ++ nl)).

Definition sanitize (b : Z) : Z := if (b =? 10) || (b =? 13) || in_range 0x20 0x7e b then b else 46.
Fixpoint cat_loop (data : bytes) : M unit :=
  match data with
  | [] => ret tt
  | b :: data =>
    (if (b =? 10) || (b =? 13) || in_range 0x20 0x7e b then process [b] else process (str "."));;
    cat_loop data
  end.
Definition cmd_cat (name : bytes) : M unit :=
  with_image (fun image =>
    on_result (fs.open image (trim name))
      (fun rec => cat_loop (fs.data rec);; process nl)
      (fun e => process (str "cat: " ++ debug_fs e ++ nl)))
    (process (str "cat: ramdisk not loaded" ++ nl)).

Definition cmd_posix : M unit :=
  '(pid, brk) ← kernel_call posix_snapshot;
  process (str "posix: pid=" ++ dec pid ++ str ", brk=0x" ++ hex brk ++ nl).
Definition cmd_syscall : M unit :=
  pid ← kernel_call (dispatch SYS_GETPID 0 0 0 0 0 0);
  brk ← kernel_call (dispatch SYS_BRK 0 0 0 0 0 0);
  mm ← kernel_call (dispatch SYS_MMAP 0 0x3000 0 0 0 0);
  open ← kernel_call (dispatch SYS_OPENAT u64_max 1 0 0 0 0);
  process (str "syscall getpid=" ++ dec_signed pid ++ str " brk=0x" ++ hex (of_i64 brk) ++
    str " mmap=0x" ++ hex (of_i64 mm) ++ str " openat=" ++ dec_signed open ++ nl).
Definition cmd_busybox : M unit :=
  process (str "busybox status: pre-boot compatibility mode" ++ nl);;
  process (str "syscalls: " ++ supported_syscalls_hint ++ nl);;
  process (str "missing: execve/fork/wait4/pipe/tty ioctl/procfs" ++ nl).
Definition cmd_syscap : M unit := process (str "syscap: " ++ supported_syscalls_hint ++ nl).

Definition elf_target (cmd : bytes) : option bytes :=
  match strip_prefix (str "elf ") cmd with
  | Some name => Some (trim name)
  | None => if bool_decide (cmd = str "elf") then Some (str "hello_world") else None
  end.
Fixpoint elf_segments (idx : Z) (segs : list elf.LoadSegment) : M unit :=
  match segs with
  | [] => ret tt
  | seg :: segs =>
    process (str "  [" ++ dec idx ++ str "] vaddr=0x" ++ hex (elf.vaddr seg) ++ str " mem=0x" ++ hex (elf.mem_size seg) ++
      str " file_off=0x" ++ hex (elf.file_offset seg) ++ str " file_sz=0x" ++ hex (elf.file_size seg) ++
      str " flags=0x" ++ hex (elf.flags seg) ++ nl);;
    elf_segments (idx + 1) segs
  end.
Definition cmd_elf (name : bytes) : M unit :=
  with_image (fun image =>
    on_result (fs.open image name)
      (fun rec => on_result (elf.parse_elf64 (fs.data rec))
        (fun img =>
          process (str "elf " ++ name ++ str ": entry=0x" ++ hex (elf.img_entry img) ++
            str ", load_segments=" ++ dec (zlen (elf.segments img)) ++ nl);;
          elf_segments 0 (elf.segments img))
        (fun err => process (str "elf: parse error: " ++ debug_elf err ++ nl)))
      (fun e => process (str "elf: " ++ debug_fs e ++ nl)))
    (process (str "elf: ramdisk not loaded" ++ nl)).

Definition run_target (cmd : bytes) : option (bytes * bytes) :=
  match strip_prefix (str "run ") cmd with
  | Some rest =>
    let '(name, args) := splitn2 (trim rest) in
    let name := trim name in
    let args := trim args in
    if bool_decide (name = []) then None else Some (name, args)
  | None => if bool_decide (cmd = str "runelf") then Some (str "hello_world", []) else None
  end.
(** [run {} {}: ]. *)
Definition run_tag (name args : bytes) : bytes := str "run " ++ name ++ str " " ++ args ++ str ": ".
Definition run_exited (name args suffix : bytes) : M unit :=
  code ← kernel_call last_exit_code;
  process (nl ++ run_tag name args ++ str "exited with code " ++ dec_signed code ++ suffix ++ nl).
Definition run_program (name args data : bytes) : M unit :=
  let argv := name :: split_whitespace args in
  serial (str "[LeonOS3] native start " ++ name ++ str " " ++ args ++ nl);;
  r ← run_native_elf_with_args data argv [];
  match r with
  | inr _ => run_exited name args []
  | inl (native.FixedVaddrUnsupported _ _) =>
    serial (str "[LeonOS3] native fixed-vaddr fallback to interpreter: " ++ name ++ str " " ++ args ++ nl);;
    r ← interpreter_call (elf_run.run_linux_elf_with_args tmp_ptr depth data argv []);
    match r with
    | inr _ => run_exited name args (str " (interp)")
    | inl err =>
      process (run_tag name args ++ str "failed: " ++ debug_run err ++ nl);;
      serial (str "[LeonOS3] run " ++ name ++ str " " ++ args ++ str " interpreter failed: " ++ debug_run err ++ nl)
    end
  | inl err =>
    process (run_tag name args ++ str "failed: " ++ debug_native err ++ nl);;
    serial (str "[LeonOS3] run " ++ name ++ str " " ++ args ++ str " failed: " ++ debug_native err ++ nl)
  end.
Definition cmd_run (name args : bytes) : M unit :=
  with_image (fun image =>
    on_result (fs.open image name)
      (fun rec => run_program name args (fs.data rec))
      (fun e => process (str "run: " ++ debug_fs e ++ nl)))
    (ret tt).

(** The last [else] belongs to [if let Some((name, args)) = run_target]. *)
Definition handle_custom_command (cmd : bytes) : M bool :=
  if bool_decide (cmd = str "ramdisk") then cmd_ramdisk;; ret true else
  if bool_decide (cmd = str "ls") then cmd_ls;; ret true else
  match strip_prefix (str "stat ") cmd with Some name => cmd_stat name;; ret true | None =>
  match strip_prefix (str "cat ") cmd with Some name => cmd_cat name;; ret true | None =>
  if bool_decide (cmd = str "posix") then cmd_posix;; ret true else
  if bool_decide (cmd = str "syscall") then cmd_syscall;; ret true else
  if bool_decide (cmd = str "busybox") then cmd_busybox;; ret true else
  if bool_decide (cmd = str "syscap") then cmd_syscap;; ret true else
  match elf_target cmd with Some name => cmd_elf name;; ret true | None =>
  match run_target cmd with
  | Some (name, args) => cmd_run name args;; ret true
  | None => process (str "run: ramdisk not loaded" ++ nl);; ret true
  end end end end.
End Commands.
End commands.
