(* ===== verification/CommandsSpec.v ===== *)
(** * What the commands print

    The effect of the commands of Commands.v on the terminal: every line is
    handled, a listing determines the files it lists, [cat] shows a file. *)
From stdpp Require Import gmap.
From S2P Require Import Prelude Utf8 Fs Elf Alloc Kernel Syscall SyscallInv Loader Machine Elfrun Native Shell Traps System Fmt Commands.

Module commands_spec.
Import shell system fmt commands.

Section Facts.
Context `{Hardware}.
Context (depth : nat) (tmp_ptr : nat -> Z).

(** ** Effects on the terminal alone *)

Definition showed (ts : list bytes) (s : sys) : sys := put (kern s) (term s ++ ts) s.
Lemma showed_nil s : showed [] s = s.
Proof. unfold showed. by rewrite app_nil_r, put_same. Qed.
Lemma showed_showed a b s : showed b (showed a s) = showed (a ++ b) s.
Proof. unfold showed. by rewrite kern_put, term_put, put_put, app_assoc. Qed.
Lemma process_showed bs s : process bs s = Done tt (showed [bs] s).
Proof. done. Qed.

(** The ramdisk is in memory and holds [image]. *)
Definition mounted (image : bytes) (s : sys) : Prop := exists addr,
  RAMDISK_INFO s = Some (addr, zlen image) /\ mem_read (mem (kern s)) addr (length image) = inl image.
Lemma with_image_mounted image f g s : mounted image s -> with_image f g s = f image s.
Proof.
  intros (addr & Hr & Hm). unfold with_image, ramdisk_bytes. run_prog. rewrite Hr.
  unfold kernel_call, load, zlen. rewrite Nat2Z.id. rewrite Hm. by rewrite put_same.
Qed.
Lemma with_image_none f g s : RAMDISK_INFO s = None -> with_image f g s = g s.
Proof. intros Hr. unfold with_image, ramdisk_bytes. run_prog. by rewrite Hr. Qed.

(** ** Listings *)

Lemma foldl_snoc_map {A B} (f : A -> B) l t : foldl (fun t x => t ++ [f x]) t l = t ++ map f l.
Proof. revert t. induction l as [|x l IH]; intros t; cbn; [by rewrite app_nil_r|]. by rewrite IH, <-app_assoc. Qed.
Lemma cmd_ls_files image recs s : mounted image s -> fs.files_of image = Ok recs ->
  cmd_ls s = Done tt (showed (map ls_line recs) s).
Proof.
  intros Hm (h & Hh & Hrecs)%bind_Ok. unfold cmd_ls. rewrite (with_image_mounted image) by done.
  unfold fs.list. rewrite Hh, (fs.list_loop_read_entries _ _ _ _ _ _ Hrecs). cbn [on_result]. unfold ret, showed.
  by rewrite foldl_snoc_map.
Qed.

(** Reading a line of a listing: the mode, the size and the name. *)
Definition word (s : bytes) : bytes * bytes :=
  (take_while (fun c => negb (c =? 32)) s, drop_while (fun c => negb (c =? 32)) s).
Definition skip_spaces (s : bytes) : bytes := drop_while (Z.eqb 32) s.
Definition read_ls_line (s : bytes) : option (Z * Z * bytes) :=
  let '(m, r) := word (skip_spaces s) in
  let '(n, r) := word (skip_spaces r) in
  match r with _ :: r => Some (number 8 m, number 10 n, removelast r) | [] => None end.

Lemma word_digits b ds r : b <= 16 -> Forall (is_digit b) ds -> word (ds ++ 32 :: r) = (ds, 32 :: r).
Proof.
  intros Hb Hds. unfold word. induction Hds as [|d ds Hd _ IH]; [done|]. injection IH as IH1 IH2.
  apply is_digit_range in Hd; [|done]. cbn. replace (d =? 32) with false by lia. cbn. by rewrite IH1, IH2.
Qed.
Lemma skip_spaces_right b w ds r : b <= 16 -> Forall (is_digit b) ds -> ds <> [] ->
  skip_spaces (right w ds ++ r) = ds ++ r.
Proof.
  intros Hb Hds Hne. destruct (right_lookup w ds) as [k ->]. rewrite <-app_assoc. unfold skip_spaces.
  induction k as [|k IH]; cbn [replicate app drop_while]; [|exact IH].
  destruct Hds as [|d ds Hd _]; [done|]. apply is_digit_range in Hd; [|done].
  cbn [app drop_while]. by replace (32 =? d) with false by lia.
Qed.
Lemma read_ls_line_back rec : is_u64 (fs.mode rec) -> is_u64 (zlen (fs.data rec)) ->
  read_ls_line (ls_line rec) = Some (fs.mode rec, zlen (fs.data rec), fs.name rec).
Proof.
  intros Hm Hd. destruct (digits_number 8 (fs.mode rec)) as (Hn8 & Hd8 & Hz8); [lia|done|].
  destruct (digits_number 10 (zlen (fs.data rec))) as (Hn10 & Hd10 & Hz10); [lia|done|].
  unfold read_ls_line, ls_line. rewrite (skip_spaces_right 8) by done. change (str " ") with [32].
  cbn [app]. rewrite (word_digits 8) by done.
  change (skip_spaces (32 :: ?l)) with (skip_spaces l).
  rewrite (skip_spaces_right 10) by done. rewrite (word_digits 10) by done.
  unfold oct, dec in *. rewrite Hn8, Hn10. do 2 f_equal. apply removelast_last.
Qed.

(** ** [cat] *)

Lemma cat_loop_showed data s : cat_loop data s = Done tt (showed (map (fun b => [sanitize b]) data) s).
Proof.
  revert s. induction data as [|b data IH]; intros s; cbn [cat_loop map]; [by rewrite showed_nil|].
  unfold mbind, prog_bind. unfold sanitize at 1.
  destruct ((b =? 10) || (b =? 13) || in_range 0x20 0x7e b); rewrite process_showed, IH, showed_showed; done.
Qed.
(** What [cat] lets through unchanged. *)
Definition printable (b : Z) : Prop := b = 10 \/ b = 13 \/ 0x20 <= b <= 0x7e.
Lemma sanitize_printable b : printable (sanitize b) /\ (printable b -> sanitize b = b).
Proof.
  unfold sanitize, printable, in_range.
  destruct ((b =? 10) || (b =? 13) || ((0x20 <=? b) && (b <=? 0x7e))) eqn:Hb; [split; [lia|done]|split; lia].
Qed.

(** ** Every line is handled *)

(** The names the handler knows. *)
Definition known (cmd : bytes) : bool :=
  existsb (fun c => bool_decide (cmd = c)) [str "ramdisk"; str "ls"; str "posix"; str "syscall"; str "busybox"; str "syscap"]
  || existsb (fun p => bool_decide (is_Some (strip_prefix p cmd))) [str "stat "; str "cat "]
  || bool_decide (is_Some (elf_target cmd)) || bool_decide (is_Some (run_target cmd)).
Lemma handled_true (m : M unit) s : match (m;; ret true) s with Done b _ => b = true | Fail _ _ => False | Halt _ => True end.
Proof. unfold mbind, prog_bind. by destruct (m s) as [[] s'|[]|h]. Qed.
Lemma handle_true cmd s :
  match handle_custom_command depth tmp_ptr cmd s with Done b _ => b = true | Fail _ _ => False | Halt _ => True end.
Proof.
  unfold handle_custom_command.
  repeat first [apply handled_true | match goal with
    | |- context [bool_decide ?p] => destruct (bool_decide p)
    | |- context [strip_prefix ?p ?c] => destruct (strip_prefix p c)
    | |- context [elf_target ?c] => destruct (elf_target c)
    | |- context [run_target ?c] => destruct (run_target c) as [[]|] end].
Qed.
Lemma handle_unknown cmd s : known cmd = false ->
  handle_custom_command depth tmp_ptr cmd s = Done true (showed [str "run: ramdisk not loaded" ++ nl] s).
Proof.
  unfold known. cbn [existsb]. rewrite !orb_false_iff, !bool_decide_eq_false, <-!eq_None_not_Some.
  intros ((((H1 & H2 & H3 & H4 & H5 & H6 & _) & (H7 & H8 & _)) & H9) & H10). unfold handle_custom_command.
  rewrite !bool_decide_false by done. by rewrite H7, H8, H9, H10.
Qed.

(** The commands the shell runs itself. *)
Definition builtin (cmd : bytes) : bool :=
  existsb (fun c => bool_decide (cmd = c)) [[]; str "help"; str "about"; str "clear"; str "halt"; str "echo"]
  || bool_decide (is_Some (strip_prefix (str "echo ") cmd)).
Lemma exec_not_builtin input s : builtin (trim input) = false ->
  exec_command (handle_custom_command depth tmp_ptr) input s =
  (handle_custom_command depth tmp_ptr (trim input);; ret tt) s.
Proof.
  unfold builtin. cbn [existsb]. rewrite !orb_false_iff, !bool_decide_eq_false, <-!eq_None_not_Some.
  intros ((H1 & H2 & H3 & H4 & H5 & H6 & _) & H7). unfold exec_command. rewrite !bool_decide_false by done. rewrite H7.
  unfold mbind, prog_bind. pose proof (handle_true (trim input) s) as Hh.
  destruct (handle_custom_command _ _ _ s) as [b s'|e s'|h]; [by subst b|done|done].
Qed.

(** C31: no line is ever an unknown command.  Whatever is typed, the handler
    of main.rs answers [true] if it answers at all, so for a line that is not
    one of its own commands the shell does what the handler does and nothing
    else: it never prints "unknown command".  A line that names no command
    prints "run: ramdisk not loaded", whether or not there is a ramdisk, and
    "run" of a program when there is no ramdisk prints nothing. *)
Theorem commands_always_handled input s :
  match handle_custom_command depth tmp_ptr input s with Done b _ => b = true | Fail _ _ => False | Halt _ => True end /\
  (builtin (trim input) = false ->
    exec_command (handle_custom_command depth tmp_ptr) input s = (handle_custom_command depth tmp_ptr (trim input);; ret tt) s) /\
  (known input = false -> handle_custom_command depth tmp_ptr input s =
    Done true (showed [str "run: ramdisk not loaded" ++ nl] s)) /\
  (is_Some (run_target (str "run " ++ input)) -> RAMDISK_INFO s = None ->
    handle_custom_command depth tmp_ptr (str "run " ++ input) s = Done true s).
Proof.
  split_and!; [apply handle_true|apply exec_not_builtin|apply handle_unknown|].
  intros [[name args] Hr] Hi. unfold handle_custom_command.
  rewrite !bool_decide_false by done.
  change (strip_prefix (str "stat ") (str "run " ++ input)) with (@None bytes).
  change (strip_prefix (str "cat ") (str "run " ++ input)) with (@None bytes).
  change (elf_target (str "run " ++ input)) with (@None bytes). rewrite Hr.
  unfold cmd_run, mbind, prog_bind. by rewrite with_image_none.
Qed.

(** C32: a listing tells the directory.  With a ramdisk in memory whose
    entries all decode, [ls] prints one line per file, in order, and each line
    reads back as the mode, the size and the name of its file; two ramdisks
    that list alike have the same directories. *)
Theorem ls_round_trip image recs s :
  bytes_ok image -> zlen image <= i64_max -> mounted image s -> fs.files_of image = Ok recs ->
  exists lines, handle_custom_command depth tmp_ptr (str "ls") s = Done true (showed lines s) /\
    map read_ls_line lines = map (fun rec => Some (fs.mode rec, zlen (fs.data rec), fs.name rec)) recs.
Proof.
  intros Hok Hl Hm Hf. exists (map ls_line recs). split.
  - unfold handle_custom_command. rewrite bool_decide_false, bool_decide_true by done.
    unfold mbind, prog_bind. by rewrite (cmd_ls_files image recs).
  - rewrite map_map. apply map_ext_in. intros rec Hin%list_elem_of_In.
    pose proof (fs.files_of_ok image recs Hok Hf) as Hr. rewrite Forall_forall in Hr.
    destruct (Hr rec) as (Ho & Hd & _ & _ & _ & _ & Hmode); [by apply list_elem_of_In|].
    pose proof (zlen_nonneg (fs.data rec)). apply read_ls_line_back; ilia.
Qed.

Lemma cat_open image name s : mounted image s ->
  handle_custom_command depth tmp_ptr (str "cat " ++ name) s =
  match fs.open image (trim name) with
  | Ok rec => Done true (showed (map (fun b => [sanitize b]) (fs.data rec) ++ [nl]) s)
  | Err e => Done true (showed [str "cat: " ++ debug_fs e ++ nl] s)
  | Panic => Halt Panicked
  end.
Proof.
  intros Hm. unfold handle_custom_command. rewrite !bool_decide_false by done.
  change (strip_prefix (str "stat ") (str "cat " ++ name)) with (@None bytes).
  change (strip_prefix (str "cat ") (str "cat " ++ name)) with (Some name).
  unfold cmd_cat, mbind, prog_bind. rewrite (with_image_mounted image) by done.
  destruct (fs.open image (trim name)) as [rec|e|]; cbn [on_result]; [|by rewrite process_showed|done].
  unfold mbind, prog_bind. by rewrite cat_loop_showed, process_showed, showed_showed.
Qed.
Lemma sanitized_text data : concat (map (fun b => [sanitize b]) data ++ [nl]) = map sanitize data ++ [10].
Proof. rewrite concat_app. f_equal. induction data as [|b d IH]; cbn; [done|]. by rewrite IH. Qed.
Lemma sanitize_text data : Forall printable data -> map sanitize data = data.
Proof. induction 1 as [|b d Hb _ IH]; cbn; [done|]. by rewrite IH, (proj2 (sanitize_printable b)). Qed.

(** C33: [cat] shows a file.  With a ramdisk in memory, [cat name] prints the
    bytes of the file [name] one by one and a newline, with a dot for every
    byte that is neither printable ASCII nor a line break; a text is shown as
    it is.  A name that is not there, or a damaged directory, prints the error. *)
Theorem cat_prints_file image name s :
  mounted image s -> bytes_ok image ->
  exists shown_, handle_custom_command depth tmp_ptr (str "cat " ++ name) s = Done true (showed shown_ s) /\
    match fs.open image (trim name) with
    | Ok rec => concat shown_ = map sanitize (fs.data rec) ++ [10] /\ Forall printable (concat shown_) /\
        (Forall printable (fs.data rec) -> concat shown_ = fs.data rec ++ [10])
    | Err e => concat shown_ = str "cat: " ++ debug_fs e ++ [10]
    | Panic => False
    end.
Proof.
  intros Hm Hok. pose proof (fs_open_no_panic image (trim name) Hok) as Hp. rewrite (cat_open image) by done.
  destruct (fs.open image (trim name)) as [rec|e|]; [| |done]; eexists; (split; [reflexivity|]).
  - rewrite sanitized_text. split_and!; [done| |intros Ht; by rewrite sanitize_text].
    apply Forall_app. split; [|constructor; [by left|constructor]]. apply Forall_map, Forall_true.
    intros b. apply sanitize_printable.
  - cbn [concat]. by rewrite app_nil_r.
Qed.

(** ** [run] *)

(** Equal but for the serial log and the registers of the system call path. *)
Definition same_world (s s' : sys) : Prop :=
  wld s' = wld s /\ RAMDISK_INFO s' = RAMDISK_INFO s /\ tables s' = tables s /\ heap s' = heap s.
Lemma handle_run rest name args s : run_target (str "run " ++ rest) = Some (name, args) ->
  handle_custom_command depth tmp_ptr (str "run " ++ rest) s = (cmd_run depth tmp_ptr name args;; ret true) s.
Proof.
  intros Hr. unfold handle_custom_command. rewrite !bool_decide_false by done.
  change (strip_prefix (str "stat ") (str "run " ++ rest)) with (@None bytes).
  change (strip_prefix (str "cat ") (str "run " ++ rest)) with (@None bytes).
  change (elf_target (str "run " ++ rest)) with (@None bytes). by rewrite Hr.
Qed.
(** The native runner refuses before it touches the kernel. *)
Lemma native_refuses data argv e s :
  (forall base, native.load_native base data argv [] = Err e) ->
  exists s', run_native_elf_with_args data argv [] s = Done (inl e) s' /\ same_world s s'.
Proof.
  intros He. unfold run_native_elf_with_args, init_syscall_path. run_prog.
  destruct (SYSCALL_READY s); cbn [wld with_ready]; rewrite He; eexists; (split; [reflexivity|]); by split_and!.
Qed.
Lemma fixed_refused data argv img : elf.parse_elf64 data = Ok img -> elf.segments img <> [] -> elf.img_e_type img = 2 ->
  exists lo, forall base, native.load_native base data argv [] = Err (native.FixedVaddrUnsupported lo 2).
Proof.
  intros Hp Hs He. destruct (vaddr_range (elf.segments img)) as [lo hi] eqn:Hv. exists lo. intros base.
  unfold native.load_native. rewrite Hp. cbn [map_err mbind outcome_bind]. rewrite bool_decide_false, Hv, He by done. done.
Qed.

(** C40: [run] falls back and reports.  A program linked at fixed addresses is
    never run natively: the interpreter runs it on the kernel as it was, with
    the name and the words of the line as arguments, and the last line printed
    tells its exit code or its error.  A file that is no executable prints the
    parser's error and leaves the kernel alone, and so does a name that is not
    in the directory. *)
Theorem run_reports image rest name args s :
  mounted image s -> run_target (str "run " ++ rest) = Some (name, args) ->
  let run := handle_custom_command depth tmp_ptr (str "run " ++ rest) s in
  match fs.open image name with
  | Ok rec =>
    (forall img, elf.parse_elf64 (fs.data rec) = Ok img -> elf.segments img <> [] -> elf.img_e_type img = 2 ->
      match elf_run.run_linux_elf_with_args tmp_ptr depth (fs.data rec) (name :: split_whitespace args) [] (wld s) with
      | Done _ w => exists s', run = Done true s' /\ kern s' = elf_runner.kern w /\
          term s' = elf_runner.term w ++ [nl ++ run_tag name args ++ str "exited with code " ++
            dec_signed (LAST_EXIT (elf_runner.kern w)) ++ str " (interp)" ++ nl]
      | Fail e w => exists s', run = Done true s' /\ kern s' = elf_runner.kern w /\
          term s' = elf_runner.term w ++ [run_tag name args ++ str "failed: " ++ debug_run e ++ nl]
      | Halt h => run = Halt h
      end) /\
    (forall e, elf.parse_elf64 (fs.data rec) = Err e -> exists s', run = Done true s' /\ kern s' = kern s /\
      term s' = term s ++ [run_tag name args ++ str "failed: " ++ debug_native (native.Parse e) ++ nl])
  | Err e => run = Done true (showed [str "run: " ++ debug_fs e ++ nl] s)
  | Panic => run = Halt Panicked
  end.
Proof.
  intros Hm Hr run. assert (run = match fs.open image name with
    | Ok rec => match run_program depth tmp_ptr name args (fs.data rec) s with
      | Done _ s' => Done true s' | Fail e s' => Fail e s' | Halt h => Halt h end
    | Err e => Done true (showed [str "run: " ++ debug_fs e ++ nl] s)
    | Panic => Halt Panicked end) as Hrun.
  { subst run. rewrite (handle_run rest name args) by done. unfold cmd_run, mbind, prog_bind.
    rewrite (with_image_mounted image) by done. by destruct (fs.open image name). }
  clearbody run. subst run. destruct (fs.open image name) as [rec|e|]; [|done..].
  set (s1 := with_idt (traps.mkTraps (traps.IDT (idt s)) (traps.IDT_READY (idt s)) (traps.idtr (idt s))
    (traps.reports (idt s) ++ [str "[LeonOS3] native start " ++ name ++ str " " ++ args ++ nl])) s).
  assert (run_program depth tmp_ptr name args (fs.data rec) s = match run_native_elf_with_args (fs.data rec) (name :: split_whitespace args) [] s1 with
    | Done r s2 => match r with
      | inr _ => run_exited name args []
      | inl (native.FixedVaddrUnsupported _ _) =>
        serial (str "[LeonOS3] native fixed-vaddr fallback to interpreter: " ++ name ++ str " " ++ args ++ nl);;
        r ← interpreter_call (elf_run.run_linux_elf_with_args tmp_ptr depth (fs.data rec) (name :: split_whitespace args) []);
        match r with
        | inr _ => run_exited name args (str " (interp)")
        | inl err =>
          process (run_tag name args ++ str "failed: " ++ debug_run err ++ nl);;
          serial (str "[LeonOS3] run " ++ name ++ str " " ++ args ++ str " interpreter failed: " ++ debug_run err ++ nl)
        end
      | inl err =>
        process (run_tag name args ++ str "failed: " ++ debug_native err ++ nl);;
        serial (str "[LeonOS3] run " ++ name ++ str " " ++ args ++ str " failed: " ++ debug_native err ++ nl)
      end s2
    | Fail e s2 => Fail e s2 | Halt h => Halt h end) as -> by done.
  split.
  - intros img Hp Hs Ht. destruct (fixed_refused (fs.data rec) (name :: split_whitespace args) img Hp Hs Ht) as [lo Hlo].
    destruct (native_refuses _ _ _ s1 Hlo) as (s2 & -> & Hw & _).
    unfold mbind, prog_bind, serial, traps_call, interpreter_call, traps.report, traps.change. cbn [wld with_idt]. rewrite Hw.
    change (wld s1) with (wld s).
    destruct (elf_run.run_linux_elf_with_args _ _ _ _ _ (wld s)) as [[] w|e w|h]; [| |done]; eexists; (split; [reflexivity|]); by split.
  - intros e Hp. assert (forall base, native.load_native base (fs.data rec) (name :: split_whitespace args) [] = Err (native.Parse e)) as He.
    { intros base. unfold native.load_native. by rewrite Hp. }
    destruct (native_refuses _ _ _ s1 He) as (s2 & -> & Hw & _).
    unfold mbind, prog_bind. eexists. split; [reflexivity|]. cbn. rewrite Hw. by split.
Qed.
End Facts.

(** *** A machine for the concrete instances

    Every page is mapped and executable, and a program exits at once. *)
#[export] Instance sample_hardware : Hardware := {|
  PT := unit; translate _ _ := Some 1; update_flags pt _ _ := Some pt; defined_flags := 1;
  pages_of a _ := [a]; virt_ok _ := true; place _ _ := 0x100000; syscall_entry := 0x8000;
  program _ _ rsp := Syscall true rsp [] SYS_EXIT 0 0 0 0 0 (fun _ => Hang Spinning) |}.
Definition sample_sys (i : option (Z * Z)) : sys :=
  mkSys (elf_runner.mkWorld sample_kernel []) i (Some 0) false (mkMsrs 0 (0, 0) 0 0) tt traps.boot_traps allocator.new None.
Lemma sample_mounted : mounted fs.sample_image (sample_sys sample_root).
Proof. exists 0x8000. split; vm_compute; reflexivity. Qed.

Lemma commands_always_handled_witness :
  handle_custom_command 0 (fun _ => 0) (str "foo") (sample_sys sample_root) =
    Done true (showed [str "run: ramdisk not loaded" ++ nl] (sample_sys sample_root)) /\
  handle_custom_command 0 (fun _ => 0) (str "run sh -c ls") (sample_sys None) = Done true (sample_sys None).
Proof.
  split.
  - apply (commands_always_handled 0 (fun _ => 0) (str "foo") (sample_sys sample_root)). reflexivity.
  - apply (commands_always_handled 0 (fun _ => 0) (str "sh -c ls") (sample_sys None)); [|reflexivity].
    eexists. vm_compute. reflexivity.
Defined.
Lemma ls_round_trip_witness :
  exists lines, handle_custom_command 0 (fun _ => 0) (str "ls") (sample_sys sample_root) =
      Done true (showed lines (sample_sys sample_root)) /\
    map read_ls_line lines = [Some (33188, 3, str "motd")].
Proof.
  apply (ls_round_trip 0 (fun _ => 0) fs.sample_image [fs.sample_record] (sample_sys sample_root) fs.sample_image_ok);
    [vm_compute; congruence|exact sample_mounted|reflexivity].
Defined.
Lemma cat_prints_file_witness :
  exists shown_, handle_custom_command 0 (fun _ => 0) (str "cat " ++ str " motd") (sample_sys sample_root) =
      Done true (showed shown_ (sample_sys sample_root)) /\ concat shown_ = str "Hi!" ++ [10].
Proof.
  destruct (cat_prints_file 0 (fun _ => 0) fs.sample_image (str " motd") (sample_sys sample_root)
    sample_mounted fs.sample_image_ok) as (sh & Hs & Hc).
  exists sh. split; [exact Hs|].
  assert (fs.open fs.sample_image (trim (str " motd")) = Ok fs.sample_record) as Ho by reflexivity.
  rewrite Ho in Hc. exact (proj1 Hc).
Defined.
Lemma run_reports_witness :
  exists s', handle_custom_command 0 (fun _ => 0) (str "run " ++ str "motd -x") (sample_sys sample_root) = Done true s' /\
    kern s' = sample_kernel /\ term s' = [str "run motd -x: failed: Parse(TooSmall)" ++ nl].
Proof.
  pose proof (run_reports 0 (fun _ => 0) fs.sample_image (str "motd -x") (str "motd") (str "-x") (sample_sys sample_root)
    sample_mounted ltac:(reflexivity)) as Hr. cbv zeta in Hr.
  assert (fs.open fs.sample_image (str "motd") = Ok fs.sample_record) as Ho by reflexivity. rewrite Ho in Hr.
  destruct Hr as [_ Hp]. destruct (Hp elf.TooSmall) as (s' & H1 & H2 & H3); [reflexivity|].
  exists s'. split_and!; [exact H1|exact H2|exact H3].
Defined.
End commands_spec.
