(* ===== verification/SystemInv.v ===== *)
(** * The system as a whole stays well formed

    The shell, its commands, interpreted programs and native programs run on
    one kernel state.  This file composes the invariants of the parts.  What
    it says is about the memory that Kernel.v models: a program that reaches
    for the kernel's own statics, code or stack, which the machine does not
    prevent, ends the modelled run there ([Outside]). *)
From stdpp Require Import gmap.
From S2P Require Import Prelude Utf8 Fs Elf Kernel Posix Syscall SyscallInv SyscallFrame SyscallMem UserMem Loader Machine.
From S2P Require Import Elfrun ElfrunFrame ElfrunInv.
From S2P Require Import Native NativeInv Shell System Fmt Commands CommandsSpec.

Module system_inv.
Import shell system fmt commands elf_inv.
#[local] Existing Instance native_inv.on_nk_preorder.

(** ** Native programs *)

(** A program whose registers are 64-bit words and whose stores are bytes. *)
Fixpoint behaves (b : behaviour) : Prop :=
  match b with
  | Load a n next => 0 <= n /\ forall bs, bytes_ok bs -> behaves (next bs)
  | Store a bs next => bytes_ok bs /\ behaves next
  | Syscall _ _ pushed nr a0 a1 a2 a3 a4 next => bytes_ok pushed /\
      (is_u64 a0 /\ is_u64 a1 /\ is_u64 a2 /\ is_u64 a3) /\ forall v, is_u64 v -> behaves (next v)
  | Hang _ => True
  end.

Section Native.
Context (r : option (Z * Z)).
(** As [safeK] of ElfrunInv.v: a panic is allowed.  No memory is unmapped. *)
Definition safeN {A} (m : native.N A) (phi : A -> Prop) : Prop := forall s, wf r (native.nk s) ->
  match m s with
  | Done a s' => phi a /\ wf r (native.nk s') /\ native_inv.on_nk anywhere s s'
  | Fail _ _ => False
  | Halt _ => True
  end.
Lemma safeN_ncall {A} (m : K A) phi : safeK r m phi -> writes anywhere m -> safeN (native.ncall m) phi.
Proof.
  intros Hm Hw s Hs. specialize (Hm _ Hs). specialize (Hw (native.nk s)). unfold native.ncall.
  destruct (m (native.nk s)) as [a k|[]|h]; [|done]. destruct Hm. by split_and!.
Qed.
Lemma safeN_nkeeps {A} (m : native.N A) phi :
  native_inv.nkeeps r m phi -> evolves (native_inv.on_nk anywhere) m -> safeN m phi.
Proof.
  intros Hm He s Hs. specialize (Hm s Hs). specialize (He s). destruct (m s) as [a k|[]|h]; [|done].
  destruct_and!. by split_and!.
Qed.
Lemma safeN_ret {A} (a : A) (phi : A -> Prop) : phi a -> safeN (ret a) phi.
Proof. intros ? s Hs. split_and!; [done|done|reflexivity]. Qed.
Lemma safeN_stop {A} h (phi : A -> Prop) : safeN (stop h) phi.
Proof. by intros s Hs. Qed.
Lemma safeN_bind {A B} (m : native.N A) (f : A -> native.N B) (phi : A -> Prop) (psi : B -> Prop) :
  safeN m phi -> (forall a, phi a -> safeN (f a) psi) -> safeN (m ≫= f) psi.
Proof.
  intros Hm Hf s Hs. specialize (Hm s Hs). unfold mbind, prog_bind.
  destruct (m s) as [a s'|e s'|h]; [|done..]. destruct Hm as (Ha & Hs' & Ho). specialize (Hf a Ha s' Hs').
  destruct (f a s') as [b s2|[]|h]; [|done]. destruct Hf as (Hb & Hs2 & Ho2). split_and!; [done|done|by etrans].
Qed.
Lemma safeN_then {A B} (m : native.N A) (k : native.N B) (psi : B -> Prop) :
  safeN m (fun _ => True) -> safeN k psi -> safeN (m;; k) psi.
Proof. intros Hm Hk. eapply safeN_bind; [exact Hm|]. by intros _ _. Qed.
Lemma safeN_load a n : 0 <= n -> safeN (native.ncall (load a n)) bytes_ok.
Proof.
  intros Hn. apply safeN_ncall; [|apply writes_quiet; auto with frame]. apply safeK_keeps.
  eapply keeps_weaken; [by apply keeps_load|]. by intros bs [_ ?].
Qed.
Lemma safeN_store a bs : bytes_ok bs -> safeN (native.ncall (store a bs)) (fun _ => True).
Proof. intros Hb. apply safeN_ncall; [by apply safeK_keeps, keeps_store|by apply writes_store]. Qed.
Lemma safeN_mark_exit code : safeN (native.native_mark_exit code) (fun _ => True).
Proof. apply safeN_ncall; [apply safeK_mark_exit|apply writes_quiet; auto with frame]. Qed.
Lemma safeN_dispatch nr a0 a1 a2 a3 a4 : is_u64 a0 -> is_u64 a1 -> is_u64 a2 -> is_u64 a3 ->
  safeN (native.native_syscall_dispatch nr a0 a1 a2 a3 a4) is_u64.
Proof.
  intros H0 H1 H2 H3. unfold native.native_syscall_dispatch.
  assert (safeN (v ← native.ncall (dispatch nr a0 a1 a2 a3 a4 0); ret (of_i64 v)) is_u64) as Hpass.
  { eapply safeN_bind; [apply safeN_ncall; [by apply safeK_dispatch|apply writes_dispatch_anywhere]|].
    intros v _. apply safeN_ret. unfold of_i64, is_u64. by apply Z.mod_pos_bound. }
  branch as Hw.
  - branch as Ht; [|exact Hpass].
    eapply (safeN_bind _ _ (fun _ => True)); [intros s Hs; split_and!; [done|done|reflexivity]|]. intros writer _.
    apply safeN_then; [|by apply safeN_ret]. destruct writer; [|by apply safeN_ret].
    unfold native.term_write_impl. branch as Hz; [by apply safeN_ret|].
    eapply safeN_bind; [apply safeN_load; apply H2|]. intros bs _ s Hs.
    split_and!; [done|done|]. unfold native_inv.on_nk. cbn. reflexivity.
  - branch as Hr; [|exact Hpass]. branch as Hz; [|exact Hpass]. branch as Hn; [apply safeN_ret; ilia|].
    apply safeN_nkeeps; [apply native_inv.nkeeps_read_line; ilia|by apply native_inv.native_read_line_within].
Qed.
Lemma safeN_execute b : behaves b -> safeN (execute b) (fun _ => True).
Proof.
  induction b as [a n next IH|a bs b IH|kept rsp pushed nr a0 a1 a2 a3 a4 next IH|h]; cbn [behaves execute]; intros Hb.
  - destruct Hb as [Hn Hb]. eapply safeN_bind; [by apply safeN_load|]. auto.
  - destruct Hb as [Hbs Hb]. apply safeN_then; [by apply safeN_store|auto].
  - destruct Hb as (Hp & (H0 & H1 & H2 & H3) & Hb). apply safeN_then; [by apply safeN_store|].
    branch as He; [apply safeN_then; [apply safeN_mark_exit|]; destruct kept; [by apply safeN_ret|apply safeN_stop]|].
    eapply safeN_bind; [by apply safeN_dispatch|]. auto.
  - apply safeN_stop.
Qed.
End Native.

(** The vector of a native program holds bytes. *)
Lemma load_native_bytes base image argv envp mem entry rsp :
  0 <= base -> bytes_ok image -> zlen image <= i64_max -> Forall bytes_ok argv -> Forall bytes_ok envp ->
  native.load_native base image argv envp = Ok (mem, entry, rsp) -> bytes_ok mem.
Proof.
  intros Hb Hi Hlen Ha He. unfold native.load_native.
  intros (img & Hp%map_err_Ok & H)%bind_Ok. destruct (elf.parse_elf64_ok _ _ Hi Hp) as [Hent Hsegs].
  case_bool_decide; [done|]. pose proof (vaddr_range_spec _ Hsegs) as Hr.
  destruct (vaddr_range (elf.segments img)) as [lo hi]. destruct Hr as (Hlo & Hhi & Hall).
  branch as Hty in H; [done|]. branch as H1 in H; [done|]. cbv zeta in H. branch as H2 in H; [done|].
  apply orb_false_iff in H2 as [H2 _]. unfold native.MAX_NATIVE_MEM in H2.
  apply bind_Ok in H as (total & [-> Ht]%ok_or_Ok%checked_add_Some & H). unfold native.STACK_SIZE in *.
  apply bind_Ok in H as (m1 & Hc & H).
  apply copy_segments_Ok in Hc as (_ & Hb1 & _); [|done|rewrite zlen_zreplicate; ilia|done|].
  2: { revert Hall. apply Forall_impl. tauto. }
  apply bind_Ok in H as (tp & _ & H). apply bind_Ok in H as (top & _ & H).
  apply bind_Ok in H as ([sp m2] & Hst & H).
  assert (bytes_ok m2) as Hm2.
  { eapply build_initial_stack_bytes; [exact Ha|exact He| |exact Hst]. apply Hb1; [done|]. apply bytes_ok_zreplicate; ilia. }
  apply bind_Ok in H as (off & _ & H). apply bind_Ok in H as (ent & _ & H). apply bind_Ok in H as (idx & _ & H).
  apply bind_Ok in H as (pre & _ & H). by injection H as <- _ _.
Qed.

(** *** Pieces of a byte string are byte strings *)
Lemma chars_bytes s : bytes_ok s -> Forall bytes_ok (chars s).
Proof.
  intros Hs. unfold chars. destruct (utf8_chars s) as [cs|] eqn:Hc; [|constructor].
  apply utf8_chars_concat in Hc as <-. by apply concat_Forall.
Qed.
Lemma take_while_Forall {A} (P : A -> Prop) f l : Forall P l -> Forall P (take_while f l).
Proof. induction 1 as [|x l Hx _ IH]; cbn; [constructor|]. destruct (f x); by constructor. Qed.
Lemma tail_Forall {A} (P : A -> Prop) l : Forall P l -> Forall P (tail l).
Proof. intros []; [constructor|done]. Qed.
Lemma splitn2_bytes s : bytes_ok s -> bytes_ok (splitn2 s).1 /\ bytes_ok (splitn2 s).2.
Proof.
  intros Hs%chars_bytes. unfold splitn2. cbn [fst snd]. split; apply concat_Forall; [by apply take_while_Forall|].
  by apply tail_Forall, drop_while_Forall.
Qed.
Lemma words_bytes cs : Forall bytes_ok cs -> forall cur, bytes_ok cur -> Forall bytes_ok (words_of cs cur).
Proof.
  induction 1 as [|c cs Hc _ IH]; intros cur Hcur; cbn [words_of]; [case_bool_decide; by repeat constructor|].
  destruct (is_whitespace c); [|by apply IH, bytes_ok_app].
  apply Forall_app. split; [case_bool_decide; by repeat constructor|]. apply IH; constructor.
Qed.
Lemma run_target_bytes cmd name args : bytes_ok cmd -> run_target cmd = Some (name, args) ->
  bytes_ok name /\ Forall bytes_ok (split_whitespace args).
Proof.
  intros Hc. assert (forall s, bytes_ok s -> Forall bytes_ok (split_whitespace s)) as Hw.
  { intros s Hs. apply words_bytes; [by apply chars_bytes|constructor]. }
  unfold run_target. destruct (strip_prefix (str "run ") cmd) as [rest|] eqn:Hr.
  - apply strip_prefix_Some in Hr as ->. apply bytes_ok_app in Hc as [_ Hc].
    destruct (splitn2_bytes (trim rest)) as [H1 H2]; [by apply trim_Forall|].
    destruct (splitn2 (trim rest)) as [n a]. case_bool_decide; [done|]. intros [= <- <-].
    split; [by apply trim_Forall|]. by apply Hw, trim_Forall.
  - case_bool_decide; [|done]. intros [= <- <-]. split; [|constructor]. by apply (bool_decide_unpack _).
Qed.

(** ** The system *)

Section System.
Context `{Hardware}.
Context (depth : nat) (tmp_ptr : nat -> Z) (tmp_ok : forall d, is_u64 (tmp_ptr d)).
Context (place_ok : forall w image, 0 <= place w image).
Context (program_ok : forall mem entry rsp, bytes_ok mem -> behaves (program mem entry rsp)).
(** The ramdisk the boot loader passed, if any. *)
Context (info : option (Z * Z)).

(** The ramdisk is mapped memory; the kernel is well formed, with the ramdisk
    mounted or with nothing mounted, as after a boot with an invalid one. *)
Definition sys_ok (s : sys) : Prop :=
  RAMDISK_INFO s = info /\ rootfs_ok info (mem (kern s)) /\ (wf info (kern s) \/ wf None (kern s)).
Definition safeM {A} (m : M A) (phi : A -> Prop) : Prop := forall s, sys_ok s ->
  match m s with Done a s' => phi a /\ sys_ok s' | Fail _ _ => False | Halt _ => True end.
Lemma rootfs_ok_mono m m' : rootfs_ok info m -> (forall x, is_Some (m !! x) -> is_Some (m' !! x)) -> rootfs_ok info m'.
Proof. unfold rootfs_ok, mapped. destruct info as [[a n]|]; [|done]. naive_solver. Qed.

Lemma safeM_ret {A} (a : A) (phi : A -> Prop) : phi a -> safeM (ret a) phi.
Proof. by intros ? s Hs. Qed.
Lemma safeM_stop {A} h (phi : A -> Prop) : safeM (stop h) phi.
Proof. by intros s Hs. Qed.
Lemma safeM_bind {A B} (m : M A) (f : A -> M B) (phi : A -> Prop) (psi : B -> Prop) :
  safeM m phi -> (forall a, phi a -> safeM (f a) psi) -> safeM (m ≫= f) psi.
Proof.
  intros Hm Hf s Hs. specialize (Hm s Hs). unfold mbind, prog_bind.
  destruct (m s) as [a s'|e s'|h]; [|done..]. destruct Hm. by apply Hf.
Qed.
Lemma safeM_then {A B} (m : M A) (k : M B) (psi : B -> Prop) :
  safeM m (fun _ => True) -> safeM k psi -> safeM (m;; k) psi.
Proof. intros Hm Hk. eapply safeM_bind; [exact Hm|]. by intros _ _. Qed.
Lemma safeM_weaken {A} (m : M A) (phi psi : A -> Prop) : safeM m phi -> (forall a, phi a -> psi a) -> safeM m psi.
Proof. intros Hm Hi s Hs. specialize (Hm s Hs). destruct (m s); naive_solver. Qed.
Lemma safeM_gets {A} (f : sys -> A) (phi : A -> Prop) : (forall s, sys_ok s -> phi (f s)) -> safeM (gets f) phi.
Proof. intros Hf s Hs. cbn. auto. Qed.
Lemma safeM_modify (f : sys -> sys) : (forall s, sys_ok s -> sys_ok (f s)) -> safeM (modify f) (fun _ => True).
Proof. intros Hf s Hs. cbn. auto. Qed.
Lemma safeM_process bs : safeM (process bs) (fun _ => True).
Proof. by intros s Hs. Qed.
Lemma safeM_serial bs : safeM (serial bs) (fun _ => True).
Proof. by intros s Hs. Qed.
(** A step that keeps either form of well-formedness and the memory mapped. *)
Lemma sys_ok_step s s' : sys_ok s -> RAMDISK_INFO s' = RAMDISK_INFO s -> mem_within anywhere (kern s) (kern s') ->
  (forall r, wf r (kern s) -> wf r (kern s')) -> sys_ok s'.
Proof.
  intros (Hi & Hm & Hw) Hi' Hmem Hwf. split_and!; [congruence| |destruct Hw; auto].
  eapply rootfs_ok_mono; [exact Hm|]. intros x. apply Hmem.
Qed.
Lemma safeM_kernel {A} (m : K A) phi : (forall r, safeK r m phi) -> writes anywhere m -> safeM (kernel_call m) phi.
Proof.
  intros Hm Hw s Hs. specialize (Hw (kern s)). unfold kernel_call.
  assert (exists r, wf r (kern s)) as [r0 Hr0] by (destruct Hs as (_ & _ & [?|?]); by eexists).
  pose proof (fun r => Hm r (kern s)) as Hk. clear Hm. destruct (m (kern s)) as [a k|[]|h]; [|done].
  split; [by apply (Hk _ Hr0)|]. apply (sys_ok_step s); [done|done|by rewrite kern_put|].
  intros r Hr. rewrite kern_put. by apply Hk.
Qed.
Lemma safeM_interpreter {A} (m : elf_runner.W A) : (forall r, safeW r m (fun _ => True)) ->
  evolves (elf_frame.within anywhere) m -> safeM (interpreter_call m) (fun _ => True).
Proof.
  intros Hm Hw s Hs. specialize (Hw (wld s)). unfold interpreter_call.
  pose proof (fun r => Hm r (wld s)) as Hk. clear Hm.
  destruct (m (wld s)) as [a w|e w|h]; [..|done];
    (split; [done|]); (apply (sys_ok_step s); [done..|]); intros r Hr; by apply Hk.
Qed.
Lemma safeM_native b : behaves b -> safeM (native_enter b) (fun _ => True).
Proof.
  intros Hb s Hs. pose proof (fun r => safeN_execute r b Hb (native.mkNative (kern s) true (term s))) as Hn.
  assert (exists r, wf r (kern s)) as [r0 Hr0] by (destruct Hs as (_ & _ & [?|?]); by eexists).
  unfold native_enter. destruct (execute b _) as [[] n|[]|h]; [|done]. split; [done|].
  apply (sys_ok_step s); [done|done| |].
  - rewrite kern_put. by apply (Hn _ Hr0).
  - intros r Hr. rewrite kern_put. by apply Hn.
Qed.
Lemma safeM_asks {A} (f : kernel -> A) : safeM (kernel_call (gets f)) (fun _ => True).
Proof.
  apply safeM_kernel; [|apply writes_quiet; auto with frame]. intros r.
  by apply safeK_keeps, (keeps_gets _ _ (fun _ => True)).
Qed.
Lemma safeM_dispatch nr a0 a1 a2 a3 a4 a5 : is_u64 a0 -> is_u64 a1 -> is_u64 a2 -> is_u64 a3 ->
  safeM (kernel_call (dispatch nr a0 a1 a2 a3 a4 a5)) (fun _ => True).
Proof.
  intros. eapply safeM_weaken; [apply (safeM_kernel _ is_i64); [intros; by apply safeK_dispatch|apply writes_dispatch_anywhere]|done].
Qed.
Create HintDb safe.
Hint Resolve safeM_process safeM_serial safeM_stop : safe.
Hint Extern 1 (safeM (ret _) _) => by apply safeM_ret : safe.
Hint Extern 1 (safeM (mbind _ _) _) => apply safeM_then : safe.
Hint Extern 2 (safeM (match ?x with _ => _ end) _) => destruct x : safe.

Lemma safe_run_native image argv : bytes_ok image -> zlen image <= i64_max -> Forall bytes_ok argv ->
  safeM (run_native_elf_with_args image argv []) (fun _ => True).
Proof.
  intros Hi Hl Ha. unfold run_native_elf_with_args. apply safeM_then.
  { unfold init_syscall_path. eapply safeM_bind; [by apply (safeM_gets _ (fun _ => True))|]. intros [] _; [auto with safe|].
    by apply safeM_modify. }
  eapply safeM_bind; [by apply (safeM_gets _ (fun _ => True))|]. intros w _. cbv zeta.
  destruct (native.load_native _ image argv []) as [[[mem entry] rsp]|e|] eqn:Hload; [|auto with safe..].
  apply load_native_bytes in Hload; [|apply place_ok|done..].
  apply safeM_then; [apply safeM_kernel; [intros; by apply safeK_keeps, keeps_store|by apply writes_store]|].
  eapply safeM_bind; [by apply (safeM_gets _ (fun _ => True))|]. intros off _.
  eapply safeM_bind; [by apply (safeM_gets _ (fun _ => True))|]. intros pt _.
  destruct (native.ensure_region_executable _ _ _ _ _ _ _ _ _) as [pt' res].
  apply safeM_then; [by apply safeM_modify|]. destruct res as [[]|e|]; [|auto with safe..].
  apply safeM_then; [apply safeM_kernel; [intros; apply safeK_mark_exit|apply writes_quiet; auto with frame]|].
  apply safeM_then; [by apply safeM_native, program_ok|]. auto with safe.
Qed.

(** ** The commands *)

Lemma safe_ramdisk_bytes : safeM ramdisk_bytes
  (fun o => match o with Some image => bytes_ok image /\ zlen image <= i64_max | None => True end).
Proof.
  intros s Hs. pose proof Hs as [Hr Hk]. unfold ramdisk_bytes. run_prog.
  destruct (RAMDISK_INFO s) as [[addr n]|]; [|by split].
  destruct Hk as [Hn _]. rewrite <-Hr in Hn. destruct Hn as (_ & Hn & _).
  assert (writes anywhere (load addr n)) as Hq by (apply writes_quiet; auto with frame).
  pose proof (safeM_kernel _ _ (fun r => safeK_keeps _ _ _ (keeps_load r addr n ltac:(lia))) Hq s Hs) as Hl.
  destruct (kernel_call _ s) as [bs s'|e s'|h]; [|done..]. destruct Hl as ([Hz Hb] & Hs'). split; [|done].
  split; [done|lia].
Qed.
Lemma safe_with_image (f : bytes -> M unit) g :
  (forall image, bytes_ok image -> zlen image <= i64_max -> safeM (f image) (fun _ => True)) ->
  safeM g (fun _ => True) -> safeM (with_image f g) (fun _ => True).
Proof.
  intros Hf Hg. eapply safeM_bind; [apply safe_ramdisk_bytes|]. intros [image|]; [|done].
  intros [Hb Hl]. by apply Hf.
Qed.
Lemma safe_on_result {E A} (m : outcome E A) f g :
  (forall a, m = Ok a -> safeM (f a) (fun _ => True)) -> (forall e, safeM (g e) (fun _ => True)) ->
  safeM (on_result m f g) (fun _ => True).
Proof. intros Hf Hg. unfold on_result. destruct m; auto with safe. Qed.
(** The cases in which a file is opened. *)
Lemma safe_on_file image w f g : bytes_ok image -> zlen image <= i64_max ->
  (forall data, bytes_ok data -> zlen data <= i64_max -> forall rec, fs.data rec = data -> safeM (f rec) (fun _ => True)) ->
  (forall e, safeM (g e) (fun _ => True)) -> safeM (on_result (fs.open image w) f g) (fun _ => True).
Proof.
  intros Hb Hl Hf Hg. apply safe_on_result; [|done]. intros rec Hrec.
  apply fs_open_record in Hrec as (H1 & H2 & Hd & _); [|done].
  apply (Hf (fs.data rec)); [|lia|done]. rewrite Hd. by apply bytes_ok_zslice.
Qed.

Lemma safe_cmd_ramdisk : safeM cmd_ramdisk (fun _ => True).
Proof.
  unfold cmd_ramdisk. eapply safeM_bind; [apply (safeM_gets _ (fun o => o = info)); by intros s []|].
  intros [[addr len]|] Hr; [|auto with safe]. apply safeM_then; [auto with safe|].
  apply safe_with_image; [|auto with safe]. intros image _ _. apply safe_on_result; [|auto with safe].
  intros h _. apply safeM_then; [|auto with safe]. intros s Hs. pose proof Hs as (Hi & Hm & Hw). rewrite <-Hr in *.
  assert (exists r, wf r (kern s)) as [r0 Hr0] by (destruct Hw; by eexists).
  destruct (wf_set_rootfs r0 addr len (kern s) Hr0 Hm) as (k' & Hk' & Hw' & Hmem).
  unfold kernel_call. rewrite Hk'. split; [done|]. unfold sys_ok. rewrite <-Hr. split; [done|]. rewrite kern_put, Hmem. split; [done|by left].
Qed.
Lemma safe_cmd_ls : safeM cmd_ls (fun _ => True).
Proof.
  apply safe_with_image; [|auto with safe]. intros image _ _ s Hs.
  destruct (fs.list _ image (term s)) as [t res].
  assert (safeM (on_result res (fun _ => ret tt) (fun e => process (str "ls: fs error: " ++ debug_fs e ++ nl)))
    (fun _ => True)) as Hsafe by (apply safe_on_result; auto with safe).
  exact (Hsafe (put (kern s) t s) Hs).
Qed.
Lemma safe_cat_loop data : safeM (cat_loop data) (fun _ => True).
Proof.
  induction data as [|b data IH]; cbn [cat_loop]; [auto with safe|]. apply safeM_then; [|done].
  destruct (_ || _); auto with safe.
Qed.
Lemma safe_elf_segments idx segs : safeM (elf_segments idx segs) (fun _ => True).
Proof. revert idx. induction segs as [|seg segs IH]; intros idx; cbn [elf_segments]; auto with safe. Qed.
Lemma safe_run_exited name args suffix : safeM (run_exited name args suffix) (fun _ => True).
Proof.
  eapply safeM_bind; [apply safeM_asks|]. auto with safe.
Qed.
Lemma safe_run_program name args data : bytes_ok name -> Forall bytes_ok (split_whitespace args) ->
  bytes_ok data -> zlen data <= i64_max -> safeM (run_program depth tmp_ptr name args data) (fun _ => True).
Proof.
  intros Hn Ha Hd Hl. unfold run_program. cbv zeta. apply safeM_then; [auto with safe|].
  assert (Forall bytes_ok (name :: split_whitespace args)) as Hargv by (by constructor).
  eapply safeM_bind; [by apply safe_run_native|]. intros [e|[]] _; [|apply safe_run_exited].
  destruct e; try solve [auto with safe]. apply safeM_then; [auto with safe|].
  eapply safeM_bind; [apply safeM_interpreter; [intros; by apply safe_run|apply elf_frame.run_mapped]|]. intros [err|[]] _; [auto with safe|apply safe_run_exited].
Qed.
Lemma safe_cmd_syscall : safeM cmd_syscall (fun _ => True).
Proof.
  unfold cmd_syscall. repeat (eapply safeM_bind; [apply safeM_dispatch; unfold is_u64; ilia|intros ? _]).
  auto with safe.
Qed.
Lemma safe_handle cmd : bytes_ok cmd -> safeM (handle_custom_command depth tmp_ptr cmd) (fun _ => True).
Proof.
  intros Hc. unfold handle_custom_command.
  assert (forall m : M unit, safeM m (fun _ => True) -> safeM (m;; ret true) (fun _ : bool => True)) as Hthen.
  { intros m Hm. apply safeM_then; [done|]. by apply safeM_ret. }
  case_bool_decide; [by apply Hthen, safe_cmd_ramdisk|]. case_bool_decide; [by apply Hthen, safe_cmd_ls|].
  destruct (strip_prefix (str "stat ") cmd) as [name|].
  { apply Hthen, safe_with_image; [|auto with safe]. intros. apply safe_on_file; auto with safe. }
  destruct (strip_prefix (str "cat ") cmd) as [name|].
  { apply Hthen, safe_with_image; [|auto with safe]. intros. apply safe_on_file; auto with safe.
    intros. apply safeM_then; [apply safe_cat_loop|auto with safe]. }
  case_bool_decide.
  { apply Hthen. eapply safeM_bind; [apply safeM_asks|].
    intros [] _. auto with safe. }
  case_bool_decide; [by apply Hthen, safe_cmd_syscall|].
  case_bool_decide; [apply Hthen; unfold cmd_busybox; auto with safe|].
  case_bool_decide; [apply Hthen; unfold cmd_syscap; auto with safe|].
  destruct (elf_target cmd) as [name|].
  { apply Hthen, safe_with_image; [|auto with safe]. intros. apply safe_on_file; auto with safe. intros.
    apply safe_on_result; auto with safe. intros. apply safeM_then; [auto with safe|]. apply safe_elf_segments. }
  destruct (run_target cmd) as [[name args]|] eqn:Ht; [|auto with safe].
  apply run_target_bytes in Ht as [Hn Ha]; [|done].
  apply Hthen, safe_with_image; [|auto with safe]. intros. apply safe_on_file; auto with safe.
  intros data Hd Hl rec ->. by apply safe_run_program.
Qed.

(** ** The shell *)
Lemma safe_exec_command input : bytes_ok input ->
  safeM (exec_command (handle_custom_command depth tmp_ptr) input) (fun _ => True).
Proof.
  intros Hi%trim_Forall. unfold exec_command. cbv zeta. repeat (case_bool_decide; [auto with safe|]).
  destruct (strip_prefix (str "echo ") (trim input)); [solve [auto with safe]|].
  eapply safeM_bind; [by apply safe_handle|]. intros [] _; auto with safe.
Qed.
(** The line buffer holds 256 bytes and the cursor is inside. *)
Definition ed_ok (ed : editor) : Prop := bytes_ok (line ed) /\ zlen (line ed) = 256 /\ 0 <= len ed <= 256.
Lemma safe_on_key ed byte : ed_ok ed -> is_u8 byte ->
  safeM (on_key (handle_custom_command depth tmp_ptr) ed byte) ed_ok.
Proof.
  intros (Hl & Hz & Hlen) Hb. unfold on_key.
  assert (forall e (k : M unit), ed_ok e -> safeM k (fun _ => True) -> safeM (k;; ret e) ed_ok) as Hret.
  { intros e k He Hk. apply safeM_then; [done|]. by apply safeM_ret. }
  branch as H1.
  { apply safeM_then; [auto with safe|].
    eapply (safeM_bind _ _ bytes_ok).
    - intros s Hs. unfold lift. rewrite sub_slice_in by lia. split; [|done]. by apply bytes_ok_zslice.
    - intros input Hi. apply safeM_then; [|apply Hret; [repeat split; try done; cbn; lia|auto with safe]].
      destruct (from_utf8 input) as [i|] eqn:Hu; [|auto with safe]. apply from_utf8_Some in Hu as [-> _].
      by apply safe_exec_command. }
  branch as H2; [branch as H3; [apply Hret; [repeat split; try done; cbn; lia|auto with safe]|by apply safeM_ret]|].
  branch as H3; [|by apply safeM_ret]. branch as H4; [|by apply safeM_ret].
  eapply (safeM_bind _ _ (fun l => bytes_ok l /\ zlen l = 256)).
  - intros s Hs. unfold lift. rewrite copy_from_slice_in by (rewrite ?zlen_cons, ?zlen_nil; lia). split; [|done].
    split; [apply bytes_ok_splice; [done|by constructor]|].
    rewrite zlen_splice; [done|lia|rewrite zlen_cons, zlen_nil; lia].
  - intros l [Hlb Hlz]. apply safeM_then; [auto with safe|]. apply safeM_ret. repeat split; try done; cbn; lia.
Qed.
Lemma safe_turns n ed : ed_ok ed -> safeM (turns (handle_custom_command depth tmp_ptr) n ed) ed_ok.
Proof.
  revert ed. induction n as [|n IH]; intros ed He; cbn [turns]; [by apply safeM_ret|].
  eapply (safeM_bind _ _ ed_ok); [|auto]. unfold turn.
  eapply (safeM_bind _ _ (Forall (fun o => match o with Some ch => is_u8 ch | None => True end))).
  { apply safeM_gets. by intros s (_ & _ & [[]|[]]). }
  intros [|k ks] Hks; [auto with safe|]. apply Forall_cons_iff in Hks as [Hk Hks].
  apply safeM_then; [|destruct k as [b|]; [by apply safe_on_key|by apply safeM_ret]].
  apply safeM_modify. intros s Hs. apply (sys_ok_step s); [done|done| |].
  - intros x. rewrite kern_put. auto.
  - intros r []. by split.
Qed.
Lemma new_editor_ok : ed_ok new_editor.
Proof. split_and!; try done. by apply (bool_decide_unpack _). Qed.

(** C34: the system stays well formed, as far as the modelled memory goes.
    Start the shell on a well-formed kernel that has the ramdisk of the boot
    loader mounted, or nothing, as when that ramdisk is missing or invalid.
    Whatever keys come, whatever commands they spell, and whatever programs
    those commands run, interpreted or native, after any number of turns of
    the shell's loop the kernel is well formed, with that ramdisk or nothing
    mounted and the ramdisk's memory still mapped, and the line buffer is in
    bounds.  The exceptions are the ways a run of the model stops: a panic, an
    endless loop, a program that returns with the kernel's registers
    destroyed, and an access outside of the modelled memory.  The kernel's own
    statics and stack are outside of that memory; nothing on the machine keeps
    a program from writing there, and this theorem does not say so. *)
Theorem system_safe n s :
  sys_ok s ->
  match run_shell (handle_custom_command depth tmp_ptr) n s with
  | Done ed s' => ed_ok ed /\ sys_ok s'
  | Fail _ _ => False
  | Halt _ => True
  end.
Proof.
  intros Hs. assert (safeM (run_shell (handle_custom_command depth tmp_ptr) n) ed_ok) as Hrun.
  { apply safeM_then; [auto with safe|]. apply safe_turns, new_editor_ok. }
  exact (Hrun s Hs).
Qed.
End System.

(** "ls" and Enter. *)
#[local] Existing Instance commands_spec.sample_hardware.
Lemma system_safe_witness :
  let s := commands_spec.sample_sys sample_root in
  let s := put (with_polls (map Some (str "ls" ++ [10])) (kern s)) [] s in
  exists ed s', run_shell (handle_custom_command 0 (fun _ => 0)) 3 s = Done ed s' /\ sys_ok sample_root s' /\ polls (kern s') = [].
Proof.
  intros s0 s. assert (sys_ok sample_root s) as Hs.
  { split_and!; [done|by destruct sample_wf|]. left. destruct sample_wf.
    split; try done; cbn; unfold is_u8; repeat (constructor; [lia|]); constructor. }
  assert (forall (mem : bytes) (entry rsp : Z), bytes_ok mem -> behaves (program mem entry rsp)) as Hp.
  { intros mem entry rsp _. cbn. unfold is_u64. split; [constructor|]. repeat split; lia. }
  assert (forall (w : elf_runner.world) (image : bytes), 0 <= place w image) as Hpl by (intros; cbn; lia).
  pose proof (system_safe 0 (fun _ => 0) ltac:(intros; unfold is_u64; lia) Hpl Hp sample_root 3 s Hs) as Hr.
  assert (match run_shell (handle_custom_command 0 (fun _ => 0)) 3 s with Done _ s' => polls (kern s') = [] | _ => False end) as Hd
    by (vm_compute; reflexivity).
  destruct (run_shell _ 3 s) as [ed s'|e s'|h]; [|destruct Hd..]. exists ed, s'. split_and!; [reflexivity|apply Hr|exact Hd].
Defined.
End system_inv.
