(* ===== verification/Boot.v ===== *)
(** * Booting (kernel/src/main.rs)

    [kernel_main]: from the information of the boot loader to the shell.  The
    terminal and its drawing are the os_terminal crate's. *)
From stdpp Require Import gmap.
From S2P Require Import Prelude Utf8 Fs Alloc Kernel Posix Syscall SyscallInv Machine Shell Console Logger Fmt Traps System.
From S2P Require Import ElfrunInv Commands CommandsSpec SystemInv.

Module boot.
Import shell system fmt commands logger.

(** The bootloader_api crate's [BootInfo]: the fields the kernel reads. *)
Record BootInfo := mkBootInfo {
  physical_memory_offset : option Z;
  ramdisk_addr : option Z; ramdisk_len : Z;
  framebuffer : option (console.FrameBufferInfo * bytes) }.

Section Boot.
Context `{Hardware}.
Context (depth : nat) (tmp_ptr : nat -> Z).
(** The address of the static array of the heap. *)
Context (HEAP : Z).

Definition init_heap : M unit :=
  h ← gets heap;
  match allocator.init_heap (E := Empty_set) h HEAP with
  | Ok h => modify (with_heap h)
  | _ => stop Panicked
  end.

(** [ramdisk_bytes] and [fs::header] decide whether the root is mounted. *)
Definition mount_rootfs : M unit :=
  rd ← gets RAMDISK_INFO;
  o ← ramdisk_bytes;
  match rd, o with
  | Some slice, Some image =>
    boot_line Ok_ (str "Load ramdisk");;
    match fs.header image with
    | Ok h =>
      kernel_call (set_rootfs slice);;
      process (str "[  OK  ] Mount rootfs (" ++ dec (fs.file_count h) ++ str " files)" ++ nl)
    | Err _ => boot_line Fail_ (str "Mount rootfs failed")
    | Panic => stop Panicked
    end
  | _, _ => boot_line Warn (str "Ramdisk not present")
  end.

(** The volatile writes of [vga_fallback_print]. *)
Fixpoint vga_writes (ws : list (Z * Z)) : M unit :=
  match ws with
  | [] => ret tt
  | (addr, b) :: ws => kernel_call (store addr [b]);; vga_writes ws
  end.

Definition note_offset (boot_info : BootInfo) : M unit :=
  match physical_memory_offset boot_info with
  | Some off =>
    set_physical_memory_offset off;;
    serial (str "[LeonOS3] physical memory offset: 0x" ++ hex off ++ nl)
  | None => serial (str "[LeonOS3] physical memory offset missing" ++ nl)
  end.
Definition note_ramdisk (boot_info : BootInfo) : M unit :=
  match ramdisk_addr boot_info with
  | Some addr => modify (with_ramdisk (Some (addr, ramdisk_len boot_info)))
  | None => ret tt
  end.

(** With a frame buffer; the shell's loop is cut off after [n] turns. *)
Definition start_terminal (n : nat) (info : console.FrameBufferInfo) (buffer : bytes) : M editor :=
  serial (str "[LeonOS3] framebuffer present" ++ nl);;
  modify (with_display (Some (info, zreplicate (zlen buffer) 0)));;
  process ([27] ++ str "[32mLeonOS 3 booting..." ++ [27] ++ str "[0m" ++ nl);;
  boot_line Info (str "Initialize framebuffer terminal");;
  boot_line Info (str "Initialize POSIX compatibility layer");;
  boot_line Info (str "Initialize Linux syscall dispatcher");;
  boot_line Info (str "Initialize ELF loader");;
  mount_rootfs;;
  boot_line Ok_ (str "Start Leon shell");;
  process (str "Type 'help' for commands." ++ nl ++ nl);;
  run_shell (handle_custom_command depth tmp_ptr) n.
(** Without one. *)
Definition vga_fallback : M editor :=
  serial (str "[LeonOS3] no framebuffer, using VGA fallback" ++ nl);;
  vga_writes (console.vga_fallback_print (str "LeonOS 3 booting..." ++ nl ++ str "HelloWorld (no framebuffer)"));;
  stop Spinning.

Definition kernel_main (n : nat) (boot_info : BootInfo) : M editor :=
  kernel_call posix.set_stdin_reader;;
  init_heap;;
  traps_call traps.init;;
  note_offset boot_info;;
  serial (str "[LeonOS3] kernel entered" ++ nl);;
  note_ramdisk boot_info;;
  match framebuffer boot_info with
  | Some (info, buffer) => start_terminal n info buffer
  | None => vga_fallback
  end.

(** ** What boot establishes *)

(** The statics at power on; [m] is the memory and [keys] what the keyboard
    will give. *)
Definition power_on (m : gmap Z Z) (keys : list (option Z)) (pt : PT) : sys :=
  mkSys (elf_runner.mkWorld (boot_kernel m keys) []) None None false (mkMsrs 0 (0, 0) 0 0) pt
    traps.boot_traps allocator.new None.
(** The ramdisk of the boot loader: its address and its bytes. *)
Definition slice_of (rd : option (Z * bytes)) : option (Z * Z) :=
  match rd with Some (addr, image) => Some (addr, zlen image) | None => None end.
Definition root_of (rd : option (Z * bytes)) : option (Z * Z) :=
  match rd with Some (_, image) => if is_ok (fs.header image) then slice_of rd else None | None => None end.
Definition info_of (offset : option Z) (rd : option (Z * bytes)) fb : BootInfo :=
  mkBootInfo offset (fst <$> rd) (match rd with Some (_, image) => zlen image | None => 0 end) fb.

(** The state in which the shell starts. *)
Record booted (offset : option Z) (rd : option (Z * bytes)) (info : console.FrameBufferInfo) (buffer : bytes)
    (m : gmap Z Z) (keys : list (option Z)) (s : sys) : Prop := mkBooted {
  b_reader : STDIN_READER (kern s) = true;
  b_keys : polls (kern s) = keys;
  b_heap : heap s = allocator.mkBumpAllocator HEAP (HEAP + allocator.HEAP_SIZE) HEAP true;
  b_traps : traps.IDT_READY (idt s) = true /\ is_Some (traps.idtr (idt s));
  b_offset : PHYSICAL_MEMORY_OFFSET s = offset;
  b_ramdisk : RAMDISK_INFO s = slice_of rd;
  b_display : display s = Some (info, zreplicate (zlen buffer) 0);
  b_mem : mem (kern s) = m;
  b_wf : wf (root_of rd) (kern s) }.

Lemma mount_rootfs_mounts rd s :
  RAMDISK_INFO s = slice_of rd -> wf None (kern s) -> rootfs_ok (slice_of rd) (mem (kern s)) ->
  (forall addr image, rd = Some (addr, image) -> bytes_ok image /\ mem_read (mem (kern s)) addr (length image) = inl image) ->
  exists k t, mount_rootfs s = Done tt (put k t s) /\ wf (root_of rd) k /\ mem k = mem (kern s) /\
    STDIN_READER k = STDIN_READER (kern s) /\ polls k = polls (kern s).
Proof.
  intros Hi Hk Hr Hm. unfold mount_rootfs, gets, mbind, prog_bind, ramdisk_bytes. rewrite Hi. run_prog. rewrite Hi.
  destruct rd as [[addr image]|]; cbn [slice_of root_of].
  2: { unfold boot_line, process. run_prog. rewrite !put_put. by eexists _, _. }
  destruct (Hm addr image eq_refl) as [Hok Hmem]. unfold kernel_call at 1, load. unfold zlen at 1. rewrite Nat2Z.id, Hmem.
  rewrite put_same. pose proof (fs.header_cases image Hok) as Hh.
  unfold boot_line, process. run_prog. rewrite !put_put.
  destruct (fs.header image) as [h|e|]; cbn [is_ok]; [| |done].
  - destruct (wf_set_rootfs None addr (zlen image) (kern s) Hk Hr) as (k' & Hk' & Hw & Hmk).
    unfold kernel_call. rewrite !kern_put, Hk'. rewrite !put_put, !term_put. eexists _, _.
    split; [reflexivity|]. injection Hk' as <-. by split_and!.
  - rewrite !put_put. by eexists _, _.
Qed.
Lemma bind_step {A B} (c : M A) (f : A -> M B) s a s' : c s = Done a s' -> (c ≫= f) s = f a s'.
Proof. intros Hc. unfold mbind, prog_bind. by rewrite Hc. Qed.
Lemma init_heap_fresh s : heap s = allocator.new -> HEAP + allocator.HEAP_SIZE <= u64_max ->
  init_heap s = Done tt (with_heap (allocator.mkBumpAllocator HEAP (HEAP + allocator.HEAP_SIZE) HEAP true) s).
Proof.
  intros Hh Hl. unfold init_heap, gets. run_prog. rewrite Hh. unfold allocator.init_heap, allocator.init.
  cbn [allocator.initialized allocator.new]. by rewrite add64_small.
Qed.

Lemma traps_init_fresh s : idt s = traps.boot_traps ->
  exists t, traps_call traps.init s = Done tt (with_idt t s) /\ traps.IDT_READY t = true /\ is_Some (traps.idtr t).
Proof.
  intros Hs. unfold traps_call. rewrite Hs. eexists. split; [reflexivity|]. split; [done|]. by eexists.
Qed.
(** Up to the mounting of the root. *)
Record prepared (offset : option Z) (rd : option (Z * bytes)) (m : gmap Z Z) (keys : list (option Z)) (s : sys) : Prop := mkPrepared {
  p_kern : kern s = with_reader true (boot_kernel m keys);
  p_heap : heap s = allocator.mkBumpAllocator HEAP (HEAP + allocator.HEAP_SIZE) HEAP true;
  p_traps : traps.IDT_READY (idt s) = true /\ is_Some (traps.idtr (idt s));
  p_offset : PHYSICAL_MEMORY_OFFSET s = offset;
  p_ramdisk : RAMDISK_INFO s = slice_of rd }.
Lemma prepares offset rd fb m keys pt (k : M editor) : HEAP + allocator.HEAP_SIZE <= u64_max ->
  exists s, prepared offset rd m keys s /\
    (kernel_call posix.set_stdin_reader;; init_heap;; traps_call traps.init;; note_offset (info_of offset rd fb);;
     serial (str "[LeonOS3] kernel entered" ++ nl);; note_ramdisk (info_of offset rd fb);; k) (power_on m keys pt) = k s.
Proof.
  intros Hheap. set (s0 := put (with_reader true (boot_kernel m keys)) [] (power_on m keys pt)).
  rewrite (bind_step (kernel_call posix.set_stdin_reader) _ _ tt s0) by done.
  rewrite (bind_step init_heap _ s0 _ _ (init_heap_fresh s0 eq_refl Hheap)).
  destruct (traps_init_fresh (with_heap (allocator.mkBumpAllocator HEAP (HEAP + allocator.HEAP_SIZE) HEAP true) s0) eq_refl)
    as (t & Ht & Hready & Hidtr). rewrite (bind_step _ _ _ _ _ Ht).
  unfold note_offset, note_ramdisk, info_of. cbn [physical_memory_offset ramdisk_addr ramdisk_len].
  destruct offset as [off|].
  - generalize (str "[LeonOS3] physical memory offset: 0x" ++ hex off ++ nl) (str "[LeonOS3] kernel entered" ++ nl).
    intros msg1 msg2. destruct rd as [[addr image]|]; eexists; (split; [|reflexivity]); by split.
  - generalize (str "[LeonOS3] physical memory offset missing" ++ nl) (str "[LeonOS3] kernel entered" ++ nl).
    intros msg1 msg2. destruct rd as [[addr image]|]; eexists; (split; [|reflexivity]); by split.
Qed.

(** Boot lines and other texts leave everything but the terminal alone. *)
Lemma boot_line_put level msg s : exists t, boot_line level msg s = Done tt (put (kern s) t s).
Proof. unfold boot_line, process. run_prog. rewrite !put_put, !kern_put. by eexists. Qed.
Lemma process_put bs s : exists t, process bs s = Done tt (put (kern s) t s).
Proof. by eexists. Qed.
Lemma starts offset rd info buffer m keys n s :
  prepared offset rd m keys s ->
  wf None (boot_kernel m keys) -> rootfs_ok (slice_of rd) m ->
  (forall addr image, rd = Some (addr, image) -> bytes_ok image /\ mem_read m addr (length image) = inl image) ->
  exists s', start_terminal n info buffer s = run_shell (handle_custom_command depth tmp_ptr) n s' /\
    booted offset rd info buffer m keys s'.
Proof.
  intros [Hk Hh Ht Ho Hi] Hw Hr Him. unfold start_terminal.
  set (s1 := with_idt (traps.with_report (str "[LeonOS3] framebuffer present" ++ nl) (idt s)) s).
  rewrite (bind_step (serial _) _ s tt s1) by done.
  set (s2 := with_display (Some (info, zreplicate (zlen buffer) 0)) s1).
  rewrite (bind_step (modify _) _ s1 tt s2) by done.
  assert (forall k t (B : Type) (f : unit -> M B) (c : M unit), (forall s, exists t, c s = Done tt (put (kern s) t s)) ->
    exists t', (c ≫= f) (put k t s2) = f tt (put k t' s2)) as Htext.
  { intros k t B f c Hc. destruct (Hc (put k t s2)) as [t' Ht']. exists t'. rewrite (bind_step _ _ _ _ _ Ht').
    by rewrite put_put, kern_put. }
  rewrite <-(put_same s2). generalize (term s2). intros t0.
  edestruct (Htext (kern s2) t0) as [t1 ->]; [intros; apply process_put|].
  edestruct (Htext (kern s2) t1) as [t2 ->]; [intros; apply boot_line_put|].
  edestruct (Htext (kern s2) t2) as [t3 ->]; [intros; apply boot_line_put|].
  edestruct (Htext (kern s2) t3) as [t4 ->]; [intros; apply boot_line_put|].
  edestruct (Htext (kern s2) t4) as [t5 ->]; [intros; apply boot_line_put|].
  assert (kern s2 = with_reader true (boot_kernel m keys)) as Hk2 by exact Hk.
  destruct (mount_rootfs_mounts rd (put (kern s2) t5 s2)) as (k & t & Hm & Hwk & Hmk & Hrk & Hpk).
  - exact Hi.
  - rewrite kern_put, Hk2. destruct (wf_set_stdin_reader None _ Hw) as (k' & [= <-] & Hk'). exact Hk'.
  - rewrite kern_put, Hk2. exact Hr.
  - rewrite kern_put, Hk2. exact Him.
  - rewrite (bind_step _ _ _ _ _ Hm). rewrite kern_put, Hk2 in *. rewrite put_put.
    edestruct (Htext k t) as [t6 ->]; [intros; apply boot_line_put|].
    edestruct (Htext k t6) as [t7 ->]; [intros; apply process_put|].
    eexists. split; [reflexivity|]. split; try rewrite kern_put; done.
Qed.

(** C37: the system boots.  With a frame buffer, whatever the ramdisk holds,
    [kernel_main] reaches the shell: the keyboard is installed and no key is
    lost, the heap and the exception table are set up, the boot loader's
    values are recorded, the kernel is well formed, and the ramdisk is mounted
    exactly when its header is valid.  The shell starts in a state that has
    the invariant of SystemInv.v, whether the ramdisk is valid, invalid or
    missing.  Without a frame buffer the machine stops and never reaches
    the shell. *)
Theorem boot_reaches_shell offset rd info buffer m keys pt n :
  map_Forall (fun _ b => is_u8 b) m ->
  Forall (fun o => match o with Some ch => is_u8 ch | None => True end) keys ->
  HEAP + allocator.HEAP_SIZE <= u64_max -> rootfs_ok (slice_of rd) m ->
  (forall addr image, rd = Some (addr, image) -> bytes_ok image /\ mem_read m addr (length image) = inl image) ->
  (exists s, kernel_main n (info_of offset rd (Some (info, buffer))) (power_on m keys pt) =
      run_shell (handle_custom_command depth tmp_ptr) n s /\
    booted offset rd info buffer m keys s /\
    system_inv.sys_ok (slice_of rd) s) /\
  (exists h, kernel_main n (info_of offset rd None) (power_on m keys pt) = Halt h).
Proof.
  intros Hm Hkeys Hheap Hr Him. pose proof (wf_boot m keys Hm Hkeys) as Hk. split.
  - destruct (prepares offset rd (Some (info, buffer)) m keys pt (start_terminal n info buffer) Hheap) as (s & Hp & Hrun).
    destruct (starts offset rd info buffer m keys n s Hp Hk Hr Him) as (s' & Hst & Hb).
    exists s'. split_and!; [by rewrite <-Hst|done|]. destruct Hb as [_ _ _ _ _ Hi _ Hmem Hw]. split_and!; [done|by rewrite Hmem|].
    unfold root_of in Hw. destruct rd as [[addr image]|]; [|by left]. destruct (is_ok _); [by left|by right].
  - destruct (prepares offset rd None m keys pt vga_fallback Hheap) as (s & Hp & Hrun).
    assert (exists h, vga_fallback s = Halt h) as [h Hh].
    { unfold vga_fallback. unfold mbind, prog_bind. destruct (serial _ s) as [[] s1|[]|h]; [|by eexists].
      destruct (vga_writes _ s1) as [[] s2|[]|h]; by eexists. }
    exists h. by rewrite <-Hh.
Qed.
End Boot.

(** One file, one key, a frame buffer of one pixel. *)
#[local] Existing Instance commands_spec.sample_hardware.
Lemma boot_reaches_shell_witness :
  let bi := info_of (Some 0x1000000) (Some (0x8000, fs.sample_image)) (Some (console.mkInfo 1 1 1 4 console.Bgr, [9; 9; 9; 9])) in
  exists s, kernel_main 0 (fun _ => 0) 0x200000 0 bi (power_on (H := commands_spec.sample_hardware) sample_mem [Some 104] tt) =
      run_shell (handle_custom_command 0 (fun _ => 0)) 0 s /\
    polls (kern s) = [Some 104] /\ ROOTFS (kern s) = sample_root /\ system_inv.sys_ok sample_root s.
Proof.
  intros bi. destruct (boot_reaches_shell (H := commands_spec.sample_hardware) 0 (fun _ => 0) 0x200000 (Some 0x1000000) (Some (0x8000, fs.sample_image))
    (console.mkInfo 1 1 1 4 console.Bgr) [9; 9; 9; 9] sample_mem [Some 104] tt 0) as ((s & Hs & Hb & Hok) & _).
  - destruct sample_wf. assumption.
  - by repeat constructor.
  - vm_compute. congruence.
  - destruct sample_wf. assumption.
  - intros addr image [= <- <-]. split; [exact fs.sample_image_ok|]. vm_compute. reflexivity.
  - exists s. split_and!; [exact Hs|apply Hb|apply (wf_rootfs _ _ (b_wf _ _ _ _ _ _ _ _ Hb))|exact Hok].
Defined.
End boot.
