(* ===== verification/Ramdisk.v ===== *)
(** * The shipped ramdisk (build.rs)

    The list of files that the build script packs, from the host's file
    system, and the way from a file on the host to the screen of the booted
    system: packed by Lfs1.v, found by Fs.v, shown by Commands.v.  The disk
    image and the boot configuration are the bootloader crate's. *)
From stdpp Require Import gmap.
From S2P Require Import Prelude Utf8 Fs Lfs1 Kernel Syscall SyscallInv Machine Native Shell System Fmt Commands CommandsSpec.

Module ramdisk.
Import build.

(** What [Path::exists] and [fs::read] find under a path of the host. *)
Inductive host_file := Missing | Unreadable | Contents (data : bytes).

Definition MODE_FILE : Z := 33188.   (* 0o100644 *)
Definition MODE_EXEC : Z := 33261.   (* 0o100755 *)

Section Host.
Context (host : bytes -> host_file).

Definition maybe_add_file (files : list BuildFile) (name path : bytes) (mode : Z) : outcome Empty_set (list BuildFile) :=
  match host path with
  | Contents data => Ok (files ++ [mkBuildFile name mode data])
  | Unreadable => Panic
  | Missing => Ok files
  end.
Definition initrd : bytes :=
  match host (str "ramdisk/initrd.txt") with Contents data => data | _ => str "LeonOS 3 ramdisk" ++ [10] end.
(** The files of [main]. *)
Definition ramdisk_files : outcome Empty_set (list BuildFile) :=
  let files := [mkBuildFile (str "initrd.txt") MODE_FILE initrd] in
  files ← maybe_add_file files (str "hello_world") (str "userspace/hello_world") MODE_EXEC;
  files ← maybe_add_file files (str "c_hello_name") (str "userspace/c_hello_name") MODE_EXEC;
  files ← maybe_add_file files (str "exit7") (str "userspace/exit7") MODE_EXEC;
  files ← maybe_add_file files (str "wait4_echild") (str "userspace/wait4_echild") MODE_EXEC;
  files ← maybe_add_file files (str "wait4_reap") (str "userspace/wait4_reap") MODE_EXEC;
  files ← (match host (str "userspace/busybox") with
    | Contents bin => Ok ((files ++ [mkBuildFile (str "busybox") MODE_EXEC bin]) ++ [mkBuildFile (str "sh") MODE_EXEC bin])
    | Unreadable => Panic
    | Missing => Ok files
    end);
  match host (str "userspace/sbase-box") with
  | Contents bin => Ok (files ++ [mkBuildFile (str "sbase") MODE_EXEC bin])
  | Unreadable => Panic
  | Missing => Ok files
  end.
Definition make_ramdisk : outcome Empty_set bytes := files ← ramdisk_files; build_lfs1 files.

(** ** The contents *)

(** Name on the ramdisk and path on the host. *)
Definition shipped : list (bytes * bytes) := [
  (str "hello_world", str "userspace/hello_world"); (str "c_hello_name", str "userspace/c_hello_name");
  (str "exit7", str "userspace/exit7"); (str "wait4_echild", str "userspace/wait4_echild");
  (str "wait4_reap", str "userspace/wait4_reap"); (str "busybox", str "userspace/busybox");
  (str "sh", str "userspace/busybox"); (str "sbase", str "userspace/sbase-box")].
Definition found (np : bytes * bytes) : option BuildFile :=
  match host np.2 with Contents data => Some (mkBuildFile np.1 MODE_EXEC data) | _ => None end.
Definition contents : list BuildFile := mkBuildFile (str "initrd.txt") MODE_FILE initrd :: omap found shipped.

Lemma omap_cons_app {A B} (f : A -> option B) x l : omap f (x :: l) = option_list (f x) ++ omap f l.
Proof. cbn. by destruct (f x). Qed.
Lemma maybe_add_file_eq files n p : host p <> Unreadable ->
  maybe_add_file files n p MODE_EXEC = Ok (files ++ option_list (found (n, p))).
Proof. unfold maybe_add_file, found. cbn [fst snd]. intros. destruct (host p); cbn; [by rewrite app_nil_r|done|done]. Qed.
Lemma ramdisk_files_eq : Forall (fun np => host np.2 <> Unreadable) shipped -> ramdisk_files = Ok contents.
Proof.
  intros Hr. repeat (apply Forall_cons_iff in Hr as [? Hr]). cbn [snd] in *. unfold ramdisk_files.
  do 5 (rewrite maybe_add_file_eq by done; cbn [mbind outcome_bind]).
  set (files := _ ++ option_list _).
  assert ((match host (str "userspace/busybox") with
    | Contents bin => Ok ((files ++ [mkBuildFile (str "busybox") MODE_EXEC bin]) ++ [mkBuildFile (str "sh") MODE_EXEC bin])
    | Unreadable => Panic
    | Missing => Ok files
    end : outcome Empty_set (list BuildFile)) =
    Ok (files ++ option_list (found (str "busybox", str "userspace/busybox")) ++ option_list (found (str "sh", str "userspace/busybox")))) as ->.
  { unfold found. cbn [fst snd]. generalize files. intros fs. destruct (host (str "userspace/busybox")); cbn; [by rewrite app_nil_r|done|by rewrite <-app_assoc]. }
  cbn [mbind outcome_bind].
  assert (forall files, (match host (str "userspace/sbase-box") with
    | Contents bin => Ok (files ++ [mkBuildFile (str "sbase") MODE_EXEC bin])
    | Unreadable => Panic
    | Missing => Ok files
    end : outcome Empty_set (list BuildFile)) = Ok (files ++ option_list (found (str "sbase", str "userspace/sbase-box")))) as ->.
  { intros fs. unfold found. cbn [fst snd]. destruct (host (str "userspace/sbase-box")); cbn; [by rewrite app_nil_r|done|done]. }
  unfold contents, shipped. rewrite !omap_cons_app. change (omap found []) with (@nil BuildFile). subst files.
  rewrite app_nil_r, <-!app_assoc. reflexivity.
Qed.

(** The names are different and fit the directory. *)
Definition names : list bytes := str "initrd.txt" :: map fst shipped.
Lemma names_ok : NoDup names /\ Forall (fun n => is_str n /\ 1 <= zlen n <= NAME_CAP /\ bytes_ok n) names.
Proof.
  split; [by apply (bool_decide_unpack _)|]. repeat constructor; by apply (bool_decide_unpack _).
Qed.
Lemma names_trim n : n ∈ names -> trim n = n.
Proof.
  assert (Forall (fun n => trim n = n) names) as Hf by by apply (bool_decide_unpack _).
  rewrite Forall_forall in Hf. intros Hn. apply Hf. by apply list_elem_of_In.
Qed.
Lemma names_apart np : np ∈ shipped -> np.1 <> str "initrd.txt".
Proof.
  assert (Forall (fun np => np.1 <> str "initrd.txt") shipped) as Hf by by apply (bool_decide_unpack _).
  rewrite Forall_forall in Hf. intros Hn. apply Hf. by apply list_elem_of_In.
Qed.
Lemma found_sublist : sublist (map name contents) names.
Proof.
  unfold contents, names. cbn [map name]. constructor. generalize shipped. induction l as [|np l IH]; [constructor|].
  rewrite omap_cons_app, map_app. unfold found at 1. destruct (host np.2); cbn [option_list map app name]; by constructor.
Qed.
Lemma contents_lookup np data : np ∈ shipped -> host np.2 = Contents data -> mkBuildFile np.1 MODE_EXEC data ∈ contents.
Proof.
  intros Hin Hh. unfold contents. apply elem_of_cons. right. apply list_elem_of_omap. exists np. split; [done|]. unfold found. by rewrite Hh.
Qed.

Lemma contents_names n : n ∈ map name contents ->
  n = str "initrd.txt" \/ exists np, np ∈ shipped /\ np.1 = n /\ exists data, host np.2 = Contents data.
Proof.
  intros (f & -> & Hf)%list_elem_of_fmap. unfold contents in Hf. apply elem_of_cons in Hf as [->|Hf]; [by left|right].
  apply list_elem_of_omap in Hf as (np & Hnp & Hf). unfold found in Hf. exists np.
  destruct (host np.2) as [| |d]; [done|done|]. injection Hf as <-. split_and!; [done|done|by exists d].
Qed.
(** Two rows of the table with one name are one row. *)
Lemma shipped_inj np np' : np ∈ shipped -> np' ∈ shipped -> np.1 = np'.1 -> np = np'.
Proof.
  intros (i & Hi)%list_elem_of_lookup (j & Hj)%list_elem_of_lookup He.
  assert (NoDup (map fst shipped)) as Hnd by by apply (bool_decide_unpack _).
  assert (i = j) as ->; [|congruence].
  eapply (NoDup_lookup _ _ _ _ Hnd); rewrite list_lookup_fmap; [by rewrite Hi|by rewrite Hj, He].
Qed.

Lemma contents_ok : bytes_ok initrd -> (forall p data, host p = Contents data -> bytes_ok data) -> Forall file_ok contents.
Proof.
  intros Hi Hd. unfold contents. constructor; [split_and!; try done; by apply (bool_decide_unpack _)|].
  pose proof names_ok as [_ Hn]. unfold names in Hn. apply Forall_cons_iff in Hn as [_ Hn]. revert Hn. generalize shipped.
  induction l as [|np l IH]; intros Hn; [constructor|]. cbn [map] in Hn. apply Forall_cons_iff in Hn as [(H1 & H2 & H3) Hn].
  rewrite omap_cons_app. apply Forall_app. split; [|by apply IH]. unfold found.
  destruct (host np.2) as [| |d] eqn:Hp; cbn [option_list]; [constructor..|]. constructor; [|constructor].
  unfold file_ok. cbn [name mode data]. assert (is_u16 MODE_EXEC) by by apply (bool_decide_unpack _).
    apply Hd in Hp. auto.
Qed.
Lemma initrd_bytes : (forall p data, host p = Contents data -> bytes_ok data) -> bytes_ok initrd.
Proof.
  intros Hd. unfold initrd. destruct (host _) as [| |d] eqn:Hp; [by apply (bool_decide_unpack _)..|]. by eapply Hd.
Qed.
End Host.
(** Where no record has the name. *)
Lemma lookup_name_absent w cursor files : w ∉ map name files -> fs.lookup_name w (records cursor files) = None.
Proof.
  unfold fs.lookup_name. revert cursor. induction files as [|f files IH]; intros cursor Hw; [done|].
  cbn [map] in Hw. apply not_elem_of_cons in Hw as [Hne Hw]. cbn [records List.find fs.name].
  rewrite bool_decide_false by congruence. by apply IH.
Qed.

(** C39: from the host to the screen.  If every file that exists can be read
    and the files fit the 32-bit offsets of the format, the build script makes
    an image in which each shipped name opens to the contents of its file on
    the host when that file exists and to nothing when it does not, no other
    name opens, and initrd.txt is there even without a source; once the image
    is the ramdisk of a running system, [cat] shows every text file of it as
    it was on the host. *)
Theorem shipped_files_reach_screen (host : bytes -> host_file) :
  Forall (fun np => host np.2 <> Unreadable) shipped ->
  (forall p data, host p = Contents data -> bytes_ok data) ->
  header_size + zlen (contents host) * ENTRY_SIZE + zlen (datas (contents host)) < 2 ^ 32 ->
  exists image, make_ramdisk host = Ok image /\ bytes_ok image /\
    (forall np, np ∈ shipped -> match host np.2 with
      | Contents data => exists off, fs.open image np.1 = Ok (fs.mkFileRecord np.1 MODE_EXEC off data)
      | _ => fs.open image np.1 = Err fs.NotFound end) /\
    (exists off, fs.open image (str "initrd.txt") = Ok (fs.mkFileRecord (str "initrd.txt") MODE_FILE off (initrd host))) /\
    (forall w, w ∉ names -> fs.open image w = Err fs.NotFound) /\
    (forall (hw : system.Hardware) depth tmp_ptr f s, f ∈ contents host -> commands_spec.mounted image s ->
      Forall commands_spec.printable (data f) ->
      exists shown_, commands.handle_custom_command depth tmp_ptr (str "cat " ++ name f) s =
          Done true (commands_spec.showed shown_ s) /\ concat shown_ = data f ++ [10]).
Proof.
  intros Hr Hd Hlen. set (files := contents host) in *.
  assert (Forall file_ok files) as Hok by (apply contents_ok; [by apply initrd_bytes|done]).
  pose proof names_ok as [Hnd Htr]. pose proof (found_sublist host) as Hsub. fold files in Hsub.
  assert (NoDup (map name files)) as Hndf by (by eapply sublist_NoDup).
  assert (zlen files < 2 ^ 16) as Hn.
  { apply sublist_length in Hsub. rewrite length_map in Hsub. unfold zlen. change (length names) with 9%nat in Hsub. lia. }
  set (cursor := header_size + zlen files * ENTRY_SIZE) in *.
  set (image := header_block files ++ blocks cursor files ++ datas files).
  destruct (image_files_of files Hok Hn) as [Hhdr Hfiles].
  { rewrite !zlen_app, zlen_header_block, zlen_blocks by done. unfold cursor, header_size, ENTRY_SIZE in Hlen. lia. }
  fold cursor image in Hhdr, Hfiles.
  assert (forall w, fs.open image w = ok_or (fs.lookup_name w (records cursor files)) fs.NotFound) as Hopen.
  { intros w. pose proof Hfiles as (h & Hh & Hrecs)%bind_Ok. unfold fs.open. rewrite Hh. cbn [mbind outcome_bind].
    by apply fs.open_loop_read_entries. }
  assert (forall f, f ∈ files -> exists off, fs.open image (name f) = Ok (fs.mkFileRecord (name f) (mode f) off (data f))) as Hin.
  { intros f (i & Hi)%list_elem_of_lookup. destruct (lookup_name_records cursor files i f Hi) as (off & Hoff).
    - intros j g Hj Hg Hne. assert (i = j) as ->; [|lia]. eapply (NoDup_lookup _ _ _ _ Hndf); rewrite list_lookup_fmap; [by rewrite Hi|].
      rewrite Hg. cbn. by rewrite Hne.
    - exists off. by rewrite Hopen, Hoff. }
  assert (forall w, w ∉ map name files -> fs.open image w = Err fs.NotFound) as Habs.
  { intros w Hw. by rewrite Hopen, lookup_name_absent. }
  exists image. split_and!.
  - unfold make_ramdisk. rewrite ramdisk_files_eq by done. cbn [mbind outcome_bind]. apply build_lfs1_layout.
    revert Hok. apply Forall_impl. intros f (_ & ? & _). lia.
  - by apply image_bytes_ok.
  - intros np Hnp. destruct (host np.2) as [| |d] eqn:Hh.
    + apply Habs. intros [E|(np' & Hnp' & E & d & Hd')]%contents_names; [|by apply (shipped_inj np' np) in E; [congruence|..]].
      apply (names_apart np Hnp E).
    + rewrite Forall_forall in Hr. exfalso. apply (Hr np); [by apply list_elem_of_In|done].
    + apply (Hin (mkBuildFile np.1 MODE_EXEC d)). by apply contents_lookup.
  - apply (Hin (mkBuildFile (str "initrd.txt") MODE_FILE (initrd host))). apply elem_of_cons. by left.
  - intros w Hw. apply Habs. intros Hc. apply Hw. by eapply elem_of_sublist.
  - intros hw depth tmp_ptr f s Hf Hm Ht. destruct (Hin f Hf) as (off & Hoff).
    eexists. split; [rewrite (commands_spec.cat_open depth tmp_ptr image) by done|].
    + assert (trim (name f) = name f) as ->; [|by rewrite Hoff].
      apply names_trim. eapply elem_of_sublist; [|exact Hsub]. by apply list_elem_of_fmap_2.
    + cbn [fs.data]. by rewrite commands_spec.sanitized_text, commands_spec.sanitize_text.
Qed.
Lemma shipped_files_reach_screen_witness :
  let host p := if bool_decide (p = str "userspace/exit7") then Contents (str "hi") else Missing in
  exists image, make_ramdisk host = Ok image /\
    (exists off, fs.open image (str "exit7") = Ok (fs.mkFileRecord (str "exit7") MODE_EXEC off (str "hi"))) /\
    fs.open image (str "sh") = Err fs.NotFound.
Proof.
  intros host. destruct (shipped_files_reach_screen host) as (image & Hi & _ & Hnp & _ & Hw & _).
  - repeat constructor; discriminate.
  - intros p data. unfold host. case_bool_decide; [|done]. intros [= <-]. by apply (bool_decide_unpack _).
  - reflexivity.
  - exists image. split_and!; [exact Hi| |].
    + apply (Hnp (str "exit7", str "userspace/exit7")). apply (bool_decide_unpack _). reflexivity.
    + apply (Hnp (str "sh", str "userspace/busybox")). apply (bool_decide_unpack _). reflexivity.
Defined.
End ramdisk.
