(* ===== verification/Vga.v ===== *)
(** * The text terminal (src/os_terminal.rs)

    A terminal on the 25 rows of 80 cells of VGA text memory: the cursor, line
    wrap and scrolling.  It is refined to a sheet of paper: the screen always
    shows the last 25 lines of what was printed.  A cell is a character and
    its colour; an access outside of the 2000 cells is [None].  No [mod]
    declares this file of the repository: neither the kernel, whose terminal
    is the os_terminal crate, nor the host program is compiled with it. *)
From S2P Require Import Prelude Utf8.

Module vga.

Definition BUFFER_HEIGHT : Z := 25.
Definition BUFFER_WIDTH : Z := 80.
Definition Black : Z := 0.
Definition LightGray : Z := 7.
Definition Yellow : Z := 14.
Definition ColorCode_new (foreground background : Z) : Z := Z.lor (Z.shiftl background 4) foreground.

(** The lock of [WRITER] serialises its users; [cells] is the memory at
    [VGA_BUFFER_ADDR]. *)
Record OSTerminal := mkTerm { row : Z; col : Z; color_code : Z }.
Record vga := mkVga { writer : OSTerminal; cells : list (Z * Z) }.
Definition new : OSTerminal := mkTerm 0 0 (ColorCode_new Yellow Black).
Definition set_cursor (r c : Z) (v : vga) : vga := mkVga (mkTerm r c (color_code (writer v))) (cells v).

Definition read_volatile (i : Z) (v : vga) : option (Z * Z) := cells v !! Z.to_nat i.
Definition write_volatile (i : Z) (ch : Z * Z) (v : vga) : option vga :=
  if i <? zlen (cells v) then Some (mkVga (writer v) (splice (cells v) i [ch])) else None.
Definition write_at (row col byte color : Z) (v : vga) : option vga :=
  write_volatile (row * BUFFER_WIDTH + col) (byte, color) v.

(** [for col in 0..BUFFER_WIDTH]: [n] columns remain, [c] is next. *)
Fixpoint clear_cols (n : nat) (r c : Z) (v : vga) : option vga :=
  match n with
  | O => Some v
  | S n => v ← write_at r c 32 (color_code (writer v)) v; clear_cols n r (c + 1) v
  end.
Definition clear_row (r : Z) (v : vga) : option vga := clear_cols (Z.to_nat BUFFER_WIDTH) r 0 v.
Fixpoint scroll_cols (n : nat) (r c : Z) (v : vga) : option vga :=
  match n with
  | O => Some v
  | S n =>
    ch ← read_volatile (r * BUFFER_WIDTH + c) v;
    v ← write_volatile ((r - 1) * BUFFER_WIDTH + c) ch v;
    scroll_cols n r (c + 1) v
  end.
Fixpoint scroll_rows (n : nat) (r : Z) (v : vga) : option vga :=
  match n with
  | O => Some v
  | S n => v ← scroll_cols (Z.to_nat BUFFER_WIDTH) r 0 v; scroll_rows n (r + 1) v
  end.
Definition scroll_up (v : vga) : option vga :=
  v ← scroll_rows (Z.to_nat (BUFFER_HEIGHT - 1)) 1 v;
  v ← clear_row (BUFFER_HEIGHT - 1) v;
  Some (set_cursor (BUFFER_HEIGHT - 1) 0 v).
Definition new_line (v : vga) : option vga :=
  v ← (if BUFFER_HEIGHT <=? row (writer v) + 1 then scroll_up v
       else Some (set_cursor (row (writer v) + 1) (col (writer v)) v));
  Some (set_cursor (row (writer v)) 0 v).
Definition write_byte (byte : Z) (v : vga) : option vga :=
  if byte =? 10 then new_line v else
  v ← (if BUFFER_WIDTH <=? col (writer v) then new_line v else Some v);
  v ← write_at (row (writer v)) (col (writer v)) byte (color_code (writer v)) v;
  Some (set_cursor (row (writer v)) (col (writer v) + 1) v).
Fixpoint clear_rows (n : nat) (r : Z) (v : vga) : option vga :=
  match n with O => Some v | S n => v ← clear_row r v; clear_rows n (r + 1) v end.
Definition clear_screen (v : vga) : option vga :=
  v ← clear_rows (Z.to_nat BUFFER_HEIGHT) 0 v; Some (set_cursor 0 0 v).

Definition glyph (byte : Z) : Z := if in_range 0x20 0x7e byte || (byte =? 10) then byte else 0xfe.
Fixpoint write_str (s : bytes) (v : vga) : option vga :=
  match s with [] => Some v | b :: s => v ← write_byte (glyph b) v; write_str s v end.
Definition print (s : bytes) (v : vga) : option vga := write_str s v.
Definition println (s : bytes) (v : vga) : option vga := v ← write_str s v; write_str [10] v.

(** ** The paper *)

(** The current line and the lines above it, the nearest first. *)
Record paper := mkPaper { current : bytes; above : list bytes }.
Definition blank_paper : paper := mkPaper [] [].
Definition type_char (p : paper) (b : Z) : paper :=
  if b =? 10 then mkPaper [] (current p :: above p)
  else if 80 <=? zlen (current p) then mkPaper [b] (current p :: above p)
  else mkPaper (current p ++ [b]) (above p).
Definition type_text (p : paper) (s : bytes) : paper := foldl type_char p (map glyph s).

(** The last 25 lines from top to bottom, as cells of one colour. *)
Definition lines (p : paper) : list bytes := rev (take 25 (current p :: above p)).
Definition line_cells (color : Z) (l : bytes) : list (Z * Z) :=
  map (fun b => (b, color)) l ++ zreplicate (80 - zlen l) (32, color).
Definition screen (color : Z) (p : paper) : list (Z * Z) :=
  concat (map (line_cells color) (lines p)) ++ zreplicate (80 * (25 - zlen (lines p))) (32, color).

Record shows (v : vga) (p : paper) : Prop := mkShows {
  s_row : row (writer v) = Z.min (zlen (above p)) 24;
  s_col : col (writer v) = zlen (current p);
  s_fit : Forall (fun l => zlen l <= 80) (current p :: above p);
  s_cells : cells v = screen (color_code (writer v)) p }.

(** ** The loops *)

Lemma write_volatile_in i ch v : i < zlen (cells v) -> write_volatile i ch v = Some (mkVga (writer v) (splice (cells v) i [ch])).
Proof. intros. unfold write_volatile. by rewrite (proj2 (Z.ltb_lt _ _)). Qed.
Lemma clear_cols_eq n r c v : 0 <= r * 80 + c -> r * 80 + c + Z.of_nat n <= zlen (cells v) ->
  clear_cols n r c v = Some (mkVga (writer v) (splice (cells v) (r * 80 + c) (replicate n (32, color_code (writer v))))).
Proof.
  revert c v. induction n as [|n IH]; intros c v H0 H1; cbn [clear_cols replicate].
  - destruct v as [w cs]. cbn in *. do 2 f_equal. unfold splice. cbn [app length].
    rewrite Nat.add_0_r. by rewrite take_drop.
  - unfold write_at, BUFFER_WIDTH. rewrite write_volatile_in by lia. cbn [mbind option_bind].
    pose proof (zlen_replicate n (32, color_code (writer v))) as Hz.
    rewrite IH; cbn [writer cells]; [|lia|rewrite zlen_splice; [lia|lia|rewrite zlen_cons, zlen_nil; lia]].
    do 2 f_equal. replace (r * 80 + (c + 1)) with (r * 80 + c + 1) by lia. apply splice_cons; [lia|]. rewrite Hz. lia.
Qed.
Lemma clear_row_eq r v : 0 <= r -> r * 80 + 80 <= zlen (cells v) ->
  clear_row r v = Some (mkVga (writer v) (splice (cells v) (r * 80) (zreplicate 80 (32, color_code (writer v))))).
Proof.
  intros. unfold clear_row. rewrite clear_cols_eq; [|lia|unfold BUFFER_WIDTH; lia]. do 2 f_equal. f_equal. lia.
Qed.

(** The screen while it is scrolled: the first [k] cells are the new ones. *)
Definition half (cs : list (Z * Z)) (k : Z) : list (Z * Z) := zslice cs 80 (80 + k) ++ drop (Z.to_nat k) cs.
Lemma zlen_half cs k : 0 <= k -> k + 80 <= zlen cs -> zlen (half cs k) = zlen cs.
Proof. intros. unfold half. rewrite zlen_app, zlen_zslice by lia. unfold zlen in *. rewrite length_drop. lia. Qed.
Lemma half_lookup_old cs k i : 0 <= k -> k + 80 <= zlen cs -> k <= i -> half cs k !! Z.to_nat i = cs !! Z.to_nat i.
Proof.
  intros Hk Hl Hi. unfold half. assert (zlen (zslice cs 80 (80 + k)) = k) as Hz by (rewrite zlen_zslice; lia).
  rewrite lookup_app_r by (unfold zlen in *; lia). rewrite lookup_drop. f_equal. unfold zlen in *. lia.
Qed.
Lemma half_step cs k ch : 0 <= k -> k + 81 <= zlen cs -> cs !! Z.to_nat (k + 80) = Some ch ->
  splice (half cs k) k [ch] = half cs (k + 1).
Proof.
  intros Hk Hl Hch. unfold half. assert (zlen (zslice cs 80 (80 + k)) = k) as Hz by (rewrite zlen_zslice; lia).
  destruct (drop (Z.to_nat k) cs) as [|x rest] eqn:Hd.
  { apply (f_equal length) in Hd. rewrite length_drop in Hd. unfold zlen in *. cbn in Hd. lia. }
  change (x :: rest) with ([x] ++ rest).
  pose proof (splice_exact (zslice cs 80 (80 + k)) [x] rest [ch] eq_refl) as He. rewrite Hz in He. rewrite He.
  assert (drop (Z.to_nat (k + 1)) cs = rest) as Hr.
  { replace (Z.to_nat (k + 1)) with (Z.to_nat k + 1)%nat by lia. by rewrite <-drop_drop, Hd. }
  rewrite Hr. rewrite app_assoc. f_equal.
  assert (zslice cs 80 (80 + (k + 1)) = zslice cs 80 (80 + k) ++ [ch]) as ->; [|done].
  apply list_eq. intros i. destruct (decide (Z.of_nat i < k)).
  - rewrite zslice_lookup by lia. rewrite lookup_app_l by (unfold zlen in *; lia). by rewrite zslice_lookup by lia.
  - rewrite lookup_app_r by (unfold zlen in *; lia). destruct (decide (Z.of_nat i = k)) as [E|].
    + rewrite zslice_lookup by lia. replace (i - length (zslice cs 80 (80 + k)))%nat with 0%nat by (unfold zlen in *; lia).
      cbn. rewrite <-Hch. f_equal. lia.
    + rewrite zslice_lookup_ge by lia. symmetry. apply lookup_ge_None. cbn. unfold zlen in *. lia.
Qed.
Lemma scroll_cols_eq cs w n r c : 1 <= r -> 0 <= c -> (r - 1) * 80 + c + Z.of_nat n + 80 <= zlen cs ->
  scroll_cols n r c (mkVga w (half cs ((r - 1) * 80 + c))) = Some (mkVga w (half cs ((r - 1) * 80 + c + Z.of_nat n))).
Proof.
  revert c. induction n as [|n IH]; intros c Hr Hc Hl; cbn [scroll_cols]; [by rewrite Z.add_0_r|].
  unfold read_volatile, BUFFER_WIDTH. cbn [cells]. rewrite half_lookup_old by lia.
  destruct (lookup_lt_is_Some_2 cs (Z.to_nat (r * 80 + c))) as [ch Hch]; [unfold zlen in *; lia|].
  rewrite Hch. cbn [mbind option_bind]. rewrite write_volatile_in by (cbn [cells]; rewrite zlen_half; lia).
  cbn [mbind option_bind writer cells]. rewrite (half_step _ _ ch); [|lia|lia|rewrite <-Hch; f_equal; lia].
  replace ((r - 1) * 80 + c + 1) with ((r - 1) * 80 + (c + 1)) by lia. rewrite IH by lia. do 3 f_equal. lia.
Qed.
Lemma scroll_rows_eq cs w n r : 1 <= r -> (r + Z.of_nat n) * 80 <= zlen cs ->
  scroll_rows n r (mkVga w (half cs ((r - 1) * 80))) = Some (mkVga w (half cs ((r - 1 + Z.of_nat n) * 80))).
Proof.
  revert r. induction n as [|n IH]; intros r Hr Hl; cbn [scroll_rows]; [do 3 f_equal; lia|].
  pose proof (scroll_cols_eq cs w (Z.to_nat 80) r 0 Hr) as Hc. rewrite Z.add_0_r in Hc. unfold BUFFER_WIDTH.
  rewrite Hc by lia. cbn [mbind option_bind]. clear Hc.
  replace ((r - 1) * 80 + Z.of_nat (Z.to_nat 80)) with ((r + 1 - 1) * 80) by lia.
  rewrite IH by lia. do 3 f_equal. lia.
Qed.
Lemma scroll_up_eq v : zlen (cells v) = 2000 ->
  scroll_up v = Some (mkVga (mkTerm 24 0 (color_code (writer v)))
    (drop 80 (cells v) ++ zreplicate 80 (32, color_code (writer v)))).
Proof.
  destruct v as [w cs]. cbn [cells writer]. intros Hl. unfold scroll_up, BUFFER_HEIGHT.
  pose proof (scroll_rows_eq cs w (Z.to_nat (25 - 1)) 1 ltac:(lia) ltac:(lia)) as Hs.
  replace (half cs ((1 - 1) * 80)) with cs in Hs by (unfold half; done). rewrite Hs. cbn [mbind option_bind].
  rewrite clear_row_eq by (cbn [cells]; rewrite ?zlen_half; lia). cbn [mbind option_bind writer cells].
  unfold set_cursor. cbn [writer cells color_code]. do 2 f_equal.
  replace ((1 - 1 + Z.of_nat (Z.to_nat (25 - 1))) * 80) with 1920 by lia. unfold half.
  assert (zlen (zslice cs 80 (80 + 1920)) = 1920) as Hz by (rewrite zlen_zslice; lia).
  assert (zslice cs 80 (80 + 1920) = drop 80 cs) as Hd.
  { unfold zslice. rewrite take_ge; [done|]. rewrite length_drop. unfold zlen in Hl. lia. }
  change ((25 - 1) * 80) with 1920.
  pose proof (splice_exact (zslice cs 80 (80 + 1920)) (drop (Z.to_nat 1920) cs) []
    (zreplicate 80 (32, color_code w))) as He. rewrite Hz, !app_nil_r in He. rewrite He, Hd; [done|].
  unfold zreplicate. rewrite length_drop, length_replicate. unfold zlen in Hl. lia.
Qed.

(** ** The refinement *)

Lemma zreplicate_add {A} a b (x : A) : 0 <= a -> 0 <= b -> zreplicate a x ++ zreplicate b x = zreplicate (a + b) x.
Proof. intros. unfold zreplicate. rewrite <-replicate_add. f_equal. lia. Qed.
Lemma zlen_line_cells color l : zlen l <= 80 -> zlen (line_cells color l) = 80.
Proof. intros. unfold line_cells. rewrite zlen_app, zlen_map, zlen_zreplicate by lia. lia. Qed.
Lemma zlen_all_cells color ls : Forall (fun l => zlen l <= 80) ls -> zlen (concat (map (line_cells color) ls)) = 80 * zlen ls.
Proof.
  induction 1 as [|l ls Hl _ IH]; [done|]. cbn [map concat]. rewrite zlen_app, IH, zlen_line_cells, zlen_cons by done. lia.
Qed.
Lemma lines_cons cur ab : lines (mkPaper cur ab) = rev (take 24 ab) ++ [cur].
Proof. done. Qed.
Lemma zlen_lines cur ab : zlen (lines (mkPaper cur ab)) = Z.min (zlen ab) 24 + 1.
Proof. rewrite lines_cons, zlen_app, zlen_cons, zlen_nil. unfold zlen. rewrite length_rev, length_take. lia. Qed.
Lemma above_fit ab n : Forall (fun l : bytes => zlen l <= 80) ab -> Forall (fun l => zlen l <= 80) (rev (take n ab)).
Proof. intros. by apply Forall_rev, Forall_take. Qed.
(** The part of the screen above the current line. *)
Definition upper (color : Z) (ab : list bytes) : list (Z * Z) := concat (map (line_cells color) (rev (take 24 ab))).
Lemma zlen_upper color ab : Forall (fun l => zlen l <= 80) ab -> zlen (upper color ab) = 80 * Z.min (zlen ab) 24.
Proof.
  intros Hf. unfold upper. rewrite zlen_all_cells by by apply above_fit.
  f_equal. unfold zlen. rewrite length_rev, length_take. lia.
Qed.
Lemma screen_eq color cur ab : screen color (mkPaper cur ab) =
  upper color ab ++ line_cells color cur ++ zreplicate (80 * (24 - Z.min (zlen ab) 24)) (32, color).
Proof.
  unfold screen, upper. rewrite lines_cons, map_app, concat_app. cbn [map concat]. rewrite app_nil_r, <-app_assoc.
  do 3 f_equal. rewrite <-lines_cons, zlen_lines. lia.
Qed.
Lemma zlen_screen color cur ab : Forall (fun l => zlen l <= 80) (cur :: ab) -> zlen (screen color (mkPaper cur ab)) = 2000.
Proof.
  intros [Hc Ha]%Forall_cons_iff. pose proof (zlen_nonneg ab).
  rewrite screen_eq, !zlen_app, zlen_upper, zlen_line_cells, zlen_zreplicate by (done || lia). lia.
Qed.

Lemma new_line_shows v cur ab : shows v (mkPaper cur ab) ->
  exists v', new_line v = Some v' /\ shows v' (mkPaper [] (cur :: ab)) /\ color_code (writer v') = color_code (writer v).
Proof.
  intros [Hr Hc Hf Hs]. cbn [current above] in *. pose proof Hf as [Hcur Hab]%Forall_cons_iff.
  pose proof (zlen_nonneg ab). pose proof (zlen_screen (color_code (writer v)) cur ab Hf) as Hlen.
  unfold new_line, BUFFER_HEIGHT. destruct (Z.leb_spec 25 (row (writer v) + 1)).
  - rewrite scroll_up_eq by (by rewrite Hs). cbn [mbind option_bind]. eexists. split; [reflexivity|]. split; [|done].
    split; cbn [set_cursor writer cells row col color_code current above]; [rewrite zlen_cons; lia|done|by constructor|].
    rewrite Hs. set (color := color_code (writer v)).
    assert (24 <= zlen ab) as Hab24 by lia.
    destruct (lookup_lt_is_Some_2 ab 23) as [y Hy]; [unfold zlen in *; lia|].
    assert (zlen y <= 80) as Hy80 by (by eapply Forall_lookup_1 in Hab).
    unfold screen. rewrite !lines_cons. change (take 24 (cur :: ab)) with (cur :: take 23 ab).
    rewrite (take_S_r ab 23 y) by done. rewrite rev_app_distr. cbn [rev app]. rewrite map_cons, !map_app, !concat_app.
    cbn [map concat]. rewrite concat_app. cbn [map concat]. rewrite !app_nil_r.
    assert (80%nat = length (line_cells color y)) as -> by (pose proof (zlen_line_cells color y Hy80); unfold zlen in *; lia).
    rewrite <-!app_assoc, drop_app_length.
    rewrite <-!app_assoc. do 2 f_equal.
    set (n := zlen (rev (take 23 ab) ++ [cur] ++ [[]])).
    assert (n = 25) as ->.
    { subst n. unfold zlen in *. rewrite !length_app, length_rev, length_take. cbn [length]. lia. }
    assert (zlen (y :: rev (take 23 ab) ++ [cur]) = 25) as ->.
    { rewrite zlen_cons, zlen_app, zlen_cons, zlen_nil. unfold zlen in *. rewrite length_rev, length_take. lia. }
    unfold line_cells. by rewrite app_nil_r.
  - cbn [mbind option_bind]. eexists. split; [reflexivity|]. split; [|done].
    split; cbn [set_cursor writer cells row col color_code current above]; [rewrite zlen_cons; lia|done|by constructor|].
    rewrite Hs. set (color := color_code (writer v)). unfold screen. rewrite !lines_cons.
    rewrite (take_ge (cur :: ab)) by (unfold zlen in *; cbn; lia). rewrite (take_ge ab) by (unfold zlen in *; lia).
    cbn [rev]. rewrite (map_app _ (rev ab ++ [cur]) [[]]), concat_app, <-app_assoc. f_equal. cbn [map concat].
    rewrite app_nil_r. unfold line_cells. cbn [map app]. rewrite zlen_nil.
    rewrite zreplicate_add; [f_equal|lia|]; unfold zlen in *; rewrite !length_app, length_rev; cbn [length]; lia.
Qed.
Lemma put_shows v cur ab b : shows v (mkPaper cur ab) -> zlen cur < 80 ->
  exists v', (v ← write_at (row (writer v)) (col (writer v)) b (color_code (writer v)) v;
      Some (set_cursor (row (writer v)) (col (writer v) + 1) v)) = Some v' /\
    shows v' (mkPaper (cur ++ [b]) ab) /\ color_code (writer v') = color_code (writer v).
Proof.
  intros [Hr Hc Hf Hs] Hlt. cbn [current above] in *. pose proof Hf as [Hcur Hab]%Forall_cons_iff.
  pose proof (zlen_nonneg ab). pose proof (zlen_nonneg cur). pose proof (zlen_screen (color_code (writer v)) cur ab Hf) as Hlen.
  unfold write_at, BUFFER_WIDTH. rewrite write_volatile_in by (rewrite Hs, Hlen; lia). cbn [mbind option_bind writer].
  eexists. split; [reflexivity|]. split; [|done].
  split; cbn [set_cursor writer cells row col color_code current above]; [done|rewrite zlen_app, zlen_cons, zlen_nil; lia| |].
  { constructor; [rewrite zlen_app, zlen_cons, zlen_nil; lia|done]. }
  rewrite Hs, Hr, Hc. set (color := color_code (writer v)). rewrite !screen_eq. unfold line_cells.
  pose proof (zlen_upper color ab Hab) as Hu. set (rest := zreplicate (80 * _) _).
  assert (zreplicate (80 - zlen cur) (32, color) = [(32, color)] ++ zreplicate (80 - zlen (cur ++ [b])) (32, color)) as ->.
  { change [(32, color)] with (zreplicate 1 (32, color)). rewrite zlen_app, zlen_cons, zlen_nil, zreplicate_add by lia. f_equal. lia. }
  pose proof (splice_exact (upper color ab ++ map (fun b => (b, color)) cur) [(32, color)]
    (zreplicate (80 - zlen (cur ++ [b])) (32, color) ++ rest) [(b, color)] eq_refl) as He.
  rewrite (zlen_app (upper color ab)), zlen_map, Hu in He. rewrite map_app. cbn [map]. rewrite <-!app_assoc in *.
  replace (80 * Z.min (zlen ab) 24 + zlen cur) with (Z.min (zlen ab) 24 * 80 + zlen cur) in He by lia. exact He.
Qed.
Lemma write_byte_shows v p b : shows v p ->
  exists v', write_byte b v = Some v' /\ shows v' (type_char p b) /\ color_code (writer v') = color_code (writer v).
Proof.
  destruct p as [cur ab]. intros Hv. unfold write_byte, type_char. cbn [current above].
  destruct (b =? 10); [by apply new_line_shows|]. unfold BUFFER_WIDTH.
  pose proof (s_col _ _ Hv) as Hc. cbn [current] in Hc. rewrite Hc. destruct (Z.leb_spec 80 (zlen cur)).
  - destruct (new_line_shows v cur ab Hv) as (v1 & -> & Hv1 & Hc1). cbn [mbind option_bind].
    destruct (put_shows v1 [] (cur :: ab) b Hv1) as (v2 & H2 & Hv2 & Hc2); [done|]. exists v2.
    split; [exact H2|]. split; [done|congruence].
  - by apply put_shows.
Qed.
Lemma write_str_shows s v p : shows v p ->
  exists v', write_str s v = Some v' /\ shows v' (type_text p s) /\ color_code (writer v') = color_code (writer v).
Proof.
  revert v p. induction s as [|b s IH]; intros v p Hv; cbn [write_str].
  - by exists v.
  - destruct (write_byte_shows v p (glyph b) Hv) as (v1 & -> & Hv1 & Hc1). cbn [mbind option_bind].
    destruct (IH v1 _ Hv1) as (v2 & H2 & Hv2 & Hc2). exists v2. split; [done|]. split; [exact Hv2|congruence].
Qed.
Lemma clear_rows_eq n r v : 0 <= r -> (r + Z.of_nat n) * 80 <= zlen (cells v) ->
  clear_rows n r v = Some (mkVga (writer v) (splice (cells v) (r * 80) (zreplicate (80 * Z.of_nat n) (32, color_code (writer v))))).
Proof.
  revert r v. induction n as [|n IH]; intros r v Hr Hl; cbn [clear_rows].
  - destruct v as [w cs]. cbn [writer cells]. do 2 f_equal. change (zreplicate (80 * Z.of_nat 0) (32, color_code w)) with (@nil (Z * Z)).
    unfold splice. cbn [app length]. by rewrite Nat.add_0_r, take_drop.
  - rewrite clear_row_eq by lia. cbn [mbind option_bind].
    set (blank := (32, color_code (writer v))). assert (forall k, 0 <= k -> zlen (zreplicate k blank) = k) as Hz
      by (intros; by apply zlen_zreplicate).
    rewrite IH; cbn [writer cells]; [|lia|rewrite zlen_splice; rewrite ?Hz; lia]. fold blank. do 2 f_equal.
    apply list_eq. intros i. assert (zlen (splice (cells v) (r * 80) (zreplicate 80 blank)) = zlen (cells v)) as Hzs
      by (apply zlen_splice; rewrite ?Hz; lia).
    destruct (decide (r * 80 <= Z.of_nat i < (r + 1 + Z.of_nat n) * 80)) as [Hin|Hout].
    + rewrite (splice_lookup_in (cells v)) by (rewrite ?Hz; lia). unfold zreplicate at 3. rewrite lookup_replicate_2 by lia.
      destruct (decide (Z.of_nat i < (r + 1) * 80)).
      * rewrite splice_lookup_out by (rewrite ?Hz; lia). rewrite splice_lookup_in by (rewrite ?Hz; lia).
        unfold zreplicate. by rewrite lookup_replicate_2 by lia.
      * rewrite splice_lookup_in by (rewrite ?Hz; lia). unfold zreplicate. by rewrite lookup_replicate_2 by lia.
    + rewrite !splice_lookup_out by (rewrite ?Hzs, ?Hz; lia). done.
Qed.
Lemma clear_screen_shows v : zlen (cells v) = 2000 ->
  exists v', clear_screen v = Some v' /\ shows v' blank_paper /\ color_code (writer v') = color_code (writer v).
Proof.
  intros Hl. unfold clear_screen, BUFFER_HEIGHT. rewrite clear_rows_eq by lia. cbn [mbind option_bind].
  eexists. split; [reflexivity|]. split; [|done]. split; cbn [set_cursor writer cells row col color_code]; try done.
  - by repeat constructor.
  - set (blank := (32, color_code (writer v))).
    pose proof (splice_exact [] (cells v) [] (zreplicate 2000 blank)) as He.
    rewrite !app_nil_r in He. cbn [app] in He. rewrite zlen_nil in He.
    change (80 * Z.of_nat (Z.to_nat 25)) with 2000. change (0 * 80) with 0. rewrite He.
    + reflexivity.
    + unfold zreplicate. rewrite length_replicate. unfold zlen in Hl. lia.
Qed.

(** C38: the text terminal is a sheet of paper seen through a window.  After
    the screen was cleared, whatever texts are printed, no access leaves the
    2000 cells of text memory, the cursor stays on the screen, and the cells
    are those of the last 25 lines of the paper on which the texts are typed
    with a line break at every line feed and after 80 characters, unprintable
    bytes as blocks; [println] is the text and a line feed. *)
Theorem terminal_shows_paper (texts : list bytes) v :
  zlen (cells v) = 2000 ->
  exists v', (v ← clear_screen v; foldl (fun o s => v ← o; print s v) (Some v) texts) = Some v' /\
    shows v' (type_text blank_paper (concat texts)) /\
    0 <= row (writer v') < BUFFER_HEIGHT /\ 0 <= col (writer v') <= BUFFER_WIDTH /\
    zlen (cells v') = 2000 /\
    forall s, println s v' = print (s ++ [10]) v'.
Proof.
  intros Hl. destruct (clear_screen_shows v Hl) as (v1 & -> & Hv1 & _). cbn [mbind option_bind].
  assert (forall p v, shows v p -> exists v', foldl (fun o s => v ← o; print s v) (Some v) texts = Some v' /\
    shows v' (type_text p (concat texts))) as Hfold.
  { clear. induction texts as [|s texts IH]; intros p v Hv; cbn [foldl concat]; [by exists v|].
    destruct (write_str_shows s v p Hv) as (v1 & Hw & Hv1 & _). cbn [mbind option_bind]. unfold print at 2. rewrite Hw.
    destruct (IH _ v1 Hv1) as (v2 & H2 & Hs2). exists v2. split; [exact H2|]. unfold type_text in *.
    by rewrite map_app, foldl_app. }
  destruct (Hfold _ v1 Hv1) as (v2 & H2 & Hs2). exists v2. destruct (type_text blank_paper (concat texts)) as [cur ab].
  pose proof Hs2 as [Hr Hc Hf Hcells]. cbn [current above] in *. pose proof Hf as [Hcur _]%Forall_cons_iff.
  pose proof (zlen_nonneg ab). pose proof (zlen_nonneg cur). unfold BUFFER_HEIGHT, BUFFER_WIDTH.
  split_and!; try done; try lia; [by rewrite Hcells, zlen_screen|].
  intros s. unfold println, print. generalize v2. induction s as [|b s IH]; intros v3; cbn [write_str app]; [done|].
  destruct (write_byte (glyph b) v3) as [v4|]; [|done]. cbn [mbind option_bind]. apply IH.
Qed.
Lemma terminal_shows_paper_witness :
  exists v', (v ← clear_screen (mkVga new (zreplicate 2000 (0, 0))); print (str "Hi" ++ [10; 7]) v) = Some v' /\
    row (writer v') = 1 /\ col (writer v') = 1 /\ zlen (cells v') = 2000.
Proof.
  destruct (terminal_shows_paper [str "Hi" ++ [10; 7]] (mkVga new (zreplicate 2000 (0, 0)))) as (v' & H1 & H2 & _ & _ & H3 & _);
    [reflexivity|].
  exists v'. split; [exact H1|]. destruct H2 as [Hr Hc _ _]. split; [exact Hr|]. split; [exact Hc|exact H3].
Defined.
End vga.
